(* ===== verification/_CoqProject ===== *)
-Q . S2P
Prelude.v
Deps.v
Tu64.v
DepsRef.v
GoTime.v
Stream.v
Merkle.v
Bolt12Tree.v
MerkleVectors.v
Signatures.v
Shared.v
Offers.v
InvoiceRequests.v
Invoices.v
RouteBlinding.v
OnionMessages.v
OnionPayload.v
Bech32.v
OfferStrings.v
Io.v
LndDeps.v
LndRef.v
Routes.v
Messenger.v
MessengerSystem.v
Registry.v
Rpc.v
NetDeps.v
NetRef.v
Network.v
NetworkRun.v
OfferFlow.v
Subscription.v
NodeSystem.v
NodeRefinement.v
NodeShutdown.v
Boltnd.v
DaemonSystem.v
