(* ===== verification/Prelude.v ===== *)
(** boltnd - BOLT 12 offers and onion messages for lnd: a verification library.

    * The program

    boltnd runs next to an lnd node and gives it what lnd does not have:
    bolt 12 messages and onion messages.  Its parts, from the wire upwards, and
    the files that model them:

    - package lnwire (src/lnwire): the messages.  TLV streams are lnd's; boltnd
      adds the Merkle tree that bolt 12 signs (bolt12_merkle.go: Merkle.v;
      Bolt12Tree.v has the tree of the specification, and MerkleVectors.v the
      values of the code's test, over SHA-256),
      signatures over it (bolt12_signature.go: Signatures.v), truncated
      integers (tu64.go: Tu64.v), what the three bolt 12 messages share
      (bolt12_shared.go: Shared.v) and the messages: offers (Offers.v), invoice
      requests (InvoiceRequests.v), invoices (Invoices.v, with Go's durations
      and their conversion through float64 in GoTime.v); the data of a blinded
      route (route_blinding.go: RouteBlinding.v), the onion message of the
      peer protocol (onion_message.go: OnionMessages.v) and the payload of an
      onion for one hop, with reply paths (onion_msg_payload.go:
      OnionPayload.v).
    - package offers (src/offers): offer strings - bech32 without a checksum
      and with continuation signs (bech32.go: Bech32.v), and the decoding of a
      string into a valid offer (encoding.go: OfferStrings.v).
    - package routes (src/routes/blinded.go: Routes.v): the blinded route to our
      own node, and the onion for a message along a route of ours to a node or
      to a blinded destination.
    - package onionmsg (src/onionmsg): the messenger.  Sending, receiving,
      forwarding and delivering onion messages, and the map of handlers
      (messenger.go, onion.go, node_ecdh.go, interface.go: Messenger.v); the
      event loop with the callers of RegisterHandler and DeregisterHandler,
      Start and Stop, as a concurrent system (MessengerSystem.v); and what all
      of it promises to its callers, an atomic registry (Registry.v).
    - package rpcserver (src/rpcserver): the gRPC server - parsing, composing,
      the calls, start and stop (server.go, common.go, impl_*.go: Rpc.v), and
      subscriptions to payloads as two goroutines that share a channel
      (impl_subscribe_onion_payload.go: Subscription.v).
    - all of them at work: the server with its Start and Stop, the event loop,
      any number of subscriptions, and the shutdown of the daemon, as one
      concurrent system (NodeSystem.v), with what it has to do with the models
      of its parts (NodeRefinement.v) and how it ends (NodeShutdown.v).
    - many of them at work: what each node on the way of a message does with it
      (Network.v), nodes with the messages in flight between them
      (NetworkRun.v), and an offer that leads to a request (OfferFlow.v).
    - package boltnd (src/boltnd.go, src/config.go): the daemon - options,
      validation, the retries of the connection to lnd, start and stop, with
      the loggers (log.go of each package) and the permissions of the calls
      (rpcserver/macaroons.go): Boltnd.v; and Start with its retries next to the
      running node and to Stop: DaemonSystem.v.

    A string decodes to an offer (OfferStrings over Offers over Stream and
    Merkle); an offer gives an invoice request, which is signed over its Merkle
    root.  A client's call (Rpc) becomes a request to the messenger (Messenger),
    which builds an onion (Routes, OnionPayload, RouteBlinding, OnionMessages)
    and hands it to lnd as a custom message; a custom message from lnd reaches
    the event loop (MessengerSystem), which peels it, and forwards it or hands
    its payloads to the handlers that were registered, those of subscriptions
    (Subscription) among them.  The daemon (Boltnd) owns the server, which owns
    the messenger.  The node of NodeSystem.v is that part of it in which calls
    wait for each other: a handler for the channel of its subscription, a
    registration for the event loop, Stop for the goroutine of the loop.  The
    daemon of DaemonSystem.v is that node after Start has connected.  The network
    of NetworkRun.v looks at the other side: its nodes are their keys, handlers
    and worlds, and its steps are handleEvent and SendMessage.

    * Conventions

    - A definition has the name of the Go function it models; a method is
      prefixed with its type, or with its file, where the name alone would be
      ambiguous.  A struct is a Record with the fields' names, prefixed where
      two structs share one.
    - A call returns an [outcome]: a value with a nil error, an error, a panic
      (nil dereference, index out of range), or [Diverge] where it does not
      return.  [wrap], [opaque] and [recast] are fmt.Errorf with and without a
      %w verb; of a format string the constant prefix is kept.  The errors of
      package variables are compared by identity and found by errors.Is.
    - Machine integers are [Z] with their range stated ([u8], [u16], [u64],
      [i64]) and their conversions written out ([to_u8], [to_u16], [to_u64],
      [to_i64]); bytes are [Byte.byte]; strings of the program's data are byte
      lists, constants are [String.string].  A nil and an empty slice are one
      value, except where the code looks at a pointer, which is an option.
    - A Go map is a [gmap]; the order in which it is ranged over is an argument
      (the class [MapOrder]), any permutation of its entries.
    - Calls to the world - lnd, the random source, the clock - are state
      transitions of a world of which nothing is assumed ([io], Io.v).

    * Code outside the repository

    Each package the code is built on is a type class of operations, with a
    second class for the laws it is documented to have: Deps.v (btcec,
    chainhash, lnd's tlv and lnwire packages, Go's maps), OfferStrings.v
    (btcutil's ConvertBits), LndDeps.v (lightning-onion, lndclient, gRPC
    statuses), Messenger.v (the calls to lnd), Boltnd.v (lndclient's
    connection).  NetDeps.v has what holds between nodes: that a node along a
    blinded path decrypts the data that was encrypted for it and computes the
    next blinding point, that an onion has a layer for each of its hops, and
    that lnd's queue has what lnd was given to send.  DepsRef.v, LndRef.v,
    NetRef.v and the witnesses at the end of the files give concrete instances
    with the laws proved, in which every theorem with hypotheses is applied to an
    input; in that of NetRef.v four nodes hand a message on by computation.

    * The theorems

    - Codecs.  Encoding and decoding are inverse for offers, signed invoice
      requests, invoices, route data and onion payloads; the three bolt 12
      codecs are proved through one representation, a list of optional fields
      (Stream.v).  Whatever bytes decode to an offer, a request or an invoice,
      it is well typed and can be encoded again, and when the bytes have no
      record of an unknown type it decodes to the very same message, Merkle root
      included.  The boundaries are stated: a reply path of more than 255 hops,
      final payloads without a value, which decoding loses, durations beyond
      int64, an offer that expires at the epoch.
    - The Merkle root is a function of the raw records outside the signature
      range alone; the loop that combines branches always ends and computes the
      hash of the tree that is built level by level.  That is the tree of BOLT 12
      for a power of two of records and for three times one, and another one for
      five.  Records of unknown types are where it breaks: the root depends on the
      order of a Go map.
    - Offer strings: the decoder accepts a string exactly in the form bech32
      gives it, in either case, and strings round trip.
    - Routes: the onion made for a request has, hop by hop, the data that leads
      to the next node, and its payloads at the last hop; the direct case
      drops them, and more than NumMaxHops hops are a panic.  The route to our node starts at a relaying peer with the
      most channels.
    - Messenger: delivery, forwarding and sending, the bound on the attempts to
      reach a peer, and the safety of the event loop against any message.  The
      concurrent system is proved to implement the registry of Registry.v, a
      forward simulation in which a registration takes effect at one instant
      between its call and its return.
    - Network: a message for which SendMessage returned without an error is
      relayed along the path that was found and along the blinded path behind
      it, each node being told the next one and given the blinding point that
      one needs, and the last node calls its handlers with what the request
      held - or with nothing, when the path ends where it starts, at the
      introduction node of a blinded destination; a route that a node generated leads to that node; and handing the
      message from event loop to event loop takes one step for each node and
      leaves nothing in flight.  A payer who has an offer's string thus gets a
      valid, signed request for that very offer to the handler of the node it
      is sent to.
    - Server and daemon: their lives under any order of Start and Stop, the
      status code of every error, the responses of every call on every branch;
      a generated route parses back as a destination.  A subscription delivers
      in order and without gaps, can always end once its client is gone, and
      can deadlock before.  The daemon makes exactly the attempts to connect it
      is configured for, below 255 retries; whatever happens meanwhile it
      connects the way its loop does alone, and what is proved of the node holds
      in the daemon.  A Stop that looks for the connection after Start has
      connected closes it, once; one that looked before stops nothing.
    - The node: each of its calls is a subscription of Subscription.v, its
      messenger is the registry although handlers block, and its delivery in
      steps is deliverPayloads with the closures of the subscriptions - three
      simulations.  Subscriptions do not get each other's payloads.  After a
      Stop every execution is finite and ends with everything returned, by a
      measure on the state of all goroutines, but for the calls in a send to a
      client when such sends do not return.  And what is wrong with it: one
      client that does not read stalls all, a Stop during Start stops nothing,
      and a shutdown closure that calls Stop deadlocks.

    * Fuel and bounds

    The only loops that are not structural are that of CalculateRoot, whose fuel
    is the number of branches (each iteration removes one; [MerkleRoot_total]
    shows that it is enough), and the loops with a bound in the code - the
    attempts to reach a peer and to connect to lnd - which recurse on it.  A
    blocked select is [Diverge] (Rpc.v, the closures of NodeRefinement.v) or the
    absence of a step (MessengerSystem.v, Subscription.v, NodeSystem.v).

    * Not modelled

    What is logged; the text of formatted errors; contexts and timeouts except
    where the code looks at them; data races, a step of a goroutine being
    atomic; the generated code of
    offersrpc, whose messages are records; tests, mocks and integration tests.
    The wait for the goroutine in Messenger.Stop is the predicate [wg_done], and
    a state of Stop in NodeSystem.v.  Handlers act at once in MessengerSystem.v,
    and block in Subscription.v and NodeSystem.v.  A message is peeled and
    forwarded in one step; calls that only send are not part of the node, whose
    state they do not touch.  In the network the nodes on the way of a message
    stay connected, and lnd loses nothing that it was given to send: lnd promises
    neither, and the theorem is about a run in which both hold.  Fairness is not
    stated: that a shutdown completes is that its executions are finite when no
    messages arrive, and that a message is delivered is that the run exists.
    Of cryptography only SHA-256 is computed, for the Merkle trees.

    This file: bytes, machine integers, errors and outcomes, the tactics and the
    hint databases [go] and [go_simp], and lemmas that several files use. *)
From stdpp Require Export base tactics option list list_numbers gmap sorting numbers relations.
From Stdlib Require Export ZArith Lia.
From Stdlib Require Export Strings.Byte.
From Stdlib Require Strings.String.
Export Strings.String.StringSyntax.

#[global] Open Scope Z_scope.

Declare Scope go_scope.
Delimit Scope go_scope with go.
#[global] Open Scope go_scope.

(** ** Strings and bytes *)

Abbreviation bytes := (list byte).
Abbreviation gostring := String.string.
Delimit Scope string_scope with string.
#[global] Bind Scope string_scope with String.string.

#[global] Instance byte_eq_decision : EqDecision byte := Byte.byte_eq_dec.

(** The bytes of a Go string literal. *)
Definition lit (s : gostring) : bytes := String.list_byte_of_string s.

(** Machine integers are [Z] with their range stated and their conversions
    written out. *)
Definition u8 (n : Z) : Prop := 0 <= n < 256.
Definition u16 (n : Z) : Prop := 0 <= n < 65536.
Definition u64 (n : Z) : Prop := 0 <= n < 18446744073709551616.
Definition i64 (n : Z) : Prop := -9223372036854775808 <= n < 9223372036854775808.

#[global] Instance u64_dec n : Decision (u64 n).
Proof. unfold u64. apply _. Defined.

Definition to_u8 (n : Z) : Z := n mod 256.
Definition to_u16 (n : Z) : Z := n mod 65536.
Definition to_u64 (n : Z) : Z := n mod 18446744073709551616.
Definition to_i64 (n : Z) : Z :=
  (n + 9223372036854775808) mod 18446744073709551616 - 9223372036854775808.

(** Go's [len], as a [Z]. *)
Definition len {A} (l : list A) : Z := Z.of_nat (length l).

Definition byte_to_Z (b : byte) : Z := Z.of_N (Byte.to_N b).
Definition byte_of_Z (z : Z) : byte := default x00 (Byte.of_N (Z.to_N (z mod 256))).

(** Big-endian encoding on [n] bytes. *)
Fixpoint be_bytes (n : nat) (z : Z) : bytes :=
  match n with
  | O => []
  | S n' => byte_of_Z (z / 256 ^ Z.of_nat n') :: be_bytes n' z
  end.

Fixpoint be_val (acc : Z) (b : bytes) : Z :=
  match b with
  | [] => acc
  | x :: r => be_val (acc * 256 + byte_to_Z x) r
  end.

(** [bytes.Compare]. *)
Fixpoint bytes_Compare (a b : bytes) : comparison :=
  match a, b with
  | [], [] => Eq
  | [], _ :: _ => Lt
  | _ :: _, [] => Gt
  | x :: a', y :: b' =>
      match Z.compare (byte_to_Z x) (byte_to_Z y) with
      | Eq => bytes_Compare a' b'
      | c => c
      end
  end.

(** ** Errors *)

(** The gRPC status codes the code uses, and the others. *)
Inductive grpc_code :=
  Canceled | InvalidArgument | NotFound | Aborted | Unavailable | Internal | OtherCode (n : Z).

#[global] Instance grpc_code_eq_dec : EqDecision grpc_code.
Proof. solve_decision. Defined.

(** A Go [error] value that is not nil.  [ENamed] is a package-level variable
    made with [errors.New], compared by identity (its qualified name); [ENew]
    an error made where it is returned, with no [%w] verb; [EWrap] a
    [fmt.Errorf] with a [%w] verb; [EStatus] a gRPC status error; [EExt] an
    error value made by code outside the repository.  Of a format string the
    constant prefix is kept, the formatted operands are not. *)
Inductive error :=
| ENamed (name : gostring)
| ENew (msg : gostring)
| EWrap (msg : gostring) (inner : error)
| EStatus (code : grpc_code) (msg : gostring)
| EExt (msg : gostring).

#[global] Instance string_eq_dec : EqDecision gostring := String.string_dec.
#[global] Instance error_eq_dec : EqDecision error.
Proof. solve_decision. Defined.

(** [errors.Unwrap] and [errors.Is]. *)
Definition errors_Unwrap (e : error) : option error :=
  match e with EWrap _ i => Some i | _ => None end.

Fixpoint errors_Is (e target : error) : bool :=
  bool_decide (e = target) ||
  match e with EWrap _ i => errors_Is i target | _ => false end.

(** ** Outcomes *)

(** What a Go call does: it returns a value with a nil error, returns a
    non-nil error, panics (nil dereference, index out of range), or the model
    runs out of the fuel given to a loop. *)
Inductive outcome (A : Type) : Type :=
| Ret (a : A)
| Err (e : error)
| Panic (msg : gostring)
| Diverge.
Arguments Ret {A} a.
Arguments Err {A} e.
Arguments Panic {A} msg%_string.
Arguments Diverge {A}.

#[global] Instance outcome_ret : MRet outcome := fun A a => Ret a.
#[global] Instance outcome_bind : MBind outcome := fun A B f m =>
  match m with
  | Ret a => f a
  | Err e => Err e
  | Panic s => Panic s
  | Diverge => Diverge
  end.

(** [if err != nil { return fmt.Errorf("msg: %w", err) }] and the same with
    [%v], which hides the inner error from [errors.Is]. *)
Definition wrap {A} (msg : gostring) (m : outcome A) : outcome A :=
  match m with Err e => Err (EWrap msg e) | _ => m end.
Definition opaque {A} (msg : gostring) (m : outcome A) : outcome A :=
  match m with Err e => Err (ENew msg) | _ => m end.
(** [fmt.Errorf("%w: %v", named, err)]: the inner error is only formatted. *)
Definition recast {A} (named : error) (msg : gostring) (m : outcome A) : outcome A :=
  match m with Err e => Err (EWrap msg named) | _ => m end.

(** An indexing expression [l[i]]. *)
Definition index {A} (l : list A) (i : nat) : outcome A :=
  match l !! i with Some x => Ret x | None => Panic "index out of range" end.

(** [*p] for a pointer that may be nil. *)
Definition deref {A} (p : option A) : outcome A :=
  match p with Some x => Ret x | None => Panic "nil pointer dereference" end.

(** [l[i] = x]: Go panics where stdpp's insert does nothing. *)
Definition assign {A} (l : list A) (i : nat) (x : A) : outcome (list A) :=
  if bool_decide (i < length l)%nat then Ret (<[i := x]> l) else Panic "index out of range".

Definition returns {A} (m : outcome A) : Prop := exists a, m = Ret a.
Definition fails {A} (m : outcome A) : Prop := exists e, m = Err e.
(** Neither a panic nor an unfinished loop. *)
Definition settles {A} (m : outcome A) : Prop := returns m \/ fails m.

Definition is_Ret {A} (m : outcome A) : bool := match m with Ret _ => true | _ => false end.
Definition from_Ret {A} (d : A) (m : outcome A) : A := match m with Ret a => a | _ => d end.

Lemma from_Ret_eq {A} (d : A) (m : outcome A) : is_Ret m = true -> m = Ret (from_Ret d m).
Proof. by destruct m. Qed.

(** Loops over a slice: [mapM] of a body that may fail. *)
Fixpoint each {A B} (f : A -> outcome B) (l : list A) : outcome (list B) :=
  match l with
  | [] => Ret []
  | x :: r => y ← f x; ys ← each f r; Ret (y :: ys)
  end.

(** ** Automation *)

Create HintDb go.
Create Rewrite HintDb go_simp.

Lemma bind_Ret {A B} (a : A) (f : A -> outcome B) : (Ret a ≫= f) = f a.
Proof. reflexivity. Qed.

Lemma bind_Ret_inv {A B} (m : outcome A) (f : A -> outcome B) b :
  (m ≫= f) = Ret b -> exists a, m = Ret a /\ f a = Ret b.
Proof. destruct m; cbn; intros H; try discriminate; eauto. Qed.

Lemma wrap_Ret_inv {A} s (m : outcome A) a : wrap s m = Ret a -> m = Ret a.
Proof. destruct m; cbn; intros H; try discriminate; auto. Qed.

Lemma opaque_Ret_inv {A} s (m : outcome A) a : opaque s m = Ret a -> m = Ret a.
Proof. destruct m; cbn; intros H; try discriminate; auto. Qed.

Lemma recast_Ret_inv {A} e s (m : outcome A) a : recast e s m = Ret a -> m = Ret a.
Proof. destruct m; cbn; intros H; try discriminate; auto. Qed.

(** [go_inv] takes apart the hypotheses that say a composed call returned. *)
Ltac go_inv :=
  repeat match goal with
  | H : mbind _ ?m = Ret _ |- _ =>
      let x := fresh "x" in let E := fresh "E" in
      apply bind_Ret_inv in H; destruct H as (x & E & H)
  | H : wrap _ _ = Ret _ |- _ => apply wrap_Ret_inv in H
  | H : opaque _ _ = Ret _ |- _ => apply opaque_Ret_inv in H
  | H : recast _ _ _ = Ret _ |- _ => apply recast_Ret_inv in H
  | H : Ret _ = Ret _ |- _ => injection H as H; subst
  | H : Err _ = Ret _ |- _ => discriminate H
  | H : Panic _ = Ret _ |- _ => discriminate H
  | H : Diverge = Ret _ |- _ => discriminate H
  end.

(** [settle] rewrites with the calls known to return. *)
Ltac go_ret :=
  repeat match goal with
  | H : ?m = Ret _ |- context [?m] => rewrite H
  end; cbn [mbind outcome_bind wrap opaque recast].

Lemma settles_bind {A B} (m : outcome A) (f : A -> outcome B) :
  settles m -> (forall a, m = Ret a -> settles (f a)) -> settles (m ≫= f).
Proof.
  intros [[a ->] | [e ->]] Hf; cbn; [by apply Hf | right; eexists; done].
Qed.

Lemma settles_wrap {A} s (m : outcome A) : settles m -> settles (wrap s m).
Proof. intros [[a ->] | [e ->]]; [left | right]; eexists; done. Qed.

Lemma settles_opaque {A} s (m : outcome A) : settles m -> settles (opaque s m).
Proof. intros [[a ->] | [e ->]]; [left | right]; eexists; done. Qed.

Lemma settles_recast {A} e s (m : outcome A) : settles m -> settles (recast e s m).
Proof. intros [[a ->] | [e' ->]]; [left | right]; eexists; done. Qed.

Lemma settles_Ret {A} (a : A) : settles (Ret a).
Proof. left; eexists; done. Qed.

Lemma settles_Err {A} e : settles (@Err A e).
Proof. right; eexists; done. Qed.

#[export] Hint Resolve settles_bind settles_wrap settles_opaque settles_recast
  settles_Ret settles_Err : go.

Lemma each_Ret {A B} (f : A -> outcome B) (g : A -> B) l :
  (forall x, x ∈ l -> f x = Ret (g x)) -> each f l = Ret (map g l).
Proof.
  induction l as [|x l IH]; intros Hf; cbn; [done|].
  rewrite Hf by set_solver. cbn. rewrite IH by set_solver. done.
Qed.

Lemma each_settles {A B} (f : A -> outcome B) l :
  (forall x, x ∈ l -> settles (f x)) -> settles (each f l).
Proof.
  induction l as [|x l IH]; intros Hf; cbn; [apply settles_Ret|].
  apply settles_bind; [set_solver|]. intros y _.
  apply settles_bind; [apply IH; set_solver|]. intros; apply settles_Ret.
Qed.

Lemma each_length {A B} (f : A -> outcome B) l ys :
  each f l = Ret ys -> length ys = length l.
Proof. revert ys; induction l; intros; cbn in *; go_inv; cbn; eauto. Qed.

Lemma each_Forall2 {A B} (f : A -> outcome B) l ys :
  each f l = Ret ys <-> Forall2 (fun x y => f x = Ret y) l ys.
Proof.
  revert ys. induction l as [|x l IH]; intros ys; cbn.
  - split; [intros; go_inv; constructor | inversion 1; done].
  - split.
    + intros H. go_inv. constructor; [done|]. by apply IH.
    + inversion 1 as [|? y ? ys' Hy Hys]; subst. rewrite Hy. cbn.
      apply IH in Hys. by rewrite Hys.
Qed.

Lemma bool_decide_neq_false {A} `{EqDecision A} (x y : A) (D : Decision (x <> y)) :
  @bool_decide (x <> y) D = false -> x = y.
Proof. intros H. apply bool_decide_eq_false in H. by apply dec_stable. Qed.

(** ** Bytes *)

Lemma byte_to_Z_bound b : 0 <= byte_to_Z b < 256.
Proof.
  unfold byte_to_Z. pose proof (Byte.to_N_bounded b). lia.
Qed.

Lemma byte_of_Z_to_Z z : byte_to_Z (byte_of_Z z) = z mod 256.
Proof.
  unfold byte_to_Z, byte_of_Z. pose proof (Z.mod_pos_bound z 256 ltac:(lia)).
  destruct (Byte.of_N _) as [b|] eqn:E; cbn.
  - apply Byte.to_of_N in E. rewrite E. lia.
  - apply Byte.of_N_None_iff in E. lia.
Qed.

Lemma byte_to_Z_inj a b : byte_to_Z a = byte_to_Z b -> a = b.
Proof.
  unfold byte_to_Z. intros H. apply N2Z.inj in H.
  pose proof (Byte.of_to_N a) as Ha. pose proof (Byte.of_to_N b) as Hb.
  rewrite H in Ha. congruence.
Qed.

Lemma byte_of_to_Z b : byte_of_Z (byte_to_Z b) = b.
Proof.
  apply byte_to_Z_inj. rewrite byte_of_Z_to_Z. apply Z.mod_small, byte_to_Z_bound.
Qed.

#[global] Instance byte_countable : Countable byte.
Proof. exact (inj_countable' byte_to_Z byte_of_Z byte_of_to_Z). Defined.

Lemma be_bytes_length n z : length (be_bytes n z) = n.
Proof. revert z; induction n; intros; cbn; auto. Qed.

Lemma be_val_bytes n acc z :
  be_val acc (be_bytes n z) = acc * 256 ^ Z.of_nat n + z mod 256 ^ Z.of_nat n.
Proof.
  revert acc. induction n as [|n IH]; intros acc; cbn [be_bytes be_val].
  - rewrite Z.mod_1_r. cbn. lia.
  - rewrite IH, byte_of_Z_to_Z.
    rewrite Nat2Z.inj_succ, Z.pow_succ_r by lia.
    set (P := 256 ^ Z.of_nat n). assert (0 < P) by (apply Z.pow_pos_nonneg; lia).
    rewrite (Z.mul_comm 256 P), (Z.rem_mul_r z P 256) by lia. lia.
Qed.

Lemma be_val_be_bytes n z :
  0 <= z < 256 ^ Z.of_nat n -> be_val 0 (be_bytes n z) = z.
Proof. intros H. rewrite be_val_bytes, Z.mod_small; lia. Qed.

Lemma bytes_Compare_refl a : bytes_Compare a a = Eq.
Proof. induction a as [|x a IH]; cbn; [done|]. by rewrite Z.compare_refl. Qed.

Lemma bytes_Compare_antisym a b : bytes_Compare b a = CompOpp (bytes_Compare a b).
Proof.
  revert b. induction a as [|x a IH]; intros [|y b]; cbn; try done.
  rewrite Z.compare_antisym. destruct (byte_to_Z x ?= byte_to_Z y); cbn; auto.
Qed.

Lemma bytes_Compare_eq a b : bytes_Compare a b = Eq -> a = b.
Proof.
  revert b. induction a as [|x a IH]; intros [|y b]; cbn; try done.
  destruct (Z.compare_spec (byte_to_Z x) (byte_to_Z y)) as [E| |]; try discriminate.
  intros H. apply byte_to_Z_inj in E. subst. f_equal. auto.
Qed.

(** ** Integers *)

Lemma to_u64_small n : u64 n -> to_u64 n = n.
Proof. unfold u64, to_u64. intros. apply Z.mod_small. lia. Qed.

Lemma to_u64_range n : u64 (to_u64 n).
Proof. unfold u64, to_u64. apply Z.mod_pos_bound. lia. Qed.

Lemma to_i64_small n : i64 n -> to_i64 n = n.
Proof. unfold i64, to_i64. intros. rewrite Z.mod_small; lia. Qed.

Lemma to_i64_range n : i64 (to_i64 n).
Proof.
  unfold i64, to_i64.
  pose proof (Z.mod_pos_bound (n + 9223372036854775808) 18446744073709551616 ltac:(lia)). lia.
Qed.

(** [uint64(int64(x)) = x] and [int64(uint64(x)) = x]. *)
Lemma to_u64_i64 n : u64 n -> to_u64 (to_i64 n) = n.
Proof.
  unfold u64, to_u64, to_i64. intros H.
  rewrite Zminus_mod_idemp_l, Z.add_simpl_r. apply Z.mod_small. lia.
Qed.

Lemma to_i64_u64 n : i64 n -> to_i64 (to_u64 n) = n.
Proof.
  unfold i64, to_u64, to_i64. intros H.
  rewrite Zplus_mod_idemp_l, Z.mod_small; lia.
Qed.

#[export] Hint Resolve to_u64_range to_i64_range byte_to_Z_bound : go.
#[export] Hint Rewrite @bind_Ret to_u64_i64 to_i64_u64 be_bytes_length
  using (eauto with go) : go_simp.

Lemma len_app {A} (a b : list A) : len (a ++ b) = len a + len b.
Proof. unfold len. rewrite length_app. lia. Qed.

Lemma len_nonneg {A} (l : list A) : 0 <= len l.
Proof. unfold len. lia. Qed.

Lemma len_nil_inv {A} (l : list A) : len l = 0 -> l = [].
Proof. destruct l; unfold len; cbn; [done | lia]. Qed.

#[global] Arguments be_bytes : simpl never.

(** ** Sorting *)

(** [sort.SliceStable]: a stable sort by a less function. *)
Fixpoint sort_insert {A} (less : A -> A -> bool) (x : A) (l : list A) : list A :=
  match l with
  | [] => [x]
  | y :: r => if less y x then y :: sort_insert less x r else x :: l
  end.
Definition SliceStable {A} (less : A -> A -> bool) (l : list A) : list A :=
  foldr (sort_insert less) [] l.

Lemma StronglySorted_snoc (R : Z -> Z -> Prop) (l : list Z) x :
  StronglySorted R l -> Forall (fun y => R y x) l -> StronglySorted R (l ++ [x]).
Proof.
  induction 1 as [|y l S IH F]; cbn; intros H; [by repeat constructor|].
  inversion H; subst. constructor; [by apply IH|]. apply Forall_app. by repeat constructor.
Qed.

Section Sorting.
Context {A : Type} (key : A -> Z).
Let less (x y : A) : bool := bool_decide (key x < key y).

Lemma sort_insert_perm x l : Permutation (sort_insert less x l) (x :: l).
Proof.
  induction l as [|y r IH]; cbn; [done|]. destruct (less y x); [|done].
  rewrite IH. by constructor.
Qed.

Lemma SliceStable_perm l : Permutation (SliceStable less l) l.
Proof. induction l as [|x l IH]; cbn; [done|]. by rewrite sort_insert_perm, IH. Qed.

Lemma sort_insert_sorted x l :
  StronglySorted Z.le (map key l) -> StronglySorted Z.le (map key (sort_insert less x l)).
Proof.
  induction l as [|y r IH]; cbn; intros S; [by repeat constructor|].
  inversion S as [|? ? S' F]; subst. unfold less at 1. case_bool_decide as L; cbn.
  - constructor; [by apply IH|]. apply Forall_map. rewrite sort_insert_perm.
    constructor; [cbn; lia|]. exact (proj1 (Forall_map _ _ _) F).
  - constructor; [done|]. constructor; [lia|].
    apply (Forall_impl _ _ _ F). lia.
Qed.

Lemma SliceStable_sorted l : StronglySorted Z.le (map key (SliceStable less l)).
Proof. induction l as [|x l IH]; cbn; [constructor|]. by apply sort_insert_sorted. Qed.

(** Distinct keys have one sorted arrangement. *)
Lemma sorted_unique (l l' : list A) :
  Permutation l l' -> StronglySorted Z.le (map key l) ->
  StronglySorted Z.lt (map key l') -> l = l'.
Proof.
  revert l. induction l' as [|x l' IH]; intros l P S S'.
  - by apply Permutation_sym, Permutation_nil in P.
  - destruct l as [|y l]; [by apply Permutation_nil_cons in P|].
    cbn in S, S'. inversion S as [|? ? S1 F]; subst. inversion S' as [|? ? S1' F']; subst.
    assert (y = x) as ->.
    { rewrite Forall_map in F, F'. rewrite Forall_forall in F, F'.
      assert (y ∈ x :: l') as Hy by (rewrite <- P; left).
      assert (x ∈ y :: l) as Hx by (rewrite P; left).
      apply elem_of_cons in Hy as [|Hy]; [done|]. apply elem_of_cons in Hx as [|Hx]; [done|].
      apply F in Hx. apply F' in Hy. cbn in *. lia. }
    f_equal. apply IH; auto. by apply Permutation_cons_inv in P.
Qed.

Lemma SliceStable_unique l l' :
  Permutation l l' -> StronglySorted Z.lt (map key l') -> SliceStable less l = l'.
Proof.
  intros P S. apply sorted_unique; [by rewrite SliceStable_perm | apply SliceStable_sorted | done].
Qed.
End Sorting.
