(* ===== verification/Deps.v ===== *)
(** The code outside the repository, as interfaces.

    boltnd is built on btcec (keys), chainhash and schnorr (hashes and
    signatures), lnd's [tlv] and [lnwire] packages (TLV streams, feature
    vectors, message elements).  None of that code is under src/, so each
    package is a type class of operations, and what the documentation of the
    package promises about them is a second class of laws.  The models take the
    operations as arguments; a theorem that relies on a package's documented
    behaviour takes its laws.  File DepsRef.v has a concrete instance of every
    class with its laws proved. *)
From S2P Require Import Prelude.

(** ** Keys, hashes and signatures *)

Class Crypto := {
  PublicKey : Type;
  PublicKey_eq_dec :: EqDecision PublicKey;
  (** PublicKey.SerializeCompressed and btcec.ParsePubKey *)
  SerializeCompressed : PublicKey -> bytes;
  ParsePubKey : bytes -> outcome PublicKey;
  (** schnorr.SerializePubKey and schnorr.ParsePubKey: x-only keys *)
  schnorr_SerializePubKey : PublicKey -> bytes;
  schnorr_ParsePubKey : bytes -> outcome PublicKey;
  (** schnorr.ParseSignature and (Signature).Verify *)
  Signature : Type;
  schnorr_ParseSignature : bytes -> outcome Signature;
  sig_Verify : Signature -> bytes -> PublicKey -> bool;
  (** chainhash.TaggedHash(tag, msg) *)
  chainhash_TaggedHash : bytes -> bytes -> bytes;
}.

Class CryptoLaws `{Crypto} : Prop := {
  TaggedHash_length tag msg : length (chainhash_TaggedHash tag msg) = 32%nat;
  SerializeCompressed_length p : length (SerializeCompressed p) = 33%nat;
  ParsePubKey_Serialize p : ParsePubKey (SerializeCompressed p) = Ret p;
  ParsePubKey_canonical b p :
    length b = 33%nat -> ParsePubKey b = Ret p -> SerializeCompressed p = b;
  ParsePubKey_settles b : settles (ParsePubKey b);
  schnorr_SerializePubKey_length p : length (schnorr_SerializePubKey p) = 32%nat;
  schnorr_Parse_canonical b p :
    length b = 32%nat -> schnorr_ParsePubKey b = Ret p -> schnorr_SerializePubKey p = b;
}.

(** A key that an x-only encoding determines: the one with an even y. *)
Definition xonly_key `{Crypto} (p : PublicKey) : Prop :=
  schnorr_ParsePubKey (schnorr_SerializePubKey p) = Ret p.

(** [lntypes.Hash] and [chainhash.Hash] are [[32]byte] arrays. *)
Definition ZeroHash : bytes := replicate 32 x00.
Definition is_hash (h : bytes) : Prop := length h = 32%nat.

(** lntypes.MakeHash: fails unless it is given 32 bytes. *)
Class Lntypes := { MakeHash : bytes -> outcome bytes }.
Class LntypesLaws `{Lntypes} : Prop := {
  MakeHash_ok h : is_hash h -> MakeHash h = Ret h;
}.

(** A Go map is ranged over in an order the language does not fix. *)
Class MapOrder := { map_range {V} : gmap Z V -> list (Z * V) }.
Class MapOrderLaws `{MapOrder} : Prop := {
  map_range_perm {V} (m : gmap Z V) : Permutation (map_range m) (map_to_list m)
}.

(** ** Feature vectors (lnd/lnwire) *)

Class Features := {
  RawFeatureVector : Type;
  FeatureVector : Type;
  (** lnwire.NewRawFeatureVector() *)
  NewRawFeatureVector : RawFeatureVector;
  (** lnwire.NewFeatureVector(raw, lnwire.Features) *)
  NewFeatureVector : RawFeatureVector -> FeatureVector;
  fv_IsEmpty : FeatureVector -> bool;
  fv_Encode : FeatureVector -> outcome bytes;
  (** (RawFeatureVector).Decode into an empty vector *)
  raw_Decode : bytes -> outcome RawFeatureVector;
}.

Class FeaturesLaws `{Features} : Prop := {
  fv_Encode_ok raw : exists b, fv_Encode (NewFeatureVector raw) = Ret b;
  fv_Decode_Encode raw b :
    fv_Encode (NewFeatureVector raw) = Ret b -> raw_Decode b = Ret raw;
  fv_IsEmpty_new : fv_IsEmpty (NewFeatureVector NewRawFeatureVector) = true;
  fv_IsEmpty_inv raw : fv_IsEmpty (NewFeatureVector raw) = true -> raw = NewRawFeatureVector;
  fv_Encode_short raw b : fv_Encode (NewFeatureVector raw) = Ret b -> len b < 65536;
}.

(** ** TLV records and streams (lnd/tlv) *)

(** The Go variables the code hands to the package's encoders, decoders and
    [MakePrimitiveRecord], by the variable's type. *)
Inductive tlvValue `{Crypto} :=
| VBytes32 (b : bytes)          (* pointer to [32]byte *)
| VBytes64 (b : bytes)          (* pointer to [64]byte *)
| VBytes (b : bytes)            (* pointer to []byte *)
| VPubKey (p : PublicKey)       (* pointer to a btcec.PublicKey pointer *)
| VUint8 (n : Z)
| VUint16 (n : Z)
| VUint64 (n : Z).

Inductive tlvKind := KBytes32 | KBytes64 | KBytes | KPubKey | KUint8 | KUint16 | KUint64.

Definition kind_of `{Crypto} (v : tlvValue) : tlvKind :=
  match v with
  | VBytes32 _ => KBytes32 | VBytes64 _ => KBytes64 | VBytes _ => KBytes
  | VPubKey _ => KPubKey | VUint8 _ => KUint8 | VUint16 _ => KUint16 | VUint64 _ => KUint64
  end.

(** What the type of a Go variable guarantees of its value. *)
Definition value_wf `{Crypto} (v : tlvValue) : Prop :=
  match v with
  | VBytes32 b => length b = 32%nat | VBytes64 b => length b = 64%nat
  | VBytes _ | VPubKey _ => True
  | VUint8 n => u8 n | VUint16 n => u16 n | VUint64 n => u64 n
  end.

(** A [tlv.Record] being encoded, by what its methods Type, Size and Encode
    return: MakeStaticRecord and MakeDynamicRecord build one from them. *)
Record tlvRecord := MkRecord {
  rec_Type : Z;
  rec_Size : Z;
  rec_Encode : outcome bytes;
}.

(** A [tlv.Decoder] reads a value of the given length from a reader, and
    leaves the rest of the reader. *)
Definition decoder (V : Type) : Type := Z -> bytes -> outcome (V * bytes).

(** A [tlv.TypeMap]: nil for a type that was decoded by a known record, the
    bytes of the value for any other type of the stream. *)
Abbreviation TypeMap := (gmap Z (option bytes)).

Class Tlv `{Crypto} := {
  (** the E* and D* functions of the package, by type of variable *)
  tlv_E : tlvValue -> outcome bytes;
  tlv_D : tlvKind -> decoder tlvValue;
  (** the size a MakePrimitiveRecord reports *)
  prim_Size : tlvValue -> Z;
  ETUint64T : Z -> outcome bytes;
  DTUint64 : decoder Z;
  SizeTUint64 : Z -> Z;
  (** WriteVarInt, and the bytes it writes *)
  WriteVarInt : Z -> outcome bytes;
  varint : Z -> bytes;
  SortRecords : list tlvRecord -> list tlvRecord;
  (** tlv.NewStream looks at the types of its records *)
  NewStream : list Z -> outcome unit;
  Stream_Encode : list tlvRecord -> outcome bytes;
  (** (Stream).DecodeWithParsedTypes: the type map, and the values stored by
      the records the stream was made with *)
  DecodeWithParsedTypes {V : Type} : list (Z * decoder V) -> bytes -> outcome (TypeMap * gmap Z V);
}.

(** tlv.MakePrimitiveRecord, used to encode and used to decode. *)
Definition MakePrimitiveRecord `{Tlv} (t : Z) (v : tlvValue) : tlvRecord :=
  MkRecord t (prim_Size v) (tlv_E v).
Definition PrimitiveDecoder `{Tlv} (t : Z) (k : tlvKind) : Z * decoder tlvValue := (t, tlv_D k).

(** (Stream).Decode, which DecodeWithParsedTypes is documented to be identical
    to, without the type map. *)
Definition Stream_Decode `{Tlv} {V} (known : list (Z * decoder V)) (r : bytes)
    : outcome (gmap Z V) :=
  '(_, vals) ← DecodeWithParsedTypes known r; Ret vals.

(** Decoders called on a variable of their type. *)
Definition DPubKey `{Tlv} (l : Z) (r : bytes) : outcome (PublicKey * bytes) :=
  '(v, rest) ← tlv_D KPubKey l r;
  match v with VPubKey p => Ret (p, rest) | _ => Panic "type of variable" end.
Definition DUint8 `{Tlv} (l : Z) (r : bytes) : outcome (Z * bytes) :=
  '(v, rest) ← tlv_D KUint8 l r;
  match v with VUint8 n => Ret (n, rest) | _ => Panic "type of variable" end.
Definition DUint16 `{Tlv} (l : Z) (r : bytes) : outcome (Z * bytes) :=
  '(v, rest) ← tlv_D KUint16 l r;
  match v with VUint16 n => Ret (n, rest) | _ => Panic "type of variable" end.
Definition DVarBytes `{Tlv} (l : Z) (r : bytes) : outcome (bytes * bytes) :=
  '(v, rest) ← tlv_D KBytes l r;
  match v with VBytes b => Ret (b, rest) | _ => Panic "type of variable" end.

(** The bytes the package documents for each type of variable: integers are
    big-endian, keys compressed, byte strings verbatim. *)
Definition value_bytes `{Crypto} (v : tlvValue) : bytes :=
  match v with
  | VBytes32 b | VBytes64 b | VBytes b => b
  | VPubKey p => SerializeCompressed p
  | VUint8 n => be_bytes 1 n
  | VUint16 n => be_bytes 2 n
  | VUint64 n => be_bytes 8 n
  end.

(** A truncated integer: big-endian without leading zero bytes. *)
Fixpoint strip_zeros (b : bytes) : bytes :=
  match b with
  | x00 :: r => strip_zeros r
  | _ => b
  end.
Definition tu64_bytes (n : Z) : bytes := strip_zeros (be_bytes 8 n).
#[global] Arguments tu64_bytes : simpl never.

(** A raw record is a type with the bytes of its value; the wire format is
    the concatenation of type, length and value. *)
Abbreviation raws := (list (Z * bytes)).

Definition wire `{Tlv} (rs : raws) : bytes :=
  concat (map (fun '(t, b) => varint t ++ varint (len b) ++ b) rs).

(** Canonical streams: strictly increasing types. *)
Abbreviation increasing := (StronglySorted Z.lt).

Definition raws_wf (rs : raws) : Prop :=
  increasing (map fst rs) /\ Forall (fun r => u64 r.1 /\ u64 (len r.2)) rs.

(** The decoder a stream has for a type. *)
Fixpoint find_decoder {V} (known : list (Z * decoder V)) (t : Z) : option (decoder V) :=
  match known with
  | [] => None
  | (t', d) :: r => if bool_decide (t = t') then Some d else find_decoder r t
  end.

(** [d] turns exactly the bytes [b] into [v]. *)
Definition reads {V} (d : decoder V) (b : bytes) (v : V) : Prop :=
  forall rest, d (len b) (b ++ rest) = Ret (v, rest).

(** [d] consumes the length it is given, whatever follows. *)
Definition exact_decoder {V} (d : decoder V) : Prop :=
  forall l r v rest, d l r = Ret (v, rest) ->
    exists b, r = b ++ rest /\ len b = l /\ reads d b v.

Definition readable {V} (known : list (Z * decoder V)) (r : Z * bytes) : Prop :=
  forall d, find_decoder known r.1 = Some d -> exists v, reads d r.2 v.

Definition type_map {V} (known : list (Z * decoder V)) (rs : raws) : TypeMap :=
  list_to_map (map (fun '(t, b) =>
    (t, match find_decoder known t with Some _ => None | None => Some b end)) rs).

Definition raw_value {V} (known : list (Z * decoder V)) (r : Z * bytes) : option V :=
  match find_decoder known r.1 with
  | Some d => match d (len r.2) r.2 with Ret (v, _) => Some v | _ => None end
  | None => None
  end.

Definition value_map {V} (known : list (Z * decoder V)) (rs : raws) : gmap Z V :=
  list_to_map (omap (fun r => (fun v => (r.1, v)) <$> raw_value known r) rs).

Class TlvLaws `{Tlv} : Prop := {
  tlv_E_bytes v : value_wf v -> tlv_E v = Ret (value_bytes v);
  prim_Size_bytes v : value_wf v -> prim_Size v = len (value_bytes v);
  tlv_D_reads v : value_wf v -> reads (tlv_D (kind_of v)) (value_bytes v) v;
  tlv_D_inv k l r v rest : tlv_D k l r = Ret (v, rest) ->
    kind_of v = k /\ value_wf v /\ r = value_bytes v ++ rest /\ l = len (value_bytes v);
  tlv_D_settles k l r : settles (tlv_D k l r);
  ETUint64T_bytes n : u64 n -> ETUint64T n = Ret (tu64_bytes n);
  SizeTUint64_bytes n : u64 n -> SizeTUint64 n = len (tu64_bytes n);
  DTUint64_reads n : u64 n -> reads DTUint64 (tu64_bytes n) n;
  DTUint64_inv l r n rest : DTUint64 l r = Ret (n, rest) ->
    u64 n /\ r = tu64_bytes n ++ rest /\ l = len (tu64_bytes n);
  DTUint64_settles l r : settles (DTUint64 l r);
  WriteVarInt_bytes n : u64 n -> WriteVarInt n = Ret (varint n);
  SortRecords_perm rs : Permutation (SortRecords rs) rs;
  SortRecords_sorted rs : StronglySorted Z.le (map rec_Type (SortRecords rs));
  NewStream_ok ts : increasing ts -> NewStream ts = Ret tt;
  NewStream_bad ts : ~ increasing ts -> fails (NewStream ts);
  Stream_Encode_wire recs rs :
    Forall2 (fun r raw => rec_Type r = raw.1 /\ rec_Size r = len raw.2
                          /\ rec_Encode r = Ret raw.2) recs rs ->
    raws_wf rs -> Stream_Encode recs = Ret (wire rs);
  Stream_Encode_fails pre r post e :
    Forall (fun r => returns (rec_Encode r)) pre -> rec_Encode r = Err e ->
    fails (Stream_Encode (pre ++ r :: post));
  Decode_wire {V} (known : list (Z * decoder V)) rs :
    increasing (map fst known) -> raws_wf rs -> Forall (readable known) rs ->
    DecodeWithParsedTypes known (wire rs) = Ret (type_map known rs, value_map known rs);
  Decode_inv {V} (known : list (Z * decoder V)) w tm vm :
    increasing (map fst known) -> Forall (fun kd => exact_decoder kd.2) known ->
    DecodeWithParsedTypes known w = Ret (tm, vm) ->
    exists rs, raws_wf rs /\ w = wire rs /\ Forall (readable known) rs
               /\ tm = type_map known rs /\ vm = value_map known rs;
  Decode_fails {V} (known : list (Z * decoder V)) pre t b post d e :
    increasing (map fst known) -> raws_wf (pre ++ (t, b) :: post) ->
    Forall (readable known) pre -> find_decoder known t = Some d ->
    d (len b) (b ++ wire post) = Err e ->
    fails (DecodeWithParsedTypes known (wire (pre ++ (t, b) :: post)));
  Decode_settles {V} (known : list (Z * decoder V)) w :
    Forall (fun kd => forall l r, settles (kd.2 l r)) known ->
    settles (DecodeWithParsedTypes known w);
}.

Section TlvFacts.
Context `{CR : Crypto, CL : !CryptoLaws, TL : !Tlv, TLL : !TlvLaws}.

Lemma DPubKey_ok p rest : DPubKey 33 (SerializeCompressed p ++ rest) = Ret (p, rest).
Proof.
  unfold DPubKey. pose proof (tlv_D_reads (VPubKey p) I rest) as R. cbn [kind_of value_bytes] in R.
  unfold len in R. rewrite SerializeCompressed_length in R. change (Z.of_nat 33) with 33 in R.
  by rewrite R.
Qed.

Lemma DUint8_ok n rest : u8 n -> DUint8 1 (be_bytes 1 n ++ rest) = Ret (n, rest).
Proof.
  intros Hn. unfold DUint8. pose proof (tlv_D_reads (VUint8 n) Hn rest) as R.
  change (len (value_bytes (VUint8 n))) with 1 in R. cbn [kind_of value_bytes] in R. by rewrite R.
Qed.

Lemma DUint16_ok n rest : u16 n -> DUint16 2 (be_bytes 2 n ++ rest) = Ret (n, rest).
Proof.
  intros Hn. unfold DUint16. pose proof (tlv_D_reads (VUint16 n) Hn rest) as R.
  change (len (value_bytes (VUint16 n))) with 2 in R. cbn [kind_of value_bytes] in R. by rewrite R.
Qed.

Lemma DVarBytes_ok b rest : DVarBytes (len b) (b ++ rest) = Ret (b, rest).
Proof. unfold DVarBytes. pose proof (tlv_D_reads (VBytes b) I rest) as R. cbn in R. by rewrite R. Qed.

(** Decoders called on a variable of their type never see another. *)
Lemma DPubKey_settles l r : settles (DPubKey l r).
Proof.
  apply settles_bind; [apply tlv_D_settles|]. intros [v rest] H.
  apply tlv_D_inv in H as [H _]. destruct v; try done. apply settles_Ret.
Qed.

Lemma DUint8_settles l r : settles (DUint8 l r).
Proof.
  apply settles_bind; [apply tlv_D_settles|]. intros [v rest] H.
  apply tlv_D_inv in H as [H _]. destruct v; try done. apply settles_Ret.
Qed.

Lemma DUint16_settles l r : settles (DUint16 l r).
Proof.
  apply settles_bind; [apply tlv_D_settles|]. intros [v rest] H.
  apply tlv_D_inv in H as [H _]. destruct v; try done. apply settles_Ret.
Qed.

Lemma DVarBytes_settles l r : settles (DVarBytes l r).
Proof.
  apply settles_bind; [apply tlv_D_settles|]. intros [v rest] H.
  apply tlv_D_inv in H as [H _]. destruct v; try done. apply settles_Ret.
Qed.

Lemma NewStream_settles ts : settles (NewStream ts).
Proof.
  destruct (decide (increasing ts)) as [H|H]; [left; exists tt; by apply NewStream_ok|].
  right. by apply NewStream_bad.
Qed.
End TlvFacts.

#[export] Hint Resolve DPubKey_settles DUint8_settles DUint16_settles DVarBytes_settles
  NewStream_settles tlv_D_settles : go.

(** ** Message elements (lnd/lnwire) *)

Class Lndwire `{Crypto} := {
  WriteElement : tlvValue -> outcome bytes;
  (** ReadElement into a key, a uint16, and a byte slice of the given length *)
  ReadElement_PubKey : bytes -> outcome (PublicKey * bytes);
  ReadElement_Uint16 : bytes -> outcome (Z * bytes);
  ReadElement_Bytes : nat -> bytes -> outcome (bytes * bytes);
}.

Class LndwireLaws `{Lndwire} : Prop := {
  WriteElement_bytes v : value_wf v -> WriteElement v = Ret (value_bytes v);
  ReadElement_PubKey_ok p rest :
    ReadElement_PubKey (SerializeCompressed p ++ rest) = Ret (p, rest);
  ReadElement_PubKey_inv r p rest :
    ReadElement_PubKey r = Ret (p, rest) -> r = SerializeCompressed p ++ rest;
  ReadElement_Uint16_ok n rest :
    u16 n -> ReadElement_Uint16 (be_bytes 2 n ++ rest) = Ret (n, rest);
  ReadElement_Uint16_inv r n rest :
    ReadElement_Uint16 r = Ret (n, rest) -> u16 n /\ r = be_bytes 2 n ++ rest;
  ReadElement_Bytes_ok b rest :
    ReadElement_Bytes (length b) (b ++ rest) = Ret (b, rest);
  ReadElement_Bytes_inv n r b rest :
    ReadElement_Bytes n r = Ret (b, rest) -> length b = n /\ r = b ++ rest;
  ReadElement_PubKey_settles r : settles (ReadElement_PubKey r);
  ReadElement_Uint16_settles r : settles (ReadElement_Uint16 r);
  ReadElement_Bytes_settles n r : settles (ReadElement_Bytes n r);
}.
