(* ===== verification/Tu64.v ===== *)
(** lnwire/tu64.go: the truncated uint64 record, which lnd's tlv package does
    not export, with the facts about truncated integers the codecs rely on. *)
From S2P Require Import Prelude Deps.

Section Tu64.
Context `{CR : Crypto, TL : !Tlv}.

Definition encodeTU64 (val : tlvValue) : outcome bytes :=
  match val with
  | VUint64 v => ETUint64T v
  | _ => Err (EExt "tlv: cannot encode tu64")
  end.

(** The variable decoded into is of the type [k]. *)
Definition decodeTU64 (k : tlvKind) : decoder tlvValue := fun l r =>
  match k with
  | KUint64 =>
      if bool_decide (1 <= l) && bool_decide (l <= 8) then
        '(v, rest) ← DTUint64 l r;
        Ret (VUint64 v, rest)
      else Err (EExt "tlv: cannot decode tu64")
  | _ => Err (EExt "tlv: cannot decode tu64")
  end.

(** tu64Record, as a record to encode and as a record to decode into. *)
Definition tu64Record (tlvType : Z) (value : Z) : tlvRecord :=
  MkRecord tlvType (SizeTUint64 value) (encodeTU64 (VUint64 value)).
Definition tu64Decoder (tlvType : Z) : Z * decoder tlvValue :=
  (tlvType, decodeTU64 KUint64).

End Tu64.

(** ** Truncated integers *)

Lemma be_val_strip_zeros b : be_val 0 (strip_zeros b) = be_val 0 b.
Proof. induction b as [|x b IH]; [done|]. destruct x; cbn; auto. Qed.

Lemma strip_zeros_length b : (length (strip_zeros b) <= length b)%nat.
Proof. induction b as [|x b IH]; [done|]. destruct x; cbn; lia. Qed.

Lemma tu64_bytes_val n : u64 n -> be_val 0 (tu64_bytes n) = n.
Proof.
  intros Hn. unfold tu64_bytes. rewrite be_val_strip_zeros.
  apply be_val_be_bytes. exact Hn.
Qed.

Lemma tu64_bytes_zero : tu64_bytes 0 = [].
Proof. reflexivity. Qed.

Lemma tu64_bytes_len n : 0 <= len (tu64_bytes n) <= 8.
Proof.
  unfold len, tu64_bytes. pose proof (strip_zeros_length (be_bytes 8 n)) as H.
  rewrite be_bytes_length in H. lia.
Qed.

Lemma tu64_bytes_nonempty n : u64 n -> n <> 0 -> 1 <= len (tu64_bytes n).
Proof.
  intros Hn H0. pose proof (tu64_bytes_len n).
  destruct (decide (len (tu64_bytes n) = 0)) as [E|]; [|lia].
  apply len_nil_inv in E. pose proof (tu64_bytes_val n Hn) as V.
  rewrite E in V. cbn in V. lia.
Qed.

Section Laws.
Context `{CR : Crypto, TL : !Tlv, TLL : !TlvLaws}.

Lemma decodeTU64_reads n :
  u64 n -> n <> 0 -> reads (decodeTU64 KUint64) (tu64_bytes n) (VUint64 n).
Proof.
  intros Hn H0 rest. unfold decodeTU64.
  pose proof (tu64_bytes_nonempty n Hn H0). pose proof (tu64_bytes_len n).
  rewrite !bool_decide_true by lia. cbn [andb].
  rewrite (DTUint64_reads n Hn). done.
Qed.

Lemma decodeTU64_inv l r v rest :
  decodeTU64 KUint64 l r = Ret (v, rest) ->
  exists n, v = VUint64 n /\ u64 n /\ n <> 0 /\ r = tu64_bytes n ++ rest
            /\ l = len (tu64_bytes n).
Proof.
  unfold decodeTU64. destruct (bool_decide (1 <= l)) eqn:L1; [|done].
  destruct (bool_decide (l <= 8)) eqn:L2; [|done]. cbn [andb].
  intros H. go_inv. destruct x as [n rest']. go_inv.
  destruct (DTUint64_inv _ _ _ _ E) as (Hn & -> & ->).
  exists n. repeat split; try done; try apply Hn.
  intros ->. rewrite tu64_bytes_zero in L1. done.
Qed.

Lemma decodeTU64_exact : exact_decoder (decodeTU64 KUint64).
Proof.
  intros l r v rest H. apply decodeTU64_inv in H as (n & -> & Hn & H0 & -> & ->).
  exists (tu64_bytes n). split; [done|]. split; [done|]. by apply decodeTU64_reads.
Qed.

Lemma decodeTU64_settles k l r : settles (decodeTU64 k l r).
Proof.
  unfold decodeTU64. destruct k; auto using settles_Err.
  case_match; auto using settles_Err.
  apply settles_bind; [apply DTUint64_settles|]. intros [] _. apply settles_Ret.
Qed.

Lemma tlv_D_exact k : exact_decoder (tlv_D k).
Proof.
  intros l r v rest H. destruct (tlv_D_inv _ _ _ _ _ H) as (<- & Hwf & -> & ->).
  exists (value_bytes v). split; [done|]. split; [done|]. by apply tlv_D_reads.
Qed.
End Laws.

#[export] Hint Resolve decodeTU64_settles decodeTU64_exact tlv_D_exact
  tlv_D_settles : go.
