(* ===== verification/DepsRef.v ===== *)
(** A concrete instance of every interface of Deps.v, with its laws.

    The instance is not lnd's or btcec's code: it is a small computable
    implementation of what their documentation promises, which shows that the
    laws are consistent and lets the examples of the development evaluate.
    Keys are one byte and a parity, hashes a polynomial checksum; the TLV
    package (BigSize integers, canonical streams) is complete. *)
From S2P Require Import Prelude Deps Tu64.

(** ** Keys and hashes *)

Definition ref_SerializeCompressed (p : bool * byte) : bytes :=
  (if p.1 then x03 else x02) :: replicate 31 x00 ++ [p.2].

Definition ref_padded (r : bytes) : option byte :=
  if bool_decide (length r = 32%nat) && bool_decide (take 31 r = replicate 31 x00)
  then last r else None.

Definition ref_ParsePubKey (b : bytes) : outcome (bool * byte) :=
  match b with
  | x02 :: r => match ref_padded r with Some c => Ret (false, c) | None => Err (EExt "pubkey") end
  | x03 :: r => match ref_padded r with Some c => Ret (true, c) | None => Err (EExt "pubkey") end
  | _ => Err (EExt "pubkey")
  end.

Definition ref_schnorr_Parse (b : bytes) : outcome (bool * byte) :=
  match ref_padded b with Some c => Ret (false, c) | None => Err (EExt "x-only pubkey") end.

(** A checksum: a register of 32 bytes, into which the bytes are shifted. *)
Definition ref_mix (register : bytes) (x : byte) : bytes :=
  match register with
  | a :: rest =>
      rest ++ [byte_of_Z (5 * byte_to_Z a + 3 * byte_to_Z x + byte_to_Z (default a (last rest)) + 7)]
  | [] => []
  end.

Definition ref_TaggedHash (tag msg : bytes) : bytes :=
  let register := fold_left ref_mix (tag ++ [x00] ++ msg ++ replicate 32 x00) (replicate 32 x07) in
  map (fun i => nth i register x00) (seq 0 32).
#[global] Arguments ref_TaggedHash : simpl never.

#[global] Instance ref_Crypto : Crypto := {|
  PublicKey := bool * byte;
  SerializeCompressed := ref_SerializeCompressed;
  ParsePubKey := ref_ParsePubKey;
  schnorr_SerializePubKey p := replicate 31 x00 ++ [p.2];
  schnorr_ParsePubKey := ref_schnorr_Parse;
  Signature := bytes;
  schnorr_ParseSignature b :=
    if bool_decide (length b = 64%nat) then Ret b else Err (EExt "signature");
  sig_Verify s d p := bool_decide (s = d ++ replicate 31 x00 ++ [p.2]);
  chainhash_TaggedHash := ref_TaggedHash;
|}.

Lemma ref_padded_inv r c : ref_padded r = Some c -> r = replicate 31 x00 ++ [c].
Proof.
  unfold ref_padded. destruct (bool_decide (length r = _)) eqn:E1; [|done].
  destruct (bool_decide (take 31 r = _)) eqn:E2; [|done]. cbn [andb].
  apply bool_decide_eq_true in E1, E2.
  destruct r as [|x r' _] using rev_ind; [done|].
  rewrite last_snoc. intros [= ->]. rewrite length_app in E1. cbn in E1.
  rewrite take_app_length' in E2 by lia. by subst.
Qed.

Lemma ref_Parse_settles b : settles (ref_ParsePubKey b).
Proof.
  unfold ref_ParsePubKey. destruct b as [|x b]; [apply settles_Err|].
  destruct x; try apply settles_Err; case_match; auto using settles_Ret, settles_Err.
Qed.

#[global] Instance ref_CryptoLaws : CryptoLaws.
Proof.
  constructor.
  - intros. cbn. unfold ref_TaggedHash. by rewrite length_map.
  - done.
  - by intros [[] b].
  - intros b [s c] _. cbn. unfold ref_ParsePubKey. destruct b as [|x r]; [done|].
    destruct x; try done; destruct (ref_padded r) as [c'|] eqn:E; try done;
      intros Hp; injection Hp as <- ->; apply ref_padded_inv in E; by subst.
  - apply ref_Parse_settles.
  - done.
  - intros b [s c] _. cbn. unfold ref_schnorr_Parse.
    destruct (ref_padded b) as [c'|] eqn:E; [|done].
    intros [= <- ->]. apply ref_padded_inv in E. by subst.
Qed.

#[global] Instance ref_Lntypes : Lntypes := {|
  MakeHash h := if bool_decide (length h = 32%nat) then Ret h else Err (EExt "hash length")
|}.
#[global] Instance ref_LntypesLaws : LntypesLaws.
Proof. constructor. intros h Hh. cbn. by rewrite bool_decide_true. Qed.

#[global] Instance ref_MapOrder : MapOrder := {| map_range V m := map_to_list m |}.
#[global] Instance ref_MapOrderLaws : MapOrderLaws.
Proof. constructor. done. Qed.

(** Another order Go may range over a map in. *)
Definition reverse_MapOrder : MapOrder := {| map_range V m := reverse (map_to_list m) |}.
Lemma reverse_MapOrderLaws : @MapOrderLaws reverse_MapOrder.
Proof. constructor. intros V m. apply reverse_Permutation. Qed.

#[global] Instance ref_Features : Features := {|
  RawFeatureVector := option byte;
  FeatureVector := option byte;
  NewRawFeatureVector := None;
  NewFeatureVector raw := raw;
  fv_IsEmpty f := bool_decide (f = None);
  fv_Encode f := Ret (match f with Some b => [b] | None => [] end);
  raw_Decode b := match b with
                  | [] => Ret None | [x] => Ret (Some x) | _ => Err (EExt "features") end;
|}.
#[global] Instance ref_FeaturesLaws : FeaturesLaws.
Proof.
  constructor.
  - intros []; eexists; reflexivity.
  - intros [] ? [= <-]; reflexivity.
  - reflexivity.
  - by intros [].
  - intros [] ? [= <-]; unfold len; cbn; lia.
Qed.

(** ** Readers *)

Definition take_n (l : Z) (r : bytes) : outcome (bytes * bytes) :=
  if bool_decide (0 <= l <= len r) then Ret (take (Z.to_nat l) r, drop (Z.to_nat l) r)
  else Err (EExt "unexpected EOF").

Lemma take_n_app b rest : take_n (len b) (b ++ rest) = Ret (b, rest).
Proof.
  unfold take_n. rewrite bool_decide_true by (rewrite len_app; pose proof (len_nonneg b);
    pose proof (len_nonneg rest); lia).
  unfold len. rewrite Nat2Z.id, take_app_length, drop_app_length. done.
Qed.

Lemma take_n_inv l r b rest : take_n l r = Ret (b, rest) -> r = b ++ rest /\ len b = l.
Proof.
  unfold take_n. case_bool_decide as E; [|done]. intros [= <- <-].
  rewrite take_drop. split; [done|]. unfold len in *. rewrite length_take. lia.
Qed.

Lemma take_n_settles l r : settles (take_n l r).
Proof. unfold take_n. case_bool_decide; auto using settles_Ret, settles_Err. Qed.

Lemma be_val_app acc a b : be_val acc (a ++ b) = be_val (be_val acc a) b.
Proof. revert acc. induction a as [|x a IH]; intros; cbn; auto. Qed.

Lemma be_val_bound b : 0 <= be_val 0 b < 256 ^ len b.
Proof.
  induction b as [|x b IH] using rev_ind; [done|].
  rewrite be_val_app, len_app. cbn [be_val]. pose proof (byte_to_Z_bound x).
  rewrite Z.pow_add_r by (unfold len; lia). change (256 ^ len [x]) with 256.
  generalize dependent (256 ^ len b). lia.
Qed.

Lemma be_bytes_snoc n z : be_bytes (S n) z = be_bytes n (z / 256) ++ [byte_of_Z z].
Proof.
  unfold be_bytes. induction n as [|n IH]; [by rewrite Z.div_1_r|].
  cbn -[Z.of_nat]. rewrite Z.div_div, <- Z.pow_succ_r, <- Nat2Z.inj_succ by lia.
  f_equal. exact IH.
Qed.

Lemma byte_of_Z_mod x y : x mod 256 = y mod 256 -> byte_of_Z x = byte_of_Z y.
Proof. unfold byte_of_Z. by intros ->. Qed.

Lemma be_bytes_be_val n b :
  be_bytes (n + length b) (be_val 0 b) = replicate n x00 ++ b.
Proof.
  induction b as [|x b IH] using rev_ind.
  - rewrite Nat.add_0_r, app_nil_r. cbn. induction n as [|n IH]; [done|].
    unfold be_bytes in *. cbn -[Z.of_nat]. rewrite IH, Z.div_0_l by (apply Z.pow_nonzero; lia). done.
  - rewrite length_app. cbn [length]. rewrite Nat.add_1_r, Nat.add_succ_r, be_bytes_snoc.
    rewrite be_val_app. cbn [be_val]. pose proof (byte_to_Z_bound x).
    rewrite Z.div_add_l, Z.div_small, Z.add_0_r, IH, <- app_assoc by lia.
    do 3 f_equal. rewrite <- (byte_of_to_Z x) at 2. apply byte_of_Z_mod.
    rewrite Z.add_comm, Z.mod_add; lia.
Qed.

Lemma be_bytes_be_val_0 n b : length b = n -> be_bytes n (be_val 0 b) = b.
Proof. intros <-. apply (be_bytes_be_val 0). Qed.

Lemma strip_zeros_replicate n b : strip_zeros (replicate n x00 ++ b) = strip_zeros b.
Proof. by induction n. Qed.

Lemma tu64_bytes_be_val b :
  (length b <= 8)%nat -> strip_zeros b = b -> tu64_bytes (be_val 0 b) = b.
Proof.
  intros Hl Hs. unfold tu64_bytes.
  replace 8%nat with (8 - length b + length b)%nat by lia.
  by rewrite be_bytes_be_val, strip_zeros_replicate.
Qed.

Lemma strip_zeros_idem b : strip_zeros (strip_zeros b) = strip_zeros b.
Proof. induction b as [|x b IH]; [done|]. destruct x; cbn; auto. Qed.

(** ** BigSize integers *)

Definition ref_varint (n : Z) : bytes :=
  if bool_decide (n < 253) then be_bytes 1 n
  else if bool_decide (n < 65536) then xfd :: be_bytes 2 n
  else if bool_decide (n < 4294967296) then xfe :: be_bytes 4 n
  else xff :: be_bytes 8 n.

(** A [k]-byte integer that must be at least [lo] to be canonical. *)
Definition read_be (k : Z) (lo : Z) (r : bytes) : outcome (Z * bytes) :=
  '(b, rest) ← take_n k r;
  if bool_decide (lo <= be_val 0 b) then Ret (be_val 0 b, rest)
  else Err (EExt "varint not canonical").

Definition read_varint (r : bytes) : outcome (Z * bytes) :=
  match r with
  | [] => Err (EExt "EOF")
  | xfd :: r' => read_be 2 253 r'
  | xfe :: r' => read_be 4 65536 r'
  | xff :: r' => read_be 8 4294967296 r'
  | x :: r' => Ret (byte_to_Z x, r')
  end.

Lemma read_be_ok (k : nat) lo n rest :
  lo <= n -> 0 <= n < 256 ^ Z.of_nat k -> read_be (Z.of_nat k) lo (be_bytes k n ++ rest) = Ret (n, rest).
Proof.
  intros Hlo Hn. unfold read_be.
  assert (Z.of_nat k = len (be_bytes k n)) as -> by (unfold len; by rewrite be_bytes_length).
  rewrite take_n_app. cbn. rewrite be_val_be_bytes by done. by rewrite bool_decide_true.
Qed.

Lemma read_be_inv (k : nat) lo r n rest :
  read_be (Z.of_nat k) lo r = Ret (n, rest) ->
  lo <= n < 256 ^ Z.of_nat k /\ r = be_bytes k n ++ rest.
Proof.
  unfold read_be. intros H. apply bind_Ret_inv in H as ([b r'] & H1 & H2).
  apply take_n_inv in H1 as [-> Hl]. case_bool_decide as E; [|done]. injection H2 as <- <-.
  pose proof (be_val_bound b) as B. rewrite Hl in B. unfold len in Hl.
  rewrite be_bytes_be_val_0 by lia. repeat split; [done | apply B].
Qed.

Lemma read_be_settles k lo r : settles (read_be k lo r).
Proof.
  apply settles_bind; [apply take_n_settles|]. intros [b rest] _.
  case_match; auto using settles_Ret, settles_Err.
Qed.

Lemma read_varint_small x r :
  byte_to_Z x < 253 -> read_varint (x :: r) = Ret (byte_to_Z x, r).
Proof. intros H. destruct x; done. Qed.

Lemma read_varint_ok n rest : u64 n -> read_varint (ref_varint n ++ rest) = Ret (n, rest).
Proof.
  unfold u64, ref_varint. intros Hn. repeat case_bool_decide.
  - change (be_bytes 1 n) with [byte_of_Z (n / 256 ^ 0)]. rewrite Z.div_1_r.
    assert (byte_to_Z (byte_of_Z n) = n) as E by (rewrite byte_of_Z_to_Z; apply Z.mod_small; lia).
    cbn [app]. rewrite read_varint_small; rewrite E; [done|lia].
  - apply (read_be_ok 2); lia.
  - apply (read_be_ok 4); lia.
  - apply (read_be_ok 8); lia.
Qed.

Lemma ref_varint_1 x : byte_to_Z x < 253 -> ref_varint (byte_to_Z x) = [x].
Proof.
  intros H. unfold ref_varint. rewrite bool_decide_true by done.
  change (be_bytes 1 (byte_to_Z x)) with [byte_of_Z (byte_to_Z x / 256 ^ 0)].
  by rewrite Z.div_1_r, byte_of_to_Z.
Qed.

Lemma read_varint_inv r n rest :
  read_varint r = Ret (n, rest) -> u64 n /\ r = ref_varint n ++ rest.
Proof.
  destruct r as [|x r]; [done|]. destruct (decide (byte_to_Z x < 253)) as [Hx|Hx].
  - rewrite read_varint_small by done. intros [= <- <-].
    pose proof (byte_to_Z_bound x). unfold u64. split; [lia|]. by rewrite ref_varint_1.
  - intros H. assert (x = xfd \/ x = xfe \/ x = xff) as C.
    { destruct x; (exfalso; vm_compute in Hx; apply Hx; reflexivity) || auto. }
    unfold ref_varint, u64.
    destruct C as [-> | [-> | ->]]; cbn [read_varint] in H.
    + apply (read_be_inv 2) in H as [Hn ->]. change (256 ^ Z.of_nat 2) with 65536 in Hn.
      rewrite bool_decide_false, bool_decide_true by lia. split; [lia|done].
    + apply (read_be_inv 4) in H as [Hn ->]. change (256 ^ Z.of_nat 4) with 4294967296 in Hn.
      rewrite !bool_decide_false, bool_decide_true by lia. split; [lia|done].
    + apply (read_be_inv 8) in H as [Hn ->].
      change (256 ^ Z.of_nat 8) with 18446744073709551616 in Hn.
      rewrite !bool_decide_false by lia. split; [lia|done].
Qed.

Lemma read_varint_settles r : settles (read_varint r).
Proof.
  destruct r as [|x r]; [apply settles_Err|].
  destruct x; first [apply read_be_settles | apply settles_Ret].
Qed.

(** ** Primitive decoders *)

Definition ref_D (k : tlvKind) : decoder tlvValue := fun l r =>
  '(b, rest) ← take_n l r;
  match k with
  | KBytes32 => if bool_decide (length b = 32%nat) then Ret (VBytes32 b, rest) else Err (EExt "size")
  | KBytes64 => if bool_decide (length b = 64%nat) then Ret (VBytes64 b, rest) else Err (EExt "size")
  | KBytes => Ret (VBytes b, rest)
  | KPubKey => p ← ParsePubKey b; Ret (VPubKey p, rest)
  | KUint8 => if bool_decide (length b = 1%nat) then Ret (VUint8 (be_val 0 b), rest) else Err (EExt "size")
  | KUint16 => if bool_decide (length b = 2%nat) then Ret (VUint16 (be_val 0 b), rest) else Err (EExt "size")
  | KUint64 => if bool_decide (length b = 8%nat) then Ret (VUint64 (be_val 0 b), rest) else Err (EExt "size")
  end.

Definition ref_DTUint64 : decoder Z := fun l r =>
  '(b, rest) ← take_n l r;
  if bool_decide (length b <= 8)%nat && bool_decide (strip_zeros b = b)
  then Ret (be_val 0 b, rest) else Err (EExt "truncated integer").

Lemma ref_D_reads v : value_wf v -> reads (ref_D (kind_of v)) (value_bytes v) v.
Proof.
  intros Hwf rest. unfold ref_D. rewrite take_n_app. cbn [mbind outcome_bind].
  destruct v; cbn [kind_of value_bytes value_wf] in *;
    try (rewrite bool_decide_true by first [exact Hwf | apply be_bytes_length]); try done.
  - pose proof (ParsePubKey_Serialize p) as E. cbn in E |- *. by rewrite E.
  - rewrite be_val_be_bytes; [done | exact Hwf].
  - rewrite be_val_be_bytes; [done | exact Hwf].
  - rewrite be_val_be_bytes; [done | exact Hwf].
Qed.

Lemma ref_Parse_length b p : ref_ParsePubKey b = Ret p -> length b = 33%nat.
Proof.
  unfold ref_ParsePubKey. destruct b as [|x r]; [done|]. intros H.
  assert (exists c, ref_padded r = Some c) as [c E].
  { destruct x; try done; destruct (ref_padded r); try done; eauto. }
  apply ref_padded_inv in E. by subst.
Qed.

Lemma ref_D_inv k l r v rest : ref_D k l r = Ret (v, rest) ->
  kind_of v = k /\ value_wf v /\ r = value_bytes v ++ rest /\ l = len (value_bytes v).
Proof.
  unfold ref_D. intros H. apply bind_Ret_inv in H as ([b r'] & H1 & H).
  apply take_n_inv in H1 as [-> <-]. pose proof (be_val_bound b) as B. unfold len in B.
  destruct k; try case_bool_decide as E; try done;
    try (rewrite E in B; injection H as <- <-; cbn [kind_of value_wf value_bytes];
         rewrite ?be_bytes_be_val_0 by done; done).
  - by injection H as <- <-.
  - apply bind_Ret_inv in H as (p & Hp & H). injection H as <- <-.
    cbn [kind_of value_wf value_bytes].
    assert (SerializeCompressed (p : PublicKey) = b) as ->; [|done].
    apply ParsePubKey_canonical; [by apply ref_Parse_length in Hp | exact Hp].
Qed.

Lemma ref_D_settles k l r : settles (ref_D k l r).
Proof.
  apply settles_bind; [apply take_n_settles|]. intros [b rest] _.
  destruct k; try case_match; auto using settles_Ret, settles_Err.
  apply settles_bind; [apply ref_Parse_settles|intros; apply settles_Ret].
Qed.

Lemma ref_DT_reads n : u64 n -> reads ref_DTUint64 (tu64_bytes n) n.
Proof.
  intros Hn rest. unfold ref_DTUint64. rewrite take_n_app. cbn [mbind outcome_bind].
  pose proof (tu64_bytes_len n) as L. unfold len in L.
  rewrite bool_decide_true by lia. rewrite bool_decide_true by apply strip_zeros_idem.
  cbn [andb]. by rewrite tu64_bytes_val.
Qed.

Lemma ref_DT_inv l r n rest : ref_DTUint64 l r = Ret (n, rest) ->
  u64 n /\ r = tu64_bytes n ++ rest /\ l = len (tu64_bytes n).
Proof.
  unfold ref_DTUint64. intros H. apply bind_Ret_inv in H as ([b r'] & H1 & H).
  apply take_n_inv in H1 as [-> <-]. case_bool_decide as L; [|done].
  case_bool_decide as S; [|done]. cbn [andb] in H. injection H as <- <-.
  rewrite tu64_bytes_be_val by done. split; [|done].
  pose proof (be_val_bound b) as B. unfold u64. split; [lia|].
  eapply Z.lt_le_trans; [apply B|]. change 18446744073709551616 with (256 ^ 8).
  apply Z.pow_le_mono_r; unfold len; lia.
Qed.

Lemma ref_DT_settles l r : settles (ref_DTUint64 l r).
Proof.
  apply settles_bind; [apply take_n_settles|]. intros [b rest] _.
  case_match; auto using settles_Ret, settles_Err.
Qed.

(** ** Streams *)

Definition ref_NewStream_ok (ts : list Z) : bool :=
  (fix go ts := match ts with
    | a :: (b :: _) as r => bool_decide (a < b) && go r
    | _ => true
    end) ts.

Fixpoint ref_encode (rs : list tlvRecord) : outcome bytes :=
  match rs with
  | [] => Ret []
  | r :: rest =>
      v ← rec_Encode r;
      w ← ref_encode rest;
      Ret (ref_varint (rec_Type r) ++ ref_varint (rec_Size r) ++ v ++ w)
  end.

(** The decoding loop: [prev] is the type of the previous record. *)
Fixpoint ref_decode {V} (fuel : nat) (known : list (Z * decoder V)) (prev : Z) (w : bytes)
    : outcome (TypeMap * gmap Z V) :=
  match w with
  | [] => Ret (∅, ∅)
  | _ =>
      match fuel with
      | O => Err (EExt "fuel")
      | S fuel' =>
          '(t, w1) ← read_varint w;
          '(l, w2) ← read_varint w1;
          if bool_decide (t <= prev) then Err (EExt "stream is not canonical") else
          match find_decoder known t with
          | Some d =>
              '(v, rest) ← d l w2;
              '(tm, vm) ← ref_decode fuel' known t rest;
              Ret (<[t := None]> tm, <[t := v]> vm)
          | None =>
              '(b, rest) ← take_n l w2;
              '(tm, vm) ← ref_decode fuel' known t rest;
              Ret (<[t := Some b]> tm, vm)
          end
      end
  end.

Definition rec_le (a b : tlvRecord) : Prop := rec_Type a <= rec_Type b.
#[global] Instance rec_le_dec : RelDecision rec_le := fun a b => Z_le_dec _ _.
#[global] Instance rec_le_total : Total rec_le.
Proof. intros a b. unfold rec_le. lia. Qed.
#[global] Instance rec_le_trans : Transitive rec_le.
Proof. intros a b c. unfold rec_le. lia. Qed.

#[global] Instance ref_Tlv : Tlv := {|
  tlv_E v := Ret (value_bytes v);
  tlv_D := ref_D;
  prim_Size v := len (value_bytes v);
  ETUint64T n := Ret (tu64_bytes n);
  DTUint64 := ref_DTUint64;
  SizeTUint64 n := len (tu64_bytes n);
  WriteVarInt n := Ret (ref_varint n);
  varint := ref_varint;
  SortRecords := merge_sort rec_le;
  NewStream ts := if ref_NewStream_ok ts then Ret tt else Err (EExt "stream is not canonical");
  Stream_Encode := ref_encode;
  DecodeWithParsedTypes V known w := ref_decode (length w) known (-1) w;
|}.

Lemma ref_NewStream_spec ts : ref_NewStream_ok ts = true <-> increasing ts.
Proof.
  induction ts as [|a [|b r] IH].
  - split; [constructor|done].
  - split; [repeat constructor|done].
  - change (ref_NewStream_ok (a :: b :: r)) with (bool_decide (a < b) && ref_NewStream_ok (b :: r)).
    rewrite andb_true_iff, bool_decide_eq_true, IH. split.
    + intros [Hab S]. constructor; [done|]. constructor; [done|].
      inversion S as [|? ? _ F]; subst. apply (Forall_impl _ _ _ F). intros. lia.
    + inversion 1 as [|? ? S F]; subst. inversion F; subst. done.
Qed.

Lemma ref_encode_wire recs (rs : raws) :
  Forall2 (fun r raw => rec_Type r = raw.1 /\ rec_Size r = len raw.2
                        /\ rec_Encode r = Ret raw.2) recs rs ->
  ref_encode recs = Ret (wire rs).
Proof.
  induction 1 as [|r [t b] recs rs (Ht & Hs & He) _ IH]; [done|].
  cbn [ref_encode]. rewrite He, IH, Ht, Hs. cbn. by rewrite <- !app_assoc.
Qed.

Lemma ref_encode_fails pre r post e :
  Forall (fun r => returns (rec_Encode r)) pre -> rec_Encode r = Err e ->
  fails (ref_encode (pre ++ r :: post)).
Proof.
  intros F He. induction F as [|r' pre [v Hv] _ IH]; cbn [ref_encode app].
  - rewrite He. eexists. reflexivity.
  - rewrite Hv. cbn. destruct IH as [e' ->]. eexists. reflexivity.
Qed.

Lemma ref_varint_nonempty n : exists x r, ref_varint n = x :: r.
Proof. unfold ref_varint. repeat case_bool_decide; eexists _, _; reflexivity. Qed.

Lemma wire_cons (t : Z) (b : bytes) (rs : raws) :
  wire ((t, b) :: rs) = ref_varint t ++ ref_varint (len b) ++ b ++ wire rs.
Proof. unfold wire. cbn. by rewrite <- !app_assoc. Qed.

Section RefDecode.
Context {V : Type} (known : list (Z * decoder V)).

(** What one iteration does on a well-formed record. *)
Lemma ref_decode_step fuel prev t b rest :
  u64 t -> u64 (len b) -> prev < t ->
  ref_decode (S fuel) known prev (ref_varint t ++ ref_varint (len b) ++ b ++ rest)
  = match find_decoder known t with
    | Some d =>
        '(v, rest') ← d (len b) (b ++ rest);
        '(tm, vm) ← ref_decode fuel known t rest';
        Ret (<[t := None]> tm, <[t := v]> vm)
    | None =>
        '(tm, vm) ← ref_decode fuel known t rest;
        Ret (<[t := Some b]> tm, vm)
    end.
Proof.
  intros Ht Hb Hp. set (w := ref_varint t ++ _).
  assert (read_varint w = Ret (t, ref_varint (len b) ++ b ++ rest)) as R
    by (apply read_varint_ok; done).
  assert (exists x r, w = x :: r) as (x & r & E).
  { destruct (ref_varint_nonempty t) as (x & r & E). unfold w. rewrite E. by eexists _, _. }
  cbn [ref_decode]. rewrite E at 1. rewrite R. cbn [mbind outcome_bind].
  rewrite read_varint_ok by done. cbn [mbind outcome_bind].
  rewrite bool_decide_false by lia.
  destruct (find_decoder known t); [done|]. by rewrite take_n_app.
Qed.

Lemma type_map_cons t b rs :
  type_map known ((t, b) :: rs)
  = <[t := match find_decoder known t with Some _ => None | None => Some b end]> (type_map known rs).
Proof. done. Qed.

Lemma value_map_cons t b rs :
  value_map known ((t, b) :: rs)
  = match raw_value known (t, b) with
    | Some v => <[t := v]> (value_map known rs)
    | None => value_map known rs
    end.
Proof. unfold value_map. cbn. by destruct (raw_value known (t, b)). Qed.

Lemma raw_value_reads t b d v :
  find_decoder known t = Some d -> reads d b v -> raw_value known (t, b) = Some v.
Proof.
  intros E R. unfold raw_value. cbn. rewrite E.
  specialize (R []). rewrite app_nil_r in R. by rewrite R.
Qed.

Lemma wire_length t b (rs : raws) :
  (S (length (wire rs)) <= length (wire ((t, b) :: rs)))%nat.
Proof.
  rewrite wire_cons. destruct (ref_varint_nonempty t) as (x & r & ->).
  rewrite !length_app. cbn. lia.
Qed.

Lemma ref_decode_wire (rs : raws) : forall fuel prev,
  (length (wire rs) <= fuel)%nat -> Forall (Z.lt prev) (map fst rs) ->
  raws_wf rs -> Forall (readable known) rs ->
  ref_decode fuel known prev (wire rs) = Ret (type_map known rs, value_map known rs).
Proof.
  induction rs as [|[t b] rs IH]; intros fuel prev Hf Hp [S W] R.
  - by destruct fuel.
  - pose proof (wire_length t b rs) as HL. destruct fuel as [|fuel]; [lia|].
    cbn in S, Hp. inversion S as [|? ? S' F]; subst. inversion W as [|? ? [Ht Hb] W']; subst.
    inversion Hp; subst. inversion R as [|? ? R1 R']; subst.
    assert (ref_decode fuel known t (wire rs) = Ret (type_map known rs, value_map known rs)) as E.
    { apply IH; [lia|done|done|done]. }
    rewrite wire_cons, ref_decode_step, type_map_cons, value_map_cons by done.
    destruct (find_decoder known t) as [d|] eqn:Ed.
    + destruct (R1 d Ed) as [v Rv]. cbn in Rv. rewrite (raw_value_reads _ _ _ _ Ed Rv).
      rewrite (Rv (wire rs)). cbn. by rewrite E.
    + unfold raw_value. cbn. rewrite Ed, E. done.
Qed.

Lemma ref_decode_inv : forall fuel prev w tm vm,
  Forall (fun kd => exact_decoder kd.2) known ->
  ref_decode fuel known prev w = Ret (tm, vm) ->
  exists rs, raws_wf rs /\ Forall (Z.lt prev) (map fst rs) /\ w = wire rs
    /\ Forall (readable known) rs /\ tm = type_map known rs /\ vm = value_map known rs.
Proof.
  intros fuel. induction fuel as [|fuel IH]; intros prev w tm vm Hex H.
  { destruct w; [|done]. injection H as <- <-. exists []. repeat constructor. }
  destruct w as [|x w].
  { injection H as <- <-. exists []. repeat constructor. }
  cbn [ref_decode] in H. set (w0 := x :: w) in *.
  apply bind_Ret_inv in H as ([t w1] & Ht & H). apply bind_Ret_inv in H as ([l w2] & Hl & H).
  apply read_varint_inv in Ht as [Ht Ew0]. apply read_varint_inv in Hl as [Hl ->].
  case_bool_decide as Hlt; [done|].
  assert (forall tm' vm' rest b, ref_decode fuel known t rest = Ret (tm', vm') ->
    w2 = b ++ rest -> len b = l -> readable known (t, b) ->
    exists rs, raws_wf ((t, b) :: rs) /\ Forall (Z.lt prev) (map fst ((t, b) :: rs))
      /\ w0 = wire ((t, b) :: rs) /\ Forall (readable known) ((t, b) :: rs)
      /\ tm' = type_map known rs /\ vm' = value_map known rs) as Hstep.
  { intros tm' vm' rest b Hd -> <- Rd. apply IH in Hd as (rs & [S W] & F & -> & R & -> & ->); [|done].
    exists rs. rewrite wire_cons. split; [|split; [|split; [done|split; [by constructor|done]]]].
    - split; [constructor; done | constructor; done].
    - constructor; [cbn; lia|]. apply (Forall_impl _ _ _ F). intros. lia. }
  destruct (find_decoder known t) as [d|] eqn:Ed.
  - apply bind_Ret_inv in H as ([v rest] & Hv & H).
    apply bind_Ret_inv in H as ([tm' vm'] & Hd & H). injection H as <- <-.
    assert (exact_decoder d) as Hx.
    { clear -Ed Hex. induction Hex as [|[t' d'] k Hd _ IHk]; cbn in *; [done|].
      case_bool_decide; [by injection Ed as <- | auto]. }
    destruct (Hx _ _ _ _ Hv) as (b & Ew & Elen & Rv).
    destruct (Hstep tm' vm' rest b Hd Ew Elen) as (rs & ? & ? & ? & ? & -> & ->).
    { intros d'. cbn. rewrite Ed. intros [= <-]. eauto. }
    exists ((t, b) :: rs). rewrite type_map_cons, value_map_cons, Ed.
    by rewrite (raw_value_reads _ _ _ _ Ed Rv).
  - apply bind_Ret_inv in H as ([b rest] & Hv & H).
    apply bind_Ret_inv in H as ([tm' vm'] & Hd & H). injection H as <- <-.
    apply take_n_inv in Hv as [Ew Elen].
    destruct (Hstep tm' vm' rest b Hd Ew Elen) as (rs & ? & ? & ? & ? & -> & ->).
    { intros d'. cbn. by rewrite Ed. }
    exists ((t, b) :: rs). rewrite type_map_cons, value_map_cons, Ed.
    unfold raw_value. cbn. by rewrite Ed.
Qed.

Lemma ref_decode_fails pre t b post d e : forall fuel prev,
  (length (wire (pre ++ (t, b) :: post)) <= fuel)%nat ->
  Forall (Z.lt prev) (map fst (pre ++ (t, b) :: post)) ->
  raws_wf (pre ++ (t, b) :: post) -> Forall (readable known) pre ->
  find_decoder known t = Some d -> d (len b) (b ++ wire post) = Err e ->
  fails (ref_decode fuel known prev (wire (pre ++ (t, b) :: post))).
Proof.
  induction pre as [|[t' b'] pre IH]; intros fuel prev Hf Hp [S W] R Ed He; cbn [app] in *.
  - pose proof (wire_length t b post) as HL. destruct fuel as [|fuel]; [lia|].
    inversion W as [|? ? [Ht Hb] W']; subst. inversion Hp; subst.
    rewrite wire_cons, ref_decode_step by done. rewrite Ed, He. by eexists.
  - pose proof (wire_length t' b' (pre ++ (t, b) :: post)) as HL.
    destruct fuel as [|fuel]; [lia|].
    cbn in S, Hp. inversion S as [|? ? S' F]; subst. inversion W as [|? ? [Ht Hb] W']; subst.
    inversion Hp; subst. inversion R as [|? ? R1 R']; subst.
    assert (fails (ref_decode fuel known t' (wire (pre ++ (t, b) :: post)))) as [e' E].
    { apply IH; [lia|done|done|done|done|done]. }
    rewrite wire_cons, ref_decode_step by done.
    destruct (find_decoder known t') as [d'|] eqn:Ed'.
    + destruct (R1 d' Ed') as [v Rv]. cbn in Rv. rewrite (Rv _). cbn. rewrite E. by eexists.
    + rewrite E. by eexists.
Qed.

Lemma ref_decode_settles : forall fuel prev w,
  Forall (fun kd => forall l r, settles (kd.2 l r)) known ->
  settles (ref_decode fuel known prev w).
Proof.
  intros fuel. induction fuel as [|fuel IH]; intros prev w Hs.
  { destruct w; cbn; auto using settles_Ret, settles_Err. }
  destruct w as [|x w]; [apply settles_Ret|]. cbn [ref_decode].
  apply settles_bind; [apply read_varint_settles|]. intros [t w1] _.
  apply settles_bind; [apply read_varint_settles|]. intros [l w2] _.
  case_bool_decide; [apply settles_Err|].
  destruct (find_decoder known t) as [d|] eqn:Ed.
  - apply settles_bind.
    + clear -Ed Hs. induction Hs as [|[t' d'] k Hd _ IHk]; cbn in *; [done|].
      case_bool_decide; [injection Ed as <-; apply Hd | auto].
    + intros [v rest] _. apply settles_bind; [by apply IH|]. intros [] _. apply settles_Ret.
  - apply settles_bind; [apply take_n_settles|]. intros [b rest] _.
    apply settles_bind; [by apply IH|]. intros [] _. apply settles_Ret.
Qed.
End RefDecode.

#[global] Instance ref_TlvLaws : TlvLaws.
Proof.
  constructor.
  - done.
  - done.
  - apply ref_D_reads.
  - apply ref_D_inv.
  - apply ref_D_settles.
  - done.
  - done.
  - apply ref_DT_reads.
  - apply ref_DT_inv.
  - apply ref_DT_settles.
  - done.
  - intros. apply merge_sort_Permutation.
  - intros rs. pose proof (StronglySorted_merge_sort rec_le rs) as S. cbn.
    induction S as [|r l S IH F]; cbn; constructor; auto. by apply Forall_map.
  - intros ts S. cbn. by rewrite (proj2 (ref_NewStream_spec ts) S).
  - intros ts S. cbn. destruct (ref_NewStream_ok ts) eqn:E; [|by eexists].
    by apply ref_NewStream_spec in E.
  - intros recs rs F _. by apply ref_encode_wire.
  - intros. by eapply ref_encode_fails.
  - intros V known rs _ W R. apply ref_decode_wire; auto.
    apply Forall_map. apply (Forall_impl _ _ _ (proj2 W)). intros r [Ht _].
    unfold u64 in Ht. lia.
  - intros V known w tm vm _ Hex H.
    apply ref_decode_inv in H as (rs & ? & _ & ? & ? & ? & ?); [|done]. eauto 10.
  - intros V known pre t b post d e _ W R Ed He. eapply ref_decode_fails; eauto.
    apply Forall_map. apply (Forall_impl _ _ _ (proj2 W)). intros r [Ht _].
    unfold u64 in Ht. lia.
  - intros. by apply ref_decode_settles.
Qed.

(** ** Message elements *)

#[global] Instance ref_Lndwire : Lndwire := {|
  WriteElement v := Ret (value_bytes v);
  ReadElement_PubKey r := '(b, rest) ← take_n 33 r; p ← ParsePubKey b; Ret (p, rest);
  ReadElement_Uint16 r := '(b, rest) ← take_n 2 r; Ret (be_val 0 b, rest);
  ReadElement_Bytes n r := take_n (Z.of_nat n) r;
|}.

#[global] Instance ref_LndwireLaws : LndwireLaws.
Proof.
  constructor.
  - done.
  - intros p rest. unfold ReadElement_PubKey. cbn [ref_Lndwire].
    change 33 with (len (SerializeCompressed p)). rewrite take_n_app. cbn [mbind outcome_bind].
    by rewrite ParsePubKey_Serialize.
  - intros r p rest H. unfold ReadElement_PubKey in H. cbn [ref_Lndwire] in H.
    apply bind_Ret_inv in H as ([b r'] & H1 & H). apply take_n_inv in H1 as [-> Hl].
    apply bind_Ret_inv in H as (q & Hq & H). injection H as <- <-.
    rewrite (ParsePubKey_canonical b q); [done | unfold len in Hl; lia | done].
  - intros n rest Hn. unfold ReadElement_Uint16. cbn [ref_Lndwire].
    change 2 with (len (be_bytes 2 n)) at 1. rewrite take_n_app. cbn [mbind outcome_bind].
    by rewrite be_val_be_bytes.
  - intros r n rest H. unfold ReadElement_Uint16 in H. cbn [ref_Lndwire] in H.
    apply bind_Ret_inv in H as ([b r'] & H1 & H). apply take_n_inv in H1 as [-> Hl].
    injection H as <- <-. pose proof (be_val_bound b) as B. rewrite Hl in B.
    unfold len in Hl. rewrite be_bytes_be_val_0 by lia. done.
  - intros b rest. apply take_n_app.
  - intros n r b rest H. apply take_n_inv in H as [-> Hl]. unfold len in Hl. split; [lia|done].
  - intros r. apply settles_bind; [apply take_n_settles|]. intros [b rest] _.
    apply settles_bind; [apply ref_Parse_settles | intros; apply settles_Ret].
  - intros r. apply settles_bind; [apply take_n_settles|]. intros [b rest] _. apply settles_Ret.
  - intros n r. apply take_n_settles.
Qed.
