(* ===== verification/GoTime.v ===== *)
(** Go's time.Time and time.Duration, as far as the code uses them.

    A duration is an int64 of nanoseconds.  Duration.Seconds returns a float64,
    which the invoice code converts to a uint64; the floating point operations
    are those of the Standard Library's [SpecFloat] with binary64's parameters. *)
From Stdlib Require Import Floats.SpecFloat.
From S2P Require Import Prelude.

(** An instant, by its Unix seconds and nanoseconds; [time.Time{}] is January
    1, year 1. *)
Record Time := MkTime { t_Unix : Z; t_nsec : Z }.
#[global] Instance Time_eq_dec : EqDecision Time.
Proof. solve_decision. Defined.

Definition zero_Time : Time := MkTime (-62135596800) 0.
Definition time_Unix (sec nsec : Z) : Time := MkTime sec nsec.
Definition time_IsZero (t : Time) : bool := bool_decide (t = zero_Time).

(** ** Durations *)

Definition time_Millisecond : Z := 1000000.
Definition time_Second : Z := 1000000000.
Definition time_Minute : Z := 60000000000.

(** [time.Second * time.Duration(n)] for a uint64 [n], with int64 arithmetic. *)
Definition seconds_Duration (n : Z) : Z := to_i64 (time_Second * to_i64 n).

(** [float64(n)] for an int64. *)
Definition float64_of_Z (n : Z) : spec_float := binary_normalize 53 1024 n 0 false.

(** (d Duration).Seconds: the whole seconds plus the fraction. *)
Definition Duration_Seconds (d : Z) : spec_float :=
  let sec := Z.quot d time_Second in
  let nsec := Z.rem d time_Second in
  SFadd 53 1024 (float64_of_Z sec)
    (SFdiv 53 1024 (float64_of_Z nsec) (float64_of_Z 1000000000)).

(** The integer part of a finite float, towards zero. *)
Definition float_trunc (f : spec_float) : option Z :=
  match f with
  | S754_zero _ => Some 0
  | S754_finite s m e =>
      let n := if bool_decide (0 <= e) then Z.pos m * 2 ^ e else Z.pos m / 2 ^ (- e) in
      Some (if s then - n else n)
  | _ => None
  end.

(** The conversion of a float that does not fit a uint64 depends on the
    implementation of the language. *)
Class Platform := { float_to_u64_overflow : spec_float -> Z }.

(** [uint64(f)] *)
Definition uint64_of_float `{Platform} (f : spec_float) : Z :=
  match float_trunc f with
  | Some n => if bool_decide (0 <= n < 18446744073709551616) then n else float_to_u64_overflow f
  | None => float_to_u64_overflow f
  end.

(** An implementation for the examples: such conversions give the minimum int64. *)
#[global] Instance ref_Platform : Platform := {| float_to_u64_overflow _ := 9223372036854775808 |}.

(** ** Whole seconds *)

Lemma digits2_pos_bound m : 2 ^ (Z.pos (digits2_pos m) - 1) <= Z.pos m.
Proof.
  induction m as [m IH|m IH|]; cbn [digits2_pos]; [| |done].
  all: rewrite Pos2Z.inj_succ, Z.sub_succ_l.
  all: replace (Z.succ (Z.pos (digits2_pos m) - 1)) with (1 + (Z.pos (digits2_pos m) - 1)) by lia.
  all: rewrite Z.pow_add_r, Z.pow_1_r by lia; lia.
Qed.

Lemma digits2_pos_le m k : 0 <= k -> Z.pos m < 2 ^ k -> Z.pos (digits2_pos m) <= k.
Proof.
  intros Hk Hm. pose proof (digits2_pos_bound m) as H.
  destruct (Z.le_gt_cases (Z.pos (digits2_pos m)) k); [done|].
  assert (2 ^ k <= 2 ^ (Z.pos (digits2_pos m) - 1)) by (apply Z.pow_le_mono_r; lia). lia.
Qed.

Lemma iter_xO d m : Z.pos (Pos.iter xO m d) = Z.pos m * 2 ^ Z.pos d.
Proof.
  revert m. induction d as [|d IH] using Pos.peano_ind; intros m; [cbn; lia|].
  rewrite Pos.iter_succ, Pos2Z.inj_succ, Z.pow_succ_r by lia.
  change (Z.pos (Pos.iter xO m d)~0) with (2 * Z.pos (Pos.iter xO m d)). rewrite IH. lia.
Qed.

Lemma digits2_iter_xO d m : digits2_pos (Pos.iter xO m d) = (digits2_pos m + d)%positive.
Proof.
  revert m. induction d as [|d IH] using Pos.peano_ind; intros m; [cbn; lia|].
  rewrite Pos.iter_succ. cbn [digits2_pos]. rewrite IH. lia.
Qed.

(** An exact mantissa is not rounded. *)
Lemma binary_round_aux_exact m e :
  fexp 53 1024 (Z.pos (digits2_pos m) + e) = e -> e <= 971 ->
  binary_round_aux 53 1024 false (Z.pos m) e loc_Exact = S754_finite false m e.
Proof.
  intros He Hle. unfold binary_round_aux, shr_fexp, shr_record_of_loc, Zdigits2.
  rewrite He, Z.sub_diag. cbn [shr shr_m loc_of_shr_record round_nearest_even Zdigits2].
  rewrite He, Z.sub_diag. cbn [shr shr_m]. change (1024 - 53) with 971.
  by rewrite (proj2 (Z.leb_le _ _) Hle).
Qed.

Lemma float64_of_pos m : Z.pos m < 2 ^ 53 -> exists m' e,
  float64_of_Z (Z.pos m) = S754_finite false m' e /\ float_trunc (S754_finite false m' e) = Some (Z.pos m).
Proof.
  intros Hm. pose proof (digits2_pos_le m 53 ltac:(lia) Hm) as Hd.
  unfold float64_of_Z, binary_normalize, binary_round. rewrite Z.add_0_r.
  assert (fexp 53 1024 (Z.pos (digits2_pos m)) = Z.pos (digits2_pos m) - 53) as E.
  { unfold fexp, emin. lia. }
  unfold shl_align. rewrite E, Z.sub_0_r.
  destruct (Z.pos (digits2_pos m) - 53) as [|p|p] eqn:D; [|lia|].
  - exists m, 0. rewrite binary_round_aux_exact; [|by rewrite Z.add_0_r, E|lia].
    split; [done|]. cbn [float_trunc]. rewrite bool_decide_true by lia. f_equal. lia.
  - exists (Pos.iter xO m p), (Z.neg p). rewrite binary_round_aux_exact; [| |lia].
    + split; [done|]. cbn [float_trunc]. rewrite bool_decide_false by lia.
      rewrite iter_xO, Z.div_mul by (apply Z.pow_nonzero; lia). done.
    + rewrite digits2_iter_xO. unfold fexp, emin. lia.
Qed.

(** A duration of whole seconds converts to that number. *)
Lemma uint64_Seconds_whole `{Platform} n :
  0 <= n < 2 ^ 53 -> uint64_of_float (Duration_Seconds (time_Second * n)) = n.
Proof.
  intros Hn. unfold Duration_Seconds, time_Second.
  rewrite (Z.mul_comm _ n), Z.quot_mul, Z.rem_mul by lia.
  destruct n as [|m|m]; [done| |lia].
  destruct (float64_of_pos m) as (m' & e & -> & T); [lia|].
  replace (SFdiv 53 1024 (float64_of_Z 0) (float64_of_Z 1000000000)) with (S754_zero false)
    by reflexivity.
  cbn [SFadd]. unfold uint64_of_float. rewrite T, bool_decide_true by lia. done.
Qed.

Lemma seconds_Duration_whole n :
  0 <= n <= 9223372036 -> seconds_Duration n = time_Second * n.
Proof.
  intros Hn. unfold seconds_Duration, time_Second.
  rewrite (to_i64_small n), to_i64_small; unfold i64; lia.
Qed.
