(* ===== verification/Stream.v ===== *)
(** TLV messages as lists of optional fields.

    The bolt 12 messages of lnwire all have one shape: a struct whose populated
    fields become records in increasing type order, and a decoder with one
    record per type.  A [fields] value is that list of optional fields; this
    file proves once that encoding it gives the wire form of the populated
    fields and that decoding the wire form finds exactly those fields.  The
    message files show that their [records] and decoders have this shape. *)
From S2P Require Import Prelude Deps Tu64.

Section Fields.
Context `{CR : Crypto, TL : !Tlv}.

(** A populated field is a primitive record or a truncated integer. *)
Inductive fieldVal :=
| FPrim (v : tlvValue)
| FTU64 (n : Z).

Inductive fieldCodec := CPrim (k : tlvKind) | CTU64.

Definition field_record (t : Z) (f : fieldVal) : tlvRecord :=
  match f with
  | FPrim v => MakePrimitiveRecord t v
  | FTU64 n => tu64Record t n
  end.

Definition field_bytes (f : fieldVal) : bytes :=
  match f with FPrim v => value_bytes v | FTU64 n => tu64_bytes n end.

Definition field_val (f : fieldVal) : tlvValue :=
  match f with FPrim v => v | FTU64 n => VUint64 n end.

Definition codec_of (f : fieldVal) : fieldCodec :=
  match f with FPrim v => CPrim (kind_of v) | FTU64 _ => CTU64 end.

Definition codec_decoder (c : fieldCodec) : decoder tlvValue :=
  match c with CPrim k => tlv_D k | CTU64 => decodeTU64 KUint64 end.

Definition field_wf (f : fieldVal) : Prop :=
  match f with
  | FPrim v => value_wf v /\ u64 (len (value_bytes v))
  | FTU64 n => u64 n /\ n <> 0
  end.

(** Enough to encode: a truncated integer may be zero, and is then empty. *)
Definition field_ok (f : fieldVal) : Prop :=
  match f with
  | FPrim v => value_wf v /\ u64 (len (value_bytes v))
  | FTU64 n => u64 n
  end.

Abbreviation fields := (list (Z * option fieldVal)).
Abbreviation schema := (list (Z * fieldCodec)).

Fixpoint present (fs : fields) : list (Z * fieldVal) :=
  match fs with
  | [] => []
  | (t, Some f) :: r => (t, f) :: present r
  | (_, None) :: r => present r
  end.

Definition field_records (fs : fields) : list tlvRecord :=
  map (fun tf => field_record tf.1 tf.2) (present fs).

Definition field_raws (fs : fields) : raws :=
  map (fun tf => (tf.1, field_bytes tf.2)) (present fs).

Fixpoint field_get (fs : fields) (t : Z) : option fieldVal :=
  match fs with
  | [] => None
  | (t', o) :: r => if bool_decide (t = t') then o else field_get r t
  end.

Definition schema_decoders (sch : schema) : list (Z * decoder tlvValue) :=
  map (fun tc => (tc.1, codec_decoder tc.2)) sch.

Definition fits (sch : schema) (fs : fields) : Prop :=
  Forall2 (fun s f => s.1 = f.1 /\ forall v, f.2 = Some v -> codec_of v = s.2) sch fs.

Definition fields_wf (fs : fields) : Prop :=
  increasing (map fst fs) /\
  Forall (fun f => u64 f.1 /\ forall v, f.2 = Some v -> field_wf v) fs.

Definition fields_ok (fs : fields) : Prop :=
  increasing (map fst fs) /\
  Forall (fun f => u64 f.1 /\ forall v, f.2 = Some v -> field_ok v) fs.

(** [_, ok := tlvMap[t]] *)
Definition found (tlvMap : TypeMap) (t : Z) : bool :=
  match tlvMap !! t with Some _ => true | None => false end.

Definition is_some {A} (o : option A) : bool := match o with Some _ => true | None => false end.

(** The raw records of a stream the decoder has a record for. *)
Definition is_known {V} (known : list (Z * decoder V)) (r : Z * bytes) : bool :=
  is_some (find_decoder known r.1).

(** A type map and the decoded values agree with a list of fields. *)
Definition decoded_as (fs : fields) (tm : TypeMap) (vm : gmap Z tlvValue) : Prop :=
  forall i t v, fs !! i = Some (t, v) -> found tm t = is_some v /\ vm !! t = field_val <$> v.

(** ** Keys *)

Lemma present_keys t fs f : (t, f) ∈ present fs -> (t, Some f) ∈ fs.
Proof.
  induction fs as [|[t' [f'|]] r IH]; cbn; [set_solver| |]; rewrite !elem_of_cons.
  - intros [E|]; [left; congruence | right; auto].
  - auto.
Qed.

Lemma present_in t fs f : (t, Some f) ∈ fs -> (t, f) ∈ present fs.
Proof.
  induction fs as [|[t' [f'|]] r IH]; cbn; [set_solver| |]; rewrite !elem_of_cons.
  - intros [E|]; [left; congruence | right; auto].
  - intros [E|]; [done | auto].
Qed.

Lemma present_Forall (P : Z -> Prop) fs :
  Forall P (map fst fs) -> Forall P (map fst (present fs)).
Proof.
  induction fs as [|[t [f|]] r IH]; cbn; [done| |]; inversion 1; subst; auto.
Qed.

Lemma present_increasing fs :
  increasing (map fst fs) -> increasing (map fst (present fs)).
Proof.
  induction fs as [|[t [f|]] r IH]; cbn; [done| |]; inversion 1; subst; auto.
  constructor; auto. by apply present_Forall.
Qed.

Lemma increasing_not_in t (l : list Z) : Forall (Z.lt t) l -> t ∉ l.
Proof. rewrite Forall_forall. intros H Hin. apply H in Hin. revert Hin. apply Z.lt_irrefl. Qed.

Lemma increasing_NoDup (l : list Z) : increasing l -> NoDup l.
Proof.
  induction 1 as [|x l S IH F]; constructor; auto. by apply increasing_not_in.
Qed.

End Fields.

Abbreviation fields := (list (Z * option fieldVal)).
Abbreviation schema := (list (Z * fieldCodec)).

Section Codec.
Context `{CR : Crypto, TL : !Tlv, TLL : !TlvLaws}.

Lemma field_reads f : field_wf f -> reads (codec_decoder (codec_of f)) (field_bytes f) (field_val f).
Proof.
  destruct f as [v|n]; cbn; intros [H1 H2].
  - by apply tlv_D_reads.
  - by apply decodeTU64_reads.
Qed.

Lemma field_wf_ok f : field_wf f -> field_ok f.
Proof. destruct f; cbn; [done|]. by intros []. Qed.

Lemma fields_wf_ok fs : fields_wf fs -> fields_ok fs.
Proof.
  intros [S F]. split; [done|]. apply (Forall_impl _ _ _ F).
  intros [t o] [Ht Ho]. split; [done|]. intros v Hv. by apply field_wf_ok, Ho.
Qed.

Lemma field_record_ok t f : field_ok f ->
  rec_Type (field_record t f) = t /\ rec_Size (field_record t f) = len (field_bytes f)
  /\ rec_Encode (field_record t f) = Ret (field_bytes f).
Proof.
  destruct f as [v|n]; cbn; [intros [H1 _] | intros H1]; (split; [done|split]).
  - by apply prim_Size_bytes.
  - by apply tlv_E_bytes.
  - by apply SizeTUint64_bytes.
  - by apply ETUint64T_bytes.
Qed.

Lemma field_bytes_len f : field_ok f -> u64 (len (field_bytes f)).
Proof.
  destruct f as [v|n]; cbn; [by intros []|]. intros _.
  pose proof (tu64_bytes_len n). unfold u64. lia.
Qed.

Lemma fields_present_wf fs : fields_wf fs ->
  Forall (fun tf => u64 tf.1 /\ field_wf tf.2) (present fs).
Proof.
  intros [_ F]. rewrite Forall_forall in F. apply Forall_forall. intros [t f] Hin.
  apply present_keys, F in Hin as [Ht Hf]. cbn in *. auto.
Qed.

Lemma fields_present_ok fs : fields_ok fs ->
  Forall (fun tf => u64 tf.1 /\ field_ok tf.2) (present fs).
Proof.
  intros [_ F]. rewrite Forall_forall in F. apply Forall_forall. intros [t f] Hin.
  apply present_keys, F in Hin as [Ht Hf]. cbn in *. auto.
Qed.

Lemma field_raws_ok fs : fields_ok fs -> raws_wf (field_raws fs).
Proof.
  intros H. split.
  - unfold field_raws. rewrite map_map. cbn. apply present_increasing, H.
  - apply Forall_map. apply fields_present_ok in H. apply (Forall_impl _ _ _ H).
    intros [t f] [Ht Hf]. cbn in *. auto using field_bytes_len.
Qed.

Lemma field_raws_wf fs : fields_wf fs -> raws_wf (field_raws fs).
Proof. intros H. by apply field_raws_ok, fields_wf_ok. Qed.

Lemma field_records_types fs : map rec_Type (field_records fs) = map fst (present fs).
Proof.
  unfold field_records. rewrite map_map. apply map_ext. by intros [t []].
Qed.

Lemma field_records_raws fs : fields_ok fs ->
  Forall2 (fun r raw => rec_Type r = raw.1 /\ rec_Size r = len raw.2
                        /\ rec_Encode r = Ret raw.2) (field_records fs) (field_raws fs).
Proof.
  intros H. apply fields_present_ok in H. unfold field_records, field_raws.
  induction H as [|[t f] l [Ht Hf] _ IH]; cbn; constructor; auto.
  by apply field_record_ok.
Qed.

(** Encoding the populated fields. *)
Theorem fields_encode fs : fields_ok fs ->
  NewStream (map rec_Type (field_records fs)) = Ret tt
  /\ Stream_Encode (field_records fs) = Ret (wire (field_raws fs)).
Proof.
  intros H. split.
  - apply NewStream_ok. rewrite field_records_types. apply present_increasing, H.
  - apply Stream_Encode_wire; auto using field_records_raws, field_raws_ok.
Qed.

Lemma field_get_at fs i t v :
  increasing (map fst fs) -> fs !! i = Some (t, v) -> field_get fs t = v.
Proof.
  revert i. induction fs as [|[t' o] r IH]; intros i S Hi; [done|].
  cbn in S. inversion S as [|? ? S' F]; subst. cbn. destruct i as [|i]; cbn in Hi.
  - injection Hi as -> ->. by rewrite bool_decide_true.
  - rewrite bool_decide_false; [by eapply IH|]. intros <-.
    apply (increasing_not_in _ _ F). change t with (fst (t, v)). apply list_elem_of_fmap.
    exists (t, v). split; [done|]. apply list_elem_of_lookup. eauto.
Qed.

Lemma find_decoder_fits sch fs t f :
  increasing (map fst fs) -> fits sch fs -> (t, Some f) ∈ fs ->
  find_decoder (schema_decoders sch) t = Some (codec_decoder (codec_of f)).
Proof.
  intros S F. induction F as [|[t1 c] [t2 o] sch fs [E Hc] F IH]; cbn in *; [set_solver|].
  subst t2. inversion S as [|? ? S' Fl]; subst. rewrite elem_of_cons.
  intros [Eq|Hin].
  - injection Eq as -> <-. rewrite bool_decide_true by done. do 2 f_equal.
    symmetry. by apply Hc.
  - rewrite bool_decide_false; auto. intros <-.
    apply (increasing_not_in _ _ Fl). change t with (fst (t, Some f)).
    apply list_elem_of_fmap. eauto.
Qed.

Lemma fits_keys sch fs : fits sch fs -> map fst (schema_decoders sch) = map fst fs.
Proof.
  unfold schema_decoders. rewrite map_map. cbn.
  induction 1 as [|s f sch fs [E _] _ IH]; cbn; [done|]. by rewrite E, IH.
Qed.

(** Decoding a canonical stream whose known records are the populated fields
    finds exactly them, whatever unknown records are interleaved. *)
Lemma field_raws_known sch fs : fields_wf fs -> fits sch fs ->
  Forall (fun r => is_known (schema_decoders sch) r = true) (field_raws fs).
Proof.
  intros Hwf Hfits. apply Forall_map, Forall_forall. intros [t f] Hin%present_keys.
  unfold is_known. cbn. erewrite find_decoder_fits; eauto. apply Hwf.
Qed.

Section Decode.
Context (sch : schema) (fs : fields) (rs : raws).
Context (Hfs : fields_wf fs) (Hfits : fits sch fs) (Hrs : raws_wf rs).
Context (Hknown : List.filter (is_known (schema_decoders sch)) rs = field_raws fs).

Let known := schema_decoders sch.

Lemma known_field t b : (t, b) ∈ rs -> is_known known (t, b) = true ->
  exists f, (t, f) ∈ present fs /\ b = field_bytes f.
Proof.
  intros Hin Hk. assert ((t, b) ∈ field_raws fs) as H.
  { rewrite <- Hknown, list_elem_of_In, filter_In, <- list_elem_of_In. done. }
  apply list_elem_of_fmap in H as ([t' f] & [= -> ->] & Hf). eauto.
Qed.

Lemma field_known t f : (t, f) ∈ present fs -> (t, field_bytes f) ∈ rs.
Proof.
  intros Hin. assert ((t, field_bytes f) ∈ field_raws fs) as H.
  { apply list_elem_of_fmap. exists (t, f). done. }
  rewrite <- Hknown, list_elem_of_In, filter_In, <- list_elem_of_In in H. apply H.
Qed.

Lemma present_decoder t f : (t, f) ∈ present fs ->
  find_decoder known t = Some (codec_decoder (codec_of f)) /\ field_wf f.
Proof.
  intros Hin. pose proof (fields_present_wf _ Hfs) as F. rewrite Forall_forall in F.
  split; [|by apply (F _ Hin)].
  eapply find_decoder_fits; eauto using present_keys. apply Hfs.
Qed.

Lemma rs_keys_NoDup : NoDup (map fst rs).
Proof. apply increasing_NoDup, Hrs. Qed.

Lemma rs_unique t b b' : (t, b) ∈ rs -> (t, b') ∈ rs -> b = b'.
Proof.
  intros H1 H2. pose proof (proj1 (elem_of_list_to_map rs t b rs_keys_NoDup) H1).
  pose proof (proj1 (elem_of_list_to_map rs t b' rs_keys_NoDup) H2). congruence.
Qed.

Lemma find_decoder_key {V} (k : list (Z * decoder V)) t :
  t ∈ map fst k -> is_some (find_decoder k t) = true.
Proof.
  induction k as [|[t' d] k IH]; cbn; rewrite ?elem_of_cons; [set_solver|].
  intros Ht. case_bool_decide; [done|]. apply IH. by destruct Ht.
Qed.

Lemma omap_keys_NoDup {W} (g : Z * bytes -> option W) (l : raws) :
  NoDup (map fst l) -> NoDup (map fst (omap (fun r => (fun w => (r.1, w)) <$> g r) l)).
Proof.
  induction l as [|r l IH]; [constructor|].
  cbn in *. inversion 1 as [|? ? Hn ND']; subst. destruct (g r); cbn; auto.
  constructor; auto. intros Hin. apply Hn.
  apply list_elem_of_fmap in Hin as (x & -> & Hx). apply list_elem_of_omap in Hx as (y & Hy & E).
  destruct (g y); cbn in E; [|done]. injection E as <-. apply list_elem_of_fmap. eauto.
Qed.

(** A map over the raw records, looked up at the type of a field. *)
Lemma raw_lookup {W} (g : Z * bytes -> option W) i t v :
  fs !! i = Some (t, v) ->
  (list_to_map (omap (fun r => (fun w => (r.1, w)) <$> g r) rs) : gmap Z W) !! t
  = v ≫= fun f => g (t, field_bytes f).
Proof.
  intros Hi.
  assert (field_get fs t = v) as Hg by (eapply field_get_at; [apply Hfs | done]).
  assert (forall f, (t, f) ∈ present fs -> v = Some f) as Hpres.
  { intros f Hin%present_keys. apply list_elem_of_lookup in Hin as [j Hj].
    rewrite <- Hg. by eapply field_get_at; [apply Hfs|]. }
  assert (is_some (find_decoder known t) = true) as Hkn.
  { apply find_decoder_key. unfold known. rewrite (fits_keys _ _ Hfits).
    apply list_elem_of_fmap. exists (t, v). eauto using list_elem_of_lookup_2. }
  pose proof (omap_keys_NoDup g rs rs_keys_NoDup) as ND.
  destruct v as [f|]; cbn.
  - assert ((t, f) ∈ present fs) as Hin by eauto using present_in, list_elem_of_lookup_2.
    destruct (g (t, field_bytes f)) as [w|] eqn:Eg.
    + apply elem_of_list_to_map_1; [done|]. apply list_elem_of_omap.
      exists (t, field_bytes f). split; [by apply field_known|]. by rewrite Eg.
    + apply not_elem_of_list_to_map_1. intros Hin'.
      apply list_elem_of_fmap in Hin' as ([t' w] & Et & Hw). cbn in Et. subst t'.
      apply list_elem_of_omap in Hw as ([t' b] & Hb & E).
      destruct (g (t', b)) eqn:Eg'; [|done]. cbn in E. injection E as -> ->.
      rewrite (rs_unique _ _ _ Hb (field_known _ _ Hin)) in Eg'. congruence.
  - apply not_elem_of_list_to_map_1. intros Hin'.
    apply list_elem_of_fmap in Hin' as ([t' w] & Et & Hw). cbn in Et. subst t'.
    apply list_elem_of_omap in Hw as ([t' b] & Hb & E).
    destruct (g (t', b)) eqn:Eg'; [|done]. cbn in E. injection E as -> ->.
    destruct (known_field _ _ Hb Hkn) as (f & Hf & _). by apply Hpres in Hf.
Qed.

Theorem fields_decode :
  DecodeWithParsedTypes known (wire rs) = Ret (type_map known rs, value_map known rs)
  /\ decoded_as fs (type_map known rs) (value_map known rs).
Proof.
  split; [apply Decode_wire|].
  - unfold known. rewrite (fits_keys _ _ Hfits). apply Hfs.
  - done.
  - apply Forall_forall. intros [t b] Hin d Hd. cbn in *.
    destruct (known_field t b Hin) as (f & Hf & ->); [unfold is_known; cbn; by rewrite Hd|].
    destruct (present_decoder _ _ Hf) as [E Hw]. rewrite E in Hd. injection Hd as <-.
    eauto using field_reads.
  - intros i t v Hi. split.
    + unfold found, type_map.
      pose proof (raw_lookup (fun r => Some
        match find_decoder known r.1 with Some _ => None | None => Some r.2 end) i t v Hi) as E.
      cbn in E.
      assert (forall l : raws, omap (fun r : Z * bytes => Some (r.1,
          match find_decoder known r.1 with Some _ => None | None => Some r.2 end)) l
        = map (fun '(t, b) => (t, match find_decoder known t with Some _ => None | None => Some b end)) l) as Em.
      { induction l as [|[t' b'] l IH]; [done|]. cbn. by rewrite IH. }
      rewrite Em in E. rewrite E. by destruct v.
    + unfold value_map. rewrite (raw_lookup (raw_value known) i t v Hi).
      destruct v as [f|]; cbn; [|done].
      assert ((t, f) ∈ present fs) as Hin by eauto using present_in, list_elem_of_lookup_2.
      destruct (present_decoder _ _ Hin) as [E Hw]. unfold raw_value. cbn. rewrite E.
      pose proof (field_reads f Hw []) as R. rewrite app_nil_r in R. by rewrite R.
Qed.
End Decode.

Lemma field_raws_app (a b : fields) : field_raws (a ++ b) = field_raws a ++ field_raws b.
Proof.
  unfold field_raws. assert (present (a ++ b) = present a ++ present b) as ->; [|apply map_app].
  induction a as [|[t' [f'|]] a IH]; cbn; [done| |done]. by rewrite IH.
Qed.

(** A field whose decoder refuses its bytes makes the stream undecodable. *)
Lemma fields_decode_fails sch pre t f post e :
  fits sch (pre ++ (t, Some f) :: post) -> fields_ok (pre ++ (t, Some f) :: post) ->
  Forall (fun p => forall v, p.2 = Some v -> field_wf v) pre ->
  (forall rest, codec_decoder (codec_of f) (len (field_bytes f)) (field_bytes f ++ rest) = Err e) ->
  fails (DecodeWithParsedTypes (schema_decoders sch)
           (wire (field_raws (pre ++ (t, Some f) :: post)))).
Proof.
  intros Hfits Hok Hpre Hbad. pose proof (field_raws_ok _ Hok) as Hwf.
  rewrite field_raws_app in Hwf |- *.
  change (field_raws ((t, Some f) :: post)) with ((t, field_bytes f) :: field_raws post) in *.
  eapply Decode_fails; [| done | | | apply Hbad].
  - rewrite (fits_keys _ _ Hfits). apply Hok.
  - apply Forall_map, Forall_forall. intros [t' f'] Hin%present_keys d Hd. cbn in *.
    rewrite (find_decoder_fits sch _ t' f' (proj1 Hok) Hfits) in Hd by set_solver.
    injection Hd as <-. exists (field_val f'). apply field_reads.
    rewrite Forall_forall in Hpre. by apply (Hpre _ Hin).
  - eapply find_decoder_fits; [apply Hok | done | set_solver].
Qed.
End Codec.

(** ** Looking up a decoded stream by type *)

Section Lookup.
Context {V : Type} (known : list (Z * decoder V)).

Lemma type_map_lookup (rs : raws) t :
  type_map known rs !! t
  = (fun b => match find_decoder known t with Some _ => None | None => Some b end)
      <$> (list_to_map rs : gmap Z bytes) !! t.
Proof.
  unfold type_map. induction rs as [|[t' b] rs IH]; cbn; [by rewrite !lookup_empty|].
  destruct (decide (t' = t)) as [->|]; [by rewrite !lookup_insert_eq|].
  by rewrite !lookup_insert_ne.
Qed.

Lemma raw_lookup_not_in {W} (g : Z * bytes -> option W) (rs : raws) t :
  t ∉ map fst rs ->
  (list_to_map (omap (fun r => (fun w => (r.1, w)) <$> g r) rs) : gmap Z W) !! t = None.
Proof.
  induction rs as [|[t' b] rs IH]; cbn; [by rewrite lookup_empty|].
  rewrite not_elem_of_cons. intros [Hn Hin]. destruct (g (t', b)); cbn; [|by apply IH].
  rewrite lookup_insert_ne by done. by apply IH.
Qed.

Lemma value_map_lookup (rs : raws) t : NoDup (map fst rs) ->
  value_map known rs !! t
  = (list_to_map rs : gmap Z bytes) !! t ≫= fun b => raw_value known (t, b).
Proof.
  unfold value_map. induction rs as [|[t' b] rs IH]; cbn; [by rewrite !lookup_empty|].
  inversion 1 as [|? ? Hn ND]; subst. destruct (decide (t' = t)) as [->|Ht].
  - rewrite lookup_insert_eq. cbn. destruct (raw_value known (t, b)); cbn;
      [by rewrite lookup_insert_eq | by apply raw_lookup_not_in].
  - rewrite lookup_insert_ne by done. destruct (raw_value known (t', b)); cbn;
      [rewrite lookup_insert_ne by done|]; by apply IH.
Qed.
End Lookup.

(** ** What a decoded stream guarantees *)

Section Typed.
Context `{CR : Crypto, CL : !CryptoLaws, TL : !Tlv, TLL : !TlvLaws}.

Fixpoint find_codec (sch : schema) (t : Z) : option fieldCodec :=
  match sch with
  | [] => None
  | (t', c) :: r => if bool_decide (t = t') then Some c else find_codec r t
  end.

Lemma find_decoder_schema sch t :
  find_decoder (schema_decoders sch) t = codec_decoder <$> find_codec sch t.
Proof.
  induction sch as [|[t' c] sch IH]; [done|]. cbn. by case_bool_decide.
Qed.

Lemma codec_decoder_exact c : exact_decoder (codec_decoder c).
Proof. destruct c; [apply tlv_D_exact | apply decodeTU64_exact]. Qed.

(** What a codec decodes is a field of that codec, with its bytes. *)
Lemma codec_decoder_inv c b v rest : u64 (len b) -> codec_decoder c (len b) b = Ret (v, rest) ->
  exists f, v = field_val f /\ codec_of f = c /\ field_wf f.
Proof.
  intros Hb. destruct c as [k|]; cbn; intros H.
  - apply tlv_D_inv in H as (<- & Hwf & _ & El). exists (FPrim v). split; [done|]. split; [done|].
    split; [done|]. by rewrite <- El.
  - apply decodeTU64_inv in H as (n & -> & Hn & H0 & _). by exists (FTU64 n).
Qed.

(** Whatever bytes decode, the variables hold values of the types of the
    schema, and a type of the schema that was found has its value. *)
Definition decoded_typed (sch : schema) (tm : TypeMap) (vm : gmap Z tlvValue) : Prop :=
  (forall t v, vm !! t = Some v ->
     exists f, v = field_val f /\ find_codec sch t = Some (codec_of f) /\ field_wf f)
  /\ (forall t, is_some (find_codec sch t) = true -> found tm t = is_some (vm !! t)).

Lemma schema_decode_inv sch w tm vm : increasing (map fst sch) ->
  DecodeWithParsedTypes (schema_decoders sch) w = Ret (tm, vm) ->
  exists rs, raws_wf rs /\ w = wire rs /\ Forall (readable (schema_decoders sch)) rs
    /\ tm = type_map (schema_decoders sch) rs /\ vm = value_map (schema_decoders sch) rs.
Proof.
  intros Hi H. apply Decode_inv in H; [done|..].
  - unfold schema_decoders. rewrite map_map. exact Hi.
  - apply Forall_map, Forall_true. intros [t c]. apply codec_decoder_exact.
Qed.

Lemma decode_typed sch w tm vm : increasing (map fst sch) ->
  DecodeWithParsedTypes (schema_decoders sch) w = Ret (tm, vm) -> decoded_typed sch tm vm.
Proof.
  intros Hi H. apply schema_decode_inv in H as (rs & [Hrs Hu] & _ & Hread & -> & ->); [|done].
  assert (NoDup (map fst rs)) as ND by (by apply increasing_NoDup).
  split.
  - intros t v. rewrite value_map_lookup by done.
    destruct ((list_to_map rs : gmap Z bytes) !! t) as [b|] eqn:Eb; [|done]. cbn.
    apply elem_of_list_to_map in Eb; [|done]. unfold raw_value. cbn.
    rewrite find_decoder_schema. destruct (find_codec sch t) as [c|]; [|done]. cbn.
    destruct (codec_decoder c (len b) b) as [[v' rest]| | |] eqn:Ed; try done. intros [= <-].
    rewrite Forall_forall in Hu. apply codec_decoder_inv in Ed as (f & -> & <- & Hf);
      [by exists f | by apply (Hu (t, b))].
  - intros t Ht. unfold found. rewrite type_map_lookup, value_map_lookup by done.
    destruct ((list_to_map rs : gmap Z bytes) !! t) as [b|] eqn:Eb; [|done]. cbn.
    apply elem_of_list_to_map in Eb; [|done]. unfold raw_value. cbn.
    rewrite Forall_forall in Hread. specialize (Hread _ Eb). unfold readable in Hread. cbn in Hread.
    rewrite find_decoder_schema in Hread |- *. destruct (find_codec sch t) as [c|]; [|done]. cbn in *.
    destruct (Hread _ eq_refl) as [v R]. specialize (R []). rewrite app_nil_r in R. by rewrite R.
Qed.
End Typed.
