(* ===== verification/Merkle.v ===== *)
(** lnwire/bolt12_merkle.go: the Merkle root of a bolt 12 TLV stream.

    Data ([TLVBranch], [TLVLeaf]) and one definition per function; then the
    specification: the root of a set of records is a function of the raw
    records outside the signature range alone ([raw_root]), the loop that
    combines branches always ends and computes the root of the tree that is
    built level by level ([levels]), a branch without a partner going up
    to the front of the next - on a power of two of branches, the perfect
    binary tree. *)
From S2P Require Import Prelude Deps Tu64 DepsRef Stream.

(** *** Errors and constants *)

Definition signatureFieldStart : Z := 240.
Definition signatureFieldEnd : Z := 1000.
Definition TLVTag : bytes := lit "LnLeaf".
Definition NonceTag : bytes := lit "LnAll".
Definition BranchTag : bytes := lit "LnBranch".
Definition ErrOddLeafNodes : error := ENamed "lnwire.ErrOddLeafNodes".
Definition ErrNoTLVs : error := ENamed "lnwire.ErrNoTLVs".

(** The node interface. *)
Class node (A : Type) := TaggedHash : A -> bytes.

Record TLVBranch := MkBranch { br_right : bytes; br_left : bytes }.
Record TLVLeaf := MkLeaf { Tag : bytes; Value : bytes }.

Section Merkle.
Context `{CR : Crypto, TL : !Tlv, LN : !Lntypes}.

#[export] Instance TLVBranch_TaggedHash : node TLVBranch := fun t =>
  let msg := br_left t ++ br_right t in
  chainhash_TaggedHash BranchTag msg.

#[export] Instance TLVLeaf_TaggedHash : node TLVLeaf := fun t =>
  chainhash_TaggedHash (Tag t) (Value t).

(** orderNodes: the lesser hash first. *)
Definition orderNodes {A} `{node A} (left right : A) : bytes * bytes :=
  let leftHash := TaggedHash left in
  let rightHash := TaggedHash right in
  match bytes_Compare leftHash rightHash with
  | Gt => (rightHash, leftHash)
  | _ => (leftHash, rightHash)
  end.

Definition newBranch {A} `{node A} (l r : A) : TLVBranch :=
  let '(lesser, greater) := orderNodes l r in
  {| br_left := lesser; br_right := greater |}.

(** CalculateRoot: [for len(branches) != 1]. *)
Fixpoint CalculateRoot_loop (fuel : nat) (branches : list TLVBranch) : outcome bytes :=
  if bool_decide (len branches <> 1) then
    b0 ← index branches 0;
    b1 ← index branches 1;
    match fuel with
    | O => Diverge
    | S fuel' => CalculateRoot_loop fuel' (drop 2 branches ++ [newBranch b0 b1])
    end
  else
    b0 ← index branches 0;
    Ret (TaggedHash b0).

Definition CalculateRoot (branches : list TLVBranch) : outcome bytes :=
  CalculateRoot_loop (length branches) branches.

(** The loop of CreateTLVBranches, which steps by two. *)
Fixpoint branchLoop (leaves : list TLVLeaf) : list TLVBranch :=
  match leaves with
  | l0 :: l1 :: rest => newBranch l0 l1 :: branchLoop rest
  | _ => []
  end.

Definition CreateTLVBranches (leaves : list TLVLeaf) : outcome (list TLVBranch) :=
  if bool_decide (len leaves mod 2 <> 0) then Err (EWrap "leaves" ErrOddLeafNodes)
  else Ret (branchLoop leaves).

Definition createLeafPair (tlv allTLVs : bytes) : TLVLeaf * TLVLeaf :=
  ({| Tag := TLVTag; Value := tlv |},
   {| Tag := NonceTag ++ allTLVs; Value := tlv |}).

Definition isSignatureTLV (tlvType : Z) : bool :=
  bool_decide (tlvType >= signatureFieldStart) && bool_decide (tlvType <= signatureFieldEnd).

(** The loop of CreateTLVLeaves that serialises the records. *)
Fixpoint encodeLoop (encode : tlvRecord -> outcome bytes) (records : list tlvRecord)
    (encodedTLVs : list bytes) (allTLVs : bytes) : outcome (list bytes * bytes) :=
  match records with
  | [] => Ret (encodedTLVs, allTLVs)
  | record :: rest =>
      if isSignatureTLV (rec_Type record) then encodeLoop encode rest encodedTLVs allTLVs
      else
        tlvBytes ← wrap "encode tlv" (encode record);
        encodeLoop encode rest (encodedTLVs ++ [tlvBytes]) (allTLVs ++ tlvBytes)
  end.

Definition CreateTLVLeaves (records : list tlvRecord)
    (encode : tlvRecord -> outcome bytes) : outcome (list TLVLeaf) :=
  let records := SortRecords records in
  '(encodedTLVs, allTLVs) ← encodeLoop encode records [] [];
  Ret (concat (map (fun tlv =>
    let '(leaf, nonce) := createLeafPair tlv allTLVs in [leaf; nonce]) encodedTLVs)).

Definition encodeTLV (record : tlvRecord) : outcome bytes :=
  t ← wrap "encode type" (WriteVarInt (rec_Type record));
  l ← wrap "encode length" (WriteVarInt (rec_Size record));
  v ← wrap "encode value" (rec_Encode record);
  Ret (t ++ l ++ v).

Definition MerkleRoot (records : list tlvRecord) : outcome bytes :=
  leaves ← wrap "records" (CreateTLVLeaves records encodeTLV);
  if bool_decide (len leaves = 0) then Err ErrNoTLVs
  else
    branches ← wrap "leaves" (CreateTLVBranches leaves);
    hash ← CalculateRoot branches;
    MakeHash hash.

(** [len(tlvBytes)] of a type map entry. *)
Definition typemap_len (o : option bytes) : Z := len (default [] o).

(** The record of one iteration.  Its encoder is a closure over the loop
    variable [tlvBytes], of which the loop has only one (the module's language
    version is go 1.17): when the encoder runs, after the loop, the variable
    holds the bytes of the last iteration.  The size is computed in the
    iteration itself. *)
Definition unknownRecord (captured : bytes) (tlvType : Z) (tlvBytes : bytes) : tlvRecord :=
  {| rec_Type := tlvType; rec_Size := len tlvBytes; rec_Encode := Ret captured |}.

(** What the loop variable holds after the range loop. *)
Definition last_tlvBytes (entries : list (Z * option bytes)) : bytes :=
  match last entries with
  | Some (_, tlvBytes) => default [] tlvBytes
  | None => []
  end.

(** The entries in the order of the range loop. *)
Fixpoint unknownRecords (captured : bytes) (entries : list (Z * option bytes)) : list tlvRecord :=
  match entries with
  | [] => []
  | (tlvType, tlvBytes) :: rest =>
      if bool_decide (typemap_len tlvBytes = 0) then unknownRecords captured rest
      else unknownRecord captured tlvType (default [] tlvBytes) :: unknownRecords captured rest
  end.

Definition unknownRecordsFromParsed `{MapOrder} (parsedTypes : TypeMap) : list tlvRecord :=
  let entries := map_range parsedTypes in
  unknownRecords (last_tlvBytes entries) entries.

End Merkle.

(** ** Specification *)

Section Spec.
Context `{CR : Crypto, TL : !Tlv, LN : !Lntypes}.

(** The branch of one serialised record: its leaf and its nonce leaf. *)
Definition record_branch (allTLVs tlv : bytes) : TLVBranch :=
  newBranch (createLeafPair tlv allTLVs).1 (createLeafPair tlv allTLVs).2.

Definition unsigned (rs : raws) : raws := List.filter (fun r => negb (isSignatureTLV r.1)) rs.

(** The Merkle root of a list of raw records. *)
Definition raw_root (rs : raws) : outcome bytes :=
  match unsigned rs with
  | [] => Err ErrNoTLVs
  | us => CalculateRoot (map (fun r => record_branch (wire us) (wire [r])) us)
  end.

(** A record to encode represents a raw record. *)
Definition represents (r : tlvRecord) (raw : Z * bytes) : Prop :=
  rec_Type r = raw.1 /\ rec_Size r = len raw.2 /\ rec_Encode r = Ret raw.2.

(** Binary trees of branches, for the shape of the computation. *)
Inductive tree := Leaf (b : TLVBranch) | Node (l r : tree).

Fixpoint tree_branch (t : tree) : TLVBranch :=
  match t with
  | Leaf b => b
  | Node l r => newBranch (tree_branch l) (tree_branch r)
  end.

Fixpoint leaves (t : tree) : list TLVBranch :=
  match t with Leaf b => [b] | Node l r => leaves l ++ leaves r end.

Fixpoint perfect (k : nat) (t : tree) : Prop :=
  match k, t with
  | O, Leaf _ => True
  | S k', Node l r => perfect k' l /\ perfect k' r
  | _, _ => False
  end.

(** The tree level by level: adjacent nodes are paired from the left, and one
    that is left over goes to the front of the next level. *)
Fixpoint pair_up (ts : list tree) : list tree * option tree :=
  match ts with
  | x :: y :: rest => let '(pairs, over) := pair_up rest in (Node x y :: pairs, over)
  | [x] => ([], Some x)
  | [] => ([], None)
  end.

Definition next_level (ts : list tree) : list tree :=
  match pair_up ts with
  | (pairs, Some x) => x :: pairs
  | (pairs, None) => pairs
  end.

Fixpoint levels (n : nat) (ts : list tree) : option tree :=
  match ts, n with
  | [t], _ => Some t
  | _, O => None
  | _, S n => levels n (next_level ts)
  end.
End Spec.

(** ** The order of nodes *)

Section Facts.
Context `{CR : Crypto, TL : !Tlv, LN : !Lntypes}.

Lemma newBranch_comm {A} `{node A} (l r : A) : newBranch l r = newBranch r l.
Proof.
  unfold newBranch, orderNodes.
  rewrite (bytes_Compare_antisym (TaggedHash l) (TaggedHash r)).
  destruct (bytes_Compare (TaggedHash l) (TaggedHash r)) eqn:E; cbn; try done.
  apply bytes_Compare_eq in E. by rewrite E.
Qed.

(** ** Combining branches *)

Lemma CalculateRoot_step fuel b0 b1 rest :
  CalculateRoot_loop (S fuel) (b0 :: b1 :: rest)
  = CalculateRoot_loop fuel (rest ++ [newBranch b0 b1]).
Proof. cbn. rewrite bool_decide_true by (unfold len; cbn; lia). done. Qed.

Lemma CalculateRoot_loop_returns n : forall branches,
  length branches = S n -> returns (CalculateRoot_loop (S n) branches).
Proof.
  induction n as [|n IH]; intros branches Hlen.
  - destruct branches as [|b [|? ?]]; try discriminate. eexists. reflexivity.
  - destruct branches as [|b0 [|b1 rest]]; try discriminate.
    rewrite CalculateRoot_step. apply IH. rewrite length_app. cbn in *. lia.
Qed.

(** One extra unit of fuel changes nothing once the loop is done. *)
Lemma CalculateRoot_loop_fuel n : forall m branches,
  length branches = S n -> (n <= m)%nat ->
  CalculateRoot_loop m branches = CalculateRoot_loop n branches.
Proof.
  induction n as [|n IH]; intros m branches Hlen Hm.
  - destruct branches as [|b [|? ?]]; try discriminate. by destruct m.
  - destruct branches as [|b0 [|b1 rest]]; try discriminate.
    destruct m as [|m]; [lia|]. rewrite !CalculateRoot_step.
    apply IH; [rewrite length_app; cbn in *; lia | lia].
Qed.

(** A whole level of pairs is combined before its results are. *)
Lemma CalculateRoot_level (ps : list (TLVBranch * TLVBranch)) : forall acc fuel,
  acc <> [] \/ ps <> [] ->
  CalculateRoot_loop (length ps + fuel) (concat (map (fun p => [p.1; p.2]) ps) ++ acc)
  = CalculateRoot_loop fuel (acc ++ map (fun p => newBranch p.1 p.2) ps).
Proof.
  induction ps as [|[b0 b1] ps IH]; intros acc fuel Hne; cbn [concat map].
  - cbn. by rewrite app_nil_r.
  - rewrite <- app_assoc. cbn [app]. cbn [length Nat.add fst snd].
    rewrite CalculateRoot_step, <- app_assoc, IH.
    + by rewrite <- app_assoc.
    + left. by destruct acc.
Qed.

Lemma CalculateRoot_pairs (ps : list (TLVBranch * TLVBranch)) :
  ps <> [] ->
  CalculateRoot (concat (map (fun p => [p.1; p.2]) ps))
  = CalculateRoot (map (fun p => newBranch p.1 p.2) ps).
Proof.
  intros Hne. unfold CalculateRoot.
  assert (length (concat (map (fun p : TLVBranch * TLVBranch => [p.1; p.2]) ps))
          = (length ps + length ps)%nat) as ->.
  { clear Hne. induction ps; cbn; [done|]. rewrite IHps. lia. }
  rewrite <- (app_nil_r (concat _)), CalculateRoot_level by auto.
  cbn. by rewrite length_map.
Qed.

(** The subtrees at depth [d], left to right. *)
Fixpoint cut (d : nat) (t : tree) : list tree :=
  match d, t with
  | S d', Node l r => cut d' l ++ cut d' r
  | _, _ => [t]
  end.

Lemma cut_leaves k : forall t, perfect k t -> map tree_branch (cut k t) = leaves t.
Proof.
  induction k as [|k IH]; intros [b|l r]; cbn; try done.
  intros [Hl Hr]. by rewrite map_app, !IH.
Qed.

Lemma cut_nonempty d t : cut d t <> [].
Proof.
  revert t. induction d as [|d IH]; intros [b|l r]; cbn; try done.
  intros [E _]%app_nil. by apply (IH l).
Qed.

Lemma cut_step d : forall k t, perfect (S d + k) t ->
  exists ps, cut (S d) t = concat (map (fun p => [p.1; p.2]) ps)
             /\ cut d t = map (fun p => Node p.1 p.2) ps.
Proof.
  induction d as [|d IH]; intros k [b|l r]; try done.
  - intros _. exists [(l, r)]. by destruct l, r.
  - intros [Hl Hr]. destruct (IH k l Hl) as (pl & El & El').
    destruct (IH k r Hr) as (pr & Er & Er').
    exists (pl ++ pr). change (cut (S (S d)) (Node l r)) with (cut (S d) l ++ cut (S d) r).
    change (cut (S d) (Node l r)) with (cut d l ++ cut d r).
    rewrite El, Er, map_app, concat_app, El', Er', map_app. done.
Qed.

Lemma CalculateRoot_cut d : forall k t, perfect (d + k) t ->
  CalculateRoot (map tree_branch (cut d t)) = Ret (TaggedHash (tree_branch t)).
Proof.
  induction d as [|d IH]; intros k t Hp; [done|].
  destruct (cut_step d k t Hp) as (ps & E & E').
  assert (map tree_branch (cut (S d) t)
          = concat (map (fun p => [p.1; p.2])
              (map (fun p => (tree_branch p.1, tree_branch p.2)) ps))) as ->.
  { rewrite E. clear. induction ps as [|[l r] ps IH]; cbn; [done|]. by rewrite <- IH. }
  rewrite CalculateRoot_pairs.
  - rewrite map_map. cbn. rewrite <- (IH (S k) t).
    + rewrite E', map_map. done.
    + by rewrite Nat.add_succ_r.
  - intros Hnil. apply map_eq_nil in Hnil. subst. by apply (cut_nonempty d t).
Qed.

Lemma pair_up_spec n : forall ts, (length ts <= n)%nat -> exists (ps : list (tree * tree)) acc,
  pair_up ts = (map (fun p => Node p.1 p.2) ps, head acc) /\ (length acc <= 1)%nat
  /\ ts = concat (map (fun p => [p.1; p.2]) ps) ++ acc.
Proof.
  induction n as [|n IH]; intros [|x [|y rest]] Hn; cbn in Hn; try lia.
  - exists [], []. cbn. repeat split; lia.
  - exists [], []. cbn. repeat split; lia.
  - exists [], [x]. by repeat split.
  - destruct (IH rest) as (ps & acc & E & Ha & Er); [lia|]. exists ((x, y) :: ps), acc.
    cbn [pair_up]. rewrite E. split; [done|]. split; [done|]. by rewrite Er.
Qed.

Lemma next_level_spec ts : exists (ps : list (tree * tree)) acc,
  next_level ts = acc ++ map (fun p => Node p.1 p.2) ps /\ (length acc <= 1)%nat
  /\ ts = concat (map (fun p => [p.1; p.2]) ps) ++ acc.
Proof.
  destruct (pair_up_spec (length ts) ts (le_n _)) as (ps & acc & E & Ha & Et).
  exists ps, acc. split; [|done]. unfold next_level. rewrite E.
  destruct acc as [|x [|? ?]]; cbn in *; try done; lia.
Qed.

Lemma pairs_length {A} (ps : list (A * A)) :
  length (concat (map (fun p => [p.1; p.2]) ps)) = (length ps + length ps)%nat.
Proof. induction ps as [|p ps IH]; [done|]. cbn. rewrite IH. lia. Qed.

Lemma CalculateRoot_next_level ts : (2 <= length ts)%nat ->
  CalculateRoot (map tree_branch ts) = CalculateRoot (map tree_branch (next_level ts))
  /\ (length (next_level ts) < length ts)%nat /\ next_level ts <> []
  /\ Permutation (concat (map leaves (next_level ts))) (concat (map leaves ts)).
Proof.
  intros Hl. destruct (next_level_spec ts) as (ps & acc & -> & Ha & ->).
  rewrite length_app, pairs_length in Hl.
  assert (ps <> []) as Hps by (intros ->; cbn in Hl; lia).
  assert (0 < length ps)%nat by (destruct ps; [done | cbn; lia]).
  split; [|split; [|split]].
  - unfold CalculateRoot. rewrite !length_map, !length_app, pairs_length, length_map.
    rewrite !map_app.
    set (qs := map (fun p => (tree_branch p.1, tree_branch p.2)) ps).
    assert (map tree_branch (concat (map (fun p => [p.1; p.2]) ps))
            = concat (map (fun p => [p.1; p.2]) qs)) as ->.
    { subst qs. clear. induction ps as [|[l r] ps IH]; cbn; [done|]. by rewrite <- IH. }
    assert (map tree_branch (map (fun p => Node p.1 p.2) ps)
            = map (fun p => newBranch p.1 p.2) qs) as ->.
    { subst qs. by rewrite !map_map. }
    replace (length ps + length ps + length acc)%nat with (length qs + (length acc + length ps))%nat
      by (subst qs; rewrite length_map; lia).
    apply CalculateRoot_level. right. subst qs. by destruct ps.
  - rewrite !length_app, pairs_length, length_map. lia.
  - intros [_ E]%app_nil. by apply map_eq_nil in E.
  - rewrite !map_app, !concat_app, Permutation_app_comm. f_equiv. clear.
    induction ps as [|[l r] ps IH]; cbn; [done|]. by rewrite <- app_assoc, IH.
Qed.

Lemma levels_root n : forall ts, (length ts <= n)%nat -> ts <> [] ->
  exists t, levels n ts = Some t /\ CalculateRoot (map tree_branch ts) = Ret (TaggedHash (tree_branch t))
    /\ Permutation (leaves t) (concat (map leaves ts)).
Proof.
  induction n as [|n IH]; intros ts Hn Hne; [by destruct ts; cbn in Hn; [|lia]|].
  destruct ts as [|t [|t' ts]]; [done| |].
  - exists t. split; [done|]. split; [done|]. cbn. by rewrite app_nil_r.
  - destruct (CalculateRoot_next_level (t :: t' :: ts)) as (E & L & N & P); [cbn; lia|].
    destruct (IH (next_level (t :: t' :: ts))) as (r & Er & Ec & Ep); [cbn in *; lia | done |].
    exists r. split; [done|]. rewrite E. split; [done|]. by rewrite Ep.
Qed.

End Facts.

Arguments tree : clear implicits.

(** ** The root as a function of the raw records *)

Section Root.
Context `{CR : Crypto, CL : !CryptoLaws, TL : !Tlv, TLL : !TlvLaws,
          LN : !Lntypes, LNL : !LntypesLaws}.

(** Sorting a set of records with distinct types has one result. *)
Lemma SortRecords_increasing recs recs' :
  Permutation recs recs' -> increasing (map rec_Type recs') -> SortRecords recs = recs'.
Proof.
  intros P S. apply (sorted_unique rec_Type); auto using SortRecords_sorted.
  by rewrite SortRecords_perm.
Qed.

Lemma encodeTLV_wire r raw :
  represents r raw -> u64 raw.1 -> u64 (len raw.2) -> encodeTLV r = Ret (wire [raw]).
Proof.
  destruct raw as [t b]. intros (Ht & Hs & He) H1 H2. unfold encodeTLV. cbn in *.
  rewrite Ht, Hs, He, !WriteVarInt_bytes by done. cbn. by rewrite app_nil_r.
Qed.

Lemma wire_app (a b : raws) : wire (a ++ b) = wire a ++ wire b.
Proof. unfold wire. by rewrite map_app, concat_app. Qed.

Lemma wire_cons_app r (rs : raws) : wire (r :: rs) = wire [r] ++ wire rs.
Proof. apply (wire_app [r]). Qed.

Lemma encodeLoop_wire recs (rs : raws) : forall acc all,
  Forall2 represents recs rs -> Forall (fun r => u64 r.1 /\ u64 (len r.2)) rs ->
  encodeLoop encodeTLV recs acc all
  = Ret (acc ++ map (fun r => wire [r]) (unsigned rs), all ++ wire (unsigned rs)).
Proof.
  intros acc all F. revert acc all.
  induction F as [|r raw recs rs Hr F IH]; intros acc all W; cbn [encodeLoop unsigned List.filter].
  - cbn. by rewrite !app_nil_r.
  - inversion W as [|? ? [H1 H2] W']; subst. rewrite (proj1 Hr).
    unfold unsigned in *. destruct (isSignatureTLV raw.1) eqn:E; cbn [negb]; [by apply IH|].
    rewrite (encodeTLV_wire _ _ Hr H1 H2). cbn [wrap mbind outcome_bind].
    rewrite IH by done. cbn [map].
    by rewrite (wire_cons_app raw (List.filter _ _)), <- !app_assoc.
Qed.

(** The leaves come in pairs, so the branches are one per record. *)
Lemma CreateTLVBranches_pairs all (tlvs : list bytes) :
  CreateTLVBranches (concat (map (fun tlv =>
    let '(leaf, nonce) := createLeafPair tlv all in [leaf; nonce]) tlvs))
  = Ret (map (record_branch all) tlvs).
Proof.
  unfold CreateTLVBranches.
  match goal with |- context [concat ?m] =>
    assert (len (concat m) = 2 * len tlvs) as -> end.
  { unfold len. induction tlvs as [|t r IH]; [done|]. cbn [map concat createLeafPair] in IH |- *.
    rewrite length_app. cbn [length]. lia. }
  rewrite bool_decide_false by (rewrite Z.mul_comm, Z.mod_mul; lia). f_equal.
  induction tlvs as [|t r IH]; [done|]. cbn. f_equal. exact IH.
Qed.

Lemma CalculateRoot_returns branches :
  branches <> [] -> returns (CalculateRoot branches).
Proof.
  intros Hne. unfold CalculateRoot.
  destruct (length branches) as [|n] eqn:E; [by destruct branches|].
  by apply CalculateRoot_loop_returns.
Qed.

Lemma CalculateRoot_loop_hash n : forall branches h,
  CalculateRoot_loop n branches = Ret h -> is_hash h.
Proof.
  induction n as [|n IH]; intros branches h; cbn [CalculateRoot_loop]; case_bool_decide;
    intros Hr; go_inv; try apply TaggedHash_length. eauto.
Qed.

Lemma MerkleRoot_hash recs h : MerkleRoot recs = Ret h -> is_hash h.
Proof.
  unfold MerkleRoot. intros H. go_inv. case_bool_decide; [done|]. go_inv.
  match goal with E : CalculateRoot _ = Ret _ |- _ => apply CalculateRoot_loop_hash in E end.
  rewrite MakeHash_ok in H by done. by injection H as <-.
Qed.

Lemma MerkleRoot_raw recs recs' (rs : raws) :
  Permutation recs recs' -> Forall2 represents recs' rs -> raws_wf rs ->
  MerkleRoot recs = raw_root rs.
Proof.
  intros P F [S W].
  assert (map rec_Type recs' = map fst rs) as Et.
  { clear -F. induction F as [|r raw l l' [E _] _ IH]; cbn; [done|]. by rewrite E, IH. }
  unfold MerkleRoot, CreateTLVLeaves.
  rewrite (SortRecords_increasing _ _ P) by (by rewrite Et).
  rewrite (encodeLoop_wire _ _ _ _ F W). cbn [app mbind outcome_bind wrap].
  unfold raw_root. destruct (unsigned rs) as [|r us] eqn:E; [done|].
  rewrite bool_decide_false by (unfold len; cbn; lia).
  rewrite CreateTLVBranches_pairs. cbn [mbind outcome_bind wrap].
  rewrite map_map.
  match goal with |- context [CalculateRoot ?bs] =>
    assert (bs <> []) as Hne by done;
    destruct (CalculateRoot_returns bs Hne) as [h Hh]; rewrite Hh end.
  cbn. apply MakeHash_ok. by apply CalculateRoot_loop_hash in Hh.
Qed.

Lemma unknownRecords_elem captured entries r :
  r ∈ unknownRecords captured entries <->
  exists t b, (t, Some b) ∈ entries /\ b <> [] /\ r = unknownRecord captured t b.
Proof.
  induction entries as [|[t o] rest IH]; cbn [unknownRecords].
  - split; [by intros ?%elem_of_nil|]. by intros (? & ? & ?%elem_of_nil & _).
  - case_bool_decide as N; [|rewrite elem_of_cons]; rewrite IH; split.
    + intros (t' & b & H & ?). exists t', b. by rewrite elem_of_cons; auto.
    + intros (t' & b & [[= <- <-]|H]%elem_of_cons & Hb & ?); [|by exists t', b].
      by apply len_nil_inv in N.
    + intros [->|(t' & b & H & ?)].
      * destruct o as [b|]; [|done]. exists t, b. rewrite elem_of_cons.
        split; [by left|]. split; [by intros ->|done].
      * exists t', b. by rewrite elem_of_cons; auto.
    + intros (t' & b & [[= <- <-]|H]%elem_of_cons & Hb & ->); [by left|].
      right. by exists t', b.
Qed.

Lemma raw_root_returns (rs : raws) : unsigned rs <> [] -> returns (raw_root rs).
Proof.
  unfold raw_root. destruct (unsigned rs) as [|r us]; [done|]. intros _.
  by apply CalculateRoot_returns.
Qed.

Lemma raw_root_settles (rs : raws) : settles (raw_root rs).
Proof.
  unfold raw_root. destruct (unsigned rs) as [|r us]; [apply settles_Err|].
  left. by apply CalculateRoot_returns.
Qed.
End Root.

(** ** Properties *)

Section Properties.
Context `{CR : Crypto, CL : !CryptoLaws, TL : !Tlv, TLL : !TlvLaws,
          LN : !Lntypes, LNL : !LntypesLaws}.

(** C4: MerkleRoot depends only on the set of raw records it is given: whatever
    the order of the records, the result is [raw_root] of the type-ordered raw
    records, that is the combination of one branch per record outside the
    signature range, each leaf tagged with the concatenation of those records. *)
Theorem MerkleRoot_spec recs sorted (rs : raws) :
  Permutation recs sorted -> Forall2 represents sorted rs -> raws_wf rs ->
  MerkleRoot recs = raw_root rs.
Proof. apply MerkleRoot_raw. Qed.

(** Signatures are not part of the root: two sets of records that agree on
    the records outside the range 240 to 1000 have the same Merkle root. *)
Theorem MerkleRoot_ignores_signatures recs1 sorted1 recs2 sorted2 (rs1 rs2 : raws) :
  Permutation recs1 sorted1 -> Forall2 represents sorted1 rs1 -> raws_wf rs1 ->
  Permutation recs2 sorted2 -> Forall2 represents sorted2 rs2 -> raws_wf rs2 ->
  unsigned rs1 = unsigned rs2 ->
  MerkleRoot recs1 = MerkleRoot recs2.
Proof.
  intros P1 F1 W1 P2 F2 W2 E.
  rewrite (MerkleRoot_raw _ _ _ P1 F1 W1), (MerkleRoot_raw _ _ _ P2 F2 W2).
  unfold raw_root. by rewrite E.
Qed.

(** MerkleRoot fails on well-formed records exactly when all of them are
    signatures, with ErrNoTLVs, and otherwise returns a 32 byte hash: the loop
    over the branches ends and no index is out of range. *)
Theorem MerkleRoot_total recs sorted (rs : raws) :
  Permutation recs sorted -> Forall2 represents sorted rs -> raws_wf rs ->
  (unsigned rs = [] /\ MerkleRoot recs = Err ErrNoTLVs)
  \/ (unsigned rs <> [] /\ exists h, MerkleRoot recs = Ret h /\ is_hash h).
Proof.
  intros P F W. rewrite (MerkleRoot_raw _ _ _ P F W). unfold raw_root.
  destruct (unsigned rs) as [|r us]; [by left|]. right. split; [done|].
  match goal with |- context [CalculateRoot ?bs] =>
    destruct (CalculateRoot_returns bs) as [h Hh]; [done|] end.
  exists h. split; [done|]. by apply CalculateRoot_loop_hash in Hh.
Qed.

(** The loop of CalculateRoot, run with one unit of fuel per branch, never
    runs out of fuel, and it indexes out of range only when it is called with
    no branch at all. *)
Theorem CalculateRoot_terminates branches :
  (branches = [] /\ CalculateRoot branches = Panic "index out of range")
  \/ (branches <> [] /\ returns (CalculateRoot branches)).
Proof.
  destruct branches as [|b r]; [left; split; reflexivity|]. right. split; [done|].
  by apply CalculateRoot_returns.
Qed.

(** C5: CalculateRoot, which takes branches off a queue, computes the hash of
    the tree that is built level by level: adjacent nodes are paired from the
    left, the lesser hash first, and a node left over by an odd level is the
    first of the next.  The leaves of the tree are the branches.  With five
    branches it is not the deepest tree that has the branches of lowest order. *)
Theorem CalculateRoot_levels (branches : list TLVBranch) :
  branches <> [] ->
  (exists t, levels (length branches) (map Leaf branches) = Some t
     /\ CalculateRoot branches = Ret (TaggedHash (tree_branch t))
     /\ Permutation (leaves t) branches)
  /\ forall a b c d e, branches = [a; b; c; d; e] ->
     CalculateRoot branches
     = Ret (TaggedHash (tree_branch
              (Node (Node (Leaf c) (Leaf d)) (Node (Leaf e) (Node (Leaf a) (Leaf b)))))).
Proof.
  intros Hne. split; [|by intros a b c d e ->].
  destruct (levels_root (length branches) (map Leaf branches)) as (t & E & Ec & Ep).
  - by rewrite length_map.
  - by intros ?%map_eq_nil.
  - exists t. split; [done|]. rewrite map_map, map_id in Ec. split; [done|]. rewrite Ep.
    clear. induction branches as [|b bs IH]; [done|]. cbn. by constructor.
Qed.

(** On the leaves of a perfect binary tree the queue of CalculateRoot
    computes the hash of that tree: adjacent branches are combined level by
    level, the lesser hash first. *)
Theorem CalculateRoot_perfect k t :
  perfect k t -> CalculateRoot (leaves t) = Ret (TaggedHash (tree_branch t)).
Proof.
  intros Hp. rewrite <- (cut_leaves k t Hp).
  apply (CalculateRoot_cut k 0). by rewrite Nat.add_0_r.
Qed.

(** The records made from the unknown types of a parsed stream all encode
    the same bytes, those of the last entry the map was ranged over: when two
    unknown records have different values, whatever the iteration order one of
    them is not encoded with its own value. *)
Theorem unknownRecords_share_value `{MO : MapOrder, MOL : !MapOrderLaws} (parsed : TypeMap)
    (t1 t2 : Z) (b1 b2 : bytes) :
  parsed !! t1 = Some (Some b1) -> parsed !! t2 = Some (Some b2) ->
  b1 <> [] -> b2 <> [] -> b1 <> b2 ->
  (forall r, r ∈ unknownRecordsFromParsed parsed ->
     rec_Encode r = Ret (last_tlvBytes (map_range parsed))) /\
  exists r b, r ∈ unknownRecordsFromParsed parsed /\
    parsed !! rec_Type r = Some (Some b) /\ rec_Encode r <> Ret b.
Proof.
  intros P1 P2 N1 N2 Nb. unfold unknownRecordsFromParsed. split.
  { intros r Hr. by apply unknownRecords_elem in Hr as (? & ? & _ & _ & ->). }
  assert (forall t b, parsed !! t = Some (Some b) -> b <> [] ->
    unknownRecord (last_tlvBytes (map_range parsed)) t b
    ∈ unknownRecords (last_tlvBytes (map_range parsed)) (map_range parsed)) as In.
  { intros t b Hp Hb. apply unknownRecords_elem. exists t, b.
    split; [|done]. rewrite map_range_perm. by apply elem_of_map_to_list. }
  destruct (decide (last_tlvBytes (map_range parsed) = b1)) as [E|N].
  - exists (unknownRecord (last_tlvBytes (map_range parsed)) t2 b2), b2.
    split; [by apply In|]. split; [done|]. cbn. rewrite E. congruence.
  - exists (unknownRecord (last_tlvBytes (map_range parsed)) t1 b1), b1.
    split; [by apply In|]. split; [done|]. cbn. congruence.
Qed.

End Properties.

(** ** Witnesses *)

Definition w_parsed : TypeMap := {[ 10 := None; 1001 := Some (lit "x"); 1003 := Some (lit "yz") ]}.

Lemma unknownRecords_share_value_witness :
  (forall r, r ∈ unknownRecordsFromParsed w_parsed ->
     rec_Encode r = Ret (last_tlvBytes (map_range w_parsed))) /\
  exists r b, r ∈ unknownRecordsFromParsed w_parsed /\
    w_parsed !! rec_Type r = Some (Some b) /\ rec_Encode r <> Ret b.
Proof.
  apply (unknownRecords_share_value w_parsed 1001 1003 (lit "x") (lit "yz"));
    first [reflexivity | discriminate].
Defined.

Definition w_raws : raws := [(2, lit "ab"); (10, lit "cde"); (240, lit "sig")].
Definition w_record (r : Z * bytes) : tlvRecord := MkRecord r.1 (len r.2) (Ret r.2).
Definition w_records : list tlvRecord := map w_record w_raws.
Definition w_unsorted : list tlvRecord :=
  [w_record (240, lit "sig"); w_record (2, lit "ab"); w_record (10, lit "cde")].

Lemma w_raws_wf : raws_wf w_raws.
Proof. split; repeat constructor; cbn; try lia; unfold u64, len; cbn; lia. Qed.

Lemma w_represents : Forall2 represents w_records w_raws.
Proof. repeat constructor. Qed.

Lemma w_perm : Permutation w_unsorted w_records.
Proof.
  exact (Permutation_cons_append [w_record (2, lit "ab"); w_record (10, lit "cde")]
           (w_record (240, lit "sig"))).
Qed.

Lemma MerkleRoot_spec_witness : MerkleRoot w_unsorted = raw_root w_raws.
Proof.
  apply (MerkleRoot_spec w_unsorted w_records w_raws);
    [exact w_perm | exact w_represents | exact w_raws_wf].
Defined.

Lemma MerkleRoot_ignores_signatures_witness :
  MerkleRoot w_unsorted = MerkleRoot (take 2 w_records).
Proof.
  apply (MerkleRoot_ignores_signatures w_unsorted w_records (take 2 w_records)
           (take 2 w_records) w_raws (take 2 w_raws));
    [exact w_perm | exact w_represents | exact w_raws_wf | reflexivity
    | repeat constructor | split; repeat constructor; cbn; try lia; unfold u64, len; cbn; lia
    | reflexivity].
Defined.

Lemma MerkleRoot_total_witness :
  (unsigned w_raws = [] /\ MerkleRoot w_unsorted = Err ErrNoTLVs)
  \/ (unsigned w_raws <> [] /\ exists h, MerkleRoot w_unsorted = Ret h /\ is_hash h).
Proof.
  apply (MerkleRoot_total w_unsorted w_records w_raws);
    [exact w_perm | exact w_represents | exact w_raws_wf].
Defined.

Definition w_branch (s : bytes) : TLVBranch := record_branch (lit "all") s.
Definition w_tree : tree :=
  Node (Node (Leaf (w_branch (lit "a"))) (Leaf (w_branch (lit "b"))))
       (Node (Leaf (w_branch (lit "c"))) (Leaf (w_branch (lit "d")))).

Definition w_odd_tree : tree := Node (Node w_tree w_tree) (Leaf (MkBranch (lit "a") (lit "b"))).

Lemma CalculateRoot_levels_witness :
  exists t, levels (length (leaves w_odd_tree)) (map Leaf (leaves w_odd_tree)) = Some t
    /\ CalculateRoot (leaves w_odd_tree) = Ret (TaggedHash (tree_branch t)).
Proof.
  destruct (CalculateRoot_levels (leaves w_odd_tree)) as [(t & E & Ec & _) _]; [discriminate|].
  exists t. split; [exact E | exact Ec].
Defined.

Lemma CalculateRoot_perfect_witness :
  perfect 2 w_tree /\ CalculateRoot (leaves w_tree) = Ret (TaggedHash (tree_branch w_tree)).
Proof. split; [repeat split|]. apply (CalculateRoot_perfect 2). repeat split. Defined.
