(* ===== verification/Bolt12Tree.v ===== *)
(** The Merkle tree of BOLT 12, written down from the specification and apart
    from the code: leaves and branches as tagged hashes with the lesser hash
    first, each record paired with a nonce leaf tagged with all of the records,
    and the deepest subtree on the records of the lowest order.  The root that
    src/lnwire/bolt12_merkle.go (Merkle.v) computes is the root of this tree
    whenever the number of records is a power of two, or three times one. *)
From S2P Require Import Prelude Deps Tu64 DepsRef Stream Merkle.

(** ** The specification *)

Section Bolt12.
Context `{CR : Crypto, TL : !Tlv, LN : !Lntypes}.

Definition bolt12_branch (x y : bytes) : bytes :=
  chainhash_TaggedHash (lit "LnBranch")
    match bytes_Compare x y with Gt => y ++ x | _ => x ++ y end.

(** A record: the leaf of its bytes, and the nonce leaf beside it. *)
Definition bolt12_leaf (allTLVs tlv : bytes) : bytes :=
  bolt12_branch (chainhash_TaggedHash (lit "LnLeaf") tlv)
                (chainhash_TaggedHash (lit "LnAll" ++ allTLVs) tlv).

(** The left subtree has the largest power of two that leaves some for the
    right one. *)
Definition bolt12_split (n : nat) : nat := 2 ^ Nat.log2 (n - 1).

Fixpoint bolt12_tree (fuel : nat) (hs : list bytes) : bytes :=
  match hs, fuel with
  | [], _ => []
  | [h], _ => h
  | _, O => []
  | _, S fuel =>
      let k := bolt12_split (length hs) in
      bolt12_branch (bolt12_tree fuel (take k hs)) (bolt12_tree fuel (drop k hs))
  end.

Definition bolt12_root (hs : list bytes) : bytes := bolt12_tree (length hs) hs.

(** The root of a stream of records, the signatures left out. *)
Definition bolt12_merkle (rs : raws) : bytes :=
  let tlvs := map (fun r => wire [r]) (unsigned rs) in
  bolt12_root (map (bolt12_leaf (concat tlvs)) tlvs).

(** ** The tree *)

Lemma bolt12_split_bounds n : (2 <= n)%nat -> (1 <= bolt12_split n < n)%nat.
Proof.
  intros Hn. unfold bolt12_split.
  pose proof (Nat.log2_spec (n - 1) ltac:(lia)). pose proof (Nat.pow_nonzero 2 (Nat.log2 (n - 1))).
  lia.
Qed.

Lemma bolt12_split_pow k : bolt12_split (2 ^ S k) = (2 ^ k)%nat.
Proof.
  unfold bolt12_split. rewrite (Nat.log2_unique' _ k (2 ^ k - 1)); [done | lia | |];
    pose proof (Nat.pow_nonzero 2 k); cbn [Nat.pow]; lia.
Qed.

Lemma bolt12_split_three k : bolt12_split (3 * 2 ^ k) = (2 ^ S k)%nat.
Proof.
  unfold bolt12_split. rewrite (Nat.log2_unique' _ (S k) (2 ^ k - 1)); [done | lia | |];
    pose proof (Nat.pow_nonzero 2 k); cbn [Nat.pow]; lia.
Qed.

Lemma bolt12_tree_step n hs : (2 <= length hs)%nat ->
  bolt12_tree (S n) hs
  = bolt12_branch (bolt12_tree n (take (bolt12_split (length hs)) hs))
                  (bolt12_tree n (drop (bolt12_split (length hs)) hs)).
Proof. destruct hs as [|x [|y hs]]; cbn [length]; [lia | lia | done]. Qed.

(** A unit of fuel for each hash is enough, *)
Lemma bolt12_tree_fuel n : forall m hs, (length hs <= n)%nat -> (n <= m)%nat ->
  bolt12_tree m hs = bolt12_tree n hs.
Proof.
  induction n as [|n IH]; intros m hs Hn Hm; destruct (decide (2 <= length hs)%nat) as [H2|H2];
    try lia; try (destruct hs as [|x [|y hs]]; cbn in Hn, H2; try lia; by destruct m).
  destruct m as [|m]; [lia|]. pose proof (bolt12_split_bounds _ H2) as B.
  rewrite !bolt12_tree_step, !(IH m) by (rewrite ?length_take, ?length_drop; lia). done.
Qed.

(** so that the root is that of the two subtrees. *)
Lemma bolt12_root_split hs k :
  bolt12_split (length hs) = k -> (2 <= length hs)%nat ->
  bolt12_root hs = bolt12_branch (bolt12_root (take k hs)) (bolt12_root (drop k hs)).
Proof.
  intros <- H2. pose proof (bolt12_split_bounds _ H2) as B. unfold bolt12_root.
  replace (length hs) with (S (length hs - 1)) at 1 by lia. rewrite bolt12_tree_step by lia.
  f_equal; apply bolt12_tree_fuel; rewrite ?length_take, ?length_drop; lia.
Qed.

(** ** The nodes of the code are those of the specification *)

Lemma newBranch_hash {A} `{node A} (l r : A) :
  TaggedHash (newBranch l r) = bolt12_branch (TaggedHash l) (TaggedHash r).
Proof.
  unfold newBranch, orderNodes, bolt12_branch.
  by destruct (bytes_Compare (TaggedHash l) (TaggedHash r)).
Qed.

Lemma record_branch_hash all tlv : TaggedHash (record_branch all tlv) = bolt12_leaf all tlv.
Proof. unfold record_branch. by rewrite newBranch_hash. Qed.

Lemma wire_concat (rs : raws) : wire rs = concat (map (fun r => wire [r]) rs).
Proof. induction rs as [|r rs IH]; [done|]. rewrite wire_cons_app, IH. done. Qed.

(** A power of two of branches are the leaves of a perfect tree, whose hash is
    the root of the specification. *)
Lemma perfect_tree k : forall bs : list TLVBranch, length bs = (2 ^ k)%nat ->
  exists t, perfect k t /\ leaves t = bs
    /\ TaggedHash (tree_branch t) = bolt12_root (map TaggedHash bs).
Proof.
  induction k as [|k IH]; intros bs Hlen.
  - destruct bs as [|b [|? ?]]; try done. by exists (Leaf b).
  - pose proof (bolt12_split_pow k) as Sp. pose proof (Nat.pow_nonzero 2 k).
    destruct (IH (take (2 ^ k) bs)) as (tl & Pl & Ll & Hl);
      [rewrite length_take; cbn [Nat.pow] in Hlen; lia|].
    destruct (IH (drop (2 ^ k) bs)) as (tr & Pr & Lr & Hr);
      [rewrite length_drop; cbn [Nat.pow] in Hlen; lia|].
    exists (Node tl tr). split; [done|]. split; [cbn; rewrite Ll, Lr; apply take_drop|].
    cbn [tree_branch]. rewrite newBranch_hash, Hl, Hr, <- !firstn_map, <- !skipn_map.
    symmetry. apply bolt12_root_split; rewrite length_map, Hlen; cbn [Nat.pow] in *; lia.
Qed.

(** The queue combines perfect trees of one height before their roots. *)
Lemma CalculateRoot_forest k : forall ts, ts <> [] -> Forall (perfect k) ts ->
  CalculateRoot (concat (map leaves ts)) = CalculateRoot (map tree_branch ts).
Proof.
  induction k as [|k IH]; intros ts Hne F.
  - f_equal. clear Hne. induction F as [|[b|l r] ts P F E]; try done. cbn. by f_equal.
  - assert (exists ps : list (tree * tree), ts = map (fun p => Node p.1 p.2) ps) as [ps ->].
    { clear Hne IH. induction F as [|[b|l r] ts P F [ps ->]]; [by exists [] | done |].
      by exists ((l, r) :: ps). }
    assert (ps <> []) as Hps by (by intros ->). clear Hne.
    transitivity (CalculateRoot (concat (map leaves (concat (map (fun p => [p.1; p.2]) ps))))).
    { f_equal. clear. induction ps as [|p ps E]; [done|]. cbn. by rewrite E, app_assoc. }
    rewrite IH.
    + assert (map tree_branch (concat (map (fun p => [p.1; p.2]) ps))
              = concat (map (fun p => [p.1; p.2])
                  (map (fun p => (tree_branch p.1, tree_branch p.2)) ps))) as ->
        by (clear; induction ps as [|p ps E]; cbn; congruence).
      rewrite CalculateRoot_pairs, !map_map by (by intros ?%map_eq_nil). done.
    + by destruct ps.
    + clear IH Hps. induction ps as [|p ps E]; [constructor|].
      inversion F as [|? ? P F']; subst. destruct P. cbn. auto.
Qed.

Lemma CalculateRoot_pow k (bs : list TLVBranch) : length bs = (2 ^ k)%nat ->
  CalculateRoot bs = Ret (bolt12_root (map TaggedHash bs)).
Proof.
  intros (t & P & L & H)%perfect_tree. rewrite <- H, <- L.
  rewrite <- (app_nil_r (leaves t)). apply (CalculateRoot_forest k [t]); auto.
Qed.

Lemma CalculateRoot_three k (bs : list TLVBranch) : length bs = (3 * 2 ^ k)%nat ->
  CalculateRoot bs = Ret (bolt12_root (map TaggedHash bs)).
Proof.
  intros Hlen. pose proof (Nat.pow_nonzero 2 k).
  destruct (perfect_tree (S k) (take (2 ^ S k) bs)) as (t12 & P12 & L12 & H12);
    [rewrite length_take; cbn [Nat.pow]; lia|].
  destruct (perfect_tree k (drop (2 ^ S k) bs)) as (t3 & P3 & L3 & H3);
    [rewrite length_drop; cbn [Nat.pow]; lia|].
  destruct t12 as [b|t1 t2]; [done|]. destruct P12 as [P1 P2].
  assert (bs = concat (map leaves [t1; t2; t3])) as E.
  { rewrite <- (take_drop (2 ^ S k) bs), <- L12, <- L3. cbn. by rewrite app_nil_r, app_assoc. }
  rewrite (bolt12_root_split _ (2 ^ S k)); rewrite ?length_map, ?Hlen;
    [| apply bolt12_split_three | lia].
  rewrite !firstn_map, !skipn_map, <- H12, <- H3.
  rewrite E, (CalculateRoot_forest k) by auto. rewrite <- newBranch_hash, newBranch_comm. done.
Qed.
End Bolt12.

(** ** The property *)

Section Property.
Context `{CR : Crypto, CL : !CryptoLaws, TL : !Tlv, TLL : !TlvLaws,
          LN : !Lntypes, LNL : !LntypesLaws}.

(** C6: MerkleRoot implements the Merkle tree of BOLT 12 - tagged hashes with the
    lesser one first, every record outside the signature range beside a nonce leaf
    that is tagged with all of them, the deepest subtree on the lowest types - for
    records in any order, when the number of those outside the signature range is
    a power of two or three times a power of two.  Other numbers are not
    claimed. *)
Theorem MerkleRoot_bolt12 (recs sorted : list tlvRecord) (rs : raws) (k : nat) :
  Permutation recs sorted -> Forall2 represents sorted rs -> raws_wf rs ->
  length (unsigned rs) = (2 ^ k)%nat \/ length (unsigned rs) = (3 * 2 ^ k)%nat ->
  MerkleRoot recs = Ret (bolt12_merkle rs).
Proof.
  intros P F W Hlen. rewrite (MerkleRoot_raw _ _ _ P F W). unfold raw_root, bolt12_merkle.
  pose proof (Nat.pow_nonzero 2 k).
  destruct (unsigned rs) as [|r us] eqn:E; [cbn in Hlen; lia|]. rewrite <- E in *.
  assert (CalculateRoot (map (fun r => record_branch (wire (unsigned rs)) (wire [r])) (unsigned rs))
          = Ret (bolt12_root (map TaggedHash
              (map (fun r => record_branch (wire (unsigned rs)) (wire [r])) (unsigned rs))))) as ->.
  { destruct Hlen as [Hlen|Hlen]; [apply (CalculateRoot_pow k) | apply (CalculateRoot_three k)];
      by rewrite length_map. }
  f_equal. f_equal. rewrite !map_map. apply map_ext. intros r'. rewrite record_branch_hash.
  f_equal. apply wire_concat.
Qed.
End Property.

(** ** Witness *)

Definition w_four : raws :=
  [(2, lit "ab"); (10, lit "cde"); (22, lit "f"); (240, lit "sig")].

(** Three records and a signature, not in order. *)
Lemma MerkleRoot_bolt12_witness :
  MerkleRoot [w_record (22, lit "f"); w_record (240, lit "sig"); w_record (2, lit "ab");
              w_record (10, lit "cde")]
  = Ret (bolt12_merkle w_four).
Proof.
  apply (MerkleRoot_bolt12 _ (map w_record w_four) _ 0).
  - exact (Permutation_app_comm [w_record (22, lit "f"); w_record (240, lit "sig")]
             [w_record (2, lit "ab"); w_record (10, lit "cde")]).
  - repeat constructor.
  - split; repeat constructor; cbn; try lia; unfold u64, len; cbn; lia.
  - right. reflexivity.
Defined.
