(* ===== verification/MerkleVectors.v ===== *)
(** The Merkle trees of Merkle.v and Bolt12Tree.v over SHA-256: the values that
    src/lnwire/bolt12_merkle_test.go has for the code, computed by the definitions
    that model it, and five records for which the root is not that of BOLT 12's
    tree.  These are values, beside the theorems of the two files.

    SHA-256 and the tagged hashes of BIP 340 are chainhash's in the code, an
    interface in Deps.v; here they are written out as the instance to compute
    with. *)
From S2P Require Import Prelude Deps DepsRef Stream Merkle Bolt12Tree.

(** ** SHA-256 (FIPS 180-4), on 32-bit words *)

Definition word (x : Z) : Z := Z.land x 0xffffffff.
Definition rotr (n x : Z) : Z := Z.lor (Z.shiftr x n) (word (Z.shiftl x (32 - n))).
Definition xor3 (x y z : Z) : Z := Z.lxor x (Z.lxor y z).

(** The constants: the first 32 bits of the fractional parts of the cube roots of
    the first 64 primes, and of the square roots of the first eight. *)
Definition sha_primes : list Z :=
  List.filter (fun p => forallb (fun d => negb (p mod d =? 0)) (seqZ 2 (p - 2))) (seqZ 2 310).

(** The cube root, rounded down, of a number whose root has [bits] bits. *)
Fixpoint cube_root (bits : nat) (root n : Z) : Z :=
  match bits with
  | O => root
  | S bits =>
      let next := root + 2 ^ Z.of_nat bits in
      cube_root bits (if next ^ 3 <=? n then next else root) n
  end.

Definition sha_k : list Z :=
  Eval vm_compute in map (fun p => word (cube_root 40 0 (p * 2 ^ 96))) (take 64 sha_primes).
Definition sha_init : list Z :=
  Eval vm_compute in map (fun p => word (Z.sqrt (p * 2 ^ 64))) (take 8 sha_primes).

(** The state of a block: the eight working variables, and the next sixteen words
    of the message schedule. *)
Definition sha_round (s : list Z * list Z) (k : Z) : list Z * list Z :=
  match s with
  | ([a; b; c; d; e; f; g; h], w0 :: w1 :: rest) =>
      let t1 := h + xor3 (rotr 6 e) (rotr 11 e) (rotr 25 e)
                + Z.lxor (Z.land e f) (Z.land (0xffffffff - e) g) + k + w0 in
      let t2 := xor3 (rotr 2 a) (rotr 13 a) (rotr 22 a)
                + xor3 (Z.land a b) (Z.land a c) (Z.land b c) in
      let w9 := nth 7 rest 0 in
      let w14 := nth 12 rest 0 in
      let w16 := word (xor3 (rotr 17 w14) (rotr 19 w14) (Z.shiftr w14 10) + w9
                       + xor3 (rotr 7 w1) (rotr 18 w1) (Z.shiftr w1 3) + w0) in
      ([word (t1 + t2); a; b; c; word (d + t1); e; f; g], w1 :: rest ++ [w16])
  | _ => s
  end.

Fixpoint words (fuel : nat) (b : bytes) : list Z :=
  match fuel with
  | O => []
  | S n => be_val 0 (take 4 b) :: words n (drop 4 b)
  end.

Definition sha_block (hash : list Z) (block : bytes) : list Z :=
  zip_with (fun x y => word (x + y)) hash (fold_left sha_round sha_k (hash, words 16 block)).1.

Fixpoint sha_blocks (fuel : nat) (hash : list Z) (b : bytes) : list Z :=
  match fuel with
  | O => hash
  | S n => sha_blocks n (sha_block hash (take 64 b)) (drop 64 b)
  end.

Definition sha_pad (b : bytes) : bytes :=
  b ++ [x80] ++ replicate (Z.to_nat ((55 - len b) mod 64)) x00 ++ be_bytes 8 (8 * len b).

Definition sha256 (b : bytes) : bytes :=
  let padded := sha_pad b in
  concat (map (be_bytes 4) (sha_blocks (length padded / 64) sha_init padded)).

(** The tagged hash of BIP 340. *)
Definition sha_TaggedHash (tag msg : bytes) : bytes :=
  let h := sha256 tag in sha256 (h ++ h ++ msg).

(** ** The instance *)

#[local] Instance sha_Crypto : Crypto := {|
  PublicKey := @PublicKey ref_Crypto;
  SerializeCompressed := @SerializeCompressed ref_Crypto;
  ParsePubKey := @ParsePubKey ref_Crypto;
  schnorr_SerializePubKey := @schnorr_SerializePubKey ref_Crypto;
  schnorr_ParsePubKey := @schnorr_ParsePubKey ref_Crypto;
  Signature := @Signature ref_Crypto;
  schnorr_ParseSignature := @schnorr_ParseSignature ref_Crypto;
  sig_Verify := @sig_Verify ref_Crypto;
  chainhash_TaggedHash := sha_TaggedHash;
|}.

Definition of_ref (v : @tlvValue ref_Crypto) : @tlvValue sha_Crypto :=
  match v with
  | VBytes32 b => VBytes32 b | VBytes64 b => VBytes64 b | VBytes b => VBytes b
  | VPubKey p => @VPubKey sha_Crypto p
  | VUint8 n => VUint8 n | VUint16 n => VUint16 n | VUint64 n => VUint64 n
  end.

#[local] Instance sha_Tlv : Tlv := {|
  tlv_E v := Ret (value_bytes v);
  tlv_D k l r := '(v, rest) ← @tlv_D _ ref_Tlv k l r; Ret (of_ref v, rest);
  prim_Size v := len (value_bytes v);
  ETUint64T := @ETUint64T _ ref_Tlv;
  DTUint64 := @DTUint64 _ ref_Tlv;
  SizeTUint64 := @SizeTUint64 _ ref_Tlv;
  WriteVarInt := @WriteVarInt _ ref_Tlv;
  varint := @varint _ ref_Tlv;
  SortRecords := @SortRecords _ ref_Tlv;
  NewStream := @NewStream _ ref_Tlv;
  Stream_Encode := @Stream_Encode _ ref_Tlv;
  DecodeWithParsedTypes V := @DecodeWithParsedTypes _ ref_Tlv V;
|}.

(** ** The values of the test *)

(** A record of a test: its type, and its value, written as it is. *)
Definition testRecord (tlvType : Z) (value : bytes) : tlvRecord :=
  MkRecord tlvType (len value) (Ret value).

Definition tlv1Record : tlvRecord := testRecord 1 (be_bytes 2 0x03e8).
Definition tlv2Record : tlvRecord := testRecord 2 (be_bytes 8 0x0000010000020003).
Definition tlv3Record : tlvRecord := testRecord 3 (be_bytes 49
  0x0266e4598d1d3c415f572a8488830b60f7e744ed9235eb0b1ba93283b315c0351800000000000000010000000000000002).
Definition tlvSigRecord : tlvRecord := MakePrimitiveRecord signatureFieldStart (VUint64 3).

(** SHA-256 of the empty string and of "abc" (FIPS 180-4). *)
Lemma sha256_vectors :
  sha256 [] = be_bytes 32 0xe3b0c44298fc1c149afbf4c8996fb92427ae41e4649b934ca495991b7852b855
  /\ sha256 (lit "abc")
     = be_bytes 32 0xba7816bf8f01cfea414140de5dae2223b00361a396177a9cb410ff61f20015ad.
Proof. split; vm_compute; reflexivity. Qed.

(** The branches of TestCalculateRoot. *)
Definition testHash (n : Z) : bytes := byte_of_Z n :: replicate 31 x00.
Definition branch1 : TLVBranch := {| br_left := testHash 1; br_right := testHash 2 |}.
Definition branch2 : TLVBranch := {| br_left := testHash 3; br_right := testHash 4 |}.

(** A chainhash.Hash is printed with its bytes reversed, as in the comments on the
    leaves. *)
Definition printed (z : Z) : bytes := reverse (be_bytes 32 z).

(** The hashes that the tests have in their comments: of leaves without a tag, of
    branches, and the roots of an even and of an odd number of branches. *)
Lemma tagged_vectors :
  map TaggedHash [MkLeaf [] [x01]; MkLeaf [] [x02]; MkLeaf [] [x03]]
  = [printed 0x723ccb853bd6827ed49025180a48c6e4acce9995168d49a0872e50ac1a98b06d;
     printed 0xb6840751cf95ef9997aa6b2f84c8cdb1576dc83a806b62fd0e0ce1ab718d64e4;
     printed 0x213dbeafa47125ba515b9efe99334ceda5d3f75d4b4b48c4aa1fa6d704abfc18]
  /\ map TaggedHash [branch1; branch2]
  = [be_bytes 32 0xa84d404e10e1f3ab329b5d3caf4f6f8c81f7071744cf47c7f1c5ac59b8fdc333;
     be_bytes 32 0xccfe70ec210989c15861fe0155b634e1ce082d75c9e0455c75a863d7a263e108]
  /\ map CalculateRoot [[branch1; branch2]; [branch1; branch2; branch2]]
  = [Ret (be_bytes 32 0x8907af19a8d1ebaa00dc3175f6f03cfd060f9db8d23a3f2d33d84c7c83a9156b);
     Ret (be_bytes 32 0x4f1430127c41bc0d4495505998c7e30f67d2a120f8d1f251469cafb3e03a88fa)].
Proof. split; [|split]; vm_compute; reflexivity. Qed.

(** Five records, the first three those of the test. *)
Definition fiveRaws : raws :=
  [(1, be_bytes 2 0x03e8); (2, be_bytes 8 0x0000010000020003);
   (3, be_bytes 49
      0x0266e4598d1d3c415f572a8488830b60f7e744ed9235eb0b1ba93283b315c0351800000000000000010000000000000002);
   (4, [x01]); (5, [x02])].
Definition testRecords (rs : raws) : list tlvRecord := map (fun r => testRecord r.1 r.2) rs.

(** The roots that the test of MerkleRoot has for one, two and three records, and
    for a signature alone. *)
Lemma merkle_vectors :
  map MerkleRoot [[tlv1Record]; [tlv1Record; tlv2Record]; [tlv1Record; tlv2Record; tlv3Record];
                  [tlvSigRecord]]
  = [Ret (be_bytes 32 0xaa0aa0f694c85492ac459c1de9831a37682985f5e840ecc9b1e28eece7dc5236);
     Ret (be_bytes 32 0x013b756ed73554cbc4dd3d90f363cb7cba6d8a279465a21c464e582b173ff502);
     Ret (be_bytes 32 0x016fcda3b6f9ca30b35936877ca591fa101365a761a1453cfd9436777d593656);
     Err ErrNoTLVs].
Proof. vm_compute. reflexivity. Qed.

(** With five records the code does not compute the root of BOLT 12's tree. *)
Lemma five_records_differ : exists root,
  MerkleRoot (testRecords fiveRaws) = Ret root /\ root <> bolt12_merkle fiveRaws.
Proof. eexists. split; [vm_compute; reflexivity|]. vm_compute. discriminate. Qed.
