(* ===== verification/Signatures.v ===== *)
(** lnwire/bolt12_signature.go: the digest bolt 12 messages sign, and the
    validation of a signature over it. *)
From S2P Require Import Prelude Deps DepsRef.

Definition lightningTag : bytes := lit "lightning".
Definition offerTag : bytes := lit "offer".
Definition invoiceTag : bytes := lit "invoice".
Definition invoiceRequestTag : bytes := lit "invoice_request".
Definition signatureTag : bytes := lit "signature".
Definition ErrInvalidSig : error := ENamed "lnwire.ErrInvalidSig".

Section Signatures.
Context `{CR : Crypto}.

Definition signatureDigest (messageTag fieldTag root : bytes) : bytes :=
  let tags := [lightningTag; messageTag; fieldTag] in
  chainhash_TaggedHash (concat tags) root.

Definition validateSignature (signature : bytes) (nodeID : PublicKey) (digest : bytes)
    : outcome unit :=
  sig ← wrap "invalid signature" (schnorr_ParseSignature signature);
  if negb (sig_Verify sig digest nodeID) then Err (EWrap "signature" ErrInvalidSig)
  else Ret tt.

(** The signature parses and verifies. *)
Definition valid_signature (signature : bytes) (nodeID : PublicKey) (digest : bytes) : Prop :=
  exists sig, schnorr_ParseSignature signature = Ret sig /\ sig_Verify sig digest nodeID = true.

Lemma validateSignature_Ret signature nodeID digest :
  validateSignature signature nodeID digest = Ret tt <-> valid_signature signature nodeID digest.
Proof.
  unfold validateSignature, valid_signature. split.
  - intros H. go_inv. exists x. split; [done|]. by destruct (sig_Verify x digest nodeID).
  - intros (sig & E & V). rewrite E. cbn. by rewrite V.
Qed.
End Signatures.
