(* ===== verification/Shared.v ===== *)
(** lnwire/bolt12_shared.go: feature records and the Merkle root of a decoded
    message, shared by offers, invoice requests and invoices; and the pieces
    the three message files have in common in the model (the variables
    a decoder writes to, conditional appends). *)
From S2P Require Import Prelude Deps Tu64 DepsRef GoTime Stream Merkle.

(** ** Decoding into variables *)

Section Slots.
Context `{CR : Crypto}.

(** The value of the variable a record decodes into, which keeps Go's zero
    value when the record is absent. *)
Definition slot_array (n : nat) (vals : gmap Z tlvValue) (t : Z) : bytes :=
  match vals !! t with
  | Some (VBytes32 b) | Some (VBytes64 b) => b
  | _ => replicate n x00
  end.
Definition slot_bytes (vals : gmap Z tlvValue) (t : Z) : bytes :=
  match vals !! t with Some (VBytes b) => b | _ => [] end.
Definition slot_u64 (vals : gmap Z tlvValue) (t : Z) : Z :=
  match vals !! t with Some (VUint64 n) => n | _ => 0 end.
Definition slot_pubkey (vals : gmap Z tlvValue) (t : Z) : option PublicKey :=
  match vals !! t with Some (VPubKey p) => Some p | _ => None end.
End Slots.

(** [if c { records = append(records, r) }] *)
Definition append_if (c : bool) (r : tlvRecord) (records : list tlvRecord) : list tlvRecord :=
  if c then records ++ [r] else records.

(** [if p != nil { records = append(records, f( *p)) }] *)
Definition append_some {A} (p : option A) (f : A -> tlvRecord) (records : list tlvRecord)
    : list tlvRecord :=
  match p with Some x => records ++ [f x] | None => records end.

(** tlvTree: messages that produce the records of their populated fields. *)
Class tlvTree (A : Type) := records : A -> outcome (list tlvRecord).

Section Shared.
Context `{CR : Crypto, TL : !Tlv, LN : !Lntypes, FE : Features, MO : MapOrder}.

Definition encodeFetauresRecord (recordType : Z) (features : option FeatureVector)
    : outcome (option tlvRecord) :=
  match features with
  | None => Ret None
  | Some features =>
      if fv_IsEmpty features then Ret None
      else
        featureBytes ← wrap "encode features" (fv_Encode features);
        Ret (Some (MakePrimitiveRecord recordType (VBytes featureBytes)))
  end.

Definition decodeFeaturesRecord (decodedFeatures : bytes) (found : bool) : outcome FeatureVector :=
  rawFeatures ← (if found then wrap "raw features decode" (raw_Decode decodedFeatures)
                 else Ret NewRawFeatureVector);
  Ret (NewFeatureVector rawFeatures).

Definition decodeMerkleRoot `{tlvTree A} (recordProducer : A) (tlvMap : TypeMap) : outcome bytes :=
  populatedRecords ← wrap "get records" (records recordProducer);
  root ← wrap "merkle root" (MerkleRoot (populatedRecords ++ unknownRecordsFromParsed tlvMap));
  hash ← wrap "make hash" (MakeHash root);
  Ret hash.

(** The field of a feature vector, when it is populated. *)
Definition features_field (features : option FeatureVector) : option fieldVal :=
  match features with
  | None => None
  | Some f =>
      if fv_IsEmpty f then None
      else match fv_Encode f with Ret b => Some (FPrim (VBytes b)) | _ => None end
  end.

Definition features_wf (features : option FeatureVector) : Prop :=
  exists raw, features = Some (NewFeatureVector raw).
End Shared.

Definition opt {A} (c : bool) (v : A) : option A := if c then Some v else None.

Section Facts.
Context `{CR : Crypto, CL : !CryptoLaws, TL : !Tlv, TLL : !TlvLaws, LN : !Lntypes,
          LNL : !LntypesLaws, FE : Features, FEL : !FeaturesLaws,
          MO : MapOrder, MOL : !MapOrderLaws}.

Lemma field_records_snoc fs t o :
  field_records (fs ++ [(t, o)])
  = match o with Some f => field_records fs ++ [field_record t f] | None => field_records fs end.
Proof.
  unfold field_records. assert (forall a b, present (a ++ b) = present a ++ present b) as E.
  { induction a as [|[t' [f'|]] a IH]; intros b; cbn; [done| |done]. by rewrite IH. }
  rewrite E, map_app. destruct o; cbn; [done | by rewrite app_nil_r].
Qed.

Lemma append_prim c t v fs :
  append_if c (MakePrimitiveRecord t v) (field_records fs)
  = field_records (fs ++ [(t, opt c (FPrim v))]).
Proof. rewrite field_records_snoc. by destruct c. Qed.

Lemma append_tu64 c t n fs :
  append_if c (tu64Record t n) (field_records fs) = field_records (fs ++ [(t, opt c (FTU64 n))]).
Proof. rewrite field_records_snoc. by destruct c. Qed.

Lemma append_some_prim {A} t (g : A -> tlvValue) o fs :
  append_some o (fun x => MakePrimitiveRecord t (g x)) (field_records fs)
  = field_records (fs ++ [(t, (fun x => FPrim (g x)) <$> o)]).
Proof. rewrite field_records_snoc. by destruct o. Qed.

Lemma append_features_fields t features fs : features_wf features ->
  exists r, encodeFetauresRecord t features = Ret r
    /\ append_some r (fun r => r) (field_records fs) = field_records (fs ++ [(t, features_field features)]).
Proof.
  intros [raw ->]. unfold encodeFetauresRecord, features_field.
  destruct (fv_IsEmpty (NewFeatureVector raw)).
  - exists None. by rewrite field_records_snoc.
  - destruct (fv_Encode_ok raw) as [b Hb]. rewrite Hb. eexists. split; [done|].
    by rewrite field_records_snoc.
Qed.

Lemma features_field_wf features v : features_wf features ->
  features_field features = Some v -> field_wf v.
Proof.
  intros [raw ->]. unfold features_field. destruct (fv_IsEmpty _); [done|].
  destruct (fv_Encode _) as [b| | |] eqn:E; try done. intros [= <-]. cbn.
  apply fv_Encode_short in E. split; [done|]. unfold u64. pose proof (len_nonneg b). lia.
Qed.

(** Decoding the field gives the vector back. *)
Lemma features_field_decode features vals t : features_wf features ->
  vals !! t = field_val <$> features_field features ->
  exists f, features = Some f
    /\ decodeFeaturesRecord (slot_bytes vals t) (is_some (features_field features)) = Ret f.
Proof.
  intros [raw ->] Hv. exists (NewFeatureVector raw). split; [done|].
  unfold slot_bytes. rewrite Hv. unfold features_field.
  destruct (fv_IsEmpty (NewFeatureVector raw)) eqn:E.
  - apply fv_IsEmpty_inv in E. by subst.
  - destruct (fv_Encode_ok raw) as [b Hb]. rewrite Hb. unfold decodeFeaturesRecord. cbn.
    by rewrite (fv_Decode_Encode _ _ Hb).
Qed.

(** A populated field outside the signature range gives the root a record. *)
Lemma unsigned_field fs i t f :
  fs !! i = Some (t, Some f) -> isSignatureTLV t = false -> unsigned (field_raws fs) <> [].
Proof.
  intros Hin%list_elem_of_lookup_2%present_in Ht E.
  assert ((t, field_bytes f) ∈ unsigned (field_raws fs)) as H.
  { apply list_elem_of_In, filter_In. cbn. rewrite Ht. split; [|done].
    apply list_elem_of_In, list_elem_of_fmap. exists (t, f). done. }
  rewrite E in H. set_solver.
Qed.

Lemma MerkleRoot_fields fs :
  fields_ok fs -> MerkleRoot (field_records fs) = raw_root (field_raws fs).
Proof.
  intros W. apply (MerkleRoot_raw _ (field_records fs)); [done| |].
  - by apply field_records_raws.
  - by apply field_raws_ok.
Qed.

(** ** Streams with one more record *)

Lemma field_raws_below fs t :
  Forall (fun f => f.1 < t) fs -> Forall (fun r => r.1 < t) (field_raws fs).
Proof.
  intros F. apply Forall_map, Forall_forall. intros [t' f] Hin%present_keys.
  rewrite Forall_forall in F. by apply F in Hin.
Qed.

Lemma raws_wf_snoc (rs : raws) t b :
  raws_wf rs -> Forall (fun r => r.1 < t) rs -> u64 t -> u64 (len b) ->
  raws_wf (rs ++ [(t, b)]).
Proof.
  intros [S W] F Ht Hb. split.
  - rewrite map_app. cbn. clear W. induction rs as [|r rs IH]; cbn in *; [repeat constructor|].
    inversion S as [|? ? S' F1]; subst. inversion F as [|? ? H1 F2]; subst.
    constructor; auto. apply Forall_app. split; [done|]. by repeat constructor.
  - apply Forall_app. split; [done|]. by constructor.
Qed.

(** ** The unknown records of a decoded stream *)

Context {V : Type} (known : list (Z * decoder V)).

Lemma filter_all (p : Z * bytes -> bool) (rs : raws) :
  Forall (fun r => p r = true) rs -> List.filter p rs = rs.
Proof. induction 1 as [|r rs H _ IH]; cbn; [done|]. by rewrite H, IH. Qed.

(** A record that gives the Merkle root no record of its own. *)
Definition no_unknown (r : Z * bytes) : Prop := is_known known r = true \/ r.2 = [].

Lemma known_no_unknown (rs : raws) :
  Forall (fun r => is_known known r = true) rs -> Forall no_unknown rs.
Proof. intros F. apply (Forall_impl _ _ _ F). by left. Qed.

Lemma no_unknown_records (rs : raws) : NoDup (map fst rs) -> Forall no_unknown rs ->
  unknownRecordsFromParsed (type_map known rs) = [].
Proof.
  intros ND F. unfold unknownRecordsFromParsed.
  destruct (unknownRecords _ _) as [|r l] eqn:E; [done|]. exfalso.
  assert (r ∈ r :: l) as Hr by left. rewrite <- E in Hr.
  apply unknownRecords_elem in Hr as (t & b & Hin & Hb & _).
  rewrite map_range_perm, elem_of_map_to_list, type_map_lookup in Hin.
  destruct ((list_to_map rs : gmap Z bytes) !! t) as [b'|] eqn:L; [|done]. cbn in Hin.
  destruct (find_decoder known t) eqn:D; [done|]. injection Hin as ->.
  apply elem_of_list_to_map in L; [|done]. rewrite Forall_forall in F.
  destruct (F _ L) as [K|K]; [|done]. unfold is_known in K. cbn in K. by rewrite D in K.
Qed.

(** The root of a decoded message is that of its populated fields when the
    stream had no unknown record with a value. *)
Lemma decodeMerkleRoot_known `{tlvTree A} (m : A) fs (rs : raws) h :
  records m = Ret (field_records fs) -> fields_wf fs -> NoDup (map fst rs) ->
  Forall no_unknown rs -> raw_root (field_raws fs) = Ret h ->
  decodeMerkleRoot m (type_map known rs) = Ret h.
Proof.
  intros Hr W ND K Hh. unfold decodeMerkleRoot. rewrite Hr. cbn [wrap mbind outcome_bind].
  rewrite no_unknown_records, app_nil_r, MerkleRoot_fields, Hh by auto using fields_wf_ok. cbn.
  rewrite MakeHash_ok; [done|]. unfold raw_root in Hh.
  destruct (unsigned _); [done|]. by apply CalculateRoot_loop_hash in Hh.
Qed.

Lemma decodeMerkleRoot_known_inv `{tlvTree A} (m : A) fs (rs : raws) h :
  records m = Ret (field_records fs) -> fields_wf fs -> NoDup (map fst rs) ->
  Forall no_unknown rs -> decodeMerkleRoot m (type_map known rs) = Ret h ->
  raw_root (field_raws fs) = Ret h.
Proof.
  intros Hr W ND K. destruct (decide (unsigned (field_raws fs) = [])) as [Hu|Hu].
  - unfold decodeMerkleRoot. rewrite Hr. cbn [wrap mbind outcome_bind].
    rewrite no_unknown_records, app_nil_r, MerkleRoot_fields by auto using fields_wf_ok.
    unfold raw_root. by rewrite Hu.
  - destruct (raw_root_returns _ Hu) as [h' Hh].
    by rewrite (decodeMerkleRoot_known m fs rs h' Hr W ND K Hh), Hh.
Qed.

(** A stream all of whose records are known, or without a value. *)
Definition known_only (b : bytes) : Prop :=
  forall rs, raws_wf rs -> b = wire rs -> Forall no_unknown rs.

(** The records of a stream are determined by its bytes. *)
Lemma wire_elem (rs rs' : raws) r : raws_wf rs -> raws_wf rs' -> wire rs = wire rs' -> r ∈ rs -> r ∈ rs'.
Proof.
  intros W W' E Hr. destruct r as [t b].
  assert (forall l, raws_wf l -> NoDup (map fst l)) as ND by (intros l Hl; by apply increasing_NoDup, Hl).
  assert (forall l, raws_wf l -> DecodeWithParsedTypes (V := unit) [] (wire l)
                                 = Ret (type_map (V := unit) [] l, value_map [] l)) as D.
  { intros l Hl. apply Decode_wire; [constructor | done|]. apply Forall_true. by intros ? ?. }
  pose proof (D rs W) as D1. rewrite E, (D rs' W') in D1. injection D1 as Em _.
  apply (f_equal (lookup t)) in Em. rewrite !type_map_lookup in Em by auto. cbn in Em.
  apply elem_of_list_to_map in Hr; [|auto]. rewrite Hr in Em. cbn in Em.
  destruct ((list_to_map rs' : gmap Z bytes) !! t) as [b'|] eqn:L; [|done].
  injection Em as ->. by apply elem_of_list_to_map in L; auto.
Qed.

Lemma known_only_wire (rs : raws) : raws_wf rs -> Forall no_unknown rs -> known_only (wire rs).
Proof.
  intros W F rs' W' E. rewrite Forall_forall in *. intros r Hr. apply F. by eapply (wire_elem rs' rs).
Qed.
End Facts.

(** Reading a field back from the variable it was decoded into. *)
Section ReadBack.
Context `{CR : Crypto}.
Context (vals : gmap Z tlvValue) (t : Z).

Lemma slot_u64_field c n :
  vals !! t = field_val <$> opt c (FTU64 n) -> (c = false -> n = 0) ->
  slot_u64 vals t = n.
Proof. intros E H. unfold slot_u64. rewrite E. destruct c; cbn; [done|]. by rewrite H. Qed.

Lemma slot_u64_field_if c n (d : Z) :
  vals !! t = field_val <$> opt c (FTU64 n) -> (c = false -> n = d) ->
  (if c then slot_u64 vals t else d) = n.
Proof. intros E H. unfold slot_u64. rewrite E. destruct c; cbn; [done|]. by rewrite H. Qed.

Lemma slot_bytes_field_if c b :
  vals !! t = field_val <$> opt c (FPrim (VBytes b)) -> (c = false -> b = []) ->
  (if c then slot_bytes vals t else []) = b.
Proof. intros E H. unfold slot_bytes. rewrite E. destruct c; cbn; [done|]. by rewrite H. Qed.

Lemma slot_bytes_field c b :
  vals !! t = field_val <$> opt c (FPrim (VBytes b)) -> (c = false -> b = []) ->
  slot_bytes vals t = b.
Proof. intros E H. unfold slot_bytes. rewrite E. destruct c; cbn; [done|]. by rewrite H. Qed.
End ReadBack.

(** The variables of a decoded stream hold values of their types. *)
Section TypedSlots.
Context `{CR : Crypto, CL : !CryptoLaws, TL : !Tlv, TLL : !TlvLaws, LN : !Lntypes, LNL : !LntypesLaws}.
Context (sch : schema) (tm : TypeMap) (vals : gmap Z tlvValue) (T : decoded_typed sch tm vals).

Lemma slot_u64_typed t : u64 (slot_u64 vals t).
Proof.
  unfold slot_u64. destruct (vals !! t) as [v|] eqn:E; [|by split].
  destruct (proj1 T _ _ E) as (f & -> & _ & Hf).
  destruct f as [[]|n]; cbn in *; try (by split); apply Hf.
Qed.

Lemma slot_bytes_typed t : u64 (len (slot_bytes vals t)).
Proof.
  unfold slot_bytes. destruct (vals !! t) as [v|] eqn:E; [|by split].
  destruct (proj1 T _ _ E) as (f & -> & _ & Hf).
  destruct f as [[]|n]; cbn in *; try (by split); apply Hf.
Qed.

Lemma slot_array_typed t n :
  find_codec sch t = Some (CPrim KBytes32) /\ n = 32%nat
  \/ find_codec sch t = Some (CPrim KBytes64) /\ n = 64%nat ->
  length (slot_array n vals t) = n.
Proof.
  intros H. unfold slot_array. destruct (vals !! t) as [v|] eqn:E; [|apply length_replicate].
  destruct (proj1 T _ _ E) as (f & -> & Hc & Hf).
  destruct H as [[H ->]|[H ->]]; rewrite H in Hc; injection Hc as Hc;
    (destruct f as [[]|n]; try done; apply Hf).
Qed.

(** A hash that is read when its record was found. *)
Lemma found_hash_typed t msg h : find_codec sch t = Some (CPrim KBytes32) ->
  (if found tm t then wrap msg (MakeHash (slot_array 32 vals t)) else Ret ZeroHash) = Ret h ->
  is_hash h.
Proof.
  intros Hc. pose proof (slot_array_typed t 32%nat (or_introl (conj Hc eq_refl))) as L.
  rewrite MakeHash_ok by exact L. by destruct (found tm t); intros [= <-].
Qed.

(** A truncated integer that was found is not zero. *)
Lemma slot_tu64_nonzero t : find_codec sch t = Some CTU64 -> found tm t = true ->
  slot_u64 vals t <> 0.
Proof.
  intros Hc. rewrite (proj2 T) by (by rewrite Hc). unfold slot_u64.
  destruct (vals !! t) as [v|] eqn:E; [|done]. intros _.
  destruct (proj1 T _ _ E) as (f & -> & Hc' & Hf). rewrite Hc in Hc'.
  destruct f as [v|n]; [done|]. apply Hf.
Qed.
End TypedSlots.

Lemma to_i64_nonzero n : u64 n -> n <> 0 -> to_i64 n <> 0.
Proof. intros Hn H0 E. apply H0. by rewrite <- (to_u64_i64 n Hn), E. Qed.

Lemma is_some_opt {A} c (v : A) : is_some (opt c v) = c.
Proof. by destruct c. Qed.

(** A conditional MakeHash of a decoded hash. *)
Lemma MakeHash_field `{CR : Crypto, LN : !Lntypes, LNL : !LntypesLaws} vals t h s :
  is_hash h ->
  vals !! t = field_val <$> opt (bool_decide (h <> ZeroHash)) (FPrim (VBytes32 h)) ->
  (if is_some (opt (bool_decide (h <> ZeroHash)) (FPrim (VBytes32 h)))
   then wrap s (MakeHash (slot_array 32 vals t)) else Ret ZeroHash) = Ret h.
Proof.
  intros Hh E. unfold slot_array. rewrite E.
  destruct (bool_decide (h <> ZeroHash)) eqn:D; cbn.
  - by rewrite MakeHash_ok.
  - apply bool_decide_neq_false in D. by subst.
Qed.

Section ReadBack2.
Context `{CR : Crypto}.
Context (vals : gmap Z tlvValue) (t : Z).

Lemma time_field_if T :
  T = zero_Time \/ (i64 (t_Unix T) /\ t_nsec T = 0 /\ t_Unix T <> 0) ->
  vals !! t = field_val <$> opt (negb (time_IsZero T)) (FTU64 (to_u64 (t_Unix T))) ->
  (if negb (time_IsZero T) then time_Unix (to_i64 (slot_u64 vals t)) 0 else zero_Time) = T.
Proof.
  intros W E. unfold slot_u64. rewrite E.
  destruct (time_IsZero T) eqn:Z; cbn.
  - unfold time_IsZero in Z. by apply bool_decide_eq_true in Z.
  - destruct W as [->|(Hi & Hn & _)]; [done|]. unfold time_Unix.
    rewrite to_i64_u64 by done. destruct T; cbn in *. by subst.
Qed.

Lemma array_field_if (o : option bytes) n (f : bytes -> tlvValue) :
  f = VBytes32 \/ f = VBytes64 ->
  vals !! t = field_val <$> ((fun s => FPrim (f s)) <$> o) ->
  (if is_some ((fun s => FPrim (f s)) <$> o) then Some (slot_array n vals t) else None) = o.
Proof.
  intros Hf E. unfold slot_array. rewrite E. destruct o as [s|]; [|done].
  by destruct Hf as [-> | ->].
Qed.

Lemma xonly_field_if (o : option PublicKey) s :
  (forall p, o = Some p -> xonly_key p) ->
  vals !! t = field_val <$> ((fun p => FPrim (VBytes32 (schnorr_SerializePubKey p))) <$> o) ->
  (if is_some ((fun p => FPrim (VBytes32 (schnorr_SerializePubKey p))) <$> o) then
     pubkey ← wrap s (schnorr_ParsePubKey (slot_array 32 vals t)); Ret (Some pubkey)
   else Ret None) = Ret o.
Proof.
  intros Hx E. unfold slot_array. rewrite E. destruct o as [p|]; cbn; [|done].
  pose proof (Hx p eq_refl) as Hp. unfold xonly_key in Hp. by rewrite Hp.
Qed.

Lemma time_prim_field_if T :
  T = zero_Time \/ (i64 (t_Unix T) /\ t_nsec T = 0) ->
  vals !! t = field_val <$> opt (negb (time_IsZero T)) (FPrim (VUint64 (to_u64 (t_Unix T)))) ->
  (if negb (time_IsZero T) then time_Unix (to_i64 (slot_u64 vals t)) 0 else zero_Time) = T.
Proof.
  intros W E. unfold slot_u64. rewrite E.
  destruct (time_IsZero T) eqn:Z; cbn.
  - unfold time_IsZero in Z. by apply bool_decide_eq_true in Z.
  - destruct W as [->|(Hi & Hn)]; [done|]. unfold time_Unix.
    rewrite to_i64_u64 by done. destruct T; cbn in *. by subst.
Qed.

Lemma slot_u64_prim_field c n :
  vals !! t = field_val <$> opt c (FPrim (VUint64 n)) -> (c = false -> n = 0) ->
  slot_u64 vals t = n.
Proof. intros E H. unfold slot_u64. rewrite E. destruct c; cbn; [done|]. by rewrite H. Qed.

Lemma slot_pubkey_field o :
  vals !! t = field_val <$> ((fun p => FPrim (VPubKey p)) <$> o) -> slot_pubkey vals t = o.
Proof. intros E. unfold slot_pubkey. rewrite E. by destruct o. Qed.
End ReadBack2.

Lemma is_some_fmap {A B} (f : A -> B) (o : option A) : is_some (f <$> o) = is_some o.
Proof. by destruct o. Qed.

(** [is_increasing] closes the ordering of a concrete list of types. *)
Ltac is_increasing := repeat constructor; cbn; lia.

Lemma opt_Some {A} c (v w : A) : opt c v = Some w -> c = true /\ v = w.
Proof. destruct c; cbn; [by intros [= ->] | done]. Qed.

(** [fields_cases] opens a statement about every field of a concrete list and
    names the value of the populated ones. *)
Ltac fields_cases :=
  repeat first [apply Forall_nil_2 | apply Forall2_nil_2 | apply Forall2_cons_2 | apply Forall_cons; split];
  cbn [fst snd];
  try (split; [first [reflexivity | unfold u64; cbn; lia]|]);
  let v := fresh "v" in let Hv := fresh "Hv" in
  intros v Hv;
  repeat match goal with
  | H : opt _ _ = Some _ |- _ => apply opt_Some in H; destruct H as [? <-]
  | H : _ <$> ?o = Some _ |- _ => apply fmap_Some in H; destruct H as (? & ? & ->)
  end.

Lemma u64_len_hash (b : bytes) n : length b = n -> (n <= 64)%nat -> u64 (len b).
Proof. unfold u64, len. lia. Qed.

Lemma tu64_field_wf n : u64 n -> bool_decide (n <> 0) = true -> u64 n /\ n <> 0.
Proof. intros Hn H. split; [done|]. by apply bool_decide_eq_true in H. Qed.

Lemma array_field_wf (b : bytes) n :
  length b = n -> (n <= 64)%nat -> length b = n /\ u64 (len b).
Proof. intros Hb Hn. split; [done|]. by eapply u64_len_hash. Qed.

(** Whole seconds in a truncated integer. *)
Lemma time_field_wf t : i64 (t_Unix t) -> t_Unix t <> 0 ->
  u64 (to_u64 (t_Unix t)) /\ to_u64 (t_Unix t) <> 0.
Proof.
  intros Hi H0. split; [apply to_u64_range|]. intros E. apply H0.
  rewrite <- (to_i64_u64 _ Hi), E. done.
Qed.

Lemma u64_field_wf n : u64 n -> u64 n /\ u64 (len (be_bytes 8 n)).
Proof. intros Hn. split; [done|]. unfold len. by rewrite be_bytes_length. Qed.

Lemma pubkey_field_wf `{CR : Crypto, CL : !CryptoLaws} p : u64 (len (SerializeCompressed p)).
Proof. unfold len. by rewrite SerializeCompressed_length. Qed.

Create HintDb fields.
#[export] Hint Resolve u64_field_wf to_u64_range pubkey_field_wf tu64_field_wf features_field_wf TaggedHash_length
  schnorr_SerializePubKey_length SerializeCompressed_length : fields.

Ltac field_wf_solve :=
  first
  [ solve [eauto with fields]
  | solve [split; [exact I | eauto with fields]]
  | solve [eapply array_field_wf; [eauto with fields | lia]] ].
