(* ===== verification/Offers.v ===== *)
(** lnwire/bolt12_offer.go: bolt 12 offers - their records, validation,
    encoding and decoding. *)
From S2P Require Import Prelude Deps Tu64 DepsRef GoTime Stream Merkle Signatures Shared.

Definition chainType : Z := 2.
Definition amountType : Z := 8.
Definition descriptionType : Z := 10.
Definition featuresType : Z := 12.
Definition expiryType : Z := 14.
Definition issuerType : Z := 20.
Definition quantityMinType : Z := 22.
Definition quantityMaxType : Z := 24.
Definition nodeIDType : Z := 30.
Definition signatureType : Z := 240.

Definition ErrNodeIDRequired : error := ENamed "lnwire.ErrNodeIDRequired".
Definition ErrQuantityRange : error := ENamed "lnwire.ErrQuantityRange".
Definition ErrDescriptionRequried : error := ENamed "lnwire.ErrDescriptionRequried".

Section Offers.
Context `{CR : Crypto, TL : !Tlv, LN : !Lntypes, FE : Features, MO : MapOrder}.

Record Offer := MkOffer {
  o_Chainhash : bytes;
  o_MinimumAmount : Z;
  o_Description : bytes;
  o_Features : option FeatureVector;
  o_Expiry : Time;
  o_Issuer : bytes;
  o_QuantityMin : Z;
  o_QuantityMax : Z;
  o_NodeID : option PublicKey;
  o_Signature : option bytes;
  o_MerkleRoot : bytes;
}.

(** [offer.MerkleRoot = root] *)
Definition offer_set_MerkleRoot (o : Offer) (root : bytes) : Offer :=
  MkOffer (o_Chainhash o) (o_MinimumAmount o) (o_Description o) (o_Features o) (o_Expiry o)
    (o_Issuer o) (o_QuantityMin o) (o_QuantityMax o) (o_NodeID o) (o_Signature o) root.

(** [offer.Expiry = t], used to state properties. *)
Definition offer_set_Expiry (o : Offer) (t : Time) : Offer :=
  MkOffer (o_Chainhash o) (o_MinimumAmount o) (o_Description o) (o_Features o) t
    (o_Issuer o) (o_QuantityMin o) (o_QuantityMax o) (o_NodeID o) (o_Signature o) (o_MerkleRoot o).

(** (o Offer).records *)
#[export] Instance Offer_records : tlvTree Offer := fun o =>
  let records := [] in
  let records := append_if (bool_decide (o_Chainhash o <> ZeroHash))
    (MakePrimitiveRecord chainType (VBytes32 (o_Chainhash o))) records in
  let records := append_if (bool_decide (o_MinimumAmount o <> 0))
    (tu64Record amountType (o_MinimumAmount o)) records in
  let records := append_if (bool_decide (o_Description o <> []))
    (MakePrimitiveRecord descriptionType (VBytes (o_Description o))) records in
  featuresRecord ← wrap "encode features" (encodeFetauresRecord featuresType (o_Features o));
  let records := append_some featuresRecord (fun r => r) records in
  let records := append_if (negb (time_IsZero (o_Expiry o)))
    (tu64Record expiryType (to_u64 (t_Unix (o_Expiry o)))) records in
  let records := append_if (bool_decide (o_Issuer o <> []))
    (MakePrimitiveRecord issuerType (VBytes (o_Issuer o))) records in
  let records := append_if (bool_decide (o_QuantityMin o <> 0))
    (tu64Record quantityMinType (o_QuantityMin o)) records in
  let records := append_if (bool_decide (o_QuantityMax o <> 0))
    (tu64Record quantityMaxType (o_QuantityMax o)) records in
  let records := append_some (o_NodeID o) (fun nodeID =>
    MakePrimitiveRecord nodeIDType (VBytes32 (schnorr_SerializePubKey nodeID))) records in
  let records := append_some (o_Signature o) (fun sig =>
    MakePrimitiveRecord signatureType (VBytes64 sig)) records in
  Ret records.

(** (o Offer).Validate *)
Definition Offer_Validate (o : Offer) : outcome unit :=
  match o_NodeID o with
  | None => Err ErrNodeIDRequired
  | Some nodeID =>
      if bool_decide (o_Description o = []) then Err ErrDescriptionRequried
      else
        let minQuantitySet := bool_decide (o_QuantityMin o <> 0) in
        let maxQuantitySet := bool_decide (o_QuantityMax o <> 0) in
        if minQuantitySet && maxQuantitySet
           && bool_decide (o_QuantityMin o > o_QuantityMax o)
        then Err (EWrap "quantity" ErrQuantityRange)
        else
          match o_Signature o with
          | Some sig =>
              let sigDigest := signatureDigest offerTag signatureTag (o_MerkleRoot o) in
              validateSignature sig nodeID sigDigest
          | None => Ret tt
          end
  end.

Definition EncodeOffer (offer : Offer) : outcome bytes :=
  recs ← wrap "get records" (records offer);
  _ ← wrap "offer encode stream" (NewStream (map rec_Type recs));
  wrap "offer encode tlvs" (Stream_Encode recs).

(** The records DecodeOffer makes its stream from. *)
Definition offer_decoders : list (Z * decoder tlvValue) := [
  PrimitiveDecoder chainType KBytes32;
  tu64Decoder amountType;
  PrimitiveDecoder descriptionType KBytes;
  PrimitiveDecoder featuresType KBytes;
  tu64Decoder expiryType;
  PrimitiveDecoder issuerType KBytes;
  tu64Decoder quantityMinType;
  tu64Decoder quantityMaxType;
  PrimitiveDecoder nodeIDType KBytes32;
  PrimitiveDecoder signatureType KBytes64
].

Definition DecodeOffer (offerBytes : bytes) : outcome Offer :=
  _ ← wrap "offer decode stream" (NewStream (map fst offer_decoders));
  '(tlvMap, vals) ← wrap "offer decode" (DecodeWithParsedTypes offer_decoders offerBytes);
  chainhash ← (if found tlvMap chainType
               then wrap "chain hash" (MakeHash (slot_array 32 vals chainType))
               else Ret ZeroHash);
  features ← wrap "decode features"
    (decodeFeaturesRecord (slot_bytes vals featuresType) (found tlvMap featuresType));
  nodeID ← (if found tlvMap nodeIDType then
              pubkey ← wrap "invalid pubkey" (schnorr_ParsePubKey (slot_array 32 vals nodeIDType));
              Ret (Some pubkey)
            else Ret None);
  let offer := {|
    o_Chainhash := chainhash;
    o_MinimumAmount := if found tlvMap amountType then slot_u64 vals amountType else 0;
    o_Description := if found tlvMap descriptionType then slot_bytes vals descriptionType else [];
    o_Features := Some features;
    o_Expiry := if found tlvMap expiryType
                then time_Unix (to_i64 (slot_u64 vals expiryType)) 0 else zero_Time;
    o_Issuer := if found tlvMap issuerType then slot_bytes vals issuerType else [];
    o_QuantityMin := slot_u64 vals quantityMinType;
    o_QuantityMax := slot_u64 vals quantityMaxType;
    o_NodeID := nodeID;
    o_Signature := if found tlvMap signatureType
                   then Some (slot_array 64 vals signatureType) else None;
    o_MerkleRoot := ZeroHash |} in
  root ← wrap "merkle root" (decodeMerkleRoot offer tlvMap);
  Ret (offer_set_MerkleRoot offer root).

(** ** The offer as a list of fields *)

Definition offer_schema : schema := [
  (2, CPrim KBytes32); (8, CTU64); (10, CPrim KBytes); (12, CPrim KBytes); (14, CTU64);
  (20, CPrim KBytes); (22, CTU64); (24, CTU64); (30, CPrim KBytes32); (240, CPrim KBytes64)
].

Definition offer_fields (o : Offer) : fields := [
  (2, opt (bool_decide (o_Chainhash o <> ZeroHash)) (FPrim (VBytes32 (o_Chainhash o))));
  (8, opt (bool_decide (o_MinimumAmount o <> 0)) (FTU64 (o_MinimumAmount o)));
  (10, opt (bool_decide (o_Description o <> [])) (FPrim (VBytes (o_Description o))));
  (12, features_field (o_Features o));
  (14, opt (negb (time_IsZero (o_Expiry o))) (FTU64 (to_u64 (t_Unix (o_Expiry o)))));
  (20, opt (bool_decide (o_Issuer o <> [])) (FPrim (VBytes (o_Issuer o))));
  (22, opt (bool_decide (o_QuantityMin o <> 0)) (FTU64 (o_QuantityMin o)));
  (24, opt (bool_decide (o_QuantityMax o <> 0)) (FTU64 (o_QuantityMax o)));
  (30, (fun p => FPrim (VBytes32 (schnorr_SerializePubKey p))) <$> o_NodeID o);
  (240, (fun s => FPrim (VBytes64 s)) <$> o_Signature o)
].

(** What the types of the fields guarantee, and what an encoding can carry:
    whole seconds, an expiry that is not the Unix epoch (a truncated integer
    cannot be empty), and a node key determined by its x coordinate. *)
Record offer_wf (o : Offer) : Prop := {
  ow_chain : is_hash (o_Chainhash o);
  ow_amount : u64 (o_MinimumAmount o);
  ow_desc : u64 (len (o_Description o));
  ow_features : features_wf (o_Features o);
  ow_expiry : o_Expiry o = zero_Time
              \/ (i64 (t_Unix (o_Expiry o)) /\ t_nsec (o_Expiry o) = 0 /\ t_Unix (o_Expiry o) <> 0);
  ow_issuer : u64 (len (o_Issuer o));
  ow_min : u64 (o_QuantityMin o);
  ow_max : u64 (o_QuantityMax o);
  ow_node : forall p, o_NodeID o = Some p -> xonly_key p;
  ow_sig : forall s, o_Signature o = Some s -> length s = 64%nat;
}.

End Offers.

Section Facts.
Context `{CR : Crypto, CL : !CryptoLaws, TL : !Tlv, TLL : !TlvLaws, LN : !Lntypes,
          LNL : !LntypesLaws, FE : Features, FEL : !FeaturesLaws,
          MO : MapOrder, MOL : !MapOrderLaws}.

Lemma offer_records_fields o :
  features_wf (o_Features o) -> records o = Ret (field_records (offer_fields o)).
Proof.
  intros Hf. unfold records, Offer_records.
  change (@nil tlvRecord) with (field_records []).
  rewrite !append_prim, !append_tu64, !append_prim.
  match goal with |- context [append_some _ _ (field_records ?fs)] =>
    destruct (append_features_fields featuresType (o_Features o) fs Hf) as (r & -> & E) end.
  cbn [wrap mbind outcome_bind]. rewrite E.
  repeat first [rewrite append_prim | rewrite append_tu64 | rewrite append_some_prim].
  reflexivity.
Qed.

Lemma features_field_kind f v : features_field f = Some v -> codec_of v = CPrim KBytes.
Proof.
  destruct f as [f|]; [|done]. cbn. destruct (fv_IsEmpty f); [done|].
  destruct (fv_Encode f); try done. by intros [= <-].
Qed.

Lemma offer_fits o : fits offer_schema (offer_fields o).
Proof. unfold fits, offer_schema, offer_fields. fields_cases; try done. by eapply features_field_kind. Qed.

Lemma offer_fields_wf o : offer_wf o -> fields_wf (offer_fields o).
Proof.
  intros []. split; [is_increasing|]. unfold offer_fields.
  fields_cases; cbn; try field_wf_solve.
  destruct ow_expiry0 as [E|(? & ? & ?)]; [by rewrite E in H|]. by apply time_field_wf.
Qed.

Lemma offer_unsigned o :
  o_Description o <> [] -> unsigned (field_raws (offer_fields o)) <> [].
Proof.
  intros Hd. apply (unsigned_field _ 2 10 (FPrim (VBytes (o_Description o)))); [|done].
  unfold offer_fields. cbn. by rewrite bool_decide_true.
Qed.

Lemma offer_decoders_schema : offer_decoders = schema_decoders offer_schema.
Proof. done. Qed.

Lemma NewStream_offer : NewStream (map fst offer_decoders) = Ret tt.
Proof. apply NewStream_ok. cbn. is_increasing. Qed.

Lemma EncodeOffer_wire o :
  offer_wf o -> EncodeOffer o = Ret (wire (field_raws (offer_fields o))).
Proof.
  intros W. unfold EncodeOffer. rewrite offer_records_fields by apply W.
  destruct (fields_encode _ (fields_wf_ok _ (offer_fields_wf _ W))) as [E1 E2].
  cbn [wrap mbind outcome_bind]. rewrite E1. cbn [wrap mbind outcome_bind]. by rewrite E2.
Qed.

(** Decoding any canonical stream whose known records are the fields of [o]. *)
Lemma DecodeOffer_raws o rs h :
  offer_wf o -> raws_wf rs ->
  List.filter (is_known offer_decoders) rs = field_raws (offer_fields o) ->
  Forall (no_unknown offer_decoders) rs -> raw_root (field_raws (offer_fields o)) = Ret h ->
  DecodeOffer (wire rs) = Ret (offer_set_MerkleRoot o h).
Proof.
  intros W Hrs Hk Hu Hh. pose proof (offer_fields_wf _ W) as FW.
  unfold DecodeOffer. rewrite NewStream_offer. cbn [wrap mbind outcome_bind].
  destruct (fields_decode _ _ _ FW (offer_fits o) Hrs Hk) as [E At].
  change (schema_decoders offer_schema) with offer_decoders in *.
  rewrite E. cbn [wrap mbind outcome_bind].
  set (tm := type_map offer_decoders rs) in *. set (vm := value_map offer_decoders rs) in *.
  destruct (At 0%nat chainType _ eq_refl) as [-> V0].
  destruct (At 1%nat amountType _ eq_refl) as [-> V1].
  destruct (At 2%nat descriptionType _ eq_refl) as [-> V2].
  destruct (At 3%nat featuresType _ eq_refl) as [-> V3].
  destruct (At 4%nat expiryType _ eq_refl) as [-> V4].
  destruct (At 5%nat issuerType _ eq_refl) as [-> V5].
  destruct (At 6%nat quantityMinType _ eq_refl) as [_ V6].
  destruct (At 7%nat quantityMaxType _ eq_refl) as [_ V7].
  destruct (At 8%nat nodeIDType _ eq_refl) as [-> V8].
  destruct (At 9%nat signatureType _ eq_refl) as [-> V9].
  destruct W. rewrite (MakeHash_field _ _ _ _ ow_chain0 V0). cbn [mbind outcome_bind].
  destruct (features_field_decode _ _ _ ow_features0 V3) as (f & Ef & ->).
  cbn [wrap mbind outcome_bind].
  rewrite (xonly_field_if _ _ _ _ ow_node0 V8). cbn [mbind outcome_bind].
  rewrite !is_some_opt, (time_field_if _ _ _ ow_expiry0 V4),
    (array_field_if _ _ _ _ _ (or_intror eq_refl) V9),
    (slot_u64_field_if _ _ _ _ _ V1), (slot_bytes_field_if _ _ _ _ V2),
    (slot_bytes_field_if _ _ _ _ V5), (slot_u64_field _ _ _ _ V6), (slot_u64_field _ _ _ _ V7)
    by apply bool_decide_neq_false.
  unfold tm. rewrite (decodeMerkleRoot_known _ _ (offer_fields o) rs h);
    [by rewrite <- Ef| |done| |done|done].
  - rewrite <- Ef. by rewrite offer_records_fields.
  - by apply increasing_NoDup, Hrs.
Qed.

Lemma offer_decode_fields o h :
  offer_wf o -> raw_root (field_raws (offer_fields o)) = Ret h ->
  DecodeOffer (wire (field_raws (offer_fields o))) = Ret (offer_set_MerkleRoot o h).
Proof.
  intros W Hh. pose proof (offer_fields_wf _ W) as FW.
  pose proof (field_raws_known _ _ FW (offer_fits o)) as K. rewrite <- offer_decoders_schema in K.
  apply DecodeOffer_raws; auto using field_raws_wf, filter_all, known_no_unknown.
Qed.

(** The Merkle root of an offer that was decoded from known records. *)
Lemma DecodeOffer_root b o : DecodeOffer b = Ret o -> offer_wf o ->
  known_only offer_decoders b -> raw_root (field_raws (offer_fields o)) = Ret (o_MerkleRoot o).
Proof.
  unfold DecodeOffer. rewrite NewStream_offer. cbn [wrap mbind outcome_bind]. intros H W K. go_inv.
  destruct x as [tm vm]. go_inv. change offer_decoders with (schema_decoders offer_schema) in E.
  apply schema_decode_inv in E as (rs & Hrs & Hb & _ & -> & ->); [|cbn; is_increasing].
  match goal with E : decodeMerkleRoot _ _ = Ret _ |- _ => rename E into Er end.
  eapply decodeMerkleRoot_known_inv; [| |by apply increasing_NoDup, Hrs|by apply K|exact Er].
  - by rewrite offer_records_fields by apply W.
  - by apply offer_fields_wf in W.
Qed.

Lemma DecodeOffer_hash b o : DecodeOffer b = Ret o -> is_hash (o_MerkleRoot o).
Proof.
  unfold DecodeOffer. intros H. go_inv. destruct x0 as [tm vm]. go_inv.
  match goal with E : decodeMerkleRoot _ _ = Ret _ |- _ => rename E into Er end.
  unfold decodeMerkleRoot in Er. go_inv.
  match goal with E : MerkleRoot _ = Ret _ |- _ => apply MerkleRoot_hash in E as Hh end.
  match goal with E : MakeHash _ = Ret _ |- _ => rewrite MakeHash_ok in E by done; injection E as -> end.
  done.
Qed.

(** Whatever bytes decode to an offer, its fields are within their types. *)
Lemma DecodeOffer_typed b o : DecodeOffer b = Ret o -> offer_wf o.
Proof.
  unfold DecodeOffer. rewrite NewStream_offer. cbn [wrap mbind outcome_bind]. intros H. go_inv.
  destruct x as [tm vm]. go_inv. change offer_decoders with (schema_decoders offer_schema) in E.
  apply decode_typed in E; [|cbn; is_increasing]. rename x into chain, x0 into feats, x1 into node.
  constructor; cbn.
  - by refine (found_hash_typed _ _ _ E _ _ _ _ E0).
  - destruct (found tm amountType); [by eapply slot_u64_typed | by split].
  - destruct (found tm descriptionType); [by eapply slot_bytes_typed | by split].
  - unfold decodeFeaturesRecord in E1. go_inv. by eexists.
  - destruct (found tm expiryType) eqn:Ef; [|by left]. right. cbn. split; [apply to_i64_range|].
    split; [done|]. apply to_i64_nonzero; [by eapply slot_u64_typed|].
    by eapply slot_tu64_nonzero.
  - destruct (found tm issuerType); [by eapply slot_bytes_typed | by split].
  - by eapply slot_u64_typed.
  - by eapply slot_u64_typed.
  - intros p ->. destruct (found tm nodeIDType); [|done]. go_inv.
    unfold xonly_key. rewrite (schnorr_Parse_canonical (slot_array 32 vm nodeIDType)); [done| |done].
    apply (slot_array_typed _ _ _ E). by left.
  - intros s Hs. destruct (found tm signatureType); [|done]. injection Hs as <-.
    apply (slot_array_typed _ _ _ E). by right.
Qed.
End Facts.

(** ** Properties *)

Section Properties.
Context `{CR : Crypto, CL : !CryptoLaws, TL : !Tlv, TLL : !TlvLaws, LN : !Lntypes,
          LNL : !LntypesLaws, FE : Features, FEL : !FeaturesLaws,
          MO : MapOrder, MOL : !MapOrderLaws}.

(** C1: Encoding an offer with a description and decoding the bytes gives the
    offer back, its Merkle root set to the root of the records it was encoded
    from, for an offer that the wire can hold ([offer_wf]): 32 and 64 byte fields
    of their sizes, an x-only (even) node key, no expiry or one in whole seconds
    that is not the epoch. *)
Theorem Offer_roundtrip (o : Offer) :
  offer_wf o -> o_Description o <> [] ->
  exists recs root b,
    records o = Ret recs /\ MerkleRoot recs = Ret root /\
    EncodeOffer o = Ret b /\ DecodeOffer b = Ret (offer_set_MerkleRoot o root).
Proof.
  intros W Hd. pose proof (offer_fields_wf _ W) as FW.
  assert (unsigned (field_raws (offer_fields o)) <> []) as Hu by (by apply offer_unsigned).
  destruct (raw_root_returns _ Hu) as [h Hh].
  exists (field_records (offer_fields o)), h, (wire (field_raws (offer_fields o))).
  split; [by apply offer_records_fields, W|]. split; [|split].
  - rewrite MerkleRoot_fields; [done|by apply fields_wf_ok].
  - by apply EncodeOffer_wire.
  - by apply offer_decode_fields.
Qed.

(** C24: Whatever bytes DecodeOffer accepts, the offer is well typed: integers
    are within 64 bits, hashes and signatures have their lengths, the node key
    is one that an x coordinate determines, the expiry is in whole seconds and
    not the Unix epoch.  Such an offer, when it has a description, can be
    encoded again, and the encoding decodes to it but for the Merkle root; when
    all records of the bytes are of known types the root is the same, too, so
    that a signature that was valid for the offer still is. *)
Theorem DecodeOffer_wf (b : bytes) (o : Offer) :
  DecodeOffer b = Ret o ->
  offer_wf o
  /\ (o_Description o <> [] ->
      exists b' root, EncodeOffer o = Ret b' /\ DecodeOffer b' = Ret (offer_set_MerkleRoot o root))
  /\ (known_only offer_decoders b ->
      exists b', EncodeOffer o = Ret b' /\ DecodeOffer b' = Ret o).
Proof.
  intros H. pose proof (DecodeOffer_typed _ _ H) as W. split; [done|]. split.
  - intros Hd. destruct (raw_root_returns _ (offer_unsigned o Hd)) as [h Hh].
    exists (wire (field_raws (offer_fields o))), h. split; [by apply EncodeOffer_wire|].
    by apply offer_decode_fields.
  - intros K. exists (wire (field_raws (offer_fields o))). split; [by apply EncodeOffer_wire|].
    rewrite (offer_decode_fields o (o_MerkleRoot o) W) by (by eapply DecodeOffer_root).
    by destruct o.
Qed.

(** Validate accepts an offer exactly when it has a node ID and a
    description, its quantities are in order when both are set, and its
    signature, when there is one, is a valid signature of the node over the
    digest of the Merkle root. *)
Theorem Offer_Validate_spec (o : Offer) :
  Offer_Validate o = Ret tt <->
  exists nodeID, o_NodeID o = Some nodeID /\ o_Description o <> [] /\
    (o_QuantityMin o = 0 \/ o_QuantityMax o = 0 \/ o_QuantityMin o <= o_QuantityMax o) /\
    forall sig, o_Signature o = Some sig ->
      valid_signature sig nodeID (signatureDigest offerTag signatureTag (o_MerkleRoot o)).
Proof.
  unfold Offer_Validate. destruct (o_NodeID o) as [p|]; [|split; [done|]; by intros (? & ? & _)].
  case_bool_decide as Hd; [split; [done|]; by intros (? & _ & ? & _)|].
  destruct (bool_decide (o_QuantityMin o <> 0)
    && bool_decide (o_QuantityMax o <> 0)
    && bool_decide (o_QuantityMin o > o_QuantityMax o)) eqn:Q.
  - split; [done|]. intros (? & _ & _ & H & _). rewrite !andb_true_iff, !bool_decide_eq_true in Q. lia.
  - assert (o_QuantityMin o = 0 \/ o_QuantityMax o = 0 \/ o_QuantityMin o <= o_QuantityMax o) as Hq.
    { rewrite !andb_false_iff, !bool_decide_eq_false in Q. lia. }
    destruct (o_Signature o) as [sig|].
    + rewrite validateSignature_Ret. split.
      * intros V. exists p. do 3 (split; [done|]). by intros ? [= <-].
      * intros (? & [= <-] & _ & _ & V). by apply V.
    + split; [|done]. intros _. exists p. done.
Qed.

(** An unknown record with an empty value is not part of the Merkle root
    a decoded offer is validated with: appending one to the encoding of an
    offer changes neither the decoded offer nor, thus, its signature digest. *)
Theorem DecodeOffer_drops_empty_unknown (o : Offer) (t : Z) :
  offer_wf o -> o_Description o <> [] -> 240 < t -> u64 t ->
  DecodeOffer (wire (field_raws (offer_fields o) ++ [(t, [])]))
  = DecodeOffer (wire (field_raws (offer_fields o))).
Proof.
  intros W Hd Ht Hu. pose proof (offer_fields_wf _ W) as FW.
  assert (unsigned (field_raws (offer_fields o)) <> []) as Hne by (by apply offer_unsigned).
  destruct (raw_root_returns _ Hne) as [h Hh].
  pose proof (field_raws_known _ _ FW (offer_fits o)) as K.
  rewrite <- offer_decoders_schema in K.
  assert (is_known offer_decoders (t, []) = false) as Hk.
  { unfold is_known. cbn [fst find_decoder offer_decoders PrimitiveDecoder tu64Decoder].
    by rewrite !bool_decide_false
      by (unfold chainType, amountType, descriptionType, featuresType, expiryType, issuerType,
            quantityMinType, quantityMaxType, nodeIDType, signatureType; lia). }
  transitivity (Ret (offer_set_MerkleRoot o h)); [|symmetry].
  - apply DecodeOffer_raws; [done| | | |].
    + apply raws_wf_snoc; [by apply field_raws_wf | | done |]; [|done].
      apply field_raws_below. unfold offer_fields. repeat apply Forall_cons_2; try apply Forall_nil_2; cbn; lia.
    + rewrite List.filter_app, (filter_all _ _ K). cbn [List.filter]. rewrite Hk. apply app_nil_r.
    + apply Forall_app. split; [by apply known_no_unknown|]. constructor; [by right | constructor].
    + done.
  - apply DecodeOffer_raws; auto using field_raws_wf, filter_all, known_no_unknown.
Qed.

(** An offer that expires at the Unix epoch can be encoded but not
    decoded: its expiry is written as an empty truncated integer, which the
    decoder of tu64.go refuses. *)
Theorem Offer_epoch_not_decodable (o : Offer) :
  offer_wf o -> o_Expiry o = zero_Time ->
  exists b, EncodeOffer (offer_set_Expiry o (time_Unix 0 0)) = Ret b /\ fails (DecodeOffer b).
Proof.
  intros W He. pose proof (offer_fields_wf _ W) as [S F].
  set (o' := offer_set_Expiry o (time_Unix 0 0)).
  set (pre := take 4 (offer_fields o)). set (post := drop 5 (offer_fields o)).
  assert (offer_fields o' = pre ++ (14, Some (FTU64 0)) :: post) as Eo by done.
  assert (fields_ok (offer_fields o')) as Hok.
  { split; [done|]. pose proof (fields_wf_ok _ (conj S F)) as [_ F']. rewrite Eo.
    apply Forall_app. split; [by apply Forall_take|].
    constructor; [|by apply Forall_drop].
    split; [done|]. by intros v [= <-]. }
  destruct (fields_encode _ Hok) as [E1 E2].
  eexists. split.
  - unfold EncodeOffer. rewrite offer_records_fields by apply W.
    cbn [wrap mbind outcome_bind]. rewrite E1. cbn [wrap mbind outcome_bind]. by rewrite E2.
  - unfold DecodeOffer. rewrite NewStream_offer. cbn [wrap mbind outcome_bind].
    destruct (fields_decode_fails offer_schema pre 14 (FTU64 0) post
                (EExt "tlv: cannot decode tu64")) as [e He'].
    + rewrite <- Eo. apply offer_fits.
    + by rewrite <- Eo.
    + apply (Forall_impl (fun f => u64 f.1 /\ forall v, f.2 = Some v -> field_wf v)); [|by intros ? []].
      by apply Forall_take.
    + done.
    + rewrite Eo, offer_decoders_schema, He'. by eexists.
Qed.

End Properties.

(** ** Witnesses *)

Definition w_offer : Offer := {|
  o_Chainhash := replicate 32 xaa; o_MinimumAmount := 1000;
  o_Description := lit "coffee"; o_Features := Some (Some x07);
  o_Expiry := zero_Time; o_Issuer := []; o_QuantityMin := 1;
  o_QuantityMax := 300; o_NodeID := Some (false, x05);
  o_Signature := Some (replicate 64 x11); o_MerkleRoot := ZeroHash |}.

Lemma w_offer_wf : offer_wf w_offer.
Proof.
  constructor; try (unfold u64, len; cbn; lia); try done.
  - by exists (Some x07).
  - by left.
  - by intros p [= <-].
  - by intros p [= <-].
Qed.

(** A description and one unknown odd record with a value. *)
Definition w_unknown_bytes : bytes := wire [(10, lit "coffee"); (1001, lit "x")].
Definition w_order_offer (MO : MapOrder) : Offer := from_Ret w_offer (DecodeOffer w_unknown_bytes).

(** C39: The Merkle root of a decoded offer depends on the order Go ranges over
    the map of parsed types: the same bytes, with one unknown record, decode to
    different roots, hence different signature digests, under two orders. *)
Theorem DecodeOffer_map_order :
  exists order1 order2 : MapOrder,
    @MapOrderLaws order1 /\ @MapOrderLaws order2 /\
    exists b o1 o2,
      @DecodeOffer ref_Crypto ref_Tlv ref_Lntypes ref_Features order1 b = Ret o1 /\
      @DecodeOffer ref_Crypto ref_Tlv ref_Lntypes ref_Features order2 b = Ret o2 /\
      o_MerkleRoot o1 <> o_MerkleRoot o2.
Proof.
  exists ref_MapOrder, reverse_MapOrder.
  split; [apply ref_MapOrderLaws|]. split; [apply reverse_MapOrderLaws|].
  exists w_unknown_bytes, (w_order_offer ref_MapOrder), (w_order_offer reverse_MapOrder).
  split; [apply from_Ret_eq; vm_compute; reflexivity|].
  split; [apply from_Ret_eq; vm_compute; reflexivity|].
  apply (bool_decide_unpack _). vm_compute. exact I.
Qed.

Lemma Offer_roundtrip_witness :
  exists recs root b,
    records w_offer = Ret recs /\ MerkleRoot recs = Ret root /\
    EncodeOffer w_offer = Ret b /\ DecodeOffer b = Ret (offer_set_MerkleRoot w_offer root).
Proof. apply (Offer_roundtrip w_offer); [exact w_offer_wf | discriminate]. Defined.

Definition w_decoded_offer : Offer := from_Ret w_offer (DecodeOffer w_unknown_bytes).

Lemma DecodeOffer_wf_witness :
  DecodeOffer w_unknown_bytes = Ret w_decoded_offer
  /\ exists b' root, EncodeOffer w_decoded_offer = Ret b'
                     /\ DecodeOffer b' = Ret (offer_set_MerkleRoot w_decoded_offer root).
Proof.
  assert (DecodeOffer w_unknown_bytes = Ret w_decoded_offer) as E
    by (apply from_Ret_eq; vm_compute; reflexivity).
  split; [exact E|]. apply (proj2 (DecodeOffer_wf w_unknown_bytes w_decoded_offer E)).
  vm_compute. discriminate.
Defined.

Lemma DecodeOffer_drops_empty_unknown_witness :
  DecodeOffer (wire (field_raws (offer_fields w_offer) ++ [(1001, [])]))
  = DecodeOffer (wire (field_raws (offer_fields w_offer))).
Proof.
  apply (DecodeOffer_drops_empty_unknown w_offer 1001);
    [exact w_offer_wf | discriminate | reflexivity | by split].
Defined.

Lemma Offer_epoch_not_decodable_witness :
  exists b, EncodeOffer (offer_set_Expiry w_offer (time_Unix 0 0)) = Ret b
            /\ fails (DecodeOffer b).
Proof. apply (Offer_epoch_not_decodable w_offer); [exact w_offer_wf | reflexivity]. Defined.
