(* ===== verification/InvoiceRequests.v ===== *)
(** lnwire/bolt12_invoice_request.go: bolt 12 invoice requests - creation from
    an offer, validation, encoding and decoding. *)
From S2P Require Import Prelude Deps Tu64 DepsRef GoTime Stream Merkle Signatures Shared Offers.

Definition invReqChainType : Z := 3.
Definition invReqOfferIDType : Z := 4.
Definition invReqAmountType : Z := 8.
Definition invReqFeaturesType : Z := 12.
Definition invReqQuantityType : Z := 32.
Definition invReqPayerKeyType : Z := 38.
Definition invReqPayerNoteType : Z := 39.
Definition invReqPayerInfoType : Z := 50.
Definition invReqSignatureType : Z := 240.

Definition ErrOfferIDRequired : error := ENamed "lnwire.ErrOfferIDRequired".
Definition ErrPayerKeyRequired : error := ENamed "lnwire.ErrPayerKeyRequired".
Definition ErrSignatureRequired : error := ENamed "lnwire.ErrSignatureRequired".
Definition ErrBelowMinAmount : error := ENamed "lnwire.ErrBelowMinAmount".
Definition ErrOutsideQuantityRange : error := ENamed "lnwire.ErrOutsideQuantityRange".
Definition ErrNoQuantity : error := ENamed "lnwire.ErrNoQuantity".
Definition ErrQuantityRequired : error := ENamed "lnwire.ErrQuantityRequired".

Section InvoiceRequests.
Context `{CR : Crypto, TL : !Tlv, LN : !Lntypes, FE : Features, MO : MapOrder}.

Record InvoiceRequest := MkInvoiceRequest {
  ir_Chainhash : bytes;
  ir_OfferID : bytes;
  ir_Amount : Z;
  ir_Features : option FeatureVector;
  ir_Quantity : Z;
  ir_PayerKey : option PublicKey;
  ir_PayerNote : bytes;
  ir_PayerInfo : bytes;
  ir_Signature : option bytes;
  ir_MerkleRoot : bytes;
}.

(** [i.MerkleRoot = root] *)
Definition ir_set_MerkleRoot (i : InvoiceRequest) (root : bytes) : InvoiceRequest :=
  MkInvoiceRequest (ir_Chainhash i) (ir_OfferID i) (ir_Amount i) (ir_Features i) (ir_Quantity i)
    (ir_PayerKey i) (ir_PayerNote i) (ir_PayerInfo i) (ir_Signature i) root.

(** [i.Signature = sig], used to state properties. *)
Definition ir_set_Signature (i : InvoiceRequest) (sig : option bytes) : InvoiceRequest :=
  MkInvoiceRequest (ir_Chainhash i) (ir_OfferID i) (ir_Amount i) (ir_Features i) (ir_Quantity i)
    (ir_PayerKey i) (ir_PayerNote i) (ir_PayerInfo i) sig (ir_MerkleRoot i).

(** (i InvoiceRequest).records *)
#[export] Instance InvoiceRequest_records : tlvTree InvoiceRequest := fun i =>
  let records := [] in
  let records := append_if (bool_decide (ir_Chainhash i <> ZeroHash))
    (MakePrimitiveRecord invReqChainType (VBytes32 (ir_Chainhash i))) records in
  let records := append_if (bool_decide (ir_OfferID i <> ZeroHash))
    (MakePrimitiveRecord invReqOfferIDType (VBytes32 (ir_OfferID i))) records in
  let records := append_if (bool_decide (ir_Amount i <> 0))
    (tu64Record invReqAmountType (ir_Amount i)) records in
  featuresRecord ← wrap "encode features" (encodeFetauresRecord invReqFeaturesType (ir_Features i));
  let records := append_some featuresRecord (fun r => r) records in
  let records := append_if (bool_decide (ir_Quantity i <> 0))
    (tu64Record invReqQuantityType (ir_Quantity i)) records in
  let records := append_some (ir_PayerKey i) (fun payerKey =>
    MakePrimitiveRecord invReqPayerKeyType (VBytes32 (schnorr_SerializePubKey payerKey))) records in
  let records := append_if (bool_decide (ir_PayerNote i <> []))
    (MakePrimitiveRecord invReqPayerNoteType (VBytes (ir_PayerNote i))) records in
  let records := append_if (bool_decide (ir_PayerInfo i <> []))
    (MakePrimitiveRecord invReqPayerInfoType (VBytes (ir_PayerInfo i))) records in
  let records := append_some (ir_Signature i) (fun signature =>
    MakePrimitiveRecord invReqSignatureType (VBytes64 signature)) records in
  Ret records.

Definition NewInvoiceRequest (offer : Offer) (amount quantity : Z)
    (payerKey : option PublicKey) (payerNote : bytes) : outcome InvoiceRequest :=
  if bool_decide (amount < o_MinimumAmount offer) then Err (EWrap "amount" ErrBelowMinAmount)
  else
    let haveMinQuantity := bool_decide (o_QuantityMin offer <> 0) in
    let haveMaxQuantity := bool_decide (o_QuantityMax offer <> 0) in
    let quantitySpecified := haveMinQuantity && haveMaxQuantity in
    if quantitySpecified && bool_decide (quantity = 0)
    then Err (EWrap "quantity" ErrQuantityRequired)
    else if haveMinQuantity && bool_decide (quantity < o_QuantityMin offer)
    then Err (EWrap "quantity" ErrOutsideQuantityRange)
    else if haveMaxQuantity && bool_decide (quantity > o_QuantityMax offer)
    then Err (EWrap "quantity" ErrOutsideQuantityRange)
    else if negb quantitySpecified && bool_decide (quantity <> 0)
    then Err (EWrap "quantity" ErrNoQuantity)
    else
      let request := {|
        ir_Chainhash := o_Chainhash offer;
        ir_OfferID := o_MerkleRoot offer;
        ir_Amount := amount;
        ir_Features := o_Features offer;
        ir_Quantity := quantity;
        ir_PayerKey := payerKey;
        ir_PayerNote := payerNote;
        ir_PayerInfo := [];
        ir_Signature := None;
        ir_MerkleRoot := ZeroHash |} in
      recs ← wrap "records" (records request);
      root ← opaque "merkle root" (MerkleRoot recs);
      Ret (ir_set_MerkleRoot request root).

(** (i InvoiceRequest).SignatureDigest *)
Definition InvoiceRequest_SignatureDigest (i : InvoiceRequest) : bytes :=
  signatureDigest invoiceRequestTag signatureTag (ir_MerkleRoot i).

(** (i InvoiceRequest).Validate *)
Definition InvoiceRequest_Validate (i : InvoiceRequest) : outcome unit :=
  if bool_decide (ir_OfferID i = ZeroHash) then Err ErrOfferIDRequired
  else
    match ir_PayerKey i with
    | None => Err ErrPayerKeyRequired
    | Some payerKey =>
        match ir_Signature i with
        | None => Err ErrSignatureRequired
        | Some signature =>
            let sigDigest := signatureDigest invoiceRequestTag signatureTag (ir_MerkleRoot i) in
            validateSignature signature payerKey sigDigest
        end
    end.

Definition EncodeInvoiceRequest (i : InvoiceRequest) : outcome bytes :=
  recs ← wrap "invoice request records" (records i);
  _ ← wrap "new stream" (NewStream (map rec_Type recs));
  wrap "encode stream" (Stream_Encode recs).

(** The records DecodeInvoiceRequest makes its stream from. *)
Definition ir_decoders : list (Z * decoder tlvValue) := [
  PrimitiveDecoder invReqChainType KBytes32;
  PrimitiveDecoder invReqOfferIDType KBytes32;
  tu64Decoder invReqAmountType;
  PrimitiveDecoder invReqFeaturesType KBytes;
  tu64Decoder invReqQuantityType;
  PrimitiveDecoder invReqPayerKeyType KBytes32;
  PrimitiveDecoder invReqPayerNoteType KBytes;
  PrimitiveDecoder invReqPayerInfoType KBytes;
  PrimitiveDecoder invReqSignatureType KBytes64
].

Definition DecodeInvoiceRequest (b : bytes) : outcome InvoiceRequest :=
  _ ← wrap "new stream" (NewStream (map fst ir_decoders));
  '(tlvMap, vals) ← wrap "decode stream" (DecodeWithParsedTypes ir_decoders b);
  chainHash ← (if found tlvMap invReqChainType
               then wrap "chain hash" (MakeHash (slot_array 32 vals invReqChainType))
               else Ret ZeroHash);
  offerID ← (if found tlvMap invReqOfferIDType
             then wrap "offer id" (MakeHash (slot_array 32 vals invReqOfferIDType))
             else Ret ZeroHash);
  features ← wrap "decode features"
    (decodeFeaturesRecord (slot_bytes vals invReqFeaturesType) (found tlvMap invReqFeaturesType));
  payerKey ← (if found tlvMap invReqPayerKeyType then
                pubkey ← wrap "invalid payer key"
                  (schnorr_ParsePubKey (slot_array 32 vals invReqPayerKeyType));
                Ret (Some pubkey)
              else Ret None);
  let i := {|
    ir_Chainhash := chainHash;
    ir_OfferID := offerID;
    ir_Amount := if found tlvMap invReqAmountType then slot_u64 vals invReqAmountType else 0;
    ir_Features := Some features;
    ir_Quantity := slot_u64 vals invReqQuantityType;
    ir_PayerKey := payerKey;
    ir_PayerNote := if found tlvMap invReqPayerNoteType
                    then slot_bytes vals invReqPayerNoteType else [];
    ir_PayerInfo := slot_bytes vals invReqPayerInfoType;
    ir_Signature := if found tlvMap invReqSignatureType
                    then Some (slot_array 64 vals invReqSignatureType) else None;
    ir_MerkleRoot := ZeroHash |} in
  root ← wrap "merkle root" (decodeMerkleRoot i tlvMap);
  Ret (ir_set_MerkleRoot i root).

(** ** The request as a list of fields *)

Definition ir_schema : schema := [
  (3, CPrim KBytes32); (4, CPrim KBytes32); (8, CTU64); (12, CPrim KBytes); (32, CTU64);
  (38, CPrim KBytes32); (39, CPrim KBytes); (50, CPrim KBytes); (240, CPrim KBytes64)
].

Definition ir_fields (i : InvoiceRequest) : fields := [
  (3, opt (bool_decide (ir_Chainhash i <> ZeroHash)) (FPrim (VBytes32 (ir_Chainhash i))));
  (4, opt (bool_decide (ir_OfferID i <> ZeroHash)) (FPrim (VBytes32 (ir_OfferID i))));
  (8, opt (bool_decide (ir_Amount i <> 0)) (FTU64 (ir_Amount i)));
  (12, features_field (ir_Features i));
  (32, opt (bool_decide (ir_Quantity i <> 0)) (FTU64 (ir_Quantity i)));
  (38, (fun p => FPrim (VBytes32 (schnorr_SerializePubKey p))) <$> ir_PayerKey i);
  (39, opt (bool_decide (ir_PayerNote i <> [])) (FPrim (VBytes (ir_PayerNote i))));
  (50, opt (bool_decide (ir_PayerInfo i <> [])) (FPrim (VBytes (ir_PayerInfo i))));
  (240, (fun s => FPrim (VBytes64 s)) <$> ir_Signature i)
].

(** What the types of the fields guarantee, and a payer key determined by its
    x coordinate. *)
Record ir_wf (i : InvoiceRequest) : Prop := {
  irw_chain : is_hash (ir_Chainhash i);
  irw_offer : is_hash (ir_OfferID i);
  irw_amount : u64 (ir_Amount i);
  irw_features : features_wf (ir_Features i);
  irw_quantity : u64 (ir_Quantity i);
  irw_key : forall p, ir_PayerKey i = Some p -> xonly_key p;
  irw_note : u64 (len (ir_PayerNote i));
  irw_info : u64 (len (ir_PayerInfo i));
  irw_sig : forall s, ir_Signature i = Some s -> length s = 64%nat;
}.

End InvoiceRequests.

Section Facts.
Context `{CR : Crypto, CL : !CryptoLaws, TL : !Tlv, TLL : !TlvLaws, LN : !Lntypes,
          LNL : !LntypesLaws, FE : Features, FEL : !FeaturesLaws,
          MO : MapOrder, MOL : !MapOrderLaws}.

Lemma ir_records_fields i :
  features_wf (ir_Features i) -> records i = Ret (field_records (ir_fields i)).
Proof.
  intros Hf. unfold records, InvoiceRequest_records.
  change (@nil tlvRecord) with (field_records []).
  rewrite !append_prim, append_tu64.
  match goal with |- context [append_some _ _ (field_records ?fs)] =>
    destruct (append_features_fields invReqFeaturesType (ir_Features i) fs Hf) as (r & -> & E) end.
  cbn [wrap mbind outcome_bind]. rewrite E.
  repeat first [rewrite append_prim | rewrite append_tu64 | rewrite append_some_prim].
  reflexivity.
Qed.

Lemma ir_fits i : fits ir_schema (ir_fields i).
Proof. unfold fits, ir_schema, ir_fields. fields_cases; try done. by eapply features_field_kind. Qed.

Lemma ir_fields_wf i : ir_wf i -> fields_wf (ir_fields i).
Proof.
  intros []. split; [is_increasing|]. unfold ir_fields. fields_cases; cbn; field_wf_solve.
Qed.

Lemma ir_decoders_schema : ir_decoders = schema_decoders ir_schema.
Proof. done. Qed.

Lemma NewStream_ir : NewStream (map fst ir_decoders) = Ret tt.
Proof. apply NewStream_ok. cbn. is_increasing. Qed.

Lemma EncodeInvoiceRequest_wire i :
  ir_wf i -> EncodeInvoiceRequest i = Ret (wire (field_raws (ir_fields i))).
Proof.
  intros W. unfold EncodeInvoiceRequest. rewrite ir_records_fields by apply W.
  destruct (fields_encode _ (fields_wf_ok _ (ir_fields_wf _ W))) as [E1 E2].
  cbn [wrap mbind outcome_bind]. rewrite E1. cbn [wrap mbind outcome_bind]. by rewrite E2.
Qed.

Lemma DecodeInvoiceRequest_raws i rs h :
  ir_wf i -> raws_wf rs ->
  List.filter (is_known ir_decoders) rs = field_raws (ir_fields i) ->
  Forall (no_unknown ir_decoders) rs -> raw_root (field_raws (ir_fields i)) = Ret h ->
  DecodeInvoiceRequest (wire rs) = Ret (ir_set_MerkleRoot i h).
Proof.
  intros W Hrs Hk Hu Hh. pose proof (ir_fields_wf _ W) as FW.
  unfold DecodeInvoiceRequest. rewrite NewStream_ir. cbn [wrap mbind outcome_bind].
  destruct (fields_decode _ _ _ FW (ir_fits i) Hrs Hk) as [E At].
  change (schema_decoders ir_schema) with ir_decoders in *.
  rewrite E. cbn [wrap mbind outcome_bind].
  set (tm := type_map ir_decoders rs) in *. set (vm := value_map ir_decoders rs) in *.
  destruct (At 0%nat invReqChainType _ eq_refl) as [-> V0].
  destruct (At 1%nat invReqOfferIDType _ eq_refl) as [-> V1].
  destruct (At 2%nat invReqAmountType _ eq_refl) as [-> V2].
  destruct (At 3%nat invReqFeaturesType _ eq_refl) as [-> V3].
  destruct (At 4%nat invReqQuantityType _ eq_refl) as [_ V4].
  destruct (At 5%nat invReqPayerKeyType _ eq_refl) as [-> V5].
  destruct (At 6%nat invReqPayerNoteType _ eq_refl) as [-> V6].
  destruct (At 7%nat invReqPayerInfoType _ eq_refl) as [_ V7].
  destruct (At 8%nat invReqSignatureType _ eq_refl) as [-> V8].
  destruct W. rewrite (MakeHash_field _ _ _ _ irw_chain0 V0). cbn [mbind outcome_bind].
  rewrite (MakeHash_field _ _ _ _ irw_offer0 V1). cbn [mbind outcome_bind].
  destruct (features_field_decode _ _ _ irw_features0 V3) as (f & Ef & ->).
  cbn [wrap mbind outcome_bind].
  rewrite (xonly_field_if _ _ _ _ irw_key0 V5). cbn [mbind outcome_bind].
  rewrite !is_some_opt, (array_field_if _ _ _ _ _ (or_intror eq_refl) V8),
    (slot_u64_field_if _ _ _ _ _ V2), (slot_u64_field _ _ _ _ V4),
    (slot_bytes_field_if _ _ _ _ V6), (slot_bytes_field _ _ _ _ V7)
    by apply bool_decide_neq_false.
  unfold tm. rewrite (decodeMerkleRoot_known _ _ (ir_fields i) rs h);
    [by rewrite <- Ef| |done| |done|done].
  - rewrite <- Ef. by rewrite ir_records_fields.
  - by apply increasing_NoDup, Hrs.
Qed.

Lemma ir_decode_fields i h :
  ir_wf i -> raw_root (field_raws (ir_fields i)) = Ret h ->
  DecodeInvoiceRequest (wire (field_raws (ir_fields i))) = Ret (ir_set_MerkleRoot i h).
Proof.
  intros W Hh. pose proof (ir_fields_wf _ W) as FW.
  pose proof (field_raws_known _ _ FW (ir_fits i)) as K. rewrite <- ir_decoders_schema in K.
  apply DecodeInvoiceRequest_raws; auto using field_raws_wf, filter_all, known_no_unknown.
Qed.

(** The Merkle root of a request that was decoded from known records. *)
Lemma DecodeInvoiceRequest_root b i : DecodeInvoiceRequest b = Ret i -> ir_wf i ->
  known_only ir_decoders b -> raw_root (field_raws (ir_fields i)) = Ret (ir_MerkleRoot i).
Proof.
  unfold DecodeInvoiceRequest. rewrite NewStream_ir. cbn [wrap mbind outcome_bind]. intros H W K. go_inv.
  destruct x as [tm vm]. go_inv. change ir_decoders with (schema_decoders ir_schema) in E.
  apply schema_decode_inv in E as (rs & Hrs & Hb & _ & -> & ->); [|cbn; is_increasing].
  match goal with E : decodeMerkleRoot _ _ = Ret _ |- _ => rename E into Er end.
  eapply decodeMerkleRoot_known_inv; [| |by apply increasing_NoDup, Hrs|by apply K|exact Er].
  - by rewrite ir_records_fields by apply W.
  - by apply ir_fields_wf in W.
Qed.

(** Whatever bytes decode to a request, its fields are within their types. *)
Lemma DecodeInvoiceRequest_typed b i : DecodeInvoiceRequest b = Ret i -> ir_wf i.
Proof.
  unfold DecodeInvoiceRequest. rewrite NewStream_ir. cbn [wrap mbind outcome_bind]. intros H. go_inv.
  destruct x as [tm vm]. go_inv. change ir_decoders with (schema_decoders ir_schema) in E.
  apply decode_typed in E; [|cbn; is_increasing].
  rename x into chain, x0 into offer, x1 into feats, x2 into key.
  constructor; cbn.
  - by refine (found_hash_typed _ _ _ E _ _ _ _ E0).
  - by refine (found_hash_typed _ _ _ E _ _ _ _ E1).
  - destruct (found tm invReqAmountType); [by eapply slot_u64_typed | by split].
  - unfold decodeFeaturesRecord in E2. go_inv. by eexists.
  - by eapply slot_u64_typed.
  - intros p ->. destruct (found tm invReqPayerKeyType); [|done]. go_inv.
    unfold xonly_key. rewrite (schnorr_Parse_canonical (slot_array 32 vm invReqPayerKeyType));
      [done| |done].
    apply (slot_array_typed _ _ _ E). by left.
  - destruct (found tm invReqPayerNoteType); [by eapply slot_bytes_typed | by split].
  - by eapply slot_bytes_typed.
  - intros s Hs. destruct (found tm invReqSignatureType); [|done]. injection Hs as <-.
    apply (slot_array_typed _ _ _ E). by right.
Qed.
End Facts.

(** ** Properties *)

(** The quantity of a request is one the offer allows: in range when the offer
    sets both bounds, and zero when it does not set the minimum. *)
Definition quantity_allowed `{CR : Crypto, FE : Features} (offer : Offer) (quantity : Z) : Prop :=
  (o_QuantityMin offer <> 0 /\ o_QuantityMax offer <> 0
   /\ o_QuantityMin offer <= quantity <= o_QuantityMax offer)
  \/ (o_QuantityMin offer = 0 /\ quantity = 0).

Section NewRequest.
Context `{CR : Crypto, CL : !CryptoLaws, TL : !Tlv, TLL : !TlvLaws, LN : !Lntypes,
          LNL : !LntypesLaws, FE : Features, FEL : !FeaturesLaws,
          MO : MapOrder, MOL : !MapOrderLaws}.
Context (offer : Offer) (amount quantity : Z) (payerKey : option PublicKey) (payerNote : bytes).
Context (Hoffer : offer_wf offer) (Hroot : is_hash (o_MerkleRoot offer)).
Context (Hamount : u64 amount) (Hquantity : u64 quantity) (Hnote : u64 (len payerNote)).
Context (Hkey : forall p, payerKey = Some p -> xonly_key p).

(** The request that NewInvoiceRequest makes, with the given root. *)
Definition new_request (root : bytes) : InvoiceRequest :=
  MkInvoiceRequest (o_Chainhash offer) (o_MerkleRoot offer) amount (o_Features offer) quantity
    payerKey payerNote [] None root.

Lemma new_request_wf root : ir_wf (new_request root).
Proof. destruct Hoffer. constructor; cbn; auto; try done; unfold u64, len; cbn; lia. Qed.

Lemma ir_fields_signature i sig :
  unsigned (field_raws (ir_fields (ir_set_Signature i sig)))
  = unsigned (field_raws (ir_fields (ir_set_Signature i None))).
Proof.
  change (ir_fields (ir_set_Signature i sig)) with
    (take 8 (ir_fields i) ++ [(240, (fun s => FPrim (VBytes64 s)) <$> sig)]).
  change (ir_fields (ir_set_Signature i None)) with (take 8 (ir_fields i) ++ [(240, None)]).
  rewrite !field_raws_app. unfold unsigned. rewrite !List.filter_app. by destruct sig.
Qed.

Lemma NewInvoiceRequest_checked :
  o_MinimumAmount offer <= amount -> quantity_allowed offer quantity ->
  NewInvoiceRequest offer amount quantity payerKey payerNote
  = (root ← opaque "merkle root" (raw_root (field_raws (ir_fields (new_request ZeroHash))));
     Ret (new_request root)).
Proof.
  intros Ha Hq. unfold NewInvoiceRequest, quantity_allowed in *.
  destruct Hoffer as [_ _ _ Hf _ _ [Hmin _] [Hmax _] _ _]. destruct Hquantity as [Hq0 _].
  rewrite bool_decide_false by lia.
  repeat case_bool_decide; cbn [andb negb]; try lia.
  all: change (MkInvoiceRequest _ _ _ _ _ _ _ _ _ _) with (new_request ZeroHash);
    rewrite ir_records_fields by done; cbn [wrap mbind outcome_bind];
    by rewrite MerkleRoot_fields by (apply fields_wf_ok, ir_fields_wf, new_request_wf).
Qed.

Lemma NewInvoiceRequest_allowed r :
  NewInvoiceRequest offer amount quantity payerKey payerNote = Ret r ->
  o_MinimumAmount offer <= amount /\ quantity_allowed offer quantity.
Proof.
  unfold NewInvoiceRequest, quantity_allowed.
  destruct Hoffer as [_ _ _ _ _ _ [Hmin _] _ _ _]. destruct Hquantity as [Hq0 _].
  case_bool_decide as Ha; [done|]. intros H. split; [lia|]. revert H.
  repeat case_bool_decide; cbn [andb negb]; intros H'; try done; lia.
Qed.
End NewRequest.

Section Properties.
Context `{CR : Crypto, CL : !CryptoLaws, TL : !Tlv, TLL : !TlvLaws, LN : !Lntypes,
          LNL : !LntypesLaws, FE : Features, FEL : !FeaturesLaws,
          MO : MapOrder, MOL : !MapOrderLaws}.

(** NewInvoiceRequest makes a request for a payer exactly when the amount
    is at least the offer's minimum and the quantity is one the offer allows;
    the request then carries the offer's chain, Merkle root and features, and
    no signature. *)
Theorem NewInvoiceRequest_spec (offer : Offer) (amount quantity : Z) (k : PublicKey)
    (note : bytes) :
  offer_wf offer -> is_hash (o_MerkleRoot offer) -> u64 amount -> u64 quantity ->
  u64 (len note) -> xonly_key k ->
  (o_MinimumAmount offer <= amount /\ quantity_allowed offer quantity <->
   returns (NewInvoiceRequest offer amount quantity (Some k) note))
  /\ forall r, NewInvoiceRequest offer amount quantity (Some k) note = Ret r ->
       ir_Chainhash r = o_Chainhash offer /\ ir_OfferID r = o_MerkleRoot offer
       /\ ir_Features r = o_Features offer /\ ir_Signature r = None.
Proof.
  intros Ho Hr Ha Hq Hn Hk.
  assert (forall p, Some k = Some p -> xonly_key p) as Hk' by (by intros p [= <-]).
  assert (unsigned (field_raws (ir_fields (new_request offer amount quantity (Some k) note ZeroHash)))
          <> []) as Hu.
  { eapply (unsigned_field _ 5 38); reflexivity. }
  destruct (raw_root_returns _ Hu) as [h Hh].
  split; [split|].
  - intros [A Q]. rewrite NewInvoiceRequest_checked, Hh by done. by eexists.
  - intros [r Hr']. by eapply NewInvoiceRequest_allowed.
  - intros r Hr'. destruct (NewInvoiceRequest_allowed _ _ _ _ _ Ho Hq _ Hr') as [A Q].
    rewrite NewInvoiceRequest_checked, Hh in Hr' by done. cbn in Hr'. by injection Hr' as <-.
Qed.

(** An offer with a minimum quantity and no maximum passes Validate, yet
    NewInvoiceRequest rejects every amount and quantity for it. *)
Theorem NewInvoiceRequest_min_only_rejects (offer : Offer) (amount quantity : Z)
    (payerKey : option PublicKey) (note : bytes) :
  Offer_Validate offer = Ret tt -> u64 quantity ->
  o_QuantityMin offer > 0 -> o_QuantityMax offer = 0 ->
  fails (NewInvoiceRequest offer amount quantity payerKey note).
Proof.
  intros _ [Hq _] Hmin Hmax. unfold NewInvoiceRequest. rewrite Hmax.
  case_bool_decide; [by eexists|].
  rewrite (bool_decide_true (o_QuantityMin offer <> 0)) by lia.
  rewrite (bool_decide_false (0 <> 0)) by lia. cbn [andb negb].
  destruct (decide (quantity = 0)) as [->|].
  - rewrite bool_decide_true by lia. by eexists.
  - case_bool_decide; [by eexists|]. rewrite bool_decide_true by done. by eexists.
Qed.

(** A request that was signed: it encodes, and what it decodes to. *)
Lemma signed_request_wire (offer : Offer) (amount quantity : Z) (k : PublicKey)
    (note sig : bytes) (r : InvoiceRequest) :
  offer_wf offer -> is_hash (o_MerkleRoot offer) -> o_MerkleRoot offer <> ZeroHash ->
  u64 amount -> u64 quantity -> u64 (len note) -> xonly_key k -> length sig = 64%nat ->
  NewInvoiceRequest offer amount quantity (Some k) note = Ret r ->
  valid_signature sig k (InvoiceRequest_SignatureDigest r) ->
  exists b, EncodeInvoiceRequest (ir_set_Signature r (Some sig)) = Ret b
    /\ DecodeInvoiceRequest b = Ret (ir_set_Signature r (Some sig))
    /\ InvoiceRequest_Validate (ir_set_Signature r (Some sig)) = Ret tt.
Proof.
  intros Ho Hr Hz Ha Hq Hn Hk Hs Hnew Hv.
  assert (forall p, Some k = Some p -> xonly_key p) as Hk' by (by intros p [= <-]).
  destruct (NewInvoiceRequest_allowed _ _ _ _ _ Ho Hq _ Hnew) as [A Q].
  rewrite NewInvoiceRequest_checked in Hnew by done.
  destruct (raw_root _) as [h| | |] eqn:Eh in Hnew; try done.
  cbn [opaque mbind outcome_bind] in Hnew. injection Hnew as <-.
  set (r := new_request offer amount quantity (Some k) note h) in *.
  set (s := ir_set_Signature r (Some sig)).
  assert (ir_wf s) as Ws.
  { destruct (new_request_wf offer amount quantity (Some k) note Ho Hr Ha Hq Hn Hk' h).
    constructor; try done. by intros ? [= <-]. }
  exists (wire (field_raws (ir_fields s))). split; [by apply EncodeInvoiceRequest_wire|]. split.
  - rewrite (ir_decode_fields s h Ws); [done|]. unfold raw_root in Eh |- *.
    unfold s. rewrite (ir_fields_signature r (Some sig)). exact Eh.
  - unfold InvoiceRequest_Validate. cbn. rewrite bool_decide_false by done.
    by apply validateSignature_Ret.
Qed.

(** C2: A request made from an offer that the wire can hold and then signed by the
    payer, whose key is x-only (even), survives the wire: encoding it and decoding the bytes gives back the same request, with
    the Merkle root computed before it was signed, and it passes Validate. *)
Theorem InvoiceRequest_sign_roundtrip (offer : Offer) (amount quantity : Z) (k : PublicKey)
    (note sig : bytes) (r : InvoiceRequest) :
  offer_wf offer -> is_hash (o_MerkleRoot offer) -> o_MerkleRoot offer <> ZeroHash ->
  u64 amount -> u64 quantity -> u64 (len note) -> xonly_key k -> length sig = 64%nat ->
  NewInvoiceRequest offer amount quantity (Some k) note = Ret r ->
  valid_signature sig k (InvoiceRequest_SignatureDigest r) ->
  exists b, EncodeInvoiceRequest (ir_set_Signature r (Some sig)) = Ret b
    /\ DecodeInvoiceRequest b = Ret (ir_set_Signature r (Some sig))
    /\ InvoiceRequest_Validate (ir_set_Signature r (Some sig)) = Ret tt.
Proof. apply signed_request_wire. Qed.

(** Any well-formed request with a field outside the signature range
    survives the wire, its Merkle root set to that of its records. *)
Theorem InvoiceRequest_roundtrip (i : InvoiceRequest) :
  ir_wf i -> unsigned (field_raws (ir_fields i)) <> [] ->
  exists recs root b,
    records i = Ret recs /\ MerkleRoot recs = Ret root /\
    EncodeInvoiceRequest i = Ret b /\ DecodeInvoiceRequest b = Ret (ir_set_MerkleRoot i root).
Proof.
  intros W Hu. destruct (raw_root_returns _ Hu) as [h Hh].
  exists (field_records (ir_fields i)), h, (wire (field_raws (ir_fields i))).
  split; [by apply ir_records_fields, W|]. split; [|split].
  - rewrite MerkleRoot_fields; [done|]. by apply fields_wf_ok, ir_fields_wf.
  - by apply EncodeInvoiceRequest_wire.
  - by apply ir_decode_fields.
Qed.

(** C25: Whatever bytes decode to a request, the request is well typed, and when
    all records of the bytes are of known types it can be stored and sent on:
    it encodes, and the encoding decodes to the very same request, with the same
    Merkle root, so that a signature that was valid for it still is. *)
Theorem DecodeInvoiceRequest_wf (b : bytes) (i : InvoiceRequest) :
  DecodeInvoiceRequest b = Ret i ->
  ir_wf i
  /\ (known_only ir_decoders b ->
      exists b', EncodeInvoiceRequest i = Ret b' /\ DecodeInvoiceRequest b' = Ret i).
Proof.
  intros H. pose proof (DecodeInvoiceRequest_typed _ _ H) as W. split; [done|]. intros K.
  exists (wire (field_raws (ir_fields i))). split; [by apply EncodeInvoiceRequest_wire|].
  rewrite (ir_decode_fields i (ir_MerkleRoot i) W) by (by eapply DecodeInvoiceRequest_root).
  by destruct i.
Qed.

(** Validate accepts a request exactly when it names an offer and a payer
    key and carries a valid signature of the payer over its digest. *)
Theorem InvoiceRequest_Validate_spec (i : InvoiceRequest) :
  InvoiceRequest_Validate i = Ret tt <->
  ir_OfferID i <> ZeroHash /\
  exists payerKey sig, ir_PayerKey i = Some payerKey /\ ir_Signature i = Some sig /\
    valid_signature sig payerKey (InvoiceRequest_SignatureDigest i).
Proof.
  unfold InvoiceRequest_Validate. case_bool_decide as Ho; [split; [done|]; by intros [? _]|].
  destruct (ir_PayerKey i) as [p|];
    [|split; [done|]; by intros (_ & ? & ? & ? & _)].
  destruct (ir_Signature i) as [s|]; [|split; [done|]; by intros (_ & ? & ? & _ & ? & _)].
  rewrite validateSignature_Ret. unfold InvoiceRequest_SignatureDigest. split.
  - intros V. split; [done|]. by exists p, s.
  - intros (_ & ? & ? & [= <-] & [= <-] & V). done.
Qed.

End Properties.

(** ** Witnesses *)

Definition w_request_offer : Offer := {|
  o_Chainhash := replicate 32 xaa; o_MinimumAmount := 1000;
  o_Description := lit "coffee"; o_Features := Some (Some x07);
  o_Expiry := zero_Time; o_Issuer := []; o_QuantityMin := 1;
  o_QuantityMax := 3; o_NodeID := Some (false, x05);
  o_Signature := None; o_MerkleRoot := replicate 32 xbb |}.

(** The same offer with a minimum quantity only. *)
Definition w_min_only : Offer := {|
  o_Chainhash := replicate 32 xaa; o_MinimumAmount := 1000;
  o_Description := lit "coffee"; o_Features := Some (Some x07);
  o_Expiry := zero_Time; o_Issuer := []; o_QuantityMin := 1;
  o_QuantityMax := 0; o_NodeID := Some (false, x05);
  o_Signature := None; o_MerkleRoot := replicate 32 xbb |}.

Lemma w_request_offer_wf : offer_wf w_request_offer.
Proof.
  constructor; try (unfold u64, len; cbn; lia); try done.
  - by exists (Some x07).
  - by left.
  - by intros p [= <-].
Qed.

Definition w_request : InvoiceRequest :=
  from_Ret (MkInvoiceRequest [] [] 0 None 0 None [] [] None [])
    (NewInvoiceRequest w_request_offer 2000 2 (Some (false, x09)) (lit "note")).

Lemma w_request_wf : ir_wf w_request.
Proof.
  constructor; try done; try (unfold u64; vm_compute; intuition congruence).
  - by exists (Some x07).
  - intros p Hp. vm_compute in Hp. by injection Hp as <-.
Qed.

Definition w_request_sig : bytes :=
  InvoiceRequest_SignatureDigest w_request ++ replicate 31 x00 ++ [x09].

Lemma NewInvoiceRequest_spec_witness :
  (o_MinimumAmount w_request_offer <= 2000 /\ quantity_allowed w_request_offer 2 <->
   returns (NewInvoiceRequest w_request_offer 2000 2 (Some (false, x09)) (lit "note")))
  /\ forall r, NewInvoiceRequest w_request_offer 2000 2 (Some (false, x09)) (lit "note") = Ret r ->
       ir_Chainhash r = o_Chainhash w_request_offer /\ ir_OfferID r = o_MerkleRoot w_request_offer
       /\ ir_Features r = o_Features w_request_offer /\ ir_Signature r = None.
Proof.
  apply (NewInvoiceRequest_spec w_request_offer 2000 2 (false, x09) (lit "note"));
    [exact w_request_offer_wf | reflexivity | by split | by split
    | split; vm_compute; congruence | reflexivity].
Defined.

Lemma NewInvoiceRequest_min_only_rejects_witness :
  Offer_Validate w_min_only = Ret tt
  /\ fails (NewInvoiceRequest w_min_only 2000 2 (Some (false, x09)) (lit "note")).
Proof.
  split; [reflexivity|].
  apply (NewInvoiceRequest_min_only_rejects w_min_only 2000 2 (Some (false, x09)) (lit "note"));
    [reflexivity | by split | reflexivity | reflexivity].
Defined.

Lemma InvoiceRequest_sign_roundtrip_witness :
  exists b, EncodeInvoiceRequest (ir_set_Signature w_request (Some w_request_sig)) = Ret b
    /\ DecodeInvoiceRequest b = Ret (ir_set_Signature w_request (Some w_request_sig))
    /\ InvoiceRequest_Validate (ir_set_Signature w_request (Some w_request_sig)) = Ret tt.
Proof.
  apply (InvoiceRequest_sign_roundtrip w_request_offer 2000 2 (false, x09) (lit "note")
           w_request_sig w_request);
    [exact w_request_offer_wf | reflexivity | discriminate | by split | by split
    | split; vm_compute; congruence | reflexivity | vm_compute; reflexivity
    | apply from_Ret_eq; vm_compute; reflexivity |].
  exists w_request_sig. split; vm_compute; reflexivity.
Defined.

Lemma InvoiceRequest_roundtrip_witness :
  exists recs root b,
    records w_request = Ret recs /\ MerkleRoot recs = Ret root /\
    EncodeInvoiceRequest w_request = Ret b /\
    DecodeInvoiceRequest b = Ret (ir_set_MerkleRoot w_request root).
Proof.
  apply (InvoiceRequest_roundtrip w_request); [exact w_request_wf | vm_compute; discriminate].
Defined.

Definition w_request_bytes : bytes := wire (field_raws (ir_fields w_request)).
Definition w_decoded_request : InvoiceRequest := from_Ret w_request (DecodeInvoiceRequest w_request_bytes).

Lemma DecodeInvoiceRequest_wf_witness :
  DecodeInvoiceRequest w_request_bytes = Ret w_decoded_request
  /\ exists b', EncodeInvoiceRequest w_decoded_request = Ret b'
               /\ DecodeInvoiceRequest b' = Ret w_decoded_request.
Proof.
  assert (DecodeInvoiceRequest w_request_bytes = Ret w_decoded_request) as E
    by (apply from_Ret_eq; vm_compute; reflexivity).
  split; [exact E|]. apply (DecodeInvoiceRequest_wf w_request_bytes w_decoded_request E).
  pose proof (ir_fields_wf _ w_request_wf) as W.
  apply known_only_wire; [by apply field_raws_wf|]. apply known_no_unknown.
  rewrite ir_decoders_schema. exact (field_raws_known _ _ W (ir_fits w_request)).
Defined.
