(* ===== verification/Invoices.v ===== *)
(** lnwire/bolt12_invoice.go: bolt 12 invoices - validation, encoding and
    decoding. *)
From S2P Require Import Prelude Deps Tu64 DepsRef GoTime Stream Merkle Signatures Shared Offers.

Definition invChainType : Z := 3.
Definition invOfferIDType : Z := 4.
Definition invAmountType : Z := 8.
Definition invDescType : Z := 10.
Definition invFeatType : Z := 12.
Definition invNodeIDType : Z := 30.
Definition invQuantityType : Z := 32.
Definition invPayerKeyType : Z := 38.
Definition invPayerNoteType : Z := 39.
Definition invCreatedAtType : Z := 40.
Definition invPaymentHashType : Z := 42.
Definition invRelativeExpiryType : Z := 44.
Definition inCLTVType : Z := 46.
Definition invPayerInfoType : Z := 50.
Definition invSigType : Z := 240.

Definition ErrNoCreationTime : error := ENamed "lnwire.ErrNoCreationTime".
Definition ErrNoPaymentHash : error := ENamed "lnwire.ErrNoPaymentHash".
Definition ErrNoAmount : error := ENamed "lnwire.ErrNoAmount".

Section Invoices.
Context `{CR : Crypto, TL : !Tlv, LN : !Lntypes, FE : Features, MO : MapOrder, PF : Platform}.

Record Invoice := MkInvoice {
  i_Chainhash : bytes;
  i_OfferID : bytes;
  i_Amount : Z;
  i_Description : bytes;
  i_Features : option FeatureVector;
  i_NodeID : option PublicKey;
  i_Quantity : Z;
  i_PayerKey : option PublicKey;
  i_PayerNote : bytes;
  i_CreatedAt : Time;
  i_PaymentHash : bytes;
  i_RelativeExpiry : Z;   (* a time.Duration *)
  i_CLTVExpiry : Z;
  i_PayerInfo : bytes;
  i_Signature : option bytes;
  i_MerkleRoot : bytes;
}.

(** [i.MerkleRoot = root] *)
Definition inv_set_MerkleRoot (i : Invoice) (root : bytes) : Invoice :=
  MkInvoice (i_Chainhash i) (i_OfferID i) (i_Amount i) (i_Description i) (i_Features i)
    (i_NodeID i) (i_Quantity i) (i_PayerKey i) (i_PayerNote i) (i_CreatedAt i) (i_PaymentHash i)
    (i_RelativeExpiry i) (i_CLTVExpiry i) (i_PayerInfo i) (i_Signature i) root.

(** [i.RelativeExpiry = d] *)
Definition inv_set_RelativeExpiry (i : Invoice) (d : Z) : Invoice :=
  MkInvoice (i_Chainhash i) (i_OfferID i) (i_Amount i) (i_Description i) (i_Features i)
    (i_NodeID i) (i_Quantity i) (i_PayerKey i) (i_PayerNote i) (i_CreatedAt i) (i_PaymentHash i)
    d (i_CLTVExpiry i) (i_PayerInfo i) (i_Signature i) (i_MerkleRoot i).

(** (i Invoice).Validate *)
Definition Invoice_Validate (i : Invoice) : outcome unit :=
  if bool_decide (i_Amount i = 0) then Err ErrNoAmount
  else if bool_decide (i_PaymentHash i = ZeroHash) then Err ErrNoPaymentHash
  else if time_IsZero (i_CreatedAt i) then Err ErrNoCreationTime
  else
    match i_NodeID i with
    | None => Err ErrNodeIDRequired
    | Some nodeID =>
        if bool_decide (i_Description i = []) then Err ErrDescriptionRequried
        else
          match i_Signature i with
          | Some sig =>
              let sigDigest := signatureDigest invoiceTag signatureTag (i_MerkleRoot i) in
              validateSignature sig nodeID sigDigest
          | None => Ret tt
          end
    end.

(** (i Invoice).records *)
#[export] Instance Invoice_records : tlvTree Invoice := fun i =>
  let records := [] in
  let records := append_if (bool_decide (i_Chainhash i <> ZeroHash))
    (MakePrimitiveRecord invChainType (VBytes32 (i_Chainhash i))) records in
  let records := append_if (bool_decide (i_OfferID i <> ZeroHash))
    (MakePrimitiveRecord invOfferIDType (VBytes32 (i_OfferID i))) records in
  let records := append_if (bool_decide (i_Amount i <> 0))
    (tu64Record invAmountType (i_Amount i)) records in
  let records := append_if (bool_decide (i_Description i <> []))
    (MakePrimitiveRecord invDescType (VBytes (i_Description i))) records in
  featuresRecord ← encodeFetauresRecord invFeatType (i_Features i);
  let records := append_some featuresRecord (fun r => r) records in
  let records := append_some (i_NodeID i) (fun nodeID =>
    MakePrimitiveRecord invNodeIDType (VPubKey nodeID)) records in
  let records := append_if (bool_decide (i_Quantity i <> 0))
    (tu64Record invQuantityType (i_Quantity i)) records in
  let records := append_some (i_PayerKey i) (fun payerKey =>
    MakePrimitiveRecord invPayerKeyType (VPubKey payerKey)) records in
  let records := append_if (bool_decide (i_PayerNote i <> []))
    (MakePrimitiveRecord invPayerNoteType (VBytes (i_PayerNote i))) records in
  let records := append_if (negb (time_IsZero (i_CreatedAt i)))
    (MakePrimitiveRecord invCreatedAtType (VUint64 (to_u64 (t_Unix (i_CreatedAt i))))) records in
  let records := append_if (bool_decide (i_PaymentHash i <> ZeroHash))
    (MakePrimitiveRecord invPaymentHashType (VBytes32 (i_PaymentHash i))) records in
  let records := append_if (bool_decide (i_RelativeExpiry i <> 0))
    (MakePrimitiveRecord invRelativeExpiryType
       (VUint64 (uint64_of_float (Duration_Seconds (i_RelativeExpiry i))))) records in
  let records := append_if (bool_decide (i_CLTVExpiry i <> 0))
    (MakePrimitiveRecord inCLTVType (VUint64 (i_CLTVExpiry i))) records in
  let records := append_if (bool_decide (i_PayerInfo i <> []))
    (MakePrimitiveRecord invPayerInfoType (VBytes (i_PayerInfo i))) records in
  let records := append_some (i_Signature i) (fun signature =>
    MakePrimitiveRecord invSigType (VBytes64 signature)) records in
  Ret records.

Definition EncodeInvoice (i : Invoice) : outcome bytes :=
  recs ← wrap "invoice records" (records i);
  _ ← wrap "new stream" (NewStream (map rec_Type recs));
  wrap "encode stream" (Stream_Encode recs).

(** The records DecodeInvoice makes its stream from. *)
Definition inv_decoders : list (Z * decoder tlvValue) := [
  PrimitiveDecoder invChainType KBytes32;
  PrimitiveDecoder invOfferIDType KBytes32;
  tu64Decoder invAmountType;
  PrimitiveDecoder invDescType KBytes;
  PrimitiveDecoder invFeatType KBytes;
  PrimitiveDecoder invNodeIDType KPubKey;
  tu64Decoder invQuantityType;
  PrimitiveDecoder invPayerKeyType KPubKey;
  PrimitiveDecoder invPayerNoteType KBytes;
  PrimitiveDecoder invCreatedAtType KUint64;
  PrimitiveDecoder invPaymentHashType KBytes32;
  PrimitiveDecoder invRelativeExpiryType KUint64;
  PrimitiveDecoder inCLTVType KUint64;
  PrimitiveDecoder invPayerInfoType KBytes;
  PrimitiveDecoder invSigType KBytes64
].

Definition DecodeInvoice (b : bytes) : outcome Invoice :=
  _ ← wrap "new stream" (NewStream (map fst inv_decoders));
  '(tlvMap, vals) ← wrap "decode stream" (DecodeWithParsedTypes inv_decoders b);
  chainHash ← (if found tlvMap invChainType
               then wrap "chain hash" (MakeHash (slot_array 32 vals invChainType))
               else Ret ZeroHash);
  offerID ← (if found tlvMap invOfferIDType
             then wrap "offer id" (MakeHash (slot_array 32 vals invOfferIDType))
             else Ret ZeroHash);
  features ← wrap "features decode"
    (decodeFeaturesRecord (slot_bytes vals invFeatType) (found tlvMap invFeatType));
  payHash ← (if found tlvMap invPaymentHashType
             then wrap "pay hash" (MakeHash (slot_array 32 vals invPaymentHashType))
             else Ret ZeroHash);
  let i := {|
    i_Chainhash := chainHash;
    i_OfferID := offerID;
    i_Amount := if found tlvMap invAmountType then slot_u64 vals invAmountType else 0;
    i_Description := if found tlvMap invDescType then slot_bytes vals invDescType else [];
    i_Features := Some features;
    i_NodeID := slot_pubkey vals invNodeIDType;
    i_Quantity := slot_u64 vals invQuantityType;
    i_PayerKey := slot_pubkey vals invPayerKeyType;
    i_PayerNote := if found tlvMap invPayerNoteType then slot_bytes vals invPayerNoteType else [];
    i_CreatedAt := if found tlvMap invCreatedAtType
                   then time_Unix (to_i64 (slot_u64 vals invCreatedAtType)) 0 else zero_Time;
    i_PaymentHash := payHash;
    i_RelativeExpiry := if found tlvMap invRelativeExpiryType
                        then seconds_Duration (slot_u64 vals invRelativeExpiryType) else 0;
    i_CLTVExpiry := slot_u64 vals inCLTVType;
    i_PayerInfo := slot_bytes vals invPayerInfoType;
    i_Signature := if found tlvMap invSigType then Some (slot_array 64 vals invSigType) else None;
    i_MerkleRoot := ZeroHash |} in
  root ← wrap "merkle root" (decodeMerkleRoot i tlvMap);
  Ret (inv_set_MerkleRoot i root).

(** ** The invoice as a list of fields *)

Definition inv_schema : schema := [
  (3, CPrim KBytes32); (4, CPrim KBytes32); (8, CTU64); (10, CPrim KBytes); (12, CPrim KBytes);
  (30, CPrim KPubKey); (32, CTU64); (38, CPrim KPubKey); (39, CPrim KBytes); (40, CPrim KUint64);
  (42, CPrim KBytes32); (44, CPrim KUint64); (46, CPrim KUint64); (50, CPrim KBytes);
  (240, CPrim KBytes64)
].

(** The fields of an invoice whose relative expiry record is [rel]. *)
Definition inv_fields_rel (i : Invoice) (rel : option Z) : fields := [
  (3, opt (bool_decide (i_Chainhash i <> ZeroHash)) (FPrim (VBytes32 (i_Chainhash i))));
  (4, opt (bool_decide (i_OfferID i <> ZeroHash)) (FPrim (VBytes32 (i_OfferID i))));
  (8, opt (bool_decide (i_Amount i <> 0)) (FTU64 (i_Amount i)));
  (10, opt (bool_decide (i_Description i <> [])) (FPrim (VBytes (i_Description i))));
  (12, features_field (i_Features i));
  (30, (fun p => FPrim (VPubKey p)) <$> i_NodeID i);
  (32, opt (bool_decide (i_Quantity i <> 0)) (FTU64 (i_Quantity i)));
  (38, (fun p => FPrim (VPubKey p)) <$> i_PayerKey i);
  (39, opt (bool_decide (i_PayerNote i <> [])) (FPrim (VBytes (i_PayerNote i))));
  (40, opt (negb (time_IsZero (i_CreatedAt i))) (FPrim (VUint64 (to_u64 (t_Unix (i_CreatedAt i))))));
  (42, opt (bool_decide (i_PaymentHash i <> ZeroHash)) (FPrim (VBytes32 (i_PaymentHash i))));
  (44, (fun n => FPrim (VUint64 n)) <$> rel);
  (46, opt (bool_decide (i_CLTVExpiry i <> 0)) (FPrim (VUint64 (i_CLTVExpiry i))));
  (50, opt (bool_decide (i_PayerInfo i <> [])) (FPrim (VBytes (i_PayerInfo i))));
  (240, (fun s => FPrim (VBytes64 s)) <$> i_Signature i)
].

(** The relative expiry record an invoice is encoded with. *)
Definition rel_expiry (i : Invoice) : option Z :=
  opt (bool_decide (i_RelativeExpiry i <> 0))
    (uint64_of_float (Duration_Seconds (i_RelativeExpiry i))).

Definition inv_fields (i : Invoice) : fields := inv_fields_rel i (rel_expiry i).

(** What the types of the fields guarantee, and whole seconds. *)
Record inv_wf_rel (i : Invoice) (rel : option Z) : Prop := {
  iw_chain : is_hash (i_Chainhash i);
  iw_offer : is_hash (i_OfferID i);
  iw_amount : u64 (i_Amount i);
  iw_desc : u64 (len (i_Description i));
  iw_features : features_wf (i_Features i);
  iw_quantity : u64 (i_Quantity i);
  iw_note : u64 (len (i_PayerNote i));
  iw_created : i_CreatedAt i = zero_Time
               \/ (i64 (t_Unix (i_CreatedAt i)) /\ t_nsec (i_CreatedAt i) = 0);
  iw_hash : is_hash (i_PaymentHash i);
  iw_rel : forall n, rel = Some n -> u64 n;
  iw_cltv : u64 (i_CLTVExpiry i);
  iw_info : u64 (len (i_PayerInfo i));
  iw_sig : forall s, i_Signature i = Some s -> length s = 64%nat;
}.

(** A relative expiry of whole seconds that fits a duration. *)
Definition inv_wf (i : Invoice) : Prop :=
  inv_wf_rel i (rel_expiry i) /\
  exists n, 0 <= n <= 9223372036 /\ i_RelativeExpiry i = time_Second * n.

End Invoices.

Section Facts.
Context `{CR : Crypto, CL : !CryptoLaws, TL : !Tlv, TLL : !TlvLaws, LN : !Lntypes,
          LNL : !LntypesLaws, FE : Features, FEL : !FeaturesLaws,
          MO : MapOrder, MOL : !MapOrderLaws, PF : Platform}.

Lemma inv_records_fields i :
  features_wf (i_Features i) -> records i = Ret (field_records (inv_fields i)).
Proof.
  intros Hf. unfold records, Invoice_records.
  change (@nil tlvRecord) with (field_records []).
  rewrite !append_prim, append_tu64, append_prim.
  match goal with |- context [append_some _ _ (field_records ?fs)] =>
    destruct (append_features_fields invFeatType (i_Features i) fs Hf) as (r & -> & E) end.
  cbn [mbind outcome_bind]. rewrite E.
  repeat first [rewrite append_prim | rewrite append_tu64 | rewrite append_some_prim].
  unfold inv_fields, inv_fields_rel, rel_expiry.
  by destruct (bool_decide (i_RelativeExpiry i <> 0)).
Qed.

Lemma inv_fits i rel : fits inv_schema (inv_fields_rel i rel).
Proof.
  unfold fits, inv_schema, inv_fields_rel. fields_cases; try done. by eapply features_field_kind.
Qed.

Lemma inv_fields_wf i rel : inv_wf_rel i rel -> fields_wf (inv_fields_rel i rel).
Proof.
  intros []. split; [is_increasing|]. unfold inv_fields_rel.
  fields_cases; cbn; field_wf_solve.
Qed.

Lemma inv_decoders_schema : inv_decoders = schema_decoders inv_schema.
Proof. done. Qed.

Lemma NewStream_inv : NewStream (map fst inv_decoders) = Ret tt.
Proof. apply NewStream_ok. cbn. is_increasing. Qed.

Lemma EncodeInvoice_wire i :
  inv_wf i -> EncodeInvoice i = Ret (wire (field_raws (inv_fields i))).
Proof.
  intros [W _]. unfold EncodeInvoice. rewrite inv_records_fields by apply W.
  destruct (fields_encode (inv_fields i)) as [E1 E2];
    [by apply fields_wf_ok, inv_fields_wf|].
  cbn [wrap mbind outcome_bind]. rewrite E1. cbn [wrap mbind outcome_bind]. by rewrite E2.
Qed.

(** The relative expiry that a record decodes to. *)
Definition decode_rel (rel : option Z) : Z :=
  match rel with Some n => seconds_Duration n | None => 0 end.

(** Decoding any canonical stream whose known records are the fields of [i],
    up to the computation of the Merkle root. *)
Lemma DecodeInvoice_vals i rel rs :
  inv_wf_rel i rel -> raws_wf rs ->
  List.filter (is_known inv_decoders) rs = field_raws (inv_fields_rel i rel) ->
  let i' := inv_set_RelativeExpiry i (decode_rel rel) in
  DecodeInvoice (wire rs)
  = (root ← wrap "merkle root"
       (decodeMerkleRoot (inv_set_MerkleRoot i' ZeroHash) (type_map inv_decoders rs));
     Ret (inv_set_MerkleRoot i' root)).
Proof.
  intros W Hrs Hk. pose proof (inv_fields_wf _ _ W) as FW.
  unfold DecodeInvoice. rewrite NewStream_inv. cbn [wrap mbind outcome_bind].
  destruct (fields_decode _ _ _ FW (inv_fits i rel) Hrs Hk) as [E At].
  change (schema_decoders inv_schema) with inv_decoders in *.
  rewrite E. cbn [wrap mbind outcome_bind].
  set (tm := type_map inv_decoders rs) in *. set (vm := value_map inv_decoders rs) in *.
  destruct (At 0%nat invChainType _ eq_refl) as [-> V0].
  destruct (At 1%nat invOfferIDType _ eq_refl) as [-> V1].
  destruct (At 2%nat invAmountType _ eq_refl) as [-> V2].
  destruct (At 3%nat invDescType _ eq_refl) as [-> V3].
  destruct (At 4%nat invFeatType _ eq_refl) as [-> V4].
  destruct (At 5%nat invNodeIDType _ eq_refl) as [_ V5].
  destruct (At 6%nat invQuantityType _ eq_refl) as [_ V6].
  destruct (At 7%nat invPayerKeyType _ eq_refl) as [_ V7].
  destruct (At 8%nat invPayerNoteType _ eq_refl) as [-> V8].
  destruct (At 9%nat invCreatedAtType _ eq_refl) as [-> V9].
  destruct (At 10%nat invPaymentHashType _ eq_refl) as [-> V10].
  destruct (At 11%nat invRelativeExpiryType _ eq_refl) as [-> V11].
  destruct (At 12%nat inCLTVType _ eq_refl) as [_ V12].
  destruct (At 13%nat invPayerInfoType _ eq_refl) as [_ V13].
  destruct (At 14%nat invSigType _ eq_refl) as [-> V14].
  destruct W. rewrite (MakeHash_field _ _ _ _ iw_chain0 V0). cbn [mbind outcome_bind].
  rewrite (MakeHash_field _ _ _ _ iw_offer0 V1). cbn [mbind outcome_bind].
  destruct (features_field_decode _ _ _ iw_features0 V4) as (f & Ef & ->).
  cbn [wrap mbind outcome_bind].
  rewrite (MakeHash_field _ _ _ _ iw_hash0 V10). cbn [mbind outcome_bind].
  rewrite !is_some_opt, (array_field_if _ _ _ _ _ (or_intror eq_refl) V14),
    (time_prim_field_if _ _ _ iw_created0 V9),
    (slot_pubkey_field _ _ _ V5), (slot_pubkey_field _ _ _ V7),
    (slot_u64_field_if _ _ _ _ _ V2), (slot_u64_field _ _ _ _ V6),
    (slot_bytes_field_if _ _ _ _ V3), (slot_bytes_field_if _ _ _ _ V8),
    (slot_bytes_field _ _ _ _ V13), (slot_u64_prim_field _ _ _ _ V12)
    by apply bool_decide_neq_false.
  rewrite is_some_fmap.
  assert ((if is_some rel then seconds_Duration (slot_u64 vm invRelativeExpiryType) else 0)
          = decode_rel rel) as ->.
  { unfold slot_u64. rewrite V11. by destruct rel. }
  by rewrite <- Ef.
Qed.

(** Whatever bytes decode to an invoice, its fields are within their types, and
    its relative expiry is that of a 64-bit record. *)
Lemma DecodeInvoice_typed b i :
  DecodeInvoice b = Ret i ->
  exists rel, inv_wf_rel i rel /\ i_RelativeExpiry i = decode_rel rel.
Proof.
  unfold DecodeInvoice. rewrite NewStream_inv. cbn [wrap mbind outcome_bind]. intros H. go_inv.
  destruct x as [tm vm]. go_inv. change inv_decoders with (schema_decoders inv_schema) in E.
  apply decode_typed in E; [|cbn; is_increasing].
  rename x into chain, x0 into offer, x1 into feats, x2 into hash.
  exists (opt (found tm invRelativeExpiryType) (slot_u64 vm invRelativeExpiryType)).
  split; [|by cbn; destruct (found tm invRelativeExpiryType)].
  constructor; cbn.
  - by refine (found_hash_typed _ _ _ E _ _ _ _ E0).
  - by refine (found_hash_typed _ _ _ E _ _ _ _ E1).
  - destruct (found tm invAmountType); [by eapply slot_u64_typed | by split].
  - destruct (found tm invDescType); [by eapply slot_bytes_typed | by split].
  - unfold decodeFeaturesRecord in E2. go_inv. by eexists.
  - by eapply slot_u64_typed.
  - destruct (found tm invPayerNoteType); [by eapply slot_bytes_typed | by split].
  - destruct (found tm invCreatedAtType); [|by left]. right. split; [apply to_i64_range | done].
  - by refine (found_hash_typed _ _ _ E _ _ _ _ E3).
  - intros n. destruct (found tm invRelativeExpiryType); [|done].
    intros [= <-]. by eapply slot_u64_typed.
  - by eapply slot_u64_typed.
  - by eapply slot_bytes_typed.
  - intros s Hs. destruct (found tm invSigType); [|done]. injection Hs as <-.
    apply (slot_array_typed _ _ _ E). by right.
Qed.

Lemma decode_rel_whole i : inv_wf i -> decode_rel (rel_expiry i) = i_RelativeExpiry i.
Proof.
  intros [_ (n & Hn & E)]. unfold rel_expiry. rewrite E.
  rewrite uint64_Seconds_whole by lia. case_bool_decide as Z; cbn; [|lia].
  by apply seconds_Duration_whole.
Qed.

Lemma inv_set_RelativeExpiry_id i : inv_set_RelativeExpiry i (i_RelativeExpiry i) = i.
Proof. by destruct i. Qed.

(** A decoded invoice whose relative expiry fits a duration is well typed, with
    the record it is encoded with. *)
Lemma DecodeInvoice_typed_wf b i n : DecodeInvoice b = Ret i -> 0 <= n <= 9223372036 ->
  i_RelativeExpiry i = time_Second * n -> inv_wf i.
Proof.
  intros H Hn Hr. apply DecodeInvoice_typed in H as (rel & W & _). split; [|by exists n].
  assert (forall m, rel_expiry i = Some m -> u64 m) as Hm.
  { clear W. unfold rel_expiry. rewrite Hr, uint64_Seconds_whole by lia.
    intros m. case_bool_decide; [|done]. intros [= <-]. unfold u64. lia. }
  by destruct W.
Qed.

(** The Merkle root of an invoice that was decoded from known records. *)
Lemma DecodeInvoice_root b i : DecodeInvoice b = Ret i -> inv_wf i ->
  known_only inv_decoders b -> raw_root (field_raws (inv_fields i)) = Ret (i_MerkleRoot i).
Proof.
  unfold DecodeInvoice. rewrite NewStream_inv. cbn [wrap mbind outcome_bind]. intros H W K. go_inv.
  destruct x as [tm vm]. go_inv. change inv_decoders with (schema_decoders inv_schema) in E.
  apply schema_decode_inv in E as (rs & Hrs & Hb & _ & -> & ->); [|cbn; is_increasing].
  match goal with E : decodeMerkleRoot ?m _ = Ret ?h |- _ =>
    rename E into Er; set (j := m) in *;
    change (inv_fields (inv_set_MerkleRoot j h)) with (inv_fields j);
    change (i_MerkleRoot (inv_set_MerkleRoot j h)) with h;
    assert (inv_wf_rel j (rel_expiry j)) as Wj by (destruct W as [[] _]; by constructor)
  end.
  clear W. clearbody j.
  refine (decodeMerkleRoot_known_inv inv_decoders j (inv_fields j) rs _ _ _ _ _ Er).
  - by rewrite inv_records_fields by apply Wj.
  - by apply inv_fields_wf.
  - by apply increasing_NoDup, Hrs.
  - by apply K.
Qed.

(** The root of a decoded invoice without unknown records. *)
Lemma DecodeInvoice_fields i rel d h :
  inv_wf_rel i rel -> inv_wf (inv_set_RelativeExpiry i d) -> decode_rel rel = d ->
  raw_root (field_raws (inv_fields (inv_set_RelativeExpiry i d))) = Ret h ->
  DecodeInvoice (wire (field_raws (inv_fields_rel i rel)))
  = Ret (inv_set_MerkleRoot (inv_set_RelativeExpiry i d) h).
Proof.
  intros W Wd E Hh. pose proof (inv_fields_wf _ _ W) as FW.
  pose proof (field_raws_known _ _ FW (inv_fits i rel)) as K. rewrite <- inv_decoders_schema in K.
  pose proof (field_raws_wf _ FW) as RW.
  rewrite (DecodeInvoice_vals i rel) by auto using filter_all. rewrite E.
  erewrite (decodeMerkleRoot_known inv_decoders _ (inv_fields (inv_set_RelativeExpiry i d)));
    [done| | | |by apply known_no_unknown|exact Hh].
  - by rewrite inv_records_fields by apply W.
  - apply inv_fields_wf, Wd.
  - by apply increasing_NoDup, RW.
Qed.

Lemma inv_unsigned i rel :
  i_Description i <> [] -> unsigned (field_raws (inv_fields_rel i rel)) <> [].
Proof.
  intros Hd. apply (unsigned_field _ 3 10 (FPrim (VBytes (i_Description i)))); [|done].
  unfold inv_fields_rel. cbn. by rewrite bool_decide_true.
Qed.
End Facts.

(** ** Properties *)

Section Properties.
Context `{CR : Crypto, CL : !CryptoLaws, TL : !Tlv, TLL : !TlvLaws, LN : !Lntypes,
          LNL : !LntypesLaws, FE : Features, FEL : !FeaturesLaws,
          MO : MapOrder, MOL : !MapOrderLaws, PF : Platform}.

(** C3: Encoding an invoice with a description and decoding the bytes gives
    the invoice back, its Merkle root set to that of its records, when the wire
    can hold it ([inv_wf]): 32 and 64 byte fields of their sizes, times in whole
    seconds, and a relative expiry that fits a time.Duration. *)
Theorem Invoice_roundtrip (i : Invoice) :
  inv_wf i -> i_Description i <> [] ->
  exists recs root b,
    records i = Ret recs /\ MerkleRoot recs = Ret root /\
    EncodeInvoice i = Ret b /\ DecodeInvoice b = Ret (inv_set_MerkleRoot i root).
Proof.
  intros W Hd. destruct (raw_root_returns _ (inv_unsigned i (rel_expiry i) Hd)) as [h Hh].
  exists (field_records (inv_fields i)), h, (wire (field_raws (inv_fields i))).
  split; [by apply inv_records_fields, W|]. split; [|split].
  - rewrite MerkleRoot_fields; [done|]. by apply fields_wf_ok, inv_fields_wf, W.
  - by apply EncodeInvoice_wire.
  - unfold inv_fields. rewrite (DecodeInvoice_fields i _ (i_RelativeExpiry i) h);
      rewrite ?inv_set_RelativeExpiry_id; try done; [apply W | by apply decode_rel_whole].
Qed.

(** Validate accepts an invoice exactly when it has an amount, a payment
    hash, a creation time, a node ID and a description, and its signature, when
    there is one, is a valid signature of the node over the digest of the
    Merkle root. *)
Theorem Invoice_Validate_spec (i : Invoice) :
  Invoice_Validate i = Ret tt <->
  i_Amount i <> 0 /\ i_PaymentHash i <> ZeroHash /\ i_CreatedAt i <> zero_Time /\
  i_Description i <> [] /\
  exists nodeID, i_NodeID i = Some nodeID /\
    forall sig, i_Signature i = Some sig ->
      valid_signature sig nodeID (signatureDigest invoiceTag signatureTag (i_MerkleRoot i)).
Proof.
  unfold Invoice_Validate, time_IsZero.
  repeat case_bool_decide; destruct (i_NodeID i) as [p|];
    try (split; [done|]; intros (? & ? & ? & ? & ? & ? & _); congruence).
  destruct (i_Signature i) as [s|].
  - rewrite validateSignature_Ret. split.
    + intros V. do 4 (split; [done|]). exists p. split; [done|]. by intros ? [= <-].
    + intros (_ & _ & _ & _ & ? & [= <-] & V). by apply V.
  - split; [|done]. intros _. do 4 (split; [done|]). by exists p.
Qed.

(** C26: Whatever bytes decode to an invoice, the invoice is well typed, its
    relative expiry being that of a 64-bit record.  When that expiry is a whole
    number of seconds within time.Duration and all records of the bytes are of
    known types, the invoice can be stored and sent on: it encodes, and the
    encoding decodes to the very same invoice, Merkle root included, so that
    its signature stays as valid as it was. *)
Theorem DecodeInvoice_wf (b : bytes) (i : Invoice) :
  DecodeInvoice b = Ret i ->
  (exists rel, inv_wf_rel i rel /\ i_RelativeExpiry i = decode_rel rel)
  /\ ((exists n, 0 <= n <= 9223372036 /\ i_RelativeExpiry i = time_Second * n) ->
      known_only inv_decoders b ->
      exists b', EncodeInvoice i = Ret b' /\ DecodeInvoice b' = Ret i).
Proof.
  intros H. split; [by eapply DecodeInvoice_typed|]. intros (n & Hn & Hr) K.
  pose proof (DecodeInvoice_typed_wf _ _ _ H Hn Hr) as W.
  exists (wire (field_raws (inv_fields i))). split; [by apply EncodeInvoice_wire|].
  unfold inv_fields.
  rewrite (DecodeInvoice_fields i _ (i_RelativeExpiry i) (i_MerkleRoot i));
    rewrite ?inv_set_RelativeExpiry_id; try done.
  - by destruct i.
  - apply W.
  - by apply decode_rel_whole.
  - by eapply DecodeInvoice_root.
Qed.

(** A relative expiry record of n seconds decodes to a duration of n
    seconds exactly when n is at most 9223372036: beyond, the multiplication
    that converts it wraps around. *)
Theorem DecodeInvoice_relative_expiry (i r : Invoice) (n : Z) :
  inv_wf_rel i (Some n) ->
  DecodeInvoice (wire (field_raws (inv_fields_rel i (Some n)))) = Ret r ->
  i_RelativeExpiry r = time_Second * n <-> n <= 9223372036.
Proof.
  intros W. pose proof (inv_fields_wf _ _ W) as FW.
  pose proof (field_raws_known _ _ FW (inv_fits i (Some n))) as K.
  rewrite <- inv_decoders_schema in K. pose proof (field_raws_wf _ FW) as RW.
  rewrite (DecodeInvoice_vals i (Some n)) by auto using filter_all.
  intros H. go_inv. cbn. pose proof (iw_rel _ _ W n eq_refl) as Hn. unfold u64 in Hn.
  split; intros Hr.
  - pose proof (to_i64_range (time_Second * to_i64 n)) as B.
    unfold seconds_Duration in Hr. rewrite Hr in B. unfold time_Second, i64 in B. lia.
  - apply seconds_Duration_whole. lia.
Qed.

(** A relative expiry record of 2^55 seconds is lost: the invoice decodes
    exactly as the one without the record, with no expiry and the same Merkle
    root, so that a signature of the one is valid for the other. *)
Theorem DecodeInvoice_expiry_lost (i : Invoice) :
  inv_wf_rel i None -> i_RelativeExpiry i = 0 -> i_Description i <> [] ->
  DecodeInvoice (wire (field_raws (inv_fields_rel i (Some (2 ^ 55)))))
  = DecodeInvoice (wire (field_raws (inv_fields_rel i None))).
Proof.
  intros W Hz Hd.
  assert (rel_expiry i = None) as Er by (unfold rel_expiry; by rewrite Hz).
  assert (inv_wf i) as Wi by (split; [by rewrite Er | exists 0; rewrite Hz; split; [lia | done]]).
  assert (inv_wf_rel i (Some (2 ^ 55))) as W55.
  { destruct W. constructor; try done. intros ? [= <-]. unfold u64. lia. }
  destruct (raw_root_returns _ (inv_unsigned i (rel_expiry i) Hd)) as [h Hh].
  rewrite !(DecodeInvoice_fields i _ 0 h); try done.
  all: rewrite <- Hz, inv_set_RelativeExpiry_id; done.
Qed.

End Properties.

(** ** Witnesses *)

Definition w_invoice : Invoice := {|
  i_Chainhash := replicate 32 xaa; i_OfferID := replicate 32 xbb; i_Amount := 2000;
  i_Description := lit "coffee"; i_Features := Some (Some x07); i_NodeID := Some (true, x05);
  i_Quantity := 2; i_PayerKey := Some (false, x09); i_PayerNote := [];
  i_CreatedAt := time_Unix 1660000000 0; i_PaymentHash := replicate 32 xcc;
  i_RelativeExpiry := 7200 * time_Second; i_CLTVExpiry := 18; i_PayerInfo := [x01];
  i_Signature := Some (replicate 64 x11); i_MerkleRoot := ZeroHash |}.

Lemma w_invoice_wf rel : (forall n, rel = Some n -> u64 n) -> inv_wf_rel w_invoice rel.
Proof.
  intros Hrel. constructor; try (unfold u64, len; cbn; lia); try done.
  - by exists (Some x07).
  - right. split; [unfold i64; cbn; lia | done].
  - by intros p [= <-].
Qed.

Lemma Invoice_roundtrip_witness :
  exists recs root b,
    records w_invoice = Ret recs /\ MerkleRoot recs = Ret root /\
    EncodeInvoice w_invoice = Ret b /\ DecodeInvoice b = Ret (inv_set_MerkleRoot w_invoice root).
Proof.
  apply (Invoice_roundtrip w_invoice); [|discriminate]. split.
  - apply w_invoice_wf. intros n Hn. vm_compute in Hn. by injection Hn as <-.
  - by exists 7200.
Defined.

Definition w_decoded_rel : Invoice :=
  from_Ret w_invoice (DecodeInvoice (wire (field_raws (inv_fields_rel w_invoice (Some 7200))))).

Lemma DecodeInvoice_relative_expiry_witness :
  i_RelativeExpiry w_decoded_rel = time_Second * 7200 <-> 7200 <= 9223372036.
Proof.
  apply (DecodeInvoice_relative_expiry w_invoice w_decoded_rel 7200).
  - apply w_invoice_wf. by intros n [= <-].
  - apply from_Ret_eq. vm_compute. reflexivity.
Defined.

Definition w_no_expiry : Invoice := inv_set_RelativeExpiry w_invoice 0.

Lemma DecodeInvoice_expiry_lost_witness :
  DecodeInvoice (wire (field_raws (inv_fields_rel w_no_expiry (Some (2 ^ 55)))))
  = DecodeInvoice (wire (field_raws (inv_fields_rel w_no_expiry None))).
Proof.
  apply (DecodeInvoice_expiry_lost w_no_expiry); [| reflexivity | discriminate].
  destruct (w_invoice_wf None) as []; [done|]. by constructor.
Defined.

Definition w_invoice_bytes : bytes := wire (field_raws (inv_fields_rel w_invoice (Some 7200))).

Lemma w_invoice_known : known_only inv_decoders w_invoice_bytes.
Proof.
  assert (inv_wf_rel w_invoice (Some 7200)) as Wi by (apply w_invoice_wf; by intros n [= <-]).
  pose proof (inv_fields_wf _ _ Wi) as W. apply known_only_wire; [by apply field_raws_wf|].
  apply known_no_unknown. rewrite inv_decoders_schema.
  exact (field_raws_known _ _ W (inv_fits w_invoice (Some 7200))).
Qed.

Lemma DecodeInvoice_wf_witness :
  exists b', EncodeInvoice w_decoded_rel = Ret b' /\ DecodeInvoice b' = Ret w_decoded_rel.
Proof.
  assert (exists n, 0 <= n <= 9223372036 /\ i_RelativeExpiry w_decoded_rel = time_Second * n) as Hr
    by (exists 7200; split; [lia | vm_compute; reflexivity]).
  refine (proj2 (DecodeInvoice_wf w_invoice_bytes w_decoded_rel _) Hr w_invoice_known).
  apply from_Ret_eq. vm_compute. reflexivity.
Defined.
