(* ===== verification/RouteBlinding.v ===== *)
(** lnwire/route_blinding.go: the data that is encrypted for each hop of a
    blinded route. *)
From S2P Require Import Prelude Deps Tu64 DepsRef GoTime Stream Merkle Shared.

Definition nextNodeType : Z := 4.
Definition nextBlindingOverride : Z := 8.

Section RouteBlinding.
Context `{CR : Crypto, TL : !Tlv}.

Record BlindedRouteData := MkBlindedRouteData {
  NextNodeID : option PublicKey;
  NextBlindingOverride : option PublicKey;
}.

Definition EncodeBlindedRouteData (data : BlindedRouteData) : outcome bytes :=
  let records := [] in
  let records := append_some (NextNodeID data) (fun nodeID =>
    MakePrimitiveRecord nextNodeType (VPubKey nodeID)) records in
  let records := append_some (NextBlindingOverride data) (fun override =>
    MakePrimitiveRecord nextBlindingOverride (VPubKey override)) records in
  _ ← NewStream (map rec_Type records);
  Stream_Encode records.

Definition brd_decoders : list (Z * decoder tlvValue) := [
  PrimitiveDecoder nextNodeType KPubKey;
  PrimitiveDecoder nextBlindingOverride KPubKey
].

Definition DecodeBlindedRouteData (data : bytes) : outcome BlindedRouteData :=
  _ ← NewStream (map fst brd_decoders);
  vals ← Stream_Decode brd_decoders data;
  Ret {| NextNodeID := slot_pubkey vals nextNodeType;
         NextBlindingOverride := slot_pubkey vals nextBlindingOverride |}.

Definition brd_schema : schema := [(4, CPrim KPubKey); (8, CPrim KPubKey)].

Definition brd_fields (d : BlindedRouteData) : fields := [
  (4, (fun p => FPrim (VPubKey p)) <$> NextNodeID d);
  (8, (fun p => FPrim (VPubKey p)) <$> NextBlindingOverride d)
].
End RouteBlinding.

Section Facts.
Context `{CR : Crypto, CL : !CryptoLaws, TL : !Tlv, TLL : !TlvLaws}.

Lemma brd_fits d : fits brd_schema (brd_fields d).
Proof. unfold fits, brd_schema, brd_fields. by fields_cases. Qed.

Lemma brd_fields_wf d : fields_wf (brd_fields d).
Proof. split; [is_increasing|]. unfold brd_fields. fields_cases; cbn; field_wf_solve. Qed.

Lemma EncodeBlindedRouteData_wire d :
  EncodeBlindedRouteData d = Ret (wire (field_raws (brd_fields d))).
Proof.
  unfold EncodeBlindedRouteData. change (@nil tlvRecord) with (field_records []).
  rewrite !append_some_prim.
  destruct (fields_encode (brd_fields d)) as [E1 E2]; [apply fields_wf_ok, brd_fields_wf|].
  change (([] ++ [_]) ++ [_]) with (brd_fields d).
  by rewrite E1, E2.
Qed.

Lemma DecodeBlindedRouteData_raws d rs :
  raws_wf rs -> List.filter (is_known brd_decoders) rs = field_raws (brd_fields d) ->
  DecodeBlindedRouteData (wire rs) = Ret d.
Proof.
  intros Hrs Hk. unfold DecodeBlindedRouteData, Stream_Decode.
  rewrite NewStream_ok by (cbn; is_increasing). cbn [mbind outcome_bind].
  destruct (fields_decode _ _ _ (brd_fields_wf d) (brd_fits d) Hrs Hk) as [E At].
  change (schema_decoders brd_schema) with brd_decoders in *. rewrite E. cbn [mbind outcome_bind].
  destruct (At 0%nat nextNodeType _ eq_refl) as [_ V0].
  destruct (At 1%nat nextBlindingOverride _ eq_refl) as [_ V1].
  rewrite (slot_pubkey_field _ _ _ V0), (slot_pubkey_field _ _ _ V1). by destruct d.
Qed.

Lemma DecodeBlindedRouteData_settles data : settles (DecodeBlindedRouteData data).
Proof.
  apply settles_bind; [apply NewStream_settles|]. intros _ _.
  apply settles_bind; [|intros; apply settles_Ret].
  apply settles_bind; [|intros [] _; apply settles_Ret].
  apply Decode_settles. repeat (apply Forall_cons_2; [intros; apply tlv_D_settles|]).
  apply Forall_nil_2.
Qed.
End Facts.

Section Properties.
Context `{CR : Crypto, CL : !CryptoLaws, TL : !Tlv, TLL : !TlvLaws}.

(** Blinded route data always encodes, and decodes to the same data. *)
Theorem BlindedRouteData_roundtrip (d : BlindedRouteData) :
  exists b, EncodeBlindedRouteData d = Ret b /\ DecodeBlindedRouteData b = Ret d.
Proof.
  exists (wire (field_raws (brd_fields d))). split; [apply EncodeBlindedRouteData_wire|].
  pose proof (field_raws_known _ _ (brd_fields_wf d) (brd_fits d)) as K.
  apply DecodeBlindedRouteData_raws; [apply field_raws_wf, brd_fields_wf | by apply filter_all].
Qed.
End Properties.

(** ** Witnesses *)

Definition w_route_data : BlindedRouteData :=
  {| NextNodeID := Some (true, x07); NextBlindingOverride := Some (false, x09) |}.

Lemma BlindedRouteData_roundtrip_witness :
  exists b, EncodeBlindedRouteData w_route_data = Ret b
            /\ DecodeBlindedRouteData b = Ret w_route_data.
Proof. apply (BlindedRouteData_roundtrip w_route_data). Defined.
