(* ===== verification/OnionMessages.v ===== *)
(** lnwire/onion_message.go: the onion message that is exchanged with peers. *)
From S2P Require Import Prelude Deps DepsRef.

Definition OnionMessageType : Z := 513.

Section OnionMessages.
Context `{CR : Crypto, LW : !Lndwire}.

Record OnionMessage := MkOnionMessage {
  om_BlindingPoint : PublicKey;
  om_OnionBlob : bytes;
}.

Definition NewOnionMessage (blindingPoint : PublicKey) (onion : bytes) : OnionMessage :=
  {| om_BlindingPoint := blindingPoint; om_OnionBlob := onion |}.

(** (o OnionMessage).MsgType, a uint16 *)
Definition MsgType (o : OnionMessage) : Z := to_u16 OnionMessageType.

(** (o OnionMessage).Decode, with what is left of the reader. *)
Definition OnionMessage_Decode (r : bytes) : outcome (OnionMessage * bytes) :=
  '(blindingPoint, r) ← wrap "decode blinding point" (ReadElement_PubKey r);
  '(onionLen, r) ← wrap "decode onion len" (ReadElement_Uint16 r);
  '(blob, r) ← wrap "read onion blob" (ReadElement_Bytes (Z.to_nat onionLen) r);
  Ret ({| om_BlindingPoint := blindingPoint; om_OnionBlob := blob |}, r).

(** (o OnionMessage).Encode, the bytes written. *)
Definition OnionMessage_Encode (o : OnionMessage) : outcome bytes :=
  point ← wrap "encode blinding point" (WriteElement (VPubKey (om_BlindingPoint o)));
  let onionLen := len (om_OnionBlob o) in
  l ← wrap "encode onion len" (WriteElement (VUint16 (to_u16 onionLen)));
  blob ← wrap "encode onion blob" (WriteElement (VBytes (om_OnionBlob o)));
  Ret (point ++ l ++ blob).
End OnionMessages.

Section Properties.
Context `{CR : Crypto, LW : !Lndwire, LWL : !LndwireLaws}.

Lemma OnionMessage_Encode_bytes o :
  OnionMessage_Encode o
  = Ret (SerializeCompressed (om_BlindingPoint o)
         ++ be_bytes 2 (to_u16 (len (om_OnionBlob o))) ++ om_OnionBlob o).
Proof.
  unfold OnionMessage_Encode. rewrite !WriteElement_bytes; try done.
  cbn. apply Z.mod_pos_bound. lia.
Qed.

Lemma OnionMessage_Decode_settles r : settles (OnionMessage_Decode r).
Proof.
  apply settles_bind; [apply settles_wrap, ReadElement_PubKey_settles|]. intros [p r1] _.
  apply settles_bind; [apply settles_wrap, ReadElement_Uint16_settles|]. intros [l r2] _.
  apply settles_bind; [apply settles_wrap, ReadElement_Bytes_settles|]. intros [b r3] _.
  apply settles_Ret.
Qed.

Lemma OnionMessage_Decode_bytes o b rest : OnionMessage_Encode o = Ret b ->
  let n := Z.to_nat (len (om_OnionBlob o) mod 65536) in
  OnionMessage_Decode (b ++ rest)
  = Ret (NewOnionMessage (om_BlindingPoint o) (take n (om_OnionBlob o)),
         drop n (om_OnionBlob o) ++ rest).
Proof.
  rewrite OnionMessage_Encode_bytes. intros E.
  apply (f_equal (from_Ret [])) in E. cbn [from_Ret] in E. subst b. set (n := len (om_OnionBlob o) mod 65536).
  assert (u16 n) as Hn by (apply Z.mod_pos_bound; lia).
  assert (n <= len (om_OnionBlob o)) as Hle by (apply Z.mod_le; unfold len; lia).
  cbn zeta. unfold OnionMessage_Decode. rewrite <- !app_assoc, ReadElement_PubKey_ok.
  cbn [wrap mbind outcome_bind]. unfold to_u16. fold n.
  rewrite ReadElement_Uint16_ok by done. cbn [wrap mbind outcome_bind].
  rewrite <- (take_drop (Z.to_nat n) (om_OnionBlob o)) at 1.
  rewrite <- app_assoc.
  assert (Z.to_nat n = length (take (Z.to_nat n) (om_OnionBlob o))) as El.
  { rewrite length_take. unfold len in Hle. lia. }
  rewrite El at 1. by rewrite ReadElement_Bytes_ok.
Qed.

Lemma OnionMessage_Decode_ok o b rest : len (om_OnionBlob o) < 65536 ->
  OnionMessage_Encode o = Ret b -> OnionMessage_Decode (b ++ rest) = Ret (o, rest).
Proof.
  intros Hs E. rewrite (OnionMessage_Decode_bytes _ _ _ E).
  rewrite Z.mod_small by (unfold len in *; lia).
  unfold len. rewrite Nat2Z.id, firstn_all, skipn_all. by destruct o.
Qed.

(** An onion message always encodes.  Decoding the bytes, whatever follows
    them, reads back a blob of the length modulo 2^16: the same message when
    the blob is shorter than 65536 bytes, and otherwise a message with a
    truncated blob, the rest of which is left in the reader. *)
Theorem OnionMessage_codec (o : OnionMessage) (rest : bytes) :
  exists b, OnionMessage_Encode o = Ret b /\
    OnionMessage_Decode (b ++ rest)
    = Ret (NewOnionMessage (om_BlindingPoint o)
             (take (Z.to_nat (len (om_OnionBlob o) mod 65536)) (om_OnionBlob o)),
           drop (Z.to_nat (len (om_OnionBlob o) mod 65536)) (om_OnionBlob o) ++ rest) /\
    (len (om_OnionBlob o) < 65536 -> OnionMessage_Decode (b ++ rest) = Ret (o, rest)).
Proof.
  eexists. pose proof (OnionMessage_Encode_bytes o) as E. split; [exact E|].
  split; [by apply OnionMessage_Decode_bytes|]. intros Hs. by apply OnionMessage_Decode_ok.
Qed.

(** Whatever Decode accepts is the encoding of the message it returns,
    followed by what it leaves in the reader. *)
Theorem OnionMessage_Decode_inv (r rest : bytes) (o : OnionMessage) :
  OnionMessage_Decode r = Ret (o, rest) ->
  exists b, OnionMessage_Encode o = Ret b /\ r = b ++ rest.
Proof.
  unfold OnionMessage_Decode. intros H. go_inv. destruct x as [p r1]. go_inv.
  destruct x as [l r2]. go_inv. destruct x as [blob r3]. go_inv.
  apply ReadElement_PubKey_inv in E as ->. apply ReadElement_Uint16_inv in E0 as [Hl ->].
  apply ReadElement_Bytes_inv in E1 as [Hb ->].
  eexists. split; [apply OnionMessage_Encode_bytes|]. cbn [om_BlindingPoint om_OnionBlob].
  assert (to_u16 (len blob) = l) as ->.
  { unfold to_u16, len, u16 in *. rewrite Hb, Z2Nat.id by lia. apply Z.mod_small. lia. }
  by rewrite <- !app_assoc.
Qed.
End Properties.

(** ** Witnesses *)

Definition w_onion_bytes : bytes :=
  ref_SerializeCompressed (true, x07) ++ [x00; x02] ++ lit "ab" ++ lit "rest".

Lemma OnionMessage_Decode_inv_witness :
  exists b, OnionMessage_Encode (NewOnionMessage (true, x07) (lit "ab")) = Ret b
            /\ w_onion_bytes = b ++ lit "rest".
Proof. apply OnionMessage_Decode_inv. reflexivity. Defined.

Definition w_onion : OnionMessage := NewOnionMessage (true, x07) (lit "ab").

Lemma OnionMessage_codec_witness :
  exists b, OnionMessage_Encode w_onion = Ret b
            /\ OnionMessage_Decode (b ++ lit "rest")
               = Ret (w_onion, lit "rest").
Proof.
  destruct (OnionMessage_codec w_onion (lit "rest"))
    as (b & Hb & _ & H).
  exists b. split; [exact Hb | apply H; reflexivity].
Defined.
