(* ===== verification/OnionPayload.v ===== *)
(** lnwire/onion_msg_payload.go: the payload of an onion message for one hop -
    reply path, encrypted data and payloads for the final hop. *)
From S2P Require Import Prelude Deps DepsRef Stream Merkle.

Definition finalHopPayloadStart : Z := 64.
Definition replyPathType : Z := 2.
Definition encryptedDataTLVType : Z := 4.
Definition InvoiceRequestNamespaceType : Z := 64.
Definition InvoiceNamespaceType : Z := 66.

Definition ErrNotFinalPayload : error := ENamed "lnwire.ErrNotFinalPayload".
Definition ErrNoHops : error := ENamed "lnwire.ErrNoHops".

Record FinalHopPayload := MkFinalHopPayload { TLVType : Z; fhp_Value : bytes }.

Definition ValidateFinalPayload (tlvType : Z) : outcome unit :=
  if bool_decide (tlvType < finalHopPayloadStart) then Err (EWrap "type" ErrNotFinalPayload)
  else Ret tt.

(** (f FinalHopPayload).Validate *)
Definition FinalHopPayload_Validate (f : FinalHopPayload) : outcome unit :=
  _ ← ValidateFinalPayload (TLVType f); Ret tt.

Section OnionPayload.
Context `{CR : Crypto, TL : !Tlv, MO : MapOrder}.

Record BlindedHop := MkBlindedHop {
  BlindedNodeID : PublicKey;
  bh_EncryptedData : bytes;
}.

Record ReplyPath := MkReplyPath {
  FirstNodeID : PublicKey;
  BlindingPoint : PublicKey;
  Hops : list BlindedHop;
}.

Record OnionMessagePayload := MkOnionMessagePayload {
  omp_ReplyPath : option ReplyPath;
  omp_EncryptedData : bytes;
  FinalHopPayloads : list FinalHopPayload;
}.

(** The dynamic type of the [interface{}] an encoder or decoder is handed,
    with its value. *)
Inductive pathVal :=
| PVReplyPath (p : ReplyPath)
| PVBlindedHop (b : BlindedHop)
| PVOther.
Inductive pathKind := PKReplyPath | PKBlindedHop | PKOther.

(** (b BlindedHop).size *)
Definition BlindedHop_size (b : BlindedHop) : Z := to_u64 (33 + 2 + len (bh_EncryptedData b)).

(** (r ReplyPath).size *)
Definition ReplyPath_size (r : ReplyPath) : Z :=
  fold_left (fun size hop => to_u64 (size + BlindedHop_size hop)) (Hops r) (33 + 33 + 1).

Definition encodeBlindedHop (val : pathVal) : outcome bytes :=
  match val with
  | PVBlindedHop b =>
      id ← wrap "encode blinded id" (tlv_E (VPubKey (BlindedNodeID b)));
      let dataLen := to_u16 (len (bh_EncryptedData b)) in
      l ← wrap "data len" (tlv_E (VUint16 dataLen));
      data ← wrap "encode encrypted data" (tlv_E (VBytes (bh_EncryptedData b)));
      Ret (id ++ l ++ data)
  | _ => Err (EExt "tlv: cannot encode *BlindedHop")
  end.

Definition decodeBlindedHop (val : pathKind) (r : bytes) : outcome (BlindedHop * bytes) :=
  match val with
  | PKBlindedHop =>
      '(id, r) ← wrap "decode blinded id" (DPubKey 33 r);
      '(dataLen, r) ← wrap "decode data len" (DUint16 2 r);
      '(data, r) ← wrap "decode data" (DVarBytes dataLen r);
      Ret ({| BlindedNodeID := id; bh_EncryptedData := data |}, r)
  | _ => Err (EExt "tlv: cannot decode *BlindedHop")
  end.

Definition encodeReplyPath (val : pathVal) : outcome bytes :=
  match val with
  | PVReplyPath p =>
      first ← wrap "encode first node id" (tlv_E (VPubKey (FirstNodeID p)));
      blinding ← wrap "encode blinded path" (tlv_E (VPubKey (BlindingPoint p)));
      let hopCount := to_u8 (len (Hops p)) in
      if bool_decide (hopCount = 0) then Err ErrNoHops
      else
        count ← wrap "encode hop count" (tlv_E (VUint8 hopCount));
        hops ← each (fun hop => wrap "hop" (encodeBlindedHop (PVBlindedHop hop))) (Hops p);
        Ret (first ++ blinding ++ count ++ concat hops)
  | _ => Err (EExt "tlv: cannot encode *ReplyPath")
  end.

(** The loop of decodeReplyPath. *)
Fixpoint decodeHops (hopCount : nat) (r : bytes) : outcome (list BlindedHop * bytes) :=
  match hopCount with
  | O => Ret ([], r)
  | S n =>
      '(hop, r) ← wrap "decode hop" (decodeBlindedHop PKBlindedHop r);
      '(hops, r) ← decodeHops n r;
      Ret (hop :: hops, r)
  end.

Definition decodeReplyPath (val : pathKind) : decoder ReplyPath := fun l r =>
  match val with
  | PKReplyPath =>
      if bool_decide (l > 35) then
        '(first, r) ← wrap "decode first id" (DPubKey 33 r);
        '(blinding, r) ← wrap "decode blinding point" (DPubKey 33 r);
        '(hopCount, r) ← wrap "decode hop count" (DUint8 1 r);
        if bool_decide (hopCount = 0) then Err ErrNoHops
        else
          '(hops, r) ← decodeHops (Z.to_nat hopCount) r;
          Ret ({| FirstNodeID := first; BlindingPoint := blinding; Hops := hops |}, r)
      else Err (EExt "tlv: cannot decode *ReplyPath")
  | _ => Err (EExt "tlv: cannot decode *ReplyPath")
  end.

(** (r ReplyPath).record *)
Definition ReplyPath_record (r : ReplyPath) : tlvRecord :=
  MkRecord replyPathType (ReplyPath_size r) (encodeReplyPath (PVReplyPath r)).

(** The loop over the final hop payloads of EncodeOnionMessagePayload. *)
Definition finalHopRecord (finalHopPayload : FinalHopPayload) : outcome tlvRecord :=
  _ ← FinalHopPayload_Validate finalHopPayload;
  Ret (MakePrimitiveRecord (TLVType finalHopPayload) (VBytes (fhp_Value finalHopPayload))).

Definition EncodeOnionMessagePayload (o : OnionMessagePayload) : outcome bytes :=
  let records := [] in
  let records := match omp_ReplyPath o with
                 | Some p => records ++ [ReplyPath_record p]
                 | None => records
                 end in
  let records :=
    if bool_decide (len (omp_EncryptedData o) <> 0)
    then records ++ [MakePrimitiveRecord encryptedDataTLVType (VBytes (omp_EncryptedData o))]
    else records in
  finals ← each finalHopRecord (FinalHopPayloads o);
  let records := SortRecords (records ++ finals) in
  _ ← wrap "new stream" (NewStream (map rec_Type records));
  wrap "encode stream" (Stream_Encode records).

(** The values stored by the records of the stream to decode. *)
Inductive payloadVal := PBytes (b : bytes) | PReply (p : ReplyPath).

Definition replyDecoder : decoder payloadVal := fun l r =>
  '(p, r) ← decodeReplyPath PKReplyPath l r; Ret (PReply p, r).
Definition bytesDecoder : decoder payloadVal := fun l r =>
  '(b, r) ← DVarBytes l r; Ret (PBytes b, r).

Definition payload_decoders : list (Z * decoder payloadVal) := [
  (replyPathType, replyDecoder);
  (encryptedDataTLVType, bytesDecoder);
  (InvoiceRequestNamespaceType, bytesDecoder);
  (InvoiceNamespaceType, bytesDecoder)
].

Definition slot_payload (vals : gmap Z payloadVal) (t : Z) : bytes :=
  match vals !! t with Some (PBytes b) => b | _ => [] end.
Definition slot_reply (vals : gmap Z payloadVal) (t : Z) : option ReplyPath :=
  match vals !! t with Some (PReply p) => Some p | _ => None end.

(** The loop over the type map, in the order of the range. *)
Fixpoint unknownFinals (entries : list (Z * option bytes)) : list FinalHopPayload :=
  match entries with
  | [] => []
  | (tlvType, tlvBytes) :: rest =>
      if bool_decide (tlvType < finalHopPayloadStart) then unknownFinals rest
      else if bool_decide (typemap_len tlvBytes = 0) then unknownFinals rest
      else {| TLVType := tlvType; fhp_Value := default [] tlvBytes |} :: unknownFinals rest
  end.

Definition less_type (a b : FinalHopPayload) : bool := bool_decide (TLVType a < TLVType b).

Definition found_payload (tlvMap : TypeMap) (t : Z) : bool :=
  match tlvMap !! t with Some _ => true | None => false end.

Definition DecodeOnionMessagePayload (o : bytes) : outcome OnionMessagePayload :=
  _ ← wrap "new stream" (NewStream (map fst payload_decoders));
  '(tlvMap, vals) ← wrap "decode stream" (DecodeWithParsedTypes payload_decoders o);
  let replyPath := if found_payload tlvMap replyPathType
                   then slot_reply vals replyPathType else None in
  let finals := unknownFinals (map_range tlvMap) in
  let finals := if found_payload tlvMap InvoiceNamespaceType
    then finals ++ [{| TLVType := InvoiceNamespaceType;
                       fhp_Value := slot_payload vals InvoiceNamespaceType |}]
    else finals in
  let finals := if found_payload tlvMap InvoiceRequestNamespaceType
    then finals ++ [{| TLVType := InvoiceRequestNamespaceType;
                       fhp_Value := slot_payload vals InvoiceRequestNamespaceType |}]
    else finals in
  Ret {| omp_ReplyPath := replyPath;
         omp_EncryptedData := slot_payload vals encryptedDataTLVType;
         FinalHopPayloads := SliceStable less_type finals |}.

(** ** Specification *)

(** The wire form of a hop and of a path. *)
Definition hop_bytes (b : BlindedHop) : bytes :=
  SerializeCompressed (BlindedNodeID b)
  ++ be_bytes 2 (to_u16 (len (bh_EncryptedData b))) ++ bh_EncryptedData b.

Definition path_bytes (p : ReplyPath) : bytes :=
  SerializeCompressed (FirstNodeID p) ++ SerializeCompressed (BlindingPoint p)
  ++ be_bytes 1 (to_u8 (len (Hops p))) ++ concat (map hop_bytes (Hops p)).

(** A hop's data has a two byte length, a path's hops a one byte count. *)
Definition hop_wf (b : BlindedHop) : Prop := len (bh_EncryptedData b) < 65536.
Definition path_wf (p : ReplyPath) : Prop := 1 <= len (Hops p) < 256 /\ Forall hop_wf (Hops p).

(** The raw records of a payload, in the order of their types when those of
    the final hop are. *)
Definition payload_raws (o : OnionMessagePayload) : raws :=
  match omp_ReplyPath o with Some p => [(2, path_bytes p)] | None => [] end
  ++ (if bool_decide (len (omp_EncryptedData o) <> 0) then [(4, omp_EncryptedData o)] else [])
  ++ map (fun f => (TLVType f, fhp_Value f)) (FinalHopPayloads o).

Definition final_ok (f : FinalHopPayload) : Prop :=
  64 <= TLVType f /\ u64 (TLVType f) /\ u64 (len (fhp_Value f)).

(** A payload that can be encoded, in the order of its types. *)
Record payload_ok (o : OnionMessagePayload) : Prop := {
  pw_reply : forall p, omp_ReplyPath o = Some p -> path_wf p;
  pw_data : u64 (len (omp_EncryptedData o));
  pw_finals : Forall final_ok (FinalHopPayloads o);
  pw_sorted : increasing (map TLVType (FinalHopPayloads o));
}.

(** Only the two namespace types may have an empty value. *)
Definition has_value (f : FinalHopPayload) : Prop :=
  TLVType f = 64 \/ TLVType f = 66 \/ fhp_Value f <> [].

#[export] Instance has_value_dec f : Decision (has_value f).
Proof. unfold has_value. apply _. Defined.

Definition payload_wf (o : OnionMessagePayload) : Prop :=
  payload_ok o /\ Forall has_value (FinalHopPayloads o).

(** The final hop payloads but for the markers, which have neither a value nor one
    of the namespace types; and a payload without its markers. *)
Definition valued (fs : list FinalHopPayload) : list FinalHopPayload := filter has_value fs.

Definition unmarked (o : OnionMessagePayload) : OnionMessagePayload :=
  {| omp_ReplyPath := omp_ReplyPath o; omp_EncryptedData := omp_EncryptedData o;
     FinalHopPayloads := valued (FinalHopPayloads o) |}.

(** Records of a stream that decoding drops: unknown ones below the final hop
    range, and unknown ones without a value. *)
Definition dropped (r : Z * bytes) : bool :=
  match find_decoder payload_decoders r.1 with
  | Some _ => false
  | None => bool_decide (r.1 < 64) || bool_decide (r.2 = [])
  end.
End OnionPayload.

(** ** Hops and paths *)

Section Paths.
Context `{CR : Crypto, CL : !CryptoLaws, TL : !Tlv, TLL : !TlvLaws}.

Lemma encodeBlindedHop_bytes b : encodeBlindedHop (PVBlindedHop b) = Ret (hop_bytes b).
Proof.
  unfold encodeBlindedHop. rewrite !tlv_E_bytes; try done.
  cbn. apply Z.mod_pos_bound. lia.
Qed.

(** Decoding reads back as much data as the two length bytes say. *)
Lemma decodeBlindedHop_bytes b rest n : n = Z.to_nat (len (bh_EncryptedData b) mod 65536) ->
  decodeBlindedHop PKBlindedHop (hop_bytes b ++ rest)
  = Ret (MkBlindedHop (BlindedNodeID b) (take n (bh_EncryptedData b)),
         drop n (bh_EncryptedData b) ++ rest).
Proof.
  intros E. unfold decodeBlindedHop, hop_bytes. rewrite <- !app_assoc, DPubKey_ok.
  cbn [wrap mbind outcome_bind]. rewrite DUint16_ok by (apply Z.mod_pos_bound; lia).
  cbn [wrap mbind outcome_bind]. unfold to_u16.
  assert (len (bh_EncryptedData b) mod 65536 = len (take n (bh_EncryptedData b))) as ->.
  { rewrite E. unfold len. rewrite length_take.
    pose proof (Z.mod_pos_bound (Z.of_nat (length (bh_EncryptedData b))) 65536 ltac:(lia)).
    pose proof (Z.mod_le (Z.of_nat (length (bh_EncryptedData b))) 65536). lia. }
  rewrite <- (take_drop n (bh_EncryptedData b)) at 2. rewrite <- app_assoc.
  by rewrite DVarBytes_ok.
Qed.

Lemma decodeBlindedHop_ok b rest :
  hop_wf b -> decodeBlindedHop PKBlindedHop (hop_bytes b ++ rest) = Ret (b, rest).
Proof.
  intros H. rewrite (decodeBlindedHop_bytes b rest (length (bh_EncryptedData b))).
  - rewrite firstn_all, skipn_all. by destruct b.
  - unfold hop_wf, len in *. rewrite Z.mod_small; lia.
Qed.

Lemma decodeHops_ok hops rest : Forall hop_wf hops ->
  decodeHops (length hops) (concat (map hop_bytes hops) ++ rest) = Ret (hops, rest).
Proof.
  induction 1 as [|h hops Hh _ IH]; cbn [length decodeHops map concat]; [done|].
  rewrite <- app_assoc, decodeBlindedHop_ok by done. cbn [wrap mbind outcome_bind].
  by rewrite IH.
Qed.

Lemma encodeReplyPath_bytes p :
  encodeReplyPath (PVReplyPath p)
  = if bool_decide (len (Hops p) mod 256 = 0) then Err ErrNoHops else Ret (path_bytes p).
Proof.
  unfold encodeReplyPath. rewrite !tlv_E_bytes by (cbn; try done; apply Z.mod_pos_bound; lia).
  cbn [wrap mbind outcome_bind]. unfold to_u8. case_bool_decide; [done|].
  rewrite (each_Ret _ hop_bytes) by (intros; by rewrite encodeBlindedHop_bytes). done.
Qed.

(** Decoding reads as many hops as the count byte says. *)
Lemma decodeReplyPath_bytes p l rest n :
  35 < l -> len (Hops p) mod 256 <> 0 -> Forall hop_wf (Hops p) ->
  n = Z.to_nat (len (Hops p) mod 256) ->
  decodeReplyPath PKReplyPath l (path_bytes p ++ rest)
  = Ret (MkReplyPath (FirstNodeID p) (BlindingPoint p) (take n (Hops p)),
         concat (map hop_bytes (drop n (Hops p))) ++ rest).
Proof.
  intros Hl Hn F E. unfold decodeReplyPath, path_bytes. rewrite bool_decide_true by lia.
  rewrite <- !app_assoc, DPubKey_ok. cbn [wrap mbind outcome_bind].
  rewrite DPubKey_ok. cbn [wrap mbind outcome_bind].
  rewrite DUint8_ok by (apply Z.mod_pos_bound; lia). cbn [wrap mbind outcome_bind].
  unfold to_u8. rewrite bool_decide_false by done.
  assert (Z.to_nat (len (Hops p) mod 256) = length (take n (Hops p))) as ->.
  { rewrite E. unfold len. rewrite length_take.
    pose proof (Z.mod_pos_bound (Z.of_nat (length (Hops p))) 256 ltac:(lia)).
    pose proof (Z.mod_le (Z.of_nat (length (Hops p))) 256). lia. }
  rewrite <- (take_drop n (Hops p)) at 2. rewrite map_app, concat_app, <- app_assoc.
  by rewrite decodeHops_ok by (by apply Forall_take).
Qed.

Lemma path_count p : path_wf p -> len (Hops p) mod 256 = len (Hops p).
Proof. intros [H _]. apply Z.mod_small. lia. Qed.

Lemma path_bytes_len p : 67 <= len (path_bytes p).
Proof.
  unfold path_bytes. rewrite !len_app.
  assert (forall q, len (SerializeCompressed q) = 33) as L.
  { intros q. unfold len. by rewrite SerializeCompressed_length. }
  rewrite !L. pose proof (len_nonneg (concat (map hop_bytes (Hops p)))).
  unfold len at 1. rewrite be_bytes_length. lia.
Qed.

Lemma replyDecoder_reads p : path_wf p -> reads replyDecoder (path_bytes p) (PReply p).
Proof.
  intros W rest. unfold replyDecoder. pose proof (path_bytes_len p). pose proof (path_count p W) as C.
  rewrite (decodeReplyPath_bytes p _ rest (length (Hops p))); [|lia| |apply W|].
  - rewrite firstn_all, skipn_all. by destruct p.
  - rewrite C. destruct W. lia.
  - rewrite C. unfold len. lia.
Qed.

Lemma decodeBlindedHop_settles r : settles (decodeBlindedHop PKBlindedHop r).
Proof.
  repeat (apply settles_bind; [auto with go|]; intros [? ?] _). apply settles_Ret.
Qed.

Lemma decodeHops_settles n r : settles (decodeHops n r).
Proof.
  revert r. induction n as [|n IH]; intros r; [apply settles_Ret|].
  apply settles_bind; [apply settles_wrap, decodeBlindedHop_settles|]. intros [hop r'] _.
  apply settles_bind; [apply IH|]. intros [hops r''] _. apply settles_Ret.
Qed.

Lemma replyDecoder_settles l r : settles (replyDecoder l r).
Proof.
  apply settles_bind; [|intros [] _; apply settles_Ret]. unfold decodeReplyPath.
  case_bool_decide; [|apply settles_Err].
  repeat (apply settles_bind; [auto with go|]; intros [? ?] _).
  case_bool_decide; [apply settles_Err|].
  apply settles_bind; [apply decodeHops_settles|]. intros [] _. apply settles_Ret.
Qed.

Lemma bytesDecoder_settles l r : settles (bytesDecoder l r).
Proof. apply settles_bind; [auto with go|]. intros [] _. apply settles_Ret. Qed.

Lemma bytesDecoder_reads b : reads bytesDecoder b (PBytes b).
Proof. intros rest. unfold bytesDecoder. by rewrite DVarBytes_ok. Qed.

Lemma hop_bytes_len b : len (hop_bytes b) = 35 + len (bh_EncryptedData b).
Proof.
  unfold hop_bytes. rewrite !len_app. unfold len at 1 2.
  rewrite SerializeCompressed_length, be_bytes_length. lia.
Qed.

(** The size of a path is the number of bytes it is encoded in. *)
Lemma ReplyPath_size_bytes p : u64 (len (path_bytes p)) -> ReplyPath_size p = len (path_bytes p).
Proof.
  assert (forall hops acc, 0 <= acc -> acc + len (concat (map hop_bytes hops)) < 18446744073709551616 ->
    fold_left (fun size hop => to_u64 (size + BlindedHop_size hop)) hops acc
    = acc + len (concat (map hop_bytes hops))) as F.
  { induction hops as [|h hops IH]; intros acc Ha Hb; cbn [fold_left map concat] in *; [unfold len; cbn [length]; lia|].
    rewrite len_app, hop_bytes_len in Hb |- *.
    pose proof (len_nonneg (bh_EncryptedData h)).
    pose proof (len_nonneg (concat (map hop_bytes hops))).
    unfold BlindedHop_size. rewrite (to_u64_small (33 + 2 + _)), to_u64_small by (unfold u64; lia).
    rewrite IH; lia. }
  unfold path_bytes, ReplyPath_size, u64. rewrite !len_app.
  assert (forall q, len (SerializeCompressed q) = 33) as L.
  { intros q. unfold len. by rewrite SerializeCompressed_length. }
  rewrite !L. change (len (be_bytes 1 (to_u8 (len (Hops p))))) with 1. intros H.
  rewrite F; lia.
Qed.
End Paths.

(** ** Encoding *)

Section Payloads.
Context `{CR : Crypto, CL : !CryptoLaws, TL : !Tlv, TLL : !TlvLaws}.

(** The records of a payload, in the order EncodeOnionMessagePayload makes
    them. *)
Definition head_records (o : OnionMessagePayload) : list tlvRecord :=
  match omp_ReplyPath o with Some p => [ReplyPath_record p] | None => [] end
  ++ (if bool_decide (len (omp_EncryptedData o) <> 0)
      then [MakePrimitiveRecord 4 (VBytes (omp_EncryptedData o))] else []).
Definition final_record (f : FinalHopPayload) : tlvRecord :=
  MakePrimitiveRecord (TLVType f) (VBytes (fhp_Value f)).

Lemma finalHopRecord_ok fs : Forall (fun f => 64 <= TLVType f) fs ->
  each finalHopRecord fs = Ret (map final_record fs).
Proof.
  intros F. apply each_Ret. intros f Hf. rewrite Forall_forall in F. apply F in Hf.
  unfold finalHopRecord, FinalHopPayload_Validate, ValidateFinalPayload, finalHopPayloadStart.
  by rewrite bool_decide_false by lia.
Qed.

Lemma finalHopRecord_bad fs : Exists (fun f => TLVType f < 64) fs ->
  each finalHopRecord fs = Err (EWrap "type" ErrNotFinalPayload).
Proof.
  assert (forall f, finalHopRecord f = if bool_decide (TLVType f < 64)
            then Err (EWrap "type" ErrNotFinalPayload) else Ret (final_record f)) as R.
  { intros f. unfold finalHopRecord, FinalHopPayload_Validate, ValidateFinalPayload,
      finalHopPayloadStart. by case_bool_decide. }
  induction fs as [|f fs IH]; [by inversion 1|]. cbn [each]. rewrite R.
  case_bool_decide; [done|]. inversion 1; subst; [done|]. cbn. by rewrite IH.
Qed.

Lemma finalHopRecord_settles fs : settles (each finalHopRecord fs).
Proof.
  apply each_settles. intros f _. unfold finalHopRecord, FinalHopPayload_Validate,
    ValidateFinalPayload. case_bool_decide; [apply settles_Err | apply settles_Ret].
Qed.

Lemma finalHopRecord_types fs recs :
  each finalHopRecord fs = Ret recs -> map rec_Type recs = map TLVType fs.
Proof.
  revert recs. induction fs as [|f fs IH]; intros recs; cbn [each]; intros H; go_inv; [done|].
  cbn. rewrite (IH _ E0). f_equal. unfold finalHopRecord in E. by go_inv.
Qed.

Lemma path_bytes_u64 p : path_wf p -> u64 (len (path_bytes p)).
Proof.
  intros [[_ Hn] F].
  assert (forall hops, Forall hop_wf hops ->
    len (concat (map hop_bytes hops)) <= 65570 * len hops) as B.
  { induction 1 as [|h hops Hh _ IH]; [done|]. cbn [map concat].
    rewrite len_app, hop_bytes_len. unfold hop_wf in Hh. unfold len in *. cbn [length]. lia. }
  apply B in F. unfold path_bytes. rewrite !len_app.
  assert (forall q, len (SerializeCompressed q) = 33) as L.
  { intros q. unfold len. by rewrite SerializeCompressed_length. }
  rewrite !L. change (len (be_bytes 1 (to_u8 (len (Hops p))))) with 1.
  pose proof (len_nonneg (concat (map hop_bytes (Hops p)))). unfold u64. lia.
Qed.

Lemma payload_raws_wf o : payload_ok o -> raws_wf (payload_raws o).
Proof.
  intros [Hp Hd Hf Hs]. unfold payload_raws. split.
  - assert (Forall (Z.le 64) (map TLVType (FinalHopPayloads o))) as F.
    { apply Forall_map. apply (Forall_impl _ _ _ Hf). by intros f []. }
    assert (forall n, n < 64 -> Forall (Z.lt n) (map TLVType (FinalHopPayloads o))) as F'.
    { intros n Hn. apply (Forall_impl _ _ _ F). lia. }
    rewrite !map_app, map_map.
    destruct (omp_ReplyPath o), (bool_decide (len (omp_EncryptedData o) <> 0));
      cbn [map app fst]; repeat constructor; auto; try lia; apply F'; lia.
  - rewrite !Forall_app. split; [|split].
    + destruct (omp_ReplyPath o) as [p|]; constructor; [|constructor].
      split; [done|]. by apply path_bytes_u64, Hp.
    + case_bool_decide; repeat constructor; cbn; try done; apply Hd.
    + apply Forall_map. apply (Forall_impl _ _ _ Hf). intros f (_ & ? & ?). by split.
Qed.

Lemma payload_represents o : payload_ok o ->
  Forall2 represents (head_records o ++ map final_record (FinalHopPayloads o)) (payload_raws o).
Proof.
  intros [Hp Hd Hf Hs]. unfold head_records, payload_raws. rewrite <- !app_assoc.
  assert (forall t b, represents (MakePrimitiveRecord t (VBytes b)) (t, b)) as R.
  { intros t b. unfold represents, MakePrimitiveRecord. cbn.
    by rewrite prim_Size_bytes, tlv_E_bytes. }
  repeat apply Forall2_app.
  - destruct (omp_ReplyPath o) as [p|]; constructor; [|constructor].
    pose proof (Hp p eq_refl) as W. unfold represents, ReplyPath_record. cbn [rec_Type rec_Size rec_Encode fst snd].
    rewrite encodeReplyPath_bytes, path_count, bool_decide_false by (try done; destruct W; lia).
    rewrite ReplyPath_size_bytes by (by apply path_bytes_u64). done.
  - case_bool_decide; constructor; [apply R | constructor].
  - clear -R. induction (FinalHopPayloads o); cbn; constructor; [apply R | done].
Qed.

(** The final hop payloads may come in any order. *)
Lemma EncodeOnionMessagePayload_wire o o' :
  payload_ok o -> omp_ReplyPath o' = omp_ReplyPath o ->
  omp_EncryptedData o' = omp_EncryptedData o ->
  Permutation (FinalHopPayloads o') (FinalHopPayloads o) ->
  EncodeOnionMessagePayload o' = Ret (wire (payload_raws o)).
Proof.
  intros W Er Ed P. pose proof (payload_raws_wf o W) as RW.
  pose proof (payload_represents o W) as R.
  set (recs := head_records o ++ map final_record (FinalHopPayloads o)) in R.
  assert (map rec_Type recs = map fst (payload_raws o)) as Et.
  { clear -R. induction R as [|r raw l l' [E _] _ IH]; cbn; [done|]. by rewrite E, IH. }
  unfold EncodeOnionMessagePayload. rewrite finalHopRecord_ok.
  - cbn [mbind outcome_bind]. rewrite Er, Ed.
    match goal with |- context [SortRecords ?l] => assert (SortRecords l = recs) as -> end.
    { apply SortRecords_increasing; [|rewrite Et; apply RW]. unfold recs, head_records.
      rewrite P. destruct (omp_ReplyPath o); case_bool_decide; done. }
    rewrite NewStream_ok by (rewrite Et; apply RW). cbn [wrap mbind outcome_bind].
    by rewrite (Stream_Encode_wire recs (payload_raws o)).
  - rewrite P. apply (Forall_impl _ _ _ (pw_finals _ W)). by intros f [].
Qed.
End Payloads.

(** ** Decoding *)

Section Decoding.
Context `{CR : Crypto, CL : !CryptoLaws, TL : !Tlv, TLL : !TlvLaws,
          MO : MapOrder, MOL : !MapOrderLaws}.
Context (o : OnionMessagePayload) (rs : raws).
Context (W : payload_wf o) (Hrs : raws_wf rs).
Context (Hkeep : List.filter (fun r => negb (dropped r)) rs = payload_raws o).

Let tm := type_map payload_decoders rs.
Let vm := value_map payload_decoders rs.

Lemma kept r : r ∈ payload_raws o <-> r ∈ rs /\ dropped r = false.
Proof.
  rewrite <- Hkeep, list_elem_of_In, filter_In, <- list_elem_of_In, negb_true_iff. done.
Qed.

Lemma payload_keys_NoDup : NoDup (map fst rs).
Proof. apply increasing_NoDup, Hrs. Qed.

Lemma known_kept r : is_some (find_decoder payload_decoders r.1) = true -> dropped r = false.
Proof. unfold dropped. by destruct (find_decoder payload_decoders r.1). Qed.

Lemma elem_payload_raws t b : (t, b) ∈ payload_raws o <->
  (t = 2 /\ exists p, omp_ReplyPath o = Some p /\ b = path_bytes p)
  \/ (t = 4 /\ omp_EncryptedData o = b /\ len b <> 0)
  \/ MkFinalHopPayload t b ∈ FinalHopPayloads o.
Proof.
  unfold payload_raws. rewrite !elem_of_app.
  assert ((t, b) ∈ map (fun f => (TLVType f, fhp_Value f)) (FinalHopPayloads o)
          <-> MkFinalHopPayload t b ∈ FinalHopPayloads o) as ->.
  { rewrite list_elem_of_fmap. split; [intros ([t' b'] & [= -> ->] & ?); done|].
    intros ?. by exists (MkFinalHopPayload t b). }
  destruct (omp_ReplyPath o) as [p|]; case_bool_decide as D;
    rewrite ?list_elem_of_singleton, ?elem_of_nil; split;
    intros [H|[H|H]]; try done; auto.
  all: try (destruct H as (-> & p' & [= <-] & ->); auto; done).
  all: try (destruct H as (_ & p' & ? & _); done).
  all: try (destruct H as (-> & <- & ?); auto; done).
  all: try (injection H as -> ->; eauto; done).
Qed.

Lemma final_type t b : MkFinalHopPayload t b ∈ FinalHopPayloads o ->
  64 <= t /\ (t = 64 \/ t = 66 \/ b <> []).
Proof.
  destruct W as [[_ _ F _] V]. rewrite Forall_forall in F, V. intros H.
  split; [by apply F in H as [] | by apply V in H].
Qed.

(** What the stream has at a type. *)
Lemma raw_at t b : (list_to_map rs : gmap Z bytes) !! t = Some b <-> (t, b) ∈ rs.
Proof. symmetry. apply elem_of_list_to_map, payload_keys_NoDup. Qed.

Lemma payload_readable : Forall (readable payload_decoders) rs.
Proof.
  apply Forall_forall. intros [t b] Hin d Hd. cbn [fst snd] in *.
  assert ((t, b) ∈ payload_raws o) as H.
  { apply kept. split; [done|]. apply known_kept. cbn [fst]. by rewrite Hd. }
  apply elem_payload_raws in H as [(-> & p & Ep & ->)|[(-> & _ & _)|H]].
  - injection Hd as <-. exists (PReply p). by apply replyDecoder_reads, (pw_reply _ (proj1 W)).
  - injection Hd as <-. exists (PBytes b). apply bytesDecoder_reads.
  - exists (PBytes b). revert Hd. cbn [find_decoder payload_decoders].
    pose proof (final_type _ _ H) as [Ht _].
    unfold replyPathType, encryptedDataTLVType.
    do 2 rewrite bool_decide_false by lia.
    repeat case_bool_decide; intros [= <-]; apply bytesDecoder_reads.
Qed.

Lemma payload_found t : found_payload tm t = true <-> exists b, (t, b) ∈ rs.
Proof.
  unfold found_payload, tm. rewrite type_map_lookup.
  destruct ((list_to_map rs : gmap Z bytes) !! t) as [b|] eqn:E; cbn.
  - split; [|done]. intros _. exists b. by apply raw_at.
  - split; [done|]. intros [b Hb%raw_at]. congruence.
Qed.

Lemma payload_value t b d v : (t, b) ∈ rs -> find_decoder payload_decoders t = Some d ->
  reads d b v -> vm !! t = Some v.
Proof.
  intros Hb%raw_at Hd R. unfold vm. rewrite value_map_lookup by apply payload_keys_NoDup.
  rewrite Hb. cbn. unfold raw_value. cbn [fst snd]. rewrite Hd.
  specialize (R []). rewrite app_nil_r in R. by rewrite R.
Qed.

Lemma payload_no_value t : ~ (exists b, (t, b) ∈ rs) -> vm !! t = None.
Proof.
  intros Hn. unfold vm. rewrite value_map_lookup by apply payload_keys_NoDup.
  destruct ((list_to_map rs : gmap Z bytes) !! t) as [b|] eqn:E; [|done].
  exfalso. apply Hn. exists b. by apply raw_at.
Qed.

Lemma decoded_reply :
  (if found_payload tm replyPathType then slot_reply vm replyPathType else None)
  = omp_ReplyPath o.
Proof.
  destruct (found_payload tm replyPathType) eqn:E.
  - apply payload_found in E as [b Hb].
    assert ((replyPathType, b) ∈ payload_raws o) as H by (apply kept; by split).
    apply elem_payload_raws in H as [(_ & p & Ep & ->)|[(? & _)|H]]; [|done|].
    + unfold slot_reply. rewrite (payload_value _ (path_bytes p) replyDecoder (PReply p)); [done|done|done|].
      by apply replyDecoder_reads, (pw_reply _ (proj1 W)).
    + apply final_type in H as [H _]. unfold replyPathType in H. lia.
  - destruct (omp_ReplyPath o) as [p|] eqn:Ep; [|done]. exfalso.
    assert (found_payload tm replyPathType = true); [|congruence].
    apply payload_found. exists (path_bytes p).
    apply (proj1 (kept _)), elem_payload_raws. left. eauto.
Qed.

Lemma decoded_data : slot_payload vm encryptedDataTLVType = omp_EncryptedData o.
Proof.
  unfold slot_payload. destruct (decide (len (omp_EncryptedData o) = 0)) as [Z|Hn].
  - rewrite payload_no_value; [symmetry; by apply len_nil_inv|]. intros [b Hb].
    assert ((encryptedDataTLVType, b) ∈ payload_raws o) as H by (apply kept; by split).
    apply elem_payload_raws in H as [(? & _)|[(_ & <- & ?)|H]]; [done|done|].
    apply final_type in H as [H _]. unfold encryptedDataTLVType in H. lia.
  - rewrite (payload_value _ (omp_EncryptedData o) bytesDecoder (PBytes (omp_EncryptedData o)));
      [done| |done|apply bytesDecoder_reads].
    apply (proj1 (kept _)), elem_payload_raws. auto.
Qed.

(** The value at one of the two namespaces. *)
Lemma decoded_namespace t : t = 64 \/ t = 66 ->
  (found_payload tm t = true <-> MkFinalHopPayload t (slot_payload vm t) ∈ FinalHopPayloads o)
  /\ forall b, MkFinalHopPayload t b ∈ FinalHopPayloads o -> b = slot_payload vm t.
Proof.
  intros Ht.
  assert (exists d, find_decoder payload_decoders t = Some d
                    /\ forall b, reads d b (PBytes b)) as (d & Hd & R).
  { destruct Ht as [-> | ->]; exists bytesDecoder; split; auto using bytesDecoder_reads. }
  assert (forall b, (t, b) ∈ rs -> slot_payload vm t = b) as V.
  { intros b Hb. unfold slot_payload. by rewrite (payload_value t b d (PBytes b)). }
  assert (forall b, MkFinalHopPayload t b ∈ FinalHopPayloads o <-> (t, b) ∈ rs) as M.
  { intros b. split.
    - intros H. apply (proj1 (kept _)), elem_payload_raws. auto.
    - intros H. assert ((t, b) ∈ payload_raws o) as K
        by (apply kept; split; [done | apply known_kept; cbn [fst]; by rewrite Hd]).
      apply elem_payload_raws in K as [(? & _)|[(? & _)|K]]; [lia|lia|done]. }
  split.
  - rewrite payload_found, M. split; [|eauto]. intros [b Hb]. by rewrite (V b Hb).
  - intros b H. symmetry. by apply V, M.
Qed.

Lemma elem_unknownFinals entries f :
  f ∈ unknownFinals entries <->
  64 <= TLVType f /\ fhp_Value f <> [] /\ (TLVType f, Some (fhp_Value f)) ∈ entries.
Proof.
  destruct f as [t' b']. cbn [TLVType fhp_Value].
  induction entries as [|[t ob] r IH]; cbn [unknownFinals].
  - rewrite !elem_of_nil. tauto.
  - rewrite elem_of_cons. unfold finalHopPayloadStart. case_bool_decide as Ht;
      [|case_bool_decide as Hb].
    + rewrite IH. split; [tauto|]. intros (? & ? & [[= <- <-]|?]); [lia|done].
    + rewrite IH. split; [tauto|]. intros (? & Hne & [[= <- <-]|?]); [|done].
      unfold typemap_len in Hb. by apply len_nil_inv in Hb.
    + rewrite elem_of_cons, IH. split.
      * intros [[= -> ->]|?]; [|tauto]. destruct ob as [b|]; [|done]. cbn.
        split; [lia|]. split; [|by left]. by intros ->.
      * intros (? & ? & [[= <- <-]|?]); [by left | right; done].
Qed.

Lemma elem_tm t b : (t, Some b) ∈ map_range tm <->
  (t, b) ∈ rs /\ find_decoder payload_decoders t = None.
Proof.
  rewrite map_range_perm, elem_of_map_to_list. unfold tm. rewrite type_map_lookup.
  rewrite <- raw_at. destruct (find_decoder payload_decoders t);
    destruct ((list_to_map rs : gmap Z bytes) !! t) as [b'|]; cbn; split; intros H.
  all: try done.
  all: try (by destruct H).
  - by injection H as ->.
  - by destruct H as [[= ->] _].
Qed.

Lemma unknownFinals_NoDup entries :
  NoDup (map fst entries) -> NoDup (map TLVType (unknownFinals entries)).
Proof.
  induction entries as [|[t ob] r IH]; cbn [unknownFinals map]; [done|].
  inversion 1 as [|? ? Hn ND]; subst. repeat case_bool_decide; auto. cbn.
  constructor; auto. intros Hin%list_elem_of_fmap. destruct Hin as (f & -> & Hf).
  apply elem_unknownFinals in Hf as (_ & _ & Hf). apply Hn.
  apply list_elem_of_fmap. by exists (TLVType f, Some (fhp_Value f)).
Qed.

Definition namespaces : list FinalHopPayload :=
  (if found_payload tm 66 then [MkFinalHopPayload 66 (slot_payload vm 66)] else [])
  ++ (if found_payload tm 64 then [MkFinalHopPayload 64 (slot_payload vm 64)] else []).

Lemma elem_namespaces f : f ∈ namespaces <->
  (TLVType f = 64 \/ TLVType f = 66) /\ f ∈ FinalHopPayloads o.
Proof.
  unfold namespaces. rewrite elem_of_app.
  destruct (decoded_namespace 64 (or_introl eq_refl)) as [F64 U64].
  destruct (decoded_namespace 66 (or_intror eq_refl)) as [F66 U66].
  destruct f as [t b]. cbn [TLVType]. split.
  - intros [H|H].
    + destruct (found_payload tm 66); rewrite ?elem_of_nil, ?list_elem_of_singleton in H; [|done].
      injection H as -> ->. split; [auto|]. by apply F66.
    + destruct (found_payload tm 64); rewrite ?elem_of_nil, ?list_elem_of_singleton in H; [|done].
      injection H as -> ->. split; [auto|]. by apply F64.
  - intros [[-> | ->] H].
    + right. rewrite (U64 _ H). rewrite (U64 _ H) in H. apply F64 in H. rewrite H.
      by apply list_elem_of_singleton.
    + left. rewrite (U66 _ H). rewrite (U66 _ H) in H. apply F66 in H. rewrite H.
      by apply list_elem_of_singleton.
Qed.

Lemma find_namespace t : 64 <= t ->
  find_decoder payload_decoders t = None <-> t <> 64 /\ t <> 66.
Proof.
  intros Ht. cbn [find_decoder payload_decoders].
  unfold replyPathType, encryptedDataTLVType, InvoiceRequestNamespaceType, InvoiceNamespaceType.
  rewrite (bool_decide_false (t = 2)), (bool_decide_false (t = 4)) by lia.
  repeat case_bool_decide; subst; split; intros; try done; lia.
Qed.

(** The loop and the two namespaces give the final hop payloads. *)
Lemma decoded_finals :
  Permutation (unknownFinals (map_range tm) ++ namespaces) (FinalHopPayloads o).
Proof.
  assert (NoDup (map TLVType (FinalHopPayloads o))) as NDo by apply increasing_NoDup, (proj1 W).
  apply NoDup_Permutation.
  - apply NoDup_app. split; [|split].
    + apply (NoDup_fmap_1 TLVType), unknownFinals_NoDup. rewrite map_range_perm.
      apply NoDup_fst_map_to_list.
    + intros f (Hf & _ & Hr)%elem_unknownFinals [Hn _]%elem_namespaces.
      apply elem_tm in Hr as [_ Hr]. apply find_namespace in Hr; lia.
    + unfold namespaces. destruct (found_payload tm 66), (found_payload tm 64); cbn;
        repeat constructor; rewrite ?list_elem_of_singleton, ?elem_of_nil; intros E; done.
  - by apply (NoDup_fmap_1 TLVType).
  - intros [t b]. rewrite elem_of_app, elem_unknownFinals, elem_namespaces, elem_tm.
    cbn [TLVType fhp_Value]. split.
    + intros [(Ht & Hb & Hin & Hd)|[_ H]]; [|done].
      assert ((t, b) ∈ payload_raws o) as K.
      { apply kept. split; [done|]. unfold dropped. cbn [fst snd]. rewrite Hd.
        rewrite !bool_decide_false by (try done; lia). done. }
      apply elem_payload_raws in K as [(? & _)|[(? & _)|K]]; [lia|lia|done].
    + intros H. pose proof (final_type _ _ H) as [Ht Hne].
      destruct (decide (t = 64 \/ t = 66)) as [|Hn]; [auto|]. left.
      split; [done|]. split; [tauto|]. split.
      * apply (proj1 (kept _)), elem_payload_raws. auto.
      * apply find_namespace; [done|]. lia.
Qed.

Lemma DecodeOnionMessagePayload_raws : DecodeOnionMessagePayload (wire rs) = Ret o.
Proof.
  unfold DecodeOnionMessagePayload.
  rewrite NewStream_ok by (repeat constructor; cbn; lia). cbn [wrap mbind outcome_bind].
  rewrite Decode_wire; [|repeat constructor; cbn; lia|done|apply payload_readable].
  cbn [wrap mbind outcome_bind]. fold tm vm. rewrite decoded_reply, decoded_data.
  assert (SliceStable less_type (unknownFinals (map_range tm) ++ namespaces)
          = FinalHopPayloads o) as E.
  { apply (SliceStable_unique TLVType); [apply decoded_finals | apply (proj1 W)]. }
  unfold namespaces, InvoiceNamespaceType, InvoiceRequestNamespaceType in *.
  destruct o as [r d f]. cbn [omp_ReplyPath omp_EncryptedData FinalHopPayloads] in *.
  f_equal. f_equal. rewrite <- E. f_equal.
  destruct (found_payload tm 66), (found_payload tm 64); by rewrite ?app_nil_r, <- ?app_assoc.
Qed.
End Decoding.

Lemma DecodeOnionMessagePayload_settles `{CR : Crypto, CL : !CryptoLaws, TL : !Tlv, TLL : !TlvLaws,
    MO : MapOrder} b : settles (DecodeOnionMessagePayload b).
Proof.
  apply settles_bind; [auto with go|]. intros _ _.
  apply settles_bind; [|intros [] _; apply settles_Ret]. apply settles_wrap, Decode_settles.
  apply Forall_cons_2; [apply replyDecoder_settles|].
  repeat (apply Forall_cons_2; [apply bytesDecoder_settles|]). apply Forall_nil_2.
Qed.

(** ** Payloads with markers *)

Section Markers.
Context `{CR : Crypto, TL : !Tlv}.

Lemma Forall_filter {A} (Q : A -> Prop) `{forall a, Decision (P a)} (l : list A) :
  Forall Q l -> Forall Q (filter P l).
Proof. rewrite !Forall_forall. intros F a [_ Ha]%list_elem_of_filter. auto. Qed.

Lemma increasing_filter `{forall f, Decision (P f)} fs :
  increasing (map TLVType fs) -> increasing (map TLVType (filter P fs)).
Proof.
  induction fs as [|f fs IH]; intros S; [constructor|].
  cbn [map] in S. apply StronglySorted_inv in S as [S F]. rewrite filter_cons.
  destruct (decide (P f)); [|auto]. cbn [map]. constructor; [auto|].
  apply Forall_map. apply (Forall_map TLVType) in F. by apply Forall_filter.
Qed.

Lemma unmarked_wf o : payload_ok o -> payload_wf (unmarked o).
Proof.
  intros [R D F S]. split; [constructor|]; cbn [unmarked FinalHopPayloads].
  - done.
  - done.
  - by apply Forall_filter.
  - by apply increasing_filter.
  - unfold valued. apply Forall_forall. intros f Hf. by apply list_elem_of_filter in Hf as [Hv _].
Qed.

Lemma valued_all fs : Forall has_value fs -> valued fs = fs.
Proof.
  unfold valued. induction 1 as [|f fs V F IH]; [done|]. rewrite filter_cons, decide_True by done.
  by rewrite IH.
Qed.

Lemma unmarked_id o : Forall has_value (FinalHopPayloads o) -> unmarked o = o.
Proof. intros F. unfold unmarked. rewrite valued_all by done. by destruct o. Qed.

(** The records that decoding drops are those of the markers. *)
Lemma kept_unmarked o : payload_ok o ->
  List.filter (fun r => negb (dropped r)) (payload_raws o) = payload_raws (unmarked o).
Proof.
  intros [_ _ F _]. unfold payload_raws. cbn [unmarked omp_ReplyPath omp_EncryptedData].
  rewrite !List.filter_app. f_equal; [by destruct (omp_ReplyPath o)|].
  f_equal; [by case_bool_decide|]. cbn [unmarked FinalHopPayloads].
  induction F as [|[t v] fs (Ht & _) F IH]; [done|]. unfold valued in *. rewrite filter_cons. cbn [map List.filter].
  rewrite IH. unfold dropped, has_value. cbn [fst snd TLVType fhp_Value] in *.
  destruct (find_namespace t) as [E1 E2]; [done|].
  destruct (find_decoder payload_decoders t) as [d|] eqn:E; cbn [negb].
  - rewrite decide_True; [done|]. destruct (decide (t = 64)), (decide (t = 66)); auto.
    assert (Some d = None) by auto. done.
  - destruct E1 as [N1 N2]; [done|]. rewrite (bool_decide_false (t < 64)) by lia. cbn [orb].
    case_bool_decide as Hv; cbn [negb]; [rewrite decide_False by tauto | rewrite decide_True by tauto];
      done.
Qed.

Lemma kept_all o : payload_wf o ->
  List.filter (fun r => negb (dropped r)) (payload_raws o) = payload_raws o.
Proof. intros [W V]. rewrite kept_unmarked by done. by rewrite unmarked_id. Qed.
End Markers.

(** What is encoded decodes without its markers. *)
Lemma DecodeOnionMessagePayload_wire `{CR : Crypto, CL : !CryptoLaws, TL : !Tlv, TLL : !TlvLaws,
    MO : MapOrder, MOL : !MapOrderLaws} o : payload_ok o ->
  DecodeOnionMessagePayload (wire (payload_raws o)) = Ret (unmarked o).
Proof.
  intros W. apply DecodeOnionMessagePayload_raws;
    [by apply unmarked_wf | by apply payload_raws_wf | by apply kept_unmarked].
Qed.

(** ** Properties *)

Section Properties.
Context `{CR : Crypto, CL : !CryptoLaws, TL : !Tlv, TLL : !TlvLaws,
          MO : MapOrder, MOL : !MapOrderLaws}.


(** A stream that carries further records decodes to the same payload
    when they are unknown and below the final hop range, or unknown and
    without a value. *)
Theorem DecodeOnionMessagePayload_extends (o : OnionMessagePayload) (rs : raws) :
  payload_wf o -> raws_wf rs ->
  List.filter (fun r => negb (dropped r)) rs = payload_raws o ->
  DecodeOnionMessagePayload (wire rs) = Ret o.
Proof. apply DecodeOnionMessagePayload_raws. Qed.

(** A final hop payload without a value - a marker, which Validate accepts
    on purpose - is encoded, but lost when the bytes are decoded, unless its
    type is one of the two invoice namespaces. *)
Theorem marker_payload_lost (o : OnionMessagePayload) (t : Z) :
  payload_wf o -> 66 < t -> u64 t -> Forall (fun f => TLVType f < t) (FinalHopPayloads o) ->
  FinalHopPayload_Validate (MkFinalHopPayload t []) = Ret tt /\
  exists b,
    EncodeOnionMessagePayload (MkOnionMessagePayload (omp_ReplyPath o) (omp_EncryptedData o)
      (FinalHopPayloads o ++ [MkFinalHopPayload t []])) = Ret b
    /\ DecodeOnionMessagePayload b = Ret o.
Proof.
  intros W Ht Hu Hlast. split.
  { unfold FinalHopPayload_Validate, ValidateFinalPayload, finalHopPayloadStart. cbn [TLVType].
    by rewrite bool_decide_false by lia. }
  set (marked := MkOnionMessagePayload _ _ _).
  assert (payload_raws marked = payload_raws o ++ [(t, [])]) as Em.
  { unfold payload_raws. cbn [omp_ReplyPath omp_EncryptedData FinalHopPayloads marked].
    by rewrite map_app, <- !app_assoc. }
  assert (payload_ok marked) as Wm.
  { destruct W as [[Hp Hd Hf Hs] _]. constructor; try done; cbn [FinalHopPayloads marked].
    - apply Forall_app. split; [done|]. constructor; [|constructor]. by split; [cbn; lia|].
    - rewrite map_app. apply StronglySorted_snoc; [done|]. by apply Forall_map. }
  exists (wire (payload_raws marked)).
  split; [by apply EncodeOnionMessagePayload_wire|].
  apply DecodeOnionMessagePayload_raws; [done | by apply payload_raws_wf|].
  rewrite Em, List.filter_app, kept_all by done. cbn [List.filter].
  assert (dropped (t, []) = true) as ->; [|apply app_nil_r].
  unfold dropped. cbn [fst snd]. destruct (find_namespace t) as [_ E]; [lia|].
  rewrite E by lia. by rewrite orb_true_r.
Qed.

(** Encoding refuses a payload outside the final hop range with
    ErrNotFinalPayload, and fails when a type is given twice. *)
Theorem EncodeOnionMessagePayload_rejects (o : OnionMessagePayload) :
  (Exists (fun f => TLVType f < 64) (FinalHopPayloads o) ->
   exists e, EncodeOnionMessagePayload o = Err e /\ errors_Is e ErrNotFinalPayload = true)
  /\ (~ NoDup (map TLVType (FinalHopPayloads o)) -> fails (EncodeOnionMessagePayload o)).
Proof.
  unfold EncodeOnionMessagePayload. split.
  - intros H. rewrite finalHopRecord_bad by done. by eexists.
  - intros H. destruct (each finalHopRecord (FinalHopPayloads o)) as [recs|e| |] eqn:E.
    2: by eexists.
    2-3: by destruct (finalHopRecord_settles (FinalHopPayloads o)) as [[? E']|[? E']];
      rewrite E' in E.
    cbn [mbind outcome_bind]. apply finalHopRecord_types in E.
    match goal with |- context [SortRecords ?l] =>
      destruct (NewStream_bad (map rec_Type (SortRecords l))) as [e ->] end.
    + intros S%increasing_NoDup. rewrite SortRecords_perm, map_app in S.
      apply NoDup_app in S as (_ & _ & S). by rewrite E in S.
    + by eexists.
Qed.

(** C37: A reply path has a one byte hop count.  With a multiple of 256 hops it
    does not encode (ErrNoHops, though it has hops); otherwise it encodes, its
    size is the number of bytes written, and decoding reads back the first
    (number of hops modulo 256) hops and leaves the others in the reader. *)
Theorem ReplyPath_codec (p : ReplyPath) (rest : bytes) :
  Forall hop_wf (Hops p) -> u64 (len (path_bytes p)) ->
  (len (Hops p) mod 256 = 0 /\ encodeReplyPath (PVReplyPath p) = Err ErrNoHops)
  \/ (exists b n, encodeReplyPath (PVReplyPath p) = Ret b /\ ReplyPath_size p = len b
      /\ n = Z.to_nat (len (Hops p) mod 256)
      /\ decodeReplyPath PKReplyPath (ReplyPath_size p) (b ++ rest)
         = Ret (MkReplyPath (FirstNodeID p) (BlindingPoint p) (take n (Hops p)),
                concat (map hop_bytes (drop n (Hops p))) ++ rest)
      /\ (len (Hops p) < 256 -> take n (Hops p) = Hops p)).
Proof.
  intros F U. rewrite encodeReplyPath_bytes. case_bool_decide as D; [by left|]. right.
  exists (path_bytes p), (Z.to_nat (len (Hops p) mod 256)).
  rewrite ReplyPath_size_bytes by done. pose proof (path_bytes_len p).
  do 3 (split; [done|]). split; [apply decodeReplyPath_bytes; auto; lia|].
  intros Hl. rewrite Z.mod_small by (pose proof (len_nonneg (Hops p)); lia).
  unfold len. by rewrite Nat2Z.id, firstn_all.
Qed.

(** A blinded hop always encodes, to the number of bytes of its size, and
    decodes with its data truncated to its length modulo 2^16; data shorter
    than 65536 bytes survives. *)
Theorem BlindedHop_codec (b : BlindedHop) (rest : bytes) :
  let n := Z.to_nat (len (bh_EncryptedData b) mod 65536) in
  exists w, encodeBlindedHop (PVBlindedHop b) = Ret w
    /\ (len (bh_EncryptedData b) < 65536 -> BlindedHop_size b = len w)
    /\ decodeBlindedHop PKBlindedHop (w ++ rest)
       = Ret (MkBlindedHop (BlindedNodeID b) (take n (bh_EncryptedData b)),
              drop n (bh_EncryptedData b) ++ rest)
    /\ (len (bh_EncryptedData b) < 65536 ->
        decodeBlindedHop PKBlindedHop (w ++ rest) = Ret (b, rest)).
Proof.
  intros n. exists (hop_bytes b). split; [apply encodeBlindedHop_bytes|].
  split; [|split; [by apply decodeBlindedHop_bytes | apply decodeBlindedHop_ok]].
  intros H. rewrite hop_bytes_len. unfold BlindedHop_size.
  apply to_u64_small. pose proof (len_nonneg (bh_EncryptedData b)). unfold u64. lia.
Qed.
End Properties.

(** ** Witnesses *)

Definition w_path : ReplyPath :=
  MkReplyPath (true, x01) (false, x02)
    [MkBlindedHop (false, x03) (lit "data"); MkBlindedHop (true, x04) []].

Definition w_payload : OnionMessagePayload :=
  MkOnionMessagePayload (Some w_path) (lit "encrypted")
    [MkFinalHopPayload 64 []; MkFinalHopPayload 66 (lit "invoice"); MkFinalHopPayload 101 [x01]].

Lemma w_payload_wf : payload_wf w_payload.
Proof.
  split; [constructor|].
  - intros p [= <-]. split; [unfold len; cbn; lia|]. repeat constructor.
  - by split.
  - repeat constructor; cbn; try lia; unfold u64, len; cbn; lia.
  - repeat constructor.
  - constructor; [by left|]. constructor; [by right; left|]. constructor; [|constructor].
    by right; right.
Qed.

(** With a marker, in another order. *)
Definition w_marked : OnionMessagePayload :=
  MkOnionMessagePayload (Some w_path) (lit "encrypted")
    [MkFinalHopPayload 64 []; MkFinalHopPayload 66 (lit "invoice"); MkFinalHopPayload 101 [x01];
     MkFinalHopPayload 103 []].

Definition w_payload_given : OnionMessagePayload :=
  MkOnionMessagePayload (Some w_path) (lit "encrypted")
    [MkFinalHopPayload 66 (lit "invoice"); MkFinalHopPayload 64 []; MkFinalHopPayload 101 [x01];
     MkFinalHopPayload 103 []].

Lemma w_marked_ok : payload_ok w_marked.
Proof.
  constructor.
  - intros p [= <-]. split; [unfold len; cbn; lia|]. repeat constructor.
  - by split.
  - repeat constructor; cbn; try lia; unfold u64, len; cbn; lia.
  - repeat constructor.
Qed.


(** The records of [w_payload] with an unknown low one and an empty one. *)
Definition w_extended : raws :=
  [(1, [x00]); (2, path_bytes w_path); (4, lit "encrypted"); (64, []); (66, lit "invoice");
   (100, []); (101, [x01])].

Lemma DecodeOnionMessagePayload_extends_witness :
  DecodeOnionMessagePayload (wire w_extended) = Ret w_payload.
Proof.
  apply (DecodeOnionMessagePayload_extends w_payload w_extended);
    [exact w_payload_wf | | reflexivity].
  split; repeat constructor; cbn; try lia; unfold u64, len; cbn; lia.
Defined.

Lemma marker_payload_lost_witness :
  FinalHopPayload_Validate (MkFinalHopPayload 103 []) = Ret tt /\
  exists b,
    EncodeOnionMessagePayload (MkOnionMessagePayload (omp_ReplyPath w_payload)
      (omp_EncryptedData w_payload) (FinalHopPayloads w_payload ++ [MkFinalHopPayload 103 []]))
    = Ret b /\ DecodeOnionMessagePayload b = Ret w_payload.
Proof.
  apply (marker_payload_lost w_payload 103); [exact w_payload_wf | lia | by split |].
  repeat constructor.
Defined.

Lemma EncodeOnionMessagePayload_rejects_witness :
  exists e, EncodeOnionMessagePayload (MkOnionMessagePayload None [] [MkFinalHopPayload 63 [x01]])
            = Err e /\ errors_Is e ErrNotFinalPayload = true.
Proof.
  apply (EncodeOnionMessagePayload_rejects
           (MkOnionMessagePayload None [] [MkFinalHopPayload 63 [x01]])).
  by constructor.
Defined.

(** A path of 257 hops. *)
Definition w_long_path : ReplyPath :=
  MkReplyPath (true, x01) (false, x02) (replicate 257 (MkBlindedHop (false, x03) [x00])).

Lemma ReplyPath_codec_witness :
  (len (Hops w_long_path) mod 256 = 0 /\ encodeReplyPath (PVReplyPath w_long_path) = Err ErrNoHops)
  \/ (exists b n, encodeReplyPath (PVReplyPath w_long_path) = Ret b
      /\ ReplyPath_size w_long_path = len b
      /\ n = Z.to_nat (len (Hops w_long_path) mod 256)
      /\ decodeReplyPath PKReplyPath (ReplyPath_size w_long_path) (b ++ [])
         = Ret (MkReplyPath (FirstNodeID w_long_path) (BlindingPoint w_long_path)
                  (take n (Hops w_long_path)),
                concat (map hop_bytes (drop n (Hops w_long_path))) ++ [])
      /\ (len (Hops w_long_path) < 256 -> take n (Hops w_long_path) = Hops w_long_path)).
Proof.
  apply (ReplyPath_codec w_long_path []).
  - apply Forall_replicate. reflexivity.
  - split; vm_compute; congruence.
Defined.

Definition w_hop : BlindedHop := MkBlindedHop (false, x03) (lit "data").

Lemma BlindedHop_codec_witness :
  exists w, encodeBlindedHop (PVBlindedHop w_hop) = Ret w
            /\ BlindedHop_size w_hop = len w
            /\ decodeBlindedHop PKBlindedHop (w ++ lit "rest")
               = Ret (w_hop, lit "rest").
Proof.
  destruct (BlindedHop_codec w_hop (lit "rest"))
    as (w & Hw & Hs & _ & H).
  exists w. split; [exact Hw | split; [apply Hs; reflexivity | apply H; reflexivity]].
Defined.
