(* ===== verification/Bech32.v ===== *)
(** offers/bech32.go: joining the parts of an offer string, and bech32 without
    a checksum.  Strings are lists of bytes, as in Go. *)
From S2P Require Import Prelude.

Definition charset : bytes := lit "qpzry9x8gf2tvdw0s3jn54khce6mua7l".
Definition offerHRP : bytes := lit "lno".

Definition ErrIncorrectSplit : error := ENamed "offers.ErrIncorrectSplit".
Definition ErrNotInCharset : error := ENamed "offers.ErrNotInCharset".

(** ** The strings package *)

Definition plus_sign : byte := x2b.
Definition one_sign : byte := x31.

(** strings.Split(s, "+") *)
Fixpoint split_plus (s : bytes) : list bytes :=
  match s with
  | [] => [[]]
  | c :: r =>
      if bool_decide (c = plus_sign) then [] :: split_plus r
      else match split_plus r with
           | p :: ps => (c :: p) :: ps
           | [] => [[c]]
           end
  end.

(** strings.Join(parts, "") *)
Definition strings_Join (parts : list bytes) : bytes := concat parts.

(** The UTF-8 encodings of the runes unicode.IsSpace accepts. *)
Definition spaces : list bytes :=
  [[x09]; [x0a]; [x0b]; [x0c]; [x0d]; [x20]; [xc2; x85]; [xc2; xa0]; [xe1; x9a; x80];
   [xe2; x80; x80]; [xe2; x80; x81]; [xe2; x80; x82]; [xe2; x80; x83]; [xe2; x80; x84];
   [xe2; x80; x85]; [xe2; x80; x86]; [xe2; x80; x87]; [xe2; x80; x88]; [xe2; x80; x89];
   [xe2; x80; x8a]; [xe2; x80; xa8]; [xe2; x80; xa9]; [xe2; x80; xaf]; [xe2; x81; x9f];
   [xe3; x80; x80]].

Fixpoint strip_prefix (p s : bytes) : option bytes :=
  match p, s with
  | [], _ => Some s
  | x :: p', y :: s' => if bool_decide (x = y) then strip_prefix p' s' else None
  | _ :: _, [] => None
  end.

(** The string without the space it starts with, if it does. *)
Fixpoint strip_one (sps : list bytes) (s : bytes) : option bytes :=
  match sps with
  | [] => None
  | p :: r => match strip_prefix p s with Some s' => Some s' | None => strip_one r s end
  end.

(** Every step removes a byte at least, so the length is enough fuel. *)
Fixpoint trim_left (sps : list bytes) (fuel : nat) (s : bytes) : bytes :=
  match fuel with
  | O => s
  | S n => match strip_one sps s with Some s' => trim_left sps n s' | None => s end
  end.

(** strings.TrimSpace: spaces are trimmed on the left, then on the right. *)
Definition TrimSpace (s : bytes) : bytes :=
  let l := trim_left spaces (length s) s in
  reverse (trim_left (map reverse spaces) (length l) (reverse l)).

(** strings.IndexByte and strings.LastIndexByte *)
Fixpoint IndexByte (s : bytes) (c : byte) : Z :=
  match s with
  | [] => -1
  | x :: r =>
      if bool_decide (x = c) then 0
      else let i := IndexByte r c in if bool_decide (i < 0) then -1 else i + 1
  end.

Fixpoint LastIndexByte (s : bytes) (c : byte) : Z :=
  match s with
  | [] => -1
  | x :: r =>
      let i := LastIndexByte r c in
      if bool_decide (0 <= i) then i + 1
      else if bool_decide (x = c) then 0 else -1
  end.

(** strings.ToLower and strings.ToUpper, on ASCII strings. *)
Definition byte_lower (c : byte) : byte :=
  if bool_decide (65 <= byte_to_Z c <= 90) then byte_of_Z (byte_to_Z c + 32) else c.
Definition byte_upper (c : byte) : byte :=
  if bool_decide (97 <= byte_to_Z c <= 122) then byte_of_Z (byte_to_Z c - 32) else c.
Definition strings_ToLower (s : bytes) : bytes := map byte_lower s.
Definition strings_ToUpper (s : bytes) : bytes := map byte_upper s.

(** ** The functions of bech32.go *)

Fixpoint checkASCII (str : bytes) : outcome unit :=
  match str with
  | [] => Ret tt
  | c :: r =>
      if bool_decide (byte_to_Z c < 33) || bool_decide (byte_to_Z c > 126)
      then Err (ENew "invalid character in string")
      else checkASCII r
  end.

(** The loop of toBytes appends the index of each character. *)
Fixpoint toBytes_loop (chars decoded : bytes) : outcome bytes :=
  match chars with
  | [] => Ret decoded
  | c :: r =>
      let index := IndexByte charset c in
      if bool_decide (index < 0) then Err (EWrap "character" ErrNotInCharset)
      else toBytes_loop r (decoded ++ [byte_of_Z index])
  end.
Definition toBytes (chars : bytes) : outcome bytes := toBytes_loop chars [].

Definition decodeBech32 (bech : bytes) : outcome (bytes * bytes) :=
  if bool_decide (len bech < 8) then Err (ENew "invalid bech32 string length")
  else
    _ ← checkASCII bech;
    let lower := strings_ToLower bech in
    let upper := strings_ToUpper bech in
    if bool_decide (bech <> lower) && bool_decide (bech <> upper)
    then Err (ENew "string not all lowercase or all uppercase")
    else
      let bech := lower in
      let one := LastIndexByte bech one_sign in
      if bool_decide (one < 1) || bool_decide (one + 7 > len bech)
      then Err (ENew "invalid index of 1")
      else
        let hrp := take (Z.to_nat one) bech in
        let data := drop (Z.to_nat (one + 1)) bech in
        decoded ← opaque "failed converting data to bytes" (toBytes data);
        Ret (hrp, decoded).

(** The loop of stripOffer over the parts. *)
Definition stripPart (part : bytes) : outcome bytes :=
  if bool_decide (part = []) then Err ErrIncorrectSplit
  else
    let trimmed := TrimSpace part in
    _ ← wrap "part" (checkASCII trimmed);
    Ret trimmed.

Definition stripOffer (offer : bytes) : outcome bytes :=
  let parts := split_plus offer in
  parts ← each stripPart parts;
  Ret (strings_Join parts).

(** ** Specification *)

(** A character of a clean offer string. *)
Definition clean_char (c : byte) : Prop := 33 <= byte_to_Z c <= 126 /\ c <> plus_sign.
Definition clean (s : bytes) : Prop := Forall clean_char s.
(** Whitespace: a sequence of spaces. *)
Definition whitespace (w : bytes) : Prop := exists sps, Forall (fun p => p ∈ spaces) sps /\ w = concat sps.

(** The character of a five bit value. *)
Definition char_of (d : byte) : byte := default xff (charset !! Z.to_nat (byte_to_Z d)).
Definition five_bits (d : byte) : Prop := byte_to_Z d < 32.
Definition lower_char (c : byte) : Prop := 33 <= byte_to_Z c <= 126 /\ byte_lower c = c.

(** bech32 encoding, without a checksum. *)
Definition bech32_string (hrp data : bytes) : bytes := hrp ++ [one_sign] ++ map char_of data.

(** ** Characters *)

Lemma clean_upper c : clean_char c -> clean_char (byte_upper c).
Proof.
  intros [[H1 H2] N]. unfold plus_sign in N. destruct c; vm_compute in H1, H2; repeat split;
    first [congruence | vm_compute; congruence].
Qed.

Lemma checkASCII_Ret s : checkASCII s = Ret tt <-> Forall (fun c => 33 <= byte_to_Z c <= 126) s.
Proof.
  induction s as [|c s IH]; cbn; [split; [constructor | done]|].
  destruct (bool_decide (byte_to_Z c < 33) || bool_decide (byte_to_Z c > 126)) eqn:E.
  - rewrite orb_true_iff, !bool_decide_eq_true in E. split; [done|]. inversion 1; subst. lia.
  - rewrite orb_false_iff, !bool_decide_eq_false in E. rewrite IH, Forall_cons. split; [|tauto].
    intros ?. split; [lia | done].
Qed.

(** Facts about bytes, by looking at all of them. *)
Lemma char_of_facts d : five_bits d ->
  IndexByte charset (char_of d) = byte_to_Z d /\ lower_char (char_of d) /\ char_of d <> one_sign
  /\ char_of d <> plus_sign.
Proof.
  intros H. destruct d; first
    [ solve [vm_compute in H; discriminate H]
    | solve [repeat split; vm_compute; congruence] ].
Qed.

Lemma upper_facts c :
  byte_lower (byte_upper (byte_lower c)) = byte_lower c
  /\ byte_upper (byte_upper c) = byte_upper c
  /\ (33 <= byte_to_Z c <= 126 -> 33 <= byte_to_Z (byte_upper c) <= 126).
Proof.
  destruct c; (split; [vm_compute; reflexivity|]); (split; [vm_compute; reflexivity|]);
    intros [H1 H2]; vm_compute in H1, H2; split; vm_compute; congruence.
Qed.

Lemma toBytes_loop_chars data : forall acc, Forall five_bits data ->
  toBytes_loop (map char_of data) acc = Ret (acc ++ data).
Proof.
  induction data as [|d data IH]; intros acc F; cbn [map toBytes_loop]; [by rewrite app_nil_r|].
  inversion F as [|? ? Hd F']; subst. destruct (char_of_facts d Hd) as (-> & _).
  pose proof (byte_to_Z_bound d). rewrite bool_decide_false by lia.
  rewrite IH, byte_of_to_Z, <- app_assoc by done. done.
Qed.

Lemma LastIndexByte_absent s c : c ∉ s -> LastIndexByte s c = -1.
Proof.
  induction s as [|x s IH]; cbn; [done|]. rewrite not_elem_of_cons. intros [Hc Hs].
  rewrite IH, bool_decide_false by (done || lia). by rewrite bool_decide_false by congruence.
Qed.

Lemma LastIndexByte_app pre c post : c ∉ post -> LastIndexByte (pre ++ c :: post) c = len pre.
Proof.
  intros H. unfold len. induction pre as [|x pre IH]; cbn [app LastIndexByte length].
  - rewrite LastIndexByte_absent, bool_decide_false by (done || lia). by rewrite bool_decide_true.
  - rewrite IH, bool_decide_true by lia. lia.
Qed.

Lemma IndexByte_lookup s c : 0 <= IndexByte s c -> s !! Z.to_nat (IndexByte s c) = Some c.
Proof.
  induction s as [|x s IH]; cbn [IndexByte]; [lia|].
  case_bool_decide as E; [by subst|]. case_bool_decide as N; [lia|]. intros _.
  rewrite Z2Nat.inj_add by lia. rewrite Nat.add_1_r. apply IH. lia.
Qed.

Lemma IndexByte_bound s c : IndexByte s c < len s.
Proof.
  unfold len. induction s as [|x s IH]; cbn [IndexByte length]; [done|].
  repeat case_bool_decide; lia.
Qed.

Lemma toBytes_loop_inv chars : forall acc out, toBytes_loop chars acc = Ret out ->
  exists data, out = acc ++ data /\ chars = map char_of data /\ Forall five_bits data.
Proof.
  induction chars as [|c chars IH]; intros acc out; cbn [toBytes_loop]; intros H.
  - go_inv. exists []. by rewrite app_nil_r.
  - case_bool_decide as N; [done|]. apply IH in H as (data & -> & -> & F).
    pose proof (IndexByte_bound charset c) as B. change (len charset) with 32 in B.
    exists (byte_of_Z (IndexByte charset c) :: data). rewrite <- app_assoc.
    assert (byte_to_Z (byte_of_Z (IndexByte charset c)) = IndexByte charset c) as E
      by (rewrite byte_of_Z_to_Z; apply Z.mod_small; lia).
    split; [done|]. split.
    + cbn [map]. f_equal. unfold char_of. rewrite E, IndexByte_lookup by lia. done.
    + constructor; [|done]. unfold five_bits. rewrite E. lia.
Qed.

Lemma char_one_absent data : Forall five_bits data -> one_sign ∉ map char_of data.
Proof.
  intros F Hin. apply list_elem_of_fmap in Hin as (d & E & Hd).
  rewrite Forall_forall in F. destruct (char_of_facts d (F d Hd)) as (_ & _ & N & _). congruence.
Qed.

(** The last separator splits a string. *)
Lemma LastIndexByte_split s c i : LastIndexByte s c = i -> 0 <= i ->
  s = take (Z.to_nat i) s ++ c :: drop (Z.to_nat (i + 1)) s.
Proof.
  revert i. induction s as [|x s IH]; intros i; cbn [LastIndexByte]; [lia|].
  case_bool_decide as N.
  - intros <- _. replace (Z.to_nat (LastIndexByte s c + 1)) with (S (Z.to_nat (LastIndexByte s c))) by lia.
    replace (Z.to_nat (LastIndexByte s c + 1 + 1)) with (S (Z.to_nat (LastIndexByte s c + 1))) by lia.
    cbn [take drop app]. f_equal. by apply IH.
  - case_bool_decide as E; [|lia]. intros <- _. by subst.
Qed.

(** ** Trimming *)

Lemma strip_spaces p r : p ∈ spaces -> strip_one spaces (p ++ r) = Some r.
Proof.
  unfold spaces. rewrite !elem_of_cons, elem_of_nil.
  intros H. repeat (destruct H as [->|H]; [reflexivity|]). done.
Qed.

Lemma strip_spaces_rev p r : p ∈ spaces -> strip_one (map reverse spaces) (reverse p ++ r) = Some r.
Proof.
  unfold spaces. rewrite !elem_of_cons, elem_of_nil.
  intros H. repeat (destruct H as [->|H]; [reflexivity|]). done.
Qed.

Definition trimmed (s : bytes) : Prop :=
  match s with [] => True | c :: _ => 33 <= byte_to_Z c <= 126 end.

Lemma strip_none s : trimmed s ->
  strip_one spaces s = None /\ strip_one (map reverse spaces) s = None.
Proof.
  destruct s as [|c s]; [done|]. cbn [trimmed]. intros [H1 H2].
  destruct c; vm_compute in H1, H2; first [congruence | split; reflexivity].
Qed.

Lemma trim_left_none sps fuel s : strip_one sps s = None -> trim_left sps fuel s = s.
Proof. destruct fuel; cbn; [done|]. by intros ->. Qed.

Lemma trim_left_whitespace f (ws : list bytes) r : forall fuel,
  (forall p r', p ∈ spaces -> strip_one (map f spaces) (f p ++ r') = Some r') ->
  strip_one (map f spaces) r = None -> Forall (fun p => p ∈ spaces) ws ->
  (length ws <= fuel)%nat ->
  trim_left (map f spaces) fuel (concat (map f ws) ++ r) = r.
Proof.
  induction ws as [|w ws IH]; intros fuel Hs Hr F Hf; cbn [map concat]; [by apply trim_left_none|].
  inversion F; subst. destruct fuel as [|fuel]; [cbn in Hf; lia|]. cbn [trim_left].
  rewrite <- app_assoc, Hs by done. apply IH; auto. cbn in Hf. lia.
Qed.

Lemma spaces_nonempty ws : Forall (fun p => p ∈ spaces) ws -> (length ws <= length (concat ws))%nat.
Proof.
  induction 1 as [|w ws Hw _ IH]; cbn; [done|]. rewrite length_app.
  assert (1 <= length w)%nat; [|lia]. revert Hw. unfold spaces. rewrite !elem_of_cons, elem_of_nil.
  intros H. repeat (destruct H as [->|H]; [cbn; lia|]). done.
Qed.

Lemma concat_rev_spaces (ws : list bytes) : reverse (concat ws) = concat (map reverse (reverse ws)).
Proof.
  induction ws as [|w ws IH]; [done|]. cbn [concat]. rewrite reverse_app, IH, reverse_cons, map_app, concat_app.
  cbn. by rewrite app_nil_r.
Qed.

Lemma trim_left_id ws r fuel :
  trimmed r -> Forall (fun p => p ∈ spaces) ws -> (length ws <= fuel)%nat ->
  trim_left spaces fuel (concat ws ++ r) = r.
Proof.
  intros Ht F Hf. rewrite <- (map_id ws). apply (trim_left_whitespace id); auto.
  - intros p r' Hp. by apply (strip_spaces p).
  - apply (proj1 (strip_none r Ht)).
Qed.

(** Spaces around a string without outer spaces are removed. *)
Lemma TrimSpace_spaces w s w' :
  whitespace w -> whitespace w' -> trimmed s -> trimmed (reverse s) -> TrimSpace (w ++ s ++ w') = s.
Proof.
  intros (ws & F & ->) (ws' & F' & ->) Ht Ht'. unfold TrimSpace.
  assert (forall r fuel, trimmed (reverse r) -> (length ws' <= fuel)%nat ->
    reverse (trim_left (map reverse spaces) fuel (reverse (r ++ concat ws'))) = r) as R.
  { intros r fuel Hr Hf. rewrite reverse_app, concat_rev_spaces.
    rewrite trim_left_whitespace; [apply reverse_involutive| | | |].
    - apply strip_spaces_rev.
    - by apply strip_none.
    - by rewrite reverse_Permutation.
    - by rewrite length_reverse. }
  pose proof (spaces_nonempty ws F) as N. pose proof (spaces_nonempty ws' F') as N'.
  destruct s as [|c s].
  - rewrite app_nil_l, <- concat_app. pose proof (spaces_nonempty (ws ++ ws')) as Nn.
    pose proof (trim_left_id (ws ++ ws') [] (length (concat (ws ++ ws'))) I) as E.
    rewrite app_nil_r in E. rewrite E; [done| |apply Nn]; by apply Forall_app.
  - rewrite trim_left_id; [|done|done|rewrite length_app; lia]. apply R; [done|].
    rewrite !length_app. lia.
Qed.

Lemma clean_trimmed s : clean s -> trimmed s /\ trimmed (reverse s).
Proof.
  assert (forall l, clean l -> trimmed l) as T.
  { intros [|c l] F; [done|]. inversion F as [|? ? [H _] ?]; subst. exact H. }
  intros F. split; apply T; [done|]. unfold clean. by rewrite reverse_Permutation.
Qed.

Lemma TrimSpace_clean w s w' : whitespace w -> whitespace w' -> clean s -> TrimSpace (w ++ s ++ w') = s.
Proof. intros Hw Hw' Hs. destruct (clean_trimmed s Hs). by apply TrimSpace_spaces. Qed.

Lemma whitespace_nil : whitespace [].
Proof. by exists []. Qed.

Lemma whitespace_no_plus w : whitespace w -> plus_sign ∉ w.
Proof.
  intros (ws & F & ->). induction F as [|p ws Hp _ IH]; cbn; [set_solver|].
  rewrite elem_of_app. intros [H|H]; [|done]. revert Hp H. unfold spaces, plus_sign.
  rewrite !elem_of_cons, elem_of_nil. intros Hp.
  repeat (destruct Hp as [->|Hp]; [rewrite !elem_of_cons, elem_of_nil; intuition discriminate|]). done.
Qed.

Lemma clean_no_plus s : clean s -> plus_sign ∉ s.
Proof. unfold clean. rewrite Forall_forall. intros F H. by apply F in H as [_ ?]. Qed.

Lemma clean_ascii s : clean s -> checkASCII s = Ret tt.
Proof. intros F. apply checkASCII_Ret. apply (Forall_impl _ _ _ F). by intros c []. Qed.

(** ** Splitting *)

Lemma split_plus_none s : plus_sign ∉ s -> split_plus s = [s].
Proof.
  induction s as [|c s IH]; [done|]. rewrite not_elem_of_cons. intros [Hc Hs]. cbn [split_plus].
  by rewrite bool_decide_false, IH by congruence.
Qed.

Lemma split_plus_app s r : plus_sign ∉ s -> split_plus (s ++ plus_sign :: r) = s :: split_plus r.
Proof.
  induction s as [|c s IH]; cbn [app split_plus].
  - intros _. by rewrite bool_decide_true.
  - rewrite not_elem_of_cons. intros [Hc Hs]. by rewrite bool_decide_false, IH by congruence.
Qed.

(** Splitting is the inverse of joining with plus signs. *)
Definition join_plus (parts : list bytes) : bytes :=
  match parts with [] => [] | p :: ps => p ++ concat (map (cons plus_sign) ps) end.

Lemma split_plus_parts s :
  join_plus (split_plus s) = s /\ Forall (fun p => plus_sign ∉ p) (split_plus s)
  /\ split_plus s <> [].
Proof.
  induction s as [|c s (IH & F & N)]; cbn [split_plus].
  - split; [done|]. split; [|done]. repeat constructor. set_solver.
  - destruct (split_plus s) as [|p ps] eqn:E; [done|]. cbn [join_plus] in IH.
    case_bool_decide as H; cbn [join_plus map concat].
    + split; [|split; [|done]]; [by rewrite H, <- IH | constructor; [set_solver | done]].
    + split; [by rewrite <- IH|]. split; [|done]. inversion F; subst. constructor; [|done].
      rewrite not_elem_of_cons. split; [congruence | done].
Qed.

Lemma join_plus_unique ps : ps <> [] -> Forall (fun p => plus_sign ∉ p) ps -> split_plus (join_plus ps) = ps.
Proof.
  intros N F. destruct ps as [|p ps]; [done|]. clear N. revert p F.
  induction ps as [|q ps IH]; intros p F; inversion F; subst.
  - cbn. rewrite app_nil_r. by apply split_plus_none.
  - change (join_plus (p :: q :: ps)) with (p ++ plus_sign :: join_plus (q :: ps)).
    rewrite split_plus_app by done. by rewrite IH.
Qed.

Lemma stripPart_Ret p q :
  stripPart p = Ret q <-> p <> [] /\ q = TrimSpace p /\ Forall (fun c => 33 <= byte_to_Z c <= 126) q.
Proof.
  unfold stripPart. case_bool_decide as N; [split; [done | by intros []]|]. split.
  - intros H. go_inv. destruct x. split; [done|]. split; [done|]. by apply checkASCII_Ret.
  - intros (_ & -> & F). apply checkASCII_Ret in F. by rewrite F.
Qed.

Lemma stripPart_clean w s w' : whitespace w -> whitespace w' -> clean s ->
  w ++ s ++ w' <> [] -> stripPart (w ++ s ++ w') = Ret s.
Proof.
  intros Hw Hw' Hs N. apply stripPart_Ret. split; [done|]. split; [by rewrite TrimSpace_clean|].
  apply (Forall_impl _ _ _ Hs). by intros c [].
Qed.

Lemma stripOffer_Ret (offer s : bytes) :
  stripOffer offer = Ret s <->
  exists parts, parts <> [] /\ Forall (fun p => plus_sign ∉ p) parts /\ offer = join_plus parts /\
    Forall (fun p => p <> [] /\ Forall (fun c => 33 <= byte_to_Z c <= 126) (TrimSpace p)) parts /\
    s = concat (map TrimSpace parts).
Proof.
  unfold stripOffer, strings_Join. split.
  - intros H. go_inv. apply each_Forall2 in E. destruct (split_plus_parts offer) as (J & F & N).
    exists (split_plus offer). do 3 (split; [done|]). clear J F N.
    induction E as [|p q ps qs Hp _ [F Ec]]; [by split|].
    apply stripPart_Ret in Hp as (? & -> & ?). split; [by constructor|]. cbn. by rewrite Ec.
  - intros (parts & N & F & -> & Hp & ->). rewrite join_plus_unique by done.
    rewrite (each_Ret _ TrimSpace); [done|]. intros p Hin. rewrite Forall_forall in Hp.
    apply stripPart_Ret. by destruct (Hp p Hin).
Qed.

Lemma decodeBech32_Ret (s hrp data : bytes) :
  decodeBech32 s = Ret (hrp, data) <->
  Forall (fun c => 33 <= byte_to_Z c <= 126) s /\
  (s = strings_ToLower s \/ s = strings_ToUpper s) /\
  strings_ToLower s = bech32_string hrp data /\
  hrp <> [] /\ 6 <= len data /\ Forall five_bits data.
Proof.
  unfold decodeBech32.
  assert (len (strings_ToLower s) = len s) as L by (unfold len, strings_ToLower; by rewrite length_map).
  split.
  - case_bool_decide as H8; [done|]. intros H. go_inv. destruct x. apply checkASCII_Ret in E.
    split; [done|].
    destruct (bool_decide (s <> strings_ToLower s) && bool_decide (s <> strings_ToUpper s)) eqn:C; [done|].
    rewrite andb_false_iff in C. set (i := LastIndexByte (strings_ToLower s) one_sign) in *.
    destruct (bool_decide (i < 1) || bool_decide (i + 7 > len (strings_ToLower s))) eqn:B; [done|].
    rewrite orb_false_iff, !bool_decide_eq_false in B. destruct B as [B1 B2].
    go_inv. unfold toBytes in E0.
    apply toBytes_loop_inv in E0 as (data' & -> & Ed & F). cbn [app].
    pose proof (LastIndexByte_split _ one_sign i eq_refl ltac:(lia)) as Sp.
    split; [destruct C as [C|C]; apply bool_decide_neq_false in C; auto|].
    split; [unfold bech32_string; rewrite <- Ed; exact Sp|].
    assert (length (take (Z.to_nat i) (strings_ToLower s)) = Z.to_nat i) as Lt.
    { rewrite length_take. unfold len in B2. lia. }
    split; [intros Hn; rewrite Hn in Lt; cbn in Lt; lia|]. split; [|done].
    assert (length (drop (Z.to_nat (i + 1)) (strings_ToLower s)) = length data') as Ld
      by (rewrite Ed; apply length_map).
    rewrite length_drop in Ld. unfold len in *. lia.
  - intros (A & C & Es & Nh & Nd & F). rewrite Es in *.
    assert (len (bech32_string hrp data) = len hrp + 1 + len data) as Lb.
    { unfold bech32_string. rewrite !len_app. unfold len at 3. rewrite length_map. unfold len. cbn. lia. }
    assert (1 <= len hrp) by (destruct hrp; [done | unfold len; cbn; lia]).
    rewrite bool_decide_false by lia. apply checkASCII_Ret in A. rewrite A. cbn [mbind outcome_bind].
    assert (bool_decide (s <> bech32_string hrp data) && bool_decide (s <> strings_ToUpper s) = false) as ->.
    { apply andb_false_iff. destruct C as [C|C]; [left|right]; apply bool_decide_eq_false; by intros []. }
    assert (LastIndexByte (bech32_string hrp data) one_sign = len hrp) as ->
      by (apply LastIndexByte_app; by apply char_one_absent).
    rewrite !bool_decide_false by lia. cbn [orb]. unfold len.
    replace (Z.to_nat (Z.of_nat (length hrp) + 1)) with (S (length hrp)) by lia.
    rewrite Nat2Z.id. unfold bech32_string. rewrite take_app_length, app_assoc.
    rewrite drop_app_length' by (rewrite length_app; cbn; lia).
    unfold toBytes. by rewrite toBytes_loop_chars.
Qed.

(** ** Properties *)

(** stripOffer returns the concatenation of the parts between plus signs,
    trimmed, exactly when no part is empty and what is left of each is
    printable ASCII. *)
Theorem stripOffer_spec (offer s : bytes) :
  stripOffer offer = Ret s <->
  exists parts, parts <> [] /\ Forall (fun p => plus_sign ∉ p) parts /\ offer = join_plus parts /\
    Forall (fun p => p <> [] /\ Forall (fun c => 33 <= byte_to_Z c <= 126) (TrimSpace p)) parts /\
    s = concat (map TrimSpace parts).
Proof. apply stripOffer_Ret. Qed.

(** An offer string may be split anywhere with plus signs and whitespace
    around them: joining non-empty clean pieces that way and stripping the
    result gives the pieces without what joins them. *)
Theorem stripOffer_joined (first : bytes) (pieces : list (bytes * bytes * bytes)) :
  clean first -> first <> [] ->
  Forall (fun '(before, after, piece) =>
    whitespace before /\ whitespace after /\ clean piece /\ piece <> []) pieces ->
  stripOffer (join_plus (first :: map (fun '(before, after, piece) => before ++ piece ++ after) pieces))
  = Ret (first ++ concat (map snd pieces)).
Proof.
  intros Hc Hn F. unfold stripOffer. rewrite join_plus_unique; [|done|].
  - assert (each stripPart (first :: map (fun '(before, after, piece) => before ++ piece ++ after) pieces)
            = Ret (first :: map snd pieces)) as ->; [|done].
    apply each_Forall2. constructor.
    + pose proof (stripPart_clean [] first [] whitespace_nil whitespace_nil Hc) as E.
      rewrite app_nil_l, app_nil_r in E. by apply E.
    + induction F as [|[[w w'] p] ps (Hw & Hw' & Hp & Np) _ IH]; constructor; [|done].
      apply stripPart_clean; try done. intros [_ [E _]%app_eq_nil]%app_eq_nil. done.
  - constructor; [by apply clean_no_plus|]. apply Forall_map. apply (Forall_impl _ _ _ F).
    intros [[w w'] p] (Hw & Hw' & Hp & _). rewrite !not_elem_of_app.
    auto using whitespace_no_plus, clean_no_plus.
Qed.

(** Whitespace counts as a part: two plus signs with only whitespace
    between them, and a plus sign with only whitespace after it, are accepted,
    where two adjacent plus signs and a final one are ErrIncorrectSplit. *)
Theorem stripOffer_blank_part (a b w : bytes) :
  clean a -> a <> [] -> clean b -> b <> [] -> whitespace w -> w <> [] ->
  stripOffer (join_plus [a; w; b]) = Ret (a ++ b) /\ stripOffer (join_plus [a; w]) = Ret a /\
  stripOffer (join_plus [a; []; b]) = Err ErrIncorrectSplit /\
  stripOffer (join_plus [a; []]) = Err ErrIncorrectSplit.
Proof.
  intros Ha Na Hb Nb Hw Nw.
  assert (forall p, clean p -> p <> [] -> stripPart p = Ret p) as P.
  { intros p Hp Np. pose proof (stripPart_clean [] p [] whitespace_nil whitespace_nil Hp) as E.
    rewrite app_nil_l, app_nil_r in E. by apply E. }
  assert (stripPart w = Ret []) as W.
  { pose proof (stripPart_clean w [] [] Hw whitespace_nil) as E. rewrite !app_nil_r in E.
    apply E; [constructor | done]. }
  pose proof (clean_no_plus a Ha) as Fa. pose proof (clean_no_plus b Hb) as Fb.
  pose proof (whitespace_no_plus w Hw) as Fw. assert (plus_sign ∉ []) as Fn by set_solver.
  unfold stripOffer. rewrite !join_plus_unique by first [done | by repeat apply Forall_cons_2].
  cbn [each]. rewrite (P a), W, (P b) by done. cbn. by rewrite !app_nil_r.
Qed.

(** decodeBech32 accepts a string exactly when it is printable, of one
    case, and its lower case form is a non-empty human readable part, the
    separator and at least six characters of the charset; it returns that part
    and the five bit values of the characters. *)
Theorem decodeBech32_spec (s hrp data : bytes) :
  decodeBech32 s = Ret (hrp, data) <->
  Forall (fun c => 33 <= byte_to_Z c <= 126) s /\
  (s = strings_ToLower s \/ s = strings_ToUpper s) /\
  strings_ToLower s = bech32_string hrp data /\
  hrp <> [] /\ 6 <= len data /\ Forall five_bits data.
Proof. apply decodeBech32_Ret. Qed.

(** ** Witnesses *)

Lemma stripOffer_joined_witness :
  stripOffer (lit "lno1+ qc+qz ") = Ret (lit "lno1qcqz").
Proof.
  apply (stripOffer_joined (lit "lno1") [([x20], [], lit "qc"); ([], [x20], lit "qz")]).
  - repeat constructor; vm_compute; congruence.
  - discriminate.
  - repeat constructor; try (vm_compute; congruence);
      first [by exists [] | exists [[x20]]; split; [|reflexivity]; repeat constructor].
Defined.

Lemma stripOffer_blank_part_witness :
  stripOffer (lit "lno1+ +qc") = Ret (lit "lno1qc") /\ stripOffer (lit "lno1+ ") = Ret (lit "lno1") /\
  stripOffer (lit "lno1++qc") = Err ErrIncorrectSplit /\
  stripOffer (lit "lno1+") = Err ErrIncorrectSplit.
Proof.
  apply (stripOffer_blank_part (lit "lno1") (lit "qc") [x20]);
    try discriminate; try (repeat constructor; vm_compute; congruence).
  exists [[x20]]. split; [|reflexivity]. repeat constructor.
Defined.
