(* ===== verification/OfferStrings.v ===== *)
(** offers/encoding.go: decoding an offer string into a valid offer.

    The conversion between groups of five and of eight bits is btcutil's
    bech32.ConvertBits, an interface here, with a concrete instance. *)
From S2P Require Import Prelude Deps DepsRef GoTime Stream Merkle Signatures Shared Offers Bech32.

(** bech32.ConvertBits(data, fromBits, toBits, pad) *)
Class Bech32Lib := { ConvertBits : bytes -> Z -> Z -> bool -> outcome bytes }.

(** Padding to five bit groups and back loses nothing. *)
Class Bech32LibLaws `{Bech32Lib} : Prop := {
  ConvertBits_back b : exists data, ConvertBits b 8 5 true = Ret data /\ Forall five_bits data
    /\ 8 * len b <= 5 * len data /\ ConvertBits data 5 8 false = Ret b;
}.

Definition ErrInvalidOfferStr : error := ENamed "offers.ErrInvalidOfferStr".
Definition ErrBadHRP : error := ENamed "offers.ErrBadHRP".

Section OfferStrings.
Context `{CR : Crypto, TL : !Tlv, LN : !Lntypes, FE : Features, MO : MapOrder, BL : Bech32Lib}.

Definition DecodeOfferStr (offerStr : bytes) : outcome Offer :=
  cleanOffer ← wrap "strip offer" (stripOffer offerStr);
  '(hrp, data) ← recast ErrInvalidOfferStr "offer string" (decodeBech32 cleanOffer);
  if bool_decide (hrp <> offerHRP) then Err (EWrap "got" ErrBadHRP)
  else
    offerBytes ← wrap "convert bits" (ConvertBits data 5 8 false);
    offer ← wrap "could not decode offer" (DecodeOffer offerBytes);
    _ ← wrap "invalid offer" (Offer_Validate offer);
    Ret offer.
End OfferStrings.

(** ** A concrete conversion of bits *)

(** The lowest [k] bits, the highest first. *)
Definition to_bits (k : nat) (c : byte) : list bool :=
  map (fun i => Z.testbit (byte_to_Z c) (Z.of_nat (k - 1 - i))) (seq 0 k).
Definition of_bits (l : list bool) : byte :=
  byte_of_Z (fold_left (fun acc (b : bool) => 2 * acc + (if b then 1 else 0)) l 0).

Fixpoint group_bits (fuel k : nat) (pad : bool) (l : list bool) : outcome bytes :=
  match fuel with
  | O => Ret []
  | S n =>
      if bool_decide (length l < k)%nat then
        if bool_decide (l = []) then Ret []
        else if pad then Ret [of_bits (l ++ replicate (k - length l) false)]
        else if bool_decide (length l < 5)%nat && bool_decide (l = replicate (length l) false)
        then Ret []
        else Err (EExt "invalid incomplete group")
      else
        r ← group_bits n k pad (drop k l);
        Ret (of_bits (take k l) :: r)
  end.

#[global] Instance ref_Bech32Lib : Bech32Lib := {|
  ConvertBits b from to pad :=
    let bits := concat (map (to_bits (Z.to_nat from)) b) in
    group_bits (S (length bits)) (Z.to_nat to) pad bits
|}.

Lemma to_bits_length k c : length (to_bits k c) = k.
Proof. unfold to_bits. by rewrite length_map, length_seq. Qed.

Lemma of_to_bits c : of_bits (to_bits 8 c) = c.
Proof. destruct c; vm_compute; reflexivity. Qed.

Lemma to_of_bits l : length l = 5%nat -> to_bits 5 (of_bits l) = l /\ five_bits (of_bits l).
Proof.
  intros H. do 5 (destruct l as [|[] l]; [done| |]); (destruct l; [|done]); split;
    first [vm_compute; reflexivity | vm_compute; congruence].
Qed.

Lemma concat_bits_length k (b : bytes) :
  length (concat (map (to_bits k) b)) = (k * length b)%nat.
Proof. induction b as [|c b IH]; cbn; [lia|]. rewrite length_app, to_bits_length, IH. lia. Qed.

(** Grouping by five with padding, and the bits of the groups. *)
Lemma group_5 fuel : forall l, (length l < fuel)%nat -> exists data k,
  group_bits fuel 5 true l = Ret data /\ Forall five_bits data /\ (k < 5)%nat
  /\ concat (map (to_bits 5) data) = l ++ replicate k false.
Proof.
  induction fuel as [|n IH]; intros l Hl; [lia|]. cbn [group_bits].
  case_bool_decide as Hs; [case_bool_decide as Hn|].
  - subst. exists [], 0%nat. repeat split; [constructor | lia].
  - destruct (to_of_bits (l ++ replicate (5 - length l) false)) as [E F].
    { rewrite length_app, length_replicate. lia. }
    exists [of_bits (l ++ replicate (5 - length l) false)], (5 - length l)%nat.
    assert (length l <> 0%nat) by (by destruct l). repeat split; [by constructor | lia|].
    cbn [map concat]. by rewrite app_nil_r.
  - destruct (IH (drop 5 l)) as (data & k & E & F & Hk & C); [rewrite length_drop; lia|].
    rewrite E. destruct (to_of_bits (take 5 l)) as [E5 F5]; [rewrite length_take; lia|].
    exists (of_bits (take 5 l) :: data), k. repeat split; [by constructor | done|].
    cbn [map concat]. rewrite E5, C, app_assoc, take_drop. done.
Qed.

Lemma group_8 (b : bytes) k fuel : (k < 5)%nat -> (length b < fuel)%nat ->
  group_bits fuel 8 false (concat (map (to_bits 8) b) ++ replicate k false) = Ret b.
Proof.
  intros Hk. revert fuel. induction b as [|c b IH]; intros fuel Hf; (destruct fuel as [|n]; [lia|]);
    cbn [map concat group_bits].
  - rewrite app_nil_l, length_replicate, bool_decide_true by lia. case_bool_decide; [done|].
    by rewrite !bool_decide_true by (done || lia).
  - rewrite <- app_assoc, bool_decide_false by (rewrite length_app, to_bits_length; lia).
    rewrite drop_app_length', take_app_length' by (by rewrite to_bits_length).
    rewrite IH by (cbn in Hf; lia). cbn [mbind outcome_bind]. by rewrite of_to_bits.
Qed.

#[global] Instance ref_Bech32LibLaws : Bech32LibLaws.
Proof.
  constructor. intros b.
  destruct (group_5 (S (length (concat (map (to_bits 8) b)))) (concat (map (to_bits 8) b)))
    as (data & k & E & F & Hk & C); [lia|].
  exists data. split; [exact E|]. split; [done|].
  pose proof (concat_bits_length 5 data) as L. pose proof (concat_bits_length 8 b) as L8.
  rewrite C, length_app, length_replicate, L8 in L. split; [unfold len; lia|].
  cbn [ConvertBits ref_Bech32Lib]. change (Z.to_nat 5) with 5%nat. change (Z.to_nat 8) with 8%nat.
  rewrite C. apply group_8; [done|]. rewrite length_app, L8. lia.
Qed.

(** ** Offer strings *)

Section Facts.
Context `{CR : Crypto, CL : !CryptoLaws, TL : !Tlv, TLL : !TlvLaws, LN : !Lntypes,
          LNL : !LntypesLaws, FE : Features, FEL : !FeaturesLaws,
          MO : MapOrder, MOL : !MapOrderLaws, BL : Bech32Lib, BLL : !Bech32LibLaws}.

Lemma offer_wire_length (rs : raws) t b : (t, b) ∈ rs -> len b <= len (wire rs).
Proof.
  induction rs as [|[t' b'] rs IH]; [set_solver|]. unfold wire in *. cbn [map concat].
  rewrite elem_of_cons, !len_app.
  pose proof (len_nonneg (varint t')). pose proof (len_nonneg (varint (len b'))).
  pose proof (len_nonneg b'). intros [[= -> ->]|Hin%IH]; [|lia].
  pose proof (len_nonneg (concat (map (fun '(t, b) => varint t ++ varint (len b) ++ b) rs))). lia.
Qed.

Lemma offer_string_clean data : Forall five_bits data -> clean (bech32_string offerHRP data).
Proof.
  intros F. unfold bech32_string. repeat apply Forall_app_2.
  - repeat constructor; vm_compute; congruence.
  - repeat constructor; vm_compute; congruence.
  - apply Forall_map. apply (Forall_impl _ _ _ F). intros d Hd.
    destruct (char_of_facts d Hd) as (_ & [? _] & _ & ?). by split.
Qed.

Lemma offer_string_lower data : Forall five_bits data ->
  strings_ToLower (bech32_string offerHRP data) = bech32_string offerHRP data.
Proof.
  intros F. unfold strings_ToLower, bech32_string. rewrite !map_app. f_equal. f_equal.
  rewrite map_map. apply map_ext_in. intros d Hd%list_elem_of_In.
  rewrite Forall_forall in F. by destruct (char_of_facts d (F d Hd)) as (_ & [_ ?] & _).
Qed.

Lemma stripOffer_clean s : clean s -> s <> [] -> stripOffer s = Ret s.
Proof.
  intros Hc Hn. apply stripOffer_Ret. exists [s].
  assert (TrimSpace s = s) as T.
  { pose proof (TrimSpace_clean [] s [] whitespace_nil whitespace_nil Hc) as E.
    by rewrite app_nil_l, app_nil_r in E. }
  split; [done|]. split; [by constructor; [apply clean_no_plus|]|].
  split; [cbn; by rewrite app_nil_r|]. split; [|cbn; by rewrite T, app_nil_r].
  constructor; [|done]. split; [done|]. rewrite T. apply (Forall_impl _ _ _ Hc). by intros c [].
Qed.

(** A string that cleans up to the bech32 form of data, in either case. *)
Lemma DecodeOfferStr_data s clean_s data b o :
  stripOffer s = Ret clean_s ->
  decodeBech32 clean_s = Ret (offerHRP, data) -> ConvertBits data 5 8 false = Ret b ->
  DecodeOffer b = Ret o -> Offer_Validate o = Ret tt -> DecodeOfferStr s = Ret o.
Proof.
  intros E1 E2 E3 E4 E5. unfold DecodeOfferStr. rewrite E1. cbn [wrap mbind outcome_bind].
  rewrite E2. cbn [recast mbind outcome_bind]. rewrite bool_decide_false by (intros []; done).
  rewrite E3. cbn [wrap mbind outcome_bind]. rewrite E4. cbn [wrap mbind outcome_bind].
  by rewrite E5.
Qed.

Lemma offer_string_decodes data : Forall five_bits data -> 6 <= len data ->
  decodeBech32 (bech32_string offerHRP data) = Ret (offerHRP, data)
  /\ decodeBech32 (strings_ToUpper (bech32_string offerHRP data)) = Ret (offerHRP, data).
Proof.
  intros F L. pose proof (offer_string_lower _ F) as Lo. pose proof (offer_string_clean _ F) as C.
  split; apply decodeBech32_Ret.
  - split; [apply (Forall_impl _ _ _ C); by intros c []|]. rewrite Lo. auto 6.
  - split.
    { apply Forall_map. apply (Forall_impl _ _ _ C). intros c [H _]. by apply upper_facts. }
    split; [right; unfold strings_ToUpper; rewrite map_map; apply map_ext; intros c; symmetry; apply upper_facts|].
    split; [|auto]. rewrite <- Lo at 2. unfold strings_ToLower at 1, strings_ToUpper. rewrite map_map.
    rewrite <- Lo at 1. unfold strings_ToLower. rewrite map_map. apply map_ext. intros c. apply upper_facts.
Qed.

Lemma upper_clean s : clean s -> clean (strings_ToUpper s).
Proof. intros C. apply Forall_map. apply (Forall_impl _ _ _ C). intros c. apply clean_upper. Qed.
End Facts.

(** ** Properties *)

Section Properties.
Context `{CR : Crypto, CL : !CryptoLaws, TL : !Tlv, TLL : !TlvLaws, LN : !Lntypes,
          LNL : !LntypesLaws, FE : Features, FEL : !FeaturesLaws,
          MO : MapOrder, MOL : !MapOrderLaws, BL : Bech32Lib, BLL : !Bech32LibLaws}.

(** C8: Offer strings round trip: the bech32 form of an encoded offer that the wire
    can hold ([offer_wf]) and that passes Validate, in lower or in upper case,
    decodes to the offer with its Merkle root. *)
Theorem DecodeOfferStr_roundtrip (o : Offer) (root : bytes) :
  offer_wf o -> (recs ← records o; MerkleRoot recs) = Ret root ->
  Offer_Validate (offer_set_MerkleRoot o root) = Ret tt ->
  exists b data, EncodeOffer o = Ret b /\ ConvertBits b 8 5 true = Ret data /\
    DecodeOfferStr (bech32_string offerHRP data) = Ret (offer_set_MerkleRoot o root) /\
    DecodeOfferStr (strings_ToUpper (bech32_string offerHRP data))
    = Ret (offer_set_MerkleRoot o root).
Proof.
  intros W Hr Hv. pose proof (offer_fields_wf _ W) as FW.
  rewrite offer_records_fields in Hr by apply W. cbn [mbind outcome_bind] in Hr.
  rewrite MerkleRoot_fields in Hr by (by apply fields_wf_ok).
  set (b := wire (field_raws (offer_fields o))).
  destruct (ConvertBits_back b) as (data & Ed & F & L & Eb).
  exists b, data. split; [by apply EncodeOffer_wire|]. split; [done|].
  assert (DecodeOffer b = Ret (offer_set_MerkleRoot o root)) as D.
  { pose proof (field_raws_known _ _ FW (offer_fits o)) as K. rewrite <- offer_decoders_schema in K.
    apply DecodeOffer_raws; auto using field_raws_wf, filter_all, known_no_unknown. }
  assert (6 <= len data) as L6.
  { destruct (o_NodeID o) as [p|] eqn:Ep; [|unfold Offer_Validate in Hv; cbn in Hv; by rewrite Ep in Hv].
    assert ((30, schnorr_SerializePubKey p) ∈ field_raws (offer_fields o)) as Hin.
    { apply list_elem_of_fmap. exists (30, FPrim (VBytes32 (schnorr_SerializePubKey p))).
      split; [done|]. apply present_in, (list_elem_of_lookup_2 _ 8). cbn. by rewrite Ep. }
    apply offer_wire_length in Hin. unfold len in Hin at 1.
    rewrite schnorr_SerializePubKey_length in Hin. unfold b in L. lia. }
  destruct (offer_string_decodes data F L6) as [D1 D2].
  pose proof (offer_string_clean data F) as C.
  split; (eapply DecodeOfferStr_data; [apply stripOffer_clean| |exact Eb|exact D|exact Hv]); try done.
  by apply upper_clean.
Qed.

(** DecodeOfferStr returns an offer only when the string, stripped, is the
    bech32 form with prefix lno of the five bit groups of bytes that decode to
    that offer, and the offer passes Validate. *)
Theorem DecodeOfferStr_sound (s : bytes) (o : Offer) :
  DecodeOfferStr s = Ret o ->
  exists c data b, stripOffer s = Ret c /\ strings_ToLower c = bech32_string offerHRP data /\
    Forall five_bits data /\ ConvertBits data 5 8 false = Ret b /\ DecodeOffer b = Ret o /\
    Offer_Validate o = Ret tt.
Proof.
  unfold DecodeOfferStr. intros H. go_inv. destruct x0 as [hrp data].
  case_bool_decide as Hh; [done|]. subst. go_inv. destruct x2.
  apply decodeBech32_Ret in E0 as (_ & _ & El & _ & _ & F).
  by exists x, data, x0.
Qed.
End Properties.

(** ** Witnesses *)

Definition w_unsigned_offer : Offer := {|
  o_Chainhash := ZeroHash; o_MinimumAmount := 1000;
  o_Description := lit "coffee"; o_Features := Some (Some x07);
  o_Expiry := zero_Time; o_Issuer := []; o_QuantityMin := 1;
  o_QuantityMax := 3; o_NodeID := Some (false, x05);
  o_Signature := None; o_MerkleRoot := ZeroHash |}.

Lemma w_unsigned_offer_wf : offer_wf w_unsigned_offer.
Proof.
  constructor; try (unfold u64, len; cbn; lia); try done.
  - by exists (Some x07).
  - by left.
  - by intros p [= <-].
Qed.

Definition w_root : bytes := from_Ret [] (recs ← records w_unsigned_offer; MerkleRoot recs).

Lemma DecodeOfferStr_roundtrip_witness :
  exists b data, EncodeOffer w_unsigned_offer = Ret b /\ ConvertBits b 8 5 true = Ret data /\
    DecodeOfferStr (bech32_string offerHRP data) = Ret (offer_set_MerkleRoot w_unsigned_offer w_root) /\
    DecodeOfferStr (strings_ToUpper (bech32_string offerHRP data))
    = Ret (offer_set_MerkleRoot w_unsigned_offer w_root).
Proof.
  apply (DecodeOfferStr_roundtrip w_unsigned_offer w_root); [exact w_unsigned_offer_wf | | reflexivity].
  apply from_Ret_eq. vm_compute. reflexivity.
Defined.

Definition w_offer_str : bytes :=
  bech32_string offerHRP
    (from_Ret [] (ConvertBits (from_Ret [] (EncodeOffer w_unsigned_offer)) 8 5 true)).

Definition w_str_offer : Offer := from_Ret w_unsigned_offer (DecodeOfferStr w_offer_str).

Lemma DecodeOfferStr_sound_witness :
  exists c data b, stripOffer w_offer_str = Ret c /\
    strings_ToLower c = bech32_string offerHRP data /\
    Forall five_bits data /\ ConvertBits data 5 8 false = Ret b /\
    DecodeOffer b = Ret w_str_offer /\ Offer_Validate w_str_offer = Ret tt.
Proof.
  apply (DecodeOfferStr_sound w_offer_str w_str_offer). apply from_Ret_eq. vm_compute. reflexivity.
Defined.
