(* ===== verification/Io.v ===== *)
(** Calls that act on the world outside the program.

    lnd, the onion router's replay log, the random source and the clock are
    reached through interfaces; a call changes the state of that world, which
    is a type [W] the models never look into.  [io W A] is such a call: a state
    transition with an outcome. *)
From S2P Require Import Prelude.

Definition io (W A : Type) : Type := W -> W * outcome A.

#[global] Instance io_ret W : MRet (io W) := fun A a w => (w, Ret a).
#[global] Instance io_bind W : MBind (io W) := fun A B f m w =>
  match m w with
  | (w', Ret a) => f a w'
  | (w', Err e) => (w', Err e)
  | (w', Panic s) => (w', Panic s)
  | (w', Diverge) => (w', Diverge)
  end.

(** A computation that does not act on the world. *)
Definition pure {W A} (m : outcome A) : io W A := fun w => (w, m).

(** [map_io f m]: what [f] makes of the outcome, e.g. the wrapping of an error. *)
Definition map_io {W A B} (f : outcome A -> outcome B) (m : io W A) : io W B :=
  fun w => let '(w', o) := m w in (w', f o).
Abbreviation iwrap s := (map_io (wrap s)).
Abbreviation iopaque s := (map_io (opaque s)).

(** [x, err := m]: the caller looks at the error itself. *)
Definition attempt {W A B} (m : io W A) (ok : A -> io W B) (bad : error -> io W B) : io W B :=
  fun w =>
    match m w with
    | (w', Ret a) => ok a w'
    | (w', Err e) => bad e w'
    | (w', Panic s) => (w', Panic s)
    | (w', Diverge) => (w', Diverge)
    end.

(** A call that neither panics nor diverges, whatever the world. *)
Definition calm {W A} (m : io W A) : Prop := forall w, settles (m w).2.

Section Facts.
Context {W : Type}.

Lemma calm_bind {A B} (m : io W A) (f : A -> io W B) :
  calm m -> (forall a, calm (f a)) -> calm (m ≫= f).
Proof.
  intros Hm Hf w. unfold mbind, io_bind. specialize (Hm w).
  destruct (m w) as [w' [a|e|s|]]; [apply Hf | apply settles_Err |..];
    by destruct Hm as [[? ?]|[? ?]].
Qed.

Lemma calm_attempt {A B} (m : io W A) (ok : A -> io W B) bad :
  calm m -> (forall a, calm (ok a)) -> (forall e, calm (bad e)) -> calm (attempt m ok bad).
Proof.
  intros Hm Hf Hb w. unfold attempt. specialize (Hm w).
  destruct (m w) as [w' [a|e|s|]]; [apply Hf | apply Hb |..]; by destruct Hm as [[? ?]|[? ?]].
Qed.

Lemma calm_pure {A} (m : outcome A) : settles m -> calm (pure (W := W) m).
Proof. by intros H w. Qed.

Lemma calm_mret {A} (a : A) : calm (mret a : io W A).
Proof. intros w. apply settles_Ret. Qed.

Lemma calm_map {A} (f : outcome A -> outcome A) (m : io W A) :
  (forall o, settles o -> settles (f o)) -> calm m -> calm (map_io f m).
Proof.
  intros Hf Hm w. specialize (Hm w). unfold map_io. destruct (m w) as [w' o]. by apply Hf.
Qed.

Lemma calm_iwrap {A} s (m : io W A) : calm m -> calm (iwrap s m).
Proof. apply calm_map, settles_wrap. Qed.

Lemma io_bind_Ret {A B} (m : io W A) (f : A -> io W B) w w' a :
  m w = (w', Ret a) -> (m ≫= f) w = f a w'.
Proof. unfold mbind, io_bind. by intros ->. Qed.

Lemma io_bind_Err {A B} (m : io W A) (f : A -> io W B) w w' e :
  m w = (w', Err e) -> (m ≫= f) w = (w', Err e).
Proof. unfold mbind, io_bind. by intros ->. Qed.

Lemma io_bind_Panic {A B} (m : io W A) (f : A -> io W B) w w' s :
  m w = (w', Panic s) -> (m ≫= f) w = (w', Panic s).
Proof. unfold mbind, io_bind. by intros ->. Qed.

Lemma io_bind_Ret_inv {A B} (m : io W A) (f : A -> io W B) w w' b :
  (m ≫= f) w = (w', Ret b) -> exists w1 a, m w = (w1, Ret a) /\ f a w1 = (w', Ret b).
Proof.
  unfold mbind, io_bind. destruct (m w) as [w1 [a|e|s|]]; intros H; try discriminate. eauto.
Qed.

Lemma iwrap_Ret_inv {A} s (m : io W A) w w' a :
  iwrap s m w = (w', Ret a) -> m w = (w', Ret a).
Proof. unfold map_io. destruct (m w) as [w1 [x|e|s'|]]; cbn; congruence. Qed.

Lemma iwrap_Ret {A} s (m : io W A) w w' a : m w = (w', Ret a) -> iwrap s m w = (w', Ret a).
Proof. unfold map_io. by intros ->. Qed.

Lemma iopaque_Ret_inv {A} s (m : io W A) w w' a :
  iopaque s m w = (w', Ret a) -> m w = (w', Ret a).
Proof. unfold map_io. destruct (m w) as [w1 [x|e|s'|]]; cbn; congruence. Qed.

Lemma pure_Ret {A} (m : outcome A) (w : W) a : m = Ret a -> pure m w = (w, Ret a).
Proof. by intros ->. Qed.

Lemma map_io_Ret {A B} (f : outcome A -> outcome B) (m : io W A) w w' a :
  m w = (w', Ret a) -> map_io f m w = (w', f (Ret a)).
Proof. unfold map_io. by intros ->. Qed.

Lemma io_bind_pure {A B} (m : outcome A) (f : A -> io W B) w a :
  m = Ret a -> (pure m ≫= f) w = f a w.
Proof. by intros ->. Qed.

(** A call without a result that returns, with the world it leaves. *)
Lemma surjective_pairing_Ret (r : W * outcome unit) : is_Ret r.2 = true -> r = (r.1, Ret tt).
Proof. by destruct r as [w [[]|e|s|]]. Qed.

(** A call with a result that returns. *)
Lemma returned_Ret {A} (r : W * outcome A) d :
  is_Ret r.2 = true -> r = (r.1, Ret (from_Ret d r.2)).
Proof. by destruct r as [w [a|e|s|]]. Qed.

Lemma pure_Ret_inv {A} (m : outcome A) (w w' : W) a :
  pure m w = (w', Ret a) -> w' = w /\ m = Ret a.
Proof. unfold pure. by intros [= -> ->]. Qed.
End Facts.

#[export] Hint Resolve calm_mret calm_iwrap : go.

(** [io_inv] takes apart the hypotheses that say a call returned. *)
Ltac io_inv :=
  repeat match goal with
  | H : mbind _ ?m _ = (_, Ret _) |- _ =>
      let w := fresh "w" in let x := fresh "x" in let E := fresh "E" in
      apply io_bind_Ret_inv in H; destruct H as (w & x & E & H)
  | H : map_io (wrap _) _ _ = (_, Ret _) |- _ => apply iwrap_Ret_inv in H
  | H : map_io (opaque _) _ _ = (_, Ret _) |- _ => apply iopaque_Ret_inv in H
  | H : pure _ _ = (_, Ret _) |- _ =>
      let E := fresh "E" in apply pure_Ret_inv in H; destruct H as [E H]; subst
  | H : Ret _ = Ret _ |- _ => injection H as H; subst
  | H : Err _ = Ret _ |- _ => discriminate H
  | H : Panic _ = Ret _ |- _ => discriminate H
  end.
