(* ===== verification/LndDeps.v ===== *)
(** The interfaces of the routing and messaging packages to the code outside
    the repository: lightning-onion (package sphinx), lndclient, lnd's feature
    bits and vertices, and gRPC statuses; with the laws they are documented to
    have. *)
From S2P Require Import Prelude Deps Io.

(** ** lightning-onion *)

(** A hop to be blinded, a blinded path, a hop of an onion. *)
Record BlindedPathHop `{Crypto} := MkBlindedPathHop {
  NodePub : PublicKey;
  bph_Payload : bytes;
}.
Arguments MkBlindedPathHop {_} _ _.

Record BlindedPath `{Crypto} := MkBlindedPath {
  IntroductionPoint : PublicKey;
  bp_BlindingPoint : PublicKey;
  BlindedHops : list PublicKey;
  bp_EncryptedData : list bytes;
}.
Arguments MkBlindedPath {_} _ _ _ _.

Inductive ProcessCode := ExitNode | MoreHops | Failure | OtherProcessCode (n : Z).

Class Sphinx `{Crypto} := {
  (** btcec.PrivateKey and its method PubKey *)
  PrivateKey : Type;
  priv_PubKey : PrivateKey -> PublicKey;
  BuildBlindedPath : PrivateKey -> list BlindedPathHop -> outcome BlindedPath;
  PayloadType : Type;
  PayloadTLV : PayloadType;
  (** the length of the array type PaymentPath *)
  NumMaxHops : nat;
  PacketFiller : Type;
  DeterministicPacketFiller : PacketFiller;
  OnionPacket : Type;
  OnionPacket_Encode : OnionPacket -> outcome bytes;
  OnionPacket_Decode : bytes -> outcome OnionPacket;
}.

Record HopPayload `{Sphinx} := MkHopPayload {
  hp_Type : PayloadType;
  hp_Payload : bytes;
}.
Arguments MkHopPayload {_ _} _ _.

Record OnionHop `{Sphinx} := MkOnionHop {
  oh_NodePub : PublicKey;
  oh_HopPayload : HopPayload;
}.
Arguments MkOnionHop {_ _} _ _.

(** [PaymentPath] is an array of [NumMaxHops] hops; [None] is the zero value
    of a hop that was not filled in. *)
Definition PaymentPath `{Sphinx} : Type := list (option OnionHop).
Definition emptyPath `{Sphinx} : PaymentPath := replicate NumMaxHops None.

Record ProcessedPacket `{Sphinx} := MkProcessedPacket {
  Action : ProcessCode;
  NextPacket : option OnionPacket;
  pp_Payload : HopPayload;
}.
Arguments MkProcessedPacket {_ _} _ _ _.

(** The interface SingleKeyECDH: the node's key and ECDH with it. *)
Record SingleKeyECDH `{Crypto} (W : Type) := MkSingleKeyECDH {
  ecdh_PubKey : PublicKey;
  ecdh_ECDH : PublicKey -> io W bytes;
}.
Arguments MkSingleKeyECDH {_ _} _ _.
Arguments ecdh_PubKey {_ _} _.
Arguments ecdh_ECDH {_ _} _ _.

Class SphinxOps `{Sphinx} := {
  NewOnionPacket : PaymentPath -> PrivateKey -> bytes -> PacketFiller -> outcome OnionPacket;
}.

(** Operations with the node's key ask lnd for it; the router keeps a log of
    the onions it has seen. *)
Class SphinxRouter (W : Type) `{Sphinx} := {
  NextEphemeral : SingleKeyECDH W -> PublicKey -> io W PublicKey;
  DecryptBlindedData : SingleKeyECDH W -> PublicKey -> bytes -> io W bytes;
  ProcessOnionPacket : OnionPacket -> bytes -> Z -> PublicKey -> io W ProcessedPacket;
}.

(** btcec.NewPrivateKey reads the random source. *)
Class Keys (W : Type) `{Sphinx} := { NewPrivateKey : io W PrivateKey }.

(** A blinded path has a blinded key and an encrypted blob per hop, and starts
    at the first hop; an encoded packet decodes to itself. *)
Class SphinxLaws `{Sphinx} : Prop := {
  BuildBlindedPath_hops k hops p : BuildBlindedPath k hops = Ret p ->
    length (BlindedHops p) = length hops /\ length (bp_EncryptedData p) = length hops
    /\ head (map NodePub hops) = Some (IntroductionPoint p)
    /\ bp_BlindingPoint p = priv_PubKey k;
  OnionPacket_Decode_Encode pkt b :
    OnionPacket_Encode pkt = Ret b -> OnionPacket_Decode b = Ret pkt;
}.

(** ** lnd's feature bits, vertices and gRPC statuses *)

Class FeatureBits := {
  (** (FeatureBit).IsRequired, and NewRawFeatureVector(bits...).IsSet *)
  IsRequired : Z -> bool;
  IsSet : list Z -> Z -> bool;
}.
Class FeatureBitsLaws `{FeatureBits} : Prop := {
  IsRequired_even b : IsRequired b = Z.even b;
  IsSet_elem bits b : IsSet bits b = true <-> b ∈ bits;
}.

(** route.NewVertex. *)
Class Vertices `{Crypto} := { NewVertex : PublicKey -> bytes }.
Class VerticesLaws `{Vertices} : Prop := {
  NewVertex_bytes p : NewVertex p = SerializeCompressed p;
}.

(** status.FromError with the status' Code; None when it is not ok. *)
Class Grpc := { status_FromError : error -> option grpc_code }.
Class GrpcLaws `{Grpc} : Prop := {
  FromError_status c m : status_FromError (EStatus c m) = Some c;
}.

(** ** lndclient *)

(** What the code reads of a node's announcement, of a node of the graph
    (whose embedded pointer to the announcement may be nil), of a channel, a
    peer, a custom message and a route. *)
Record Node := MkNode {
  node_PubKey : bytes;
  node_Features : list Z;
  node_Addresses : list gostring;
}.

Class Lndclient := { ChannelEdge : Type }.

Record NodeInfo `{Lndclient} := MkNodeInfo {
  ni_Node : option Node;
  ni_Channels : list ChannelEdge;
}.
Arguments MkNodeInfo {_} _ _.

Record ChannelInfo := MkChannelInfo { PubKeyBytes : bytes }.
Record Peer := MkPeer { peer_Pubkey : bytes }.

Record CustomMessage := MkCustomMessage {
  cm_Peer : bytes;
  cm_MsgType : Z;
  cm_Data : bytes;
}.

Record QueryRoutesRequest := MkQueryRoutesRequest {
  qr_PubKey : bytes;
  UseMissionControl : bool;
  AmtMsat : Z;
  FeeLimitMsat : Z;
}.

(** A hop's key may be missing. *)
Record Hop := MkHop { hop_PubKey : option bytes }.

Definition ErrNoRouteFound : error := ENamed "lndclient.ErrNoRouteFound".

(** lnd/lnwire.MaxMilliSatoshi *)
Class Lnwire := { MaxMilliSatoshi : Z }.
