(* ===== verification/LndRef.v ===== *)
(** A concrete instance of the interfaces of LndDeps.v, with their laws.

    Like DepsRef.v it is not the code of lnd or of lightning-onion: an onion is
    the concatenation of its payloads with their lengths, nothing is encrypted,
    and the world is a record with a graph, peers and the messages sent. *)
From S2P Require Import Prelude Deps DepsRef Io LndDeps.

#[global] Instance ref_Sphinx : Sphinx := {|
  PrivateKey := byte;
  priv_PubKey k := (false, k);
  BuildBlindedPath k hops :=
    match hops with
    | [] => Err (EExt "no hops")
    | h :: _ => Ret (MkBlindedPath (NodePub h) ((false, k) : @PublicKey ref_Crypto)
                       (map (fun h => let '(s, b) := NodePub h : bool * byte in (negb s, b)) hops)
                       (map bph_Payload hops))
    end;
  PayloadType := bool;
  PayloadTLV := true;
  NumMaxHops := 27;
  PacketFiller := unit;
  DeterministicPacketFiller := tt;
  OnionPacket := bytes;
  OnionPacket_Encode b := Ret b;
  OnionPacket_Decode b := Ret b;
|}.

#[global] Instance ref_SphinxLaws : SphinxLaws.
Proof.
  constructor.
  - intros k [|h hops] p; [done|]. intros [= <-]. cbn. by rewrite !length_map.
  - by intros pkt b [= <-].
Qed.

Definition ref_layer (h : option OnionHop) : bytes :=
  match h with
  | Some h => be_bytes 2 (len (hp_Payload (oh_HopPayload h))) ++ hp_Payload (oh_HopPayload h)
  | None => []
  end.

#[global] Instance ref_SphinxOps : SphinxOps := {|
  NewOnionPacket path key _ _ := Ret (concat (map ref_layer path))
|}.

#[global] Instance ref_FeatureBits : FeatureBits := {|
  IsRequired b := Z.even b;
  IsSet bits b := bool_decide (b ∈ bits);
|}.
#[global] Instance ref_FeatureBitsLaws : FeatureBitsLaws.
Proof. constructor; [done|]. intros bits b. apply bool_decide_eq_true. Qed.

#[global] Instance ref_Vertices : Vertices := {| NewVertex p := SerializeCompressed p |}.
#[global] Instance ref_VerticesLaws : VerticesLaws.
Proof. by constructor. Qed.

#[global] Instance ref_Grpc : Grpc := {|
  status_FromError e := match e with EStatus c _ => Some c | _ => None end
|}.
#[global] Instance ref_GrpcLaws : GrpcLaws.
Proof. by constructor. Qed.

#[global] Instance ref_Lndclient : Lndclient := {| ChannelEdge := Z |}.

(** ** The world *)

(** A peer being connected to joins the peers after a number of waits. *)
Record ref_World := MkWorld {
  rw_channels : list ChannelInfo;
  rw_graph : list (bytes * NodeInfo);
  rw_peers : list Peer;
  rw_connecting : option (nat * Peer);
  rw_route : outcome (list Hop);
  rw_keys : list byte;
  rw_sent : list CustomMessage;
}.

Fixpoint ref_node (graph : list (bytes * NodeInfo)) (v : bytes) : outcome NodeInfo :=
  match graph with
  | [] => Err (EStatus NotFound "unable to find node")
  | (v', info) :: rest => if bool_decide (v = v') then Ret info else ref_node rest v
  end.

#[global] Instance ref_Keys : Keys ref_World := {|
  NewPrivateKey w :=
    match rw_keys w with
    | [] => (w, Err (EExt "random source"))
    | k :: ks => (MkWorld (rw_channels w) (rw_graph w) (rw_peers w) (rw_connecting w) (rw_route w)
                    ks (rw_sent w), Ret k)
    end
|}.

#[global] Instance ref_SphinxRouter : SphinxRouter ref_World := {|
  NextEphemeral _ p := pure (Ret (let '(s, b) := p : bool * byte in (negb s, b)));
  DecryptBlindedData _ _ data := pure (Ret data);
  ProcessOnionPacket pkt _ _ _ := pure (
    match pkt : bytes with
    | a :: b :: r =>
        let l := Z.to_nat (be_val 0 [a; b]) in
        if bool_decide (length r < l)%nat then Err (EExt "short packet")
        else
          let payload := MkHopPayload true (take l r) in
          match drop l r with
          | [] => Ret (MkProcessedPacket ExitNode None payload)
          | next => Ret (MkProcessedPacket MoreHops (Some next) payload)
          end
    | _ => Err (EExt "short packet")
    end);
|}.
