(* ===== verification/Routes.v ===== *)
(** routes/blinded.go and routes/interface.go: blinded routes to our node, and
    onion messages along a route of our own to a node or to a blinded path. *)
From S2P Require Import Prelude Deps DepsRef Io LndDeps LndRef.
From S2P Require Import Stream Merkle Shared RouteBlinding OnionMessages OnionPayload.

Definition ErrNoChannels : error := ENamed "routes.ErrNoChannels".
Definition ErrNoPeerChannels : error := ENamed "routes.ErrNoPeerChannels".
Definition ErrNoNodeInfo : error := ENamed "routes.ErrNoNodeInfo".
Definition ErrFeatureMismatch : error := ENamed "routes.ErrFeatureMismatch".
Definition ErrNoRelayingPeers : error := ENamed "routes.ErrNoRelayingPeers".
Definition ErrNoPath : error := ENamed "routes.ErrNoPath".
Definition ErrSessionKeyRequired : error := ENamed "routes.ErrSessionKeyRequired".
Definition ErrBlindingKeyRequired : error := ENamed "routes.ErrBlindingKeyRequired".
Definition ErrNoIntroductionNode : error := ENamed "routes.ErrNoIntroductionNode".

(** The interface Lnd of the package: the calls to lnd it needs. *)
Class RoutesLnd (W : Type) `{Lndclient} := {
  ListChannels : bool -> bool -> io W (list ChannelInfo);
  GetNodeInfo : bytes -> bool -> io W NodeInfo;
}.

(** ** Peers that can relay *)

Section Relaying.
Context {W : Type} `{LC : Lndclient, RL : !RoutesLnd W, FB : FeatureBits, GR : Grpc}.

Definition canRelayFunc : Type := NodeInfo -> outcome unit.

(** The loop over the features asked for. *)
Fixpoint checkFeatures (features : list Z) (featureVec : list Z) : outcome unit :=
  match features with
  | [] => Ret tt
  | feature :: rest =>
      if negb (IsRequired feature) then checkFeatures rest featureVec
      else if negb (IsSet featureVec feature)
           then Err (EWrap "required not not set" ErrFeatureMismatch)
      else checkFeatures rest featureVec
  end.

Definition createRelayCheck (features : list Z) : canRelayFunc := fun nodeInfo =>
  if bool_decide (len (ni_Channels nodeInfo) = 0) then Err ErrNoPeerChannels
  else match ni_Node nodeInfo with
       | None => Err ErrNoNodeInfo
       | Some node => checkFeatures features (node_Features node)
       end.

(** The loop of getRelayingPeers: nodes missing from the graph and nodes that
    cannot relay are skipped, any other failed lookup ends the loop. *)
Fixpoint relayingLoop (canRelay : canRelayFunc) (channels : list ChannelInfo)
    (activePeers : list NodeInfo) : io W (list NodeInfo) :=
  match channels with
  | [] => mret activePeers
  | channel :: rest =>
      attempt (GetNodeInfo (PubKeyBytes channel) true)
        (fun nodeInfo =>
           match canRelay nodeInfo with
           | Ret _ => relayingLoop canRelay rest (activePeers ++ [nodeInfo])
           | Err _ => relayingLoop canRelay rest activePeers
           | Panic s => pure (Panic s)
           | Diverge => pure Diverge
           end)
        (fun err =>
           if bool_decide (status_FromError err = Some NotFound)
           then relayingLoop canRelay rest activePeers
           else pure (Err (EWrap "get node" err)))
  end.

Definition getRelayingPeers (canRelay : canRelayFunc) : io W (list NodeInfo) :=
  channels ← iwrap "list channels" (ListChannels true false);
  if bool_decide (len channels = 0) then pure (Err ErrNoChannels)
  else relayingLoop canRelay channels [].
End Relaying.

(** ** A blinded route to our node *)

Section Generator.
Context {W : Type} `{CR : Crypto, TL : !Tlv, SP : !Sphinx, KS : !Keys W,
  LC : Lndclient, RL : !RoutesLnd W, FB : FeatureBits, GR : Grpc}.

(** The BlindedRouteGenerator: the access to lnd is the interface. *)
Record BlindedRouteGenerator := NewBlindedRouteGenerator { pubkey : PublicKey }.

(** The loop that picks the peer with the most channels. *)
Fixpoint pickMostPeers (mostPeers : option NodeInfo) (peers : list NodeInfo) : option NodeInfo :=
  match peers with
  | [] => mostPeers
  | peer :: rest =>
      let most := match mostPeers with None => peer | Some m => m end in
      let most := if bool_decide (len (ni_Channels peer) > len (ni_Channels most))
                  then peer else most in
      pickMostPeers (Some most) rest
  end.

Definition buildBlindedRoute (relayingPeers : list NodeInfo) (ourPubkey : PublicKey)
    : outcome (list BlindedPathHop) :=
  if bool_decide (len relayingPeers = 0) then Err ErrNoRelayingPeers
  else
    mostPeers ← deref (pickMostPeers None relayingPeers);
    node ← deref (ni_Node mostPeers);
    introNode ← wrap "intro pubkey" (ParsePubKey (node_PubKey node));
    let introPayload := {| NextNodeID := Some ourPubkey; NextBlindingOverride := None |} in
    introPayloadBytes ← wrap "intro payload" (EncodeBlindedRouteData introPayload);
    Ret [ {| NodePub := introNode; bph_Payload := introPayloadBytes |};
          {| NodePub := ourPubkey; bph_Payload := [] |} ].

Definition ReplyPath_generate (b : BlindedRouteGenerator) (features : list Z) : io W BlindedPath :=
  let canRelay := createRelayCheck features in
  peers ← iwrap "get relaying peers" (getRelayingPeers canRelay);
  hops ← pure (wrap "blinded route" (buildBlindedRoute peers (pubkey b)));
  sessionKey ← iwrap "session key" NewPrivateKey;
  pure (wrap "sphinx blinded route" (BuildBlindedPath sessionKey hops)).
End Generator.

(** ** Onion messages along a blinded route *)

Section Requests.
Context `{CR : Crypto, TL : !Tlv, SP : !Sphinx, SO : !SphinxOps}.

(** A request without its functions: keys and paths are pointers that may be
    nil. *)
Record BlindedRouteRequest := MkBlindedRouteRequest {
  sessionKey : option PrivateKey;
  blindingKey : option PrivateKey;
  hops : list PublicKey;
  replyPath : option ReplyPath;
  blindedDestination : option ReplyPath;
  finalPayloads : list FinalHopPayload;
}.

Record BlindedRouteResponse := MkBlindedRouteResponse {
  br_OnionMessage : OnionMessage;
  FirstNode : PublicKey;
}.

(** The functions of a request. *)
Record RouteFunctions := MkRouteFunctions {
  blindPath : PrivateKey -> list BlindedPathHop -> outcome BlindedPath;
  f_encodeBlindedData : BlindedRouteData -> outcome bytes;
  f_directToBlinded : BlindedRouteRequest -> outcome BlindedRouteResponse;
}.

(** (r BlindedRouteRequest).validate *)
Definition validate (r : BlindedRouteRequest) : outcome unit :=
  if bool_decide (len (hops r) = 0) then Err ErrNoPath
  else match sessionKey r with
  | None => Err ErrSessionKeyRequired
  | Some _ =>
    match blindingKey r with
    | None => Err ErrBlindingKeyRequired
    | Some _ =>
      match blindedDestination r with
      | None => Ret tt
      | Some dest =>
          lastHop ← index (hops r) (length (hops r) - 1);
          let introNode := FirstNodeID dest in
          if negb (bool_decide (SerializeCompressed lastHop = SerializeCompressed introNode))
          then Err (EWrap "expected" ErrNoIntroductionNode)
          else Ret tt
      end
    end
  end.

Record blindedStart := MkBlindedStart {
  unblindedID : PublicKey;
  blindingPoint : PublicKey;
}.

(** (r BlindedRouteRequest).blindedStart and (r BlindedRouteRequest).blindedHops *)
Definition request_blindedStart (r : BlindedRouteRequest) : option blindedStart :=
  match blindedDestination r with
  | None => None
  | Some dest => Some {| unblindedID := FirstNodeID dest; blindingPoint := BlindingPoint dest |}
  end.

Definition request_blindedHops (r : BlindedRouteRequest) : list BlindedHop :=
  match blindedDestination r with
  | None => []
  | Some dest => Hops dest
  end.

(** [hops[i].Payload = payload] *)
Definition set_payload (i : nat) (payload : bytes) (hs : list BlindedPathHop)
    : list BlindedPathHop :=
  alter (fun h => {| NodePub := NodePub h; bph_Payload := payload |}) i hs.

(** The loop of createPathToBlind at index [i]: [done] is what is filled in of
    hopsToBlind, its first [i] hops; [rest] is the path from index [i] on. *)
Fixpoint pathLoop (encodePayload : BlindedRouteData -> outcome bytes) (rest : list PublicKey)
    (i : nat) (done : list BlindedPathHop) : outcome (list BlindedPathHop) :=
  match rest with
  | [] => Ret done
  | next :: rest =>
      payload ← wrap "intermediate node"
        (encodePayload {| NextNodeID := Some next; NextBlindingOverride := None |});
      let done := set_payload (i - 1) payload done in
      pathLoop encodePayload rest (S i) (done ++ [{| NodePub := next; bph_Payload := [] |}])
  end.

Definition createPathToBlind (path : list PublicKey) (start : option blindedStart)
    (encodePayload : BlindedRouteData -> outcome bytes) : outcome (list BlindedPathHop) :=
  let hopCount := length path in
  first ← index path 0;
  hopsToBlind ← pathLoop encodePayload (tail path) 1 [{| NodePub := first; bph_Payload := [] |}];
  match start with
  | None => Ret hopsToBlind
  | Some start =>
      let data := {| NextNodeID := Some (unblindedID start);
                     NextBlindingOverride := Some (blindingPoint start) |} in
      payload ← opaque "ephemeral switch out node" (encodePayload data);
      Ret (set_payload (hopCount - 1) payload hopsToBlind)
  end.

Definition createSphinxHop (nodeID : PublicKey) (payload : OnionMessagePayload)
    : outcome OnionHop :=
  payloadTLVs ← opaque "payload: encode" (EncodeOnionMessagePayload payload);
  Ret {| oh_NodePub := nodeID;
         oh_HopPayload := {| hp_Type := PayloadTLV; hp_Payload := payloadTLVs |} |}.

(** The payload of a hop: with the reply path and the payloads for the final
    hop when [final]. *)
Definition hopPayload (data : bytes) (final : bool) (reply : option ReplyPath)
    (finals : list FinalHopPayload) : OnionMessagePayload :=
  {| omp_ReplyPath := if final then reply else None;
     omp_EncryptedData := data;
     FinalHopPayloads := if final then finals else [] |}.

(** The loops that fill a sphinx path: [hopAt i] makes the hop stored at index
    [i + offset], for [todo] indices from [i]. *)
Fixpoint fillPath (hopAt : nat -> outcome OnionHop) (offset i todo : nat)
    (sphinxPath : PaymentPath) : outcome PaymentPath :=
  match todo with
  | O => Ret sphinxPath
  | S todo =>
      hop ← hopAt i;
      sphinxPath ← assign sphinxPath (i + offset) (Some hop);
      fillPath hopAt offset (S i) todo sphinxPath
  end.

Definition ourHop (route : BlindedPath) (extraHopCount : nat) (reply : option ReplyPath)
    (finals : list FinalHopPayload) (i : nat) : outcome OnionHop :=
  data ← index (bp_EncryptedData route) i;
  let final := bool_decide (i = length (bp_EncryptedData route) - 1)%nat
               && bool_decide (extraHopCount = 0)%nat in
  node ← index (BlindedHops route) i;
  wrap "sphinx hop" (createSphinxHop node (hopPayload data final reply finals)).

Definition extraHop (extraHops : list BlindedHop) (reply : option ReplyPath)
    (finals : list FinalHopPayload) (i : nat) : outcome OnionHop :=
  hop ← index extraHops i;
  let final := bool_decide (i = length extraHops - 1)%nat in
  wrap "sphinx hop"
    (createSphinxHop (BlindedNodeID hop) (hopPayload (bh_EncryptedData hop) final reply finals)).

Definition blindedToSphinx (route : BlindedPath) (extraHops : list BlindedHop)
    (reply : option ReplyPath) (finals : list FinalHopPayload) : outcome PaymentPath :=
  let ourHopCount := length (bp_EncryptedData route) in
  let extraHopCount := length extraHops in
  sphinxPath ← fillPath (ourHop route extraHopCount reply finals) 0 0 ourHopCount emptyPath;
  if bool_decide (extraHopCount = 0)%nat then Ret sphinxPath
  else fillPath (extraHop extraHops reply finals) ourHopCount 0 extraHopCount sphinxPath.

Definition encodeBlindedData (data : BlindedRouteData) : outcome bytes :=
  match NextNodeID data with
  | None => Err (ENew "expected non-nil next hop")
  | Some _ => wrap "encode blinded" (EncodeBlindedRouteData data)
  end.

Definition createOnionMessage (sphinxPath : PaymentPath) (key : option PrivateKey)
    (point : PublicKey) : outcome OnionMessage :=
  key ← deref key;
  onionPacket ← wrap "new onion packed failed"
    (NewOnionPacket sphinxPath key [] DeterministicPacketFiller);
  buf ← wrap "onion packet encode" (OnionPacket_Encode onionPacket);
  Ret (NewOnionMessage point buf).

(** The hops of directToBlinded have no reply path and no final payloads. *)
Definition directHop (destHops : list BlindedHop) (i : nat) : outcome OnionHop :=
  hop ← index destHops i;
  wrap "sphinx hop"
    (createSphinxHop (BlindedNodeID hop) {| omp_ReplyPath := None;
                                            omp_EncryptedData := bh_EncryptedData hop;
                                            FinalHopPayloads := [] |}).

Definition directToBlinded (req : BlindedRouteRequest) : outcome BlindedRouteResponse :=
  dest ← deref (blindedDestination req);
  sphinxPath ← fillPath (directHop (Hops dest)) 0 0 (length (Hops dest)) emptyPath;
  onionMsg ← wrap "onion message to blinded path"
    (createOnionMessage sphinxPath (sessionKey req) (BlindingPoint dest));
  Ret {| br_OnionMessage := onionMsg; FirstNode := FirstNodeID dest |}.

Definition default_functions : RouteFunctions := {|
  blindPath := BuildBlindedPath;
  f_encodeBlindedData := encodeBlindedData;
  f_directToBlinded := directToBlinded;
|}.

Definition NewBlindedRouteRequest (session blinding : option PrivateKey) (path : list PublicKey)
    (reply dest : option ReplyPath) (finals : list FinalHopPayload)
    : BlindedRouteRequest * RouteFunctions :=
  ({| sessionKey := session; blindingKey := blinding; hops := path; replyPath := reply;
      blindedDestination := dest; finalPayloads := finals |}, default_functions).

(** [req.hops = req.hops[:hopCount-1]] *)
Definition trim_hops (req : BlindedRouteRequest) : BlindedRouteRequest :=
  {| sessionKey := sessionKey req; blindingKey := blindingKey req;
     hops := take (length (hops req) - 1) (hops req);
     replyPath := replyPath req; blindedDestination := blindedDestination req;
     finalPayloads := finalPayloads req |}.

(** What follows the edge case of a direct connection in CreateBlindedRoute. *)
Definition routeToHops (f : RouteFunctions) (req : BlindedRouteRequest) (firstNode : PublicKey)
    : outcome BlindedRouteResponse :=
  hs ← wrap "path to blind"
    (createPathToBlind (hops req) (request_blindedStart req) (f_encodeBlindedData f));
  blinding ← deref (blindingKey req);
  blindedPath ← wrap "blinded path" (blindPath f blinding hs);
  sphinxPath ← wrap "could not create sphinx path"
    (blindedToSphinx blindedPath (request_blindedHops req) (replyPath req) (finalPayloads req));
  onionMsg ← wrap "could not create onion message"
    (createOnionMessage sphinxPath (sessionKey req) (priv_PubKey blinding));
  Ret {| br_OnionMessage := onionMsg; FirstNode := firstNode |}.

(** CreateBlindedRoute changes the request it is given: the request after the
    call comes with the outcome. *)
Definition CreateBlindedRoute (f : RouteFunctions) (req : BlindedRouteRequest)
    : BlindedRouteRequest * outcome BlindedRouteResponse :=
  match wrap "invalid request" (validate req) with
  | Err e => (req, Err e)
  | Panic s => (req, Panic s)
  | Diverge => (req, Diverge)
  | Ret _ =>
    match index (hops req) 0 with
    | Ret firstNode =>
        match blindedDestination req with
        | Some _ =>
            let req := trim_hops req in
            if bool_decide (len (hops req) = 0) then (req, f_directToBlinded f req)
            else (req, routeToHops f req firstNode)
        | None => (req, routeToHops f req firstNode)
        end
    | _ => (req, Panic "index out of range")
    end
  end.
End Requests.

(** ** Specification *)

(** What the data for each hop of a route says: the next node, and at the last
    hop the start of the blinded path it is connected to, if there is one. *)
Section Spec.
Context `{CR : Crypto, TL : !Tlv, SP : !Sphinx}.

Definition start_data (s : blindedStart) : BlindedRouteData :=
  {| NextNodeID := Some (unblindedID s); NextBlindingOverride := Some (blindingPoint s) |}.

Fixpoint hop_data (path : list PublicKey) (start : option blindedStart)
    : list (option BlindedRouteData) :=
  match path with
  | [] => []
  | _ :: rest =>
      match rest with
      | [] => [start_data <$> start]
      | next :: _ =>
          Some {| NextNodeID := Some next; NextBlindingOverride := None |} :: hop_data rest start
      end
  end.

(** The payloads of an onion with these blobs: only the last one has the reply
    path and the payloads for the final hop. *)
Fixpoint onion_payloads (datas : list bytes) (reply : option ReplyPath)
    (finals : list FinalHopPayload) : list OnionMessagePayload :=
  match datas with
  | [] => []
  | [data] => [hopPayload data true reply finals]
  | data :: rest => hopPayload data false reply finals :: onion_payloads rest reply finals
  end.

(** The hops of an onion through [route] and then [extra]. *)
Definition route_nodes (route : BlindedPath) (extra : list BlindedHop) : list PublicKey :=
  BlindedHops route ++ map BlindedNodeID extra.
Definition route_datas (route : BlindedPath) (extra : list BlindedHop) : list bytes :=
  bp_EncryptedData route ++ map bh_EncryptedData extra.

(** The hop of an onion at this node, whose TLV payload decodes as given. *)
Definition hop_is `{MO : MapOrder} (node : PublicKey) (payload : OnionMessagePayload)
    (h : OnionHop) : Prop :=
  oh_NodePub h = node /\ hp_Type (oh_HopPayload h) = PayloadTLV
  /\ DecodeOnionMessagePayload (hp_Payload (oh_HopPayload h)) = Ret payload.

(** [path] is filled with such hops from its start, and nothing else. *)
Definition onion_for `{MO : MapOrder} (nodes : list PublicKey)
    (payloads : list OnionMessagePayload) (path : PaymentPath) : Prop :=
  exists hs : list OnionHop,
    path = map Some hs ++ replicate (NumMaxHops - length hs) None
    /\ Forall3 hop_is nodes payloads hs.
End Spec.

(** ** Facts *)

Section PathFacts.
Context `{CR : Crypto, CL : !CryptoLaws, TL : !Tlv, TLL : !TlvLaws, SP : !Sphinx}.

Lemma encodeBlindedData_next next override :
  exists b, encodeBlindedData {| NextNodeID := Some next; NextBlindingOverride := override |} = Ret b
    /\ DecodeBlindedRouteData b
       = Ret {| NextNodeID := Some next; NextBlindingOverride := override |}.
Proof.
  set (d := {| NextNodeID := Some next; NextBlindingOverride := override |}).
  exists (wire (field_raws (brd_fields d))). unfold encodeBlindedData. cbn [NextNodeID d].
  rewrite EncodeBlindedRouteData_wire. split; [done|].
  pose proof (field_raws_known _ _ (brd_fields_wf d) (brd_fits d)) as K.
  apply DecodeBlindedRouteData_raws; [apply field_raws_wf, brd_fields_wf | by apply filter_all].
Qed.

(** A hop carries its data: nothing, or bytes that decode to it. *)
Definition carries (h : BlindedPathHop) (d : option BlindedRouteData) : Prop :=
  match d with
  | None => bph_Payload h = []
  | Some d => DecodeBlindedRouteData (bph_Payload h) = Ret d
  end.

Lemma set_payload_last payload (pre : list BlindedPathHop) h :
  set_payload (length pre) payload (pre ++ [h])
  = pre ++ [{| NodePub := NodePub h; bph_Payload := payload |}].
Proof. unfold set_payload. induction pre; cbn; [done|]. unfold alter in *. cbn in *. by f_equal. Qed.

(** The loop links every hop to the next, and leaves the last one open. *)
Lemma pathLoop_spec rest pre p :
  exists init last,
    pathLoop encodeBlindedData rest (S (length pre)) (pre ++ [MkBlindedPathHop p []])
    = Ret (pre ++ init ++ [MkBlindedPathHop last []])
    /\ map NodePub init ++ [last] = p :: rest
    /\ forall start payload, carries (MkBlindedPathHop last payload) (start_data <$> start) ->
       Forall2 carries (init ++ [MkBlindedPathHop last payload]) (hop_data (p :: rest) start).
Proof.
  revert pre p. induction rest as [|q rest IH]; intros pre p.
  - exists [], p. split; [done|]. split; [done|]. intros start payload H. by repeat constructor.
  - cbn [pathLoop]. destruct (encodeBlindedData_next q None) as (b & -> & Hb).
    cbn [wrap mbind outcome_bind]. rewrite Nat.sub_1_r. cbn [pred].
    rewrite set_payload_last. cbn [NodePub].
    destruct (IH (pre ++ [MkBlindedPathHop p b]) q) as (init & last & E & Hn & Hd).
    rewrite length_app, Nat.add_1_r in E. rewrite E.
    exists (MkBlindedPathHop p b :: init), last. split; [by rewrite <- app_assoc|].
    split; [by cbn; rewrite Hn|]. intros start payload H. constructor; [done|]. by apply Hd.
Qed.

Lemma createPathToBlind_ok path start : path <> [] ->
  exists hs, createPathToBlind path start encodeBlindedData = Ret hs
    /\ map NodePub hs = path /\ Forall2 carries hs (hop_data path start).
Proof.
  destruct path as [|p rest]; [done|]. intros _. unfold createPathToBlind.
  cbn [index lookup list_lookup mbind outcome_bind tail].
  destruct (pathLoop_spec rest [] p) as (init & last & E & Hn & Hd). cbn [app length] in E.
  change (index (p :: rest) 0) with (Ret p). cbn [mbind outcome_bind]. rewrite E.
  cbn [mbind outcome_bind]. destruct start as [s|].
  - destruct (encodeBlindedData_next (unblindedID s) (Some (blindingPoint s))) as (b & -> & Hb).
    cbn [opaque mbind outcome_bind].
    assert (length (p :: rest) - 1 = length init)%nat as ->.
    { rewrite <- Hn, length_app, length_map. cbn. lia. }
    rewrite set_payload_last. eexists. split; [done|].
    split; [by rewrite map_app|]. apply Hd. done.
  - eexists. split; [done|]. split; [by rewrite map_app|]. by apply Hd.
Qed.
End PathFacts.

Section FillFacts.
Context `{CR : Crypto, SP : !Sphinx}.

Lemma insert_filled {A} (l : list A) (i : nat) x r :
  (i < length l)%nat ->
  take (S i) (<[i := x]> l) ++ r = take i l ++ [x] ++ r.
Proof.
  intros H. rewrite (take_S_r _ _ x) by by apply list_lookup_insert_eq.
  by rewrite take_insert_ge, <- app_assoc by lia.
Qed.

Lemma fillPath_ok hopAt offset i todo path hs :
  each hopAt (seq i todo) = Ret hs -> (i + offset + todo <= length path)%nat ->
  fillPath hopAt offset i todo path
  = Ret (take (i + offset) path ++ map Some hs ++ drop (i + offset + todo) path).
Proof.
  revert i path hs. induction todo as [|todo IH]; intros i path hs E L; cbn [seq each] in E; go_inv.
  - cbn. by rewrite Nat.add_0_r, take_drop.
  - cbn [fillPath]. rewrite E0. cbn [mbind outcome_bind]. unfold assign.
    rewrite bool_decide_true by lia. cbn [mbind outcome_bind].
    rewrite (IH (S i) _ _ E1) by (rewrite length_insert; lia).
    cbn [Nat.add map]. rewrite insert_filled by lia. rewrite drop_insert_lt by lia.
    by rewrite Nat.add_succ_r.
Qed.

Lemma fillPath_overflow hopAt offset i todo path hs :
  each hopAt (seq i todo) = Ret hs -> (length path < i + offset + todo)%nat ->
  (i + offset <= length path)%nat ->
  fillPath hopAt offset i todo path = Panic "index out of range".
Proof.
  revert i path hs. induction todo as [|todo IH]; intros i path hs E L H; cbn [seq each] in E; go_inv.
  - lia.
  - cbn [fillPath]. rewrite E0. cbn [mbind outcome_bind]. unfold assign. case_bool_decide; [|done].
    cbn [mbind outcome_bind]. eapply (IH (S i)); [done | rewrite length_insert; lia..].
Qed.
End FillFacts.

Section OnionFacts.
Context `{CR : Crypto, CL : !CryptoLaws, TL : !Tlv, TLL : !TlvLaws, SP : !Sphinx,
  MO : MapOrder, MOL : !MapOrderLaws}.

Lemma Forall3_lookup_all {A B C} (P : A -> B -> C -> Prop) l k k' :
  length l = length k -> length k = length k' ->
  (forall i x y z, l !! i = Some x -> k !! i = Some y -> k' !! i = Some z -> P x y z) ->
  Forall3 P l k k'.
Proof.
  revert k k'. induction l as [|x l IH]; intros [|y k] [|z k'] H1 H2 H; try done; [constructor|].
  constructor; [by apply (H 0%nat)|]. apply IH; [by injection H1 | by injection H2|].
  intros i. apply (H (S i)).
Qed.

Lemma each_seq {A} (f : nat -> outcome A) (P : nat -> A -> Prop) i n :
  (forall k, (i <= k < i + n)%nat -> exists a, f k = Ret a /\ P k a) ->
  exists l, each f (seq i n) = Ret l /\ length l = n
    /\ forall k a, l !! k = Some a -> P (i + k)%nat a.
Proof.
  revert i. induction n as [|n IH]; intros i H.
  - exists []. by repeat split.
  - destruct (H i ltac:(lia)) as (a & Ea & Pa). destruct (IH (S i)) as (l & El & Ll & Pl).
    { intros k Hk. apply H. lia. }
    exists (a :: l). cbn. rewrite Ea. cbn [mbind outcome_bind]. rewrite El.
    split; [done|]. split; [by rewrite Ll|].
    intros [|k] b Hb; cbn in Hb; [injection Hb as <-; by rewrite Nat.add_0_r|].
    rewrite Nat.add_succ_r. by apply (Pl k).
Qed.

Lemma onion_payloads_lookup datas reply finals i :
  onion_payloads datas reply finals !! i
  = (fun d => hopPayload d (bool_decide (i = length datas - 1)%nat) reply finals) <$> datas !! i.
Proof.
  revert i. induction datas as [|d r IH]; intros i; [done|].
  destruct r as [|d' r]; [by destruct i as [|[|]]|].
  cbn [onion_payloads]. destruct i as [|i]; [done|]. cbn [lookup list_lookup] in *.
  change (lookup i ?l) with (l !! i). rewrite IH. cbn [length].
  by rewrite (bool_decide_ext (S i = S (S (length r)) - 1)%nat (i = S (length r) - 1)%nat) by lia.
Qed.

Lemma onion_payloads_length datas reply finals :
  length (onion_payloads datas reply finals) = length datas.
Proof. induction datas as [|d [|d' r] IH]; cbn in *; congruence. Qed.

Lemma createSphinxHop_ok node given payload :
  payload_ok payload -> omp_ReplyPath given = omp_ReplyPath payload ->
  omp_EncryptedData given = omp_EncryptedData payload ->
  Permutation (FinalHopPayloads given) (FinalHopPayloads payload) ->
  exists h, createSphinxHop node given = Ret h /\ hop_is node (unmarked payload) h.
Proof.
  intros W Er Ed P. unfold createSphinxHop.
  rewrite (EncodeOnionMessagePayload_wire payload) by (try done; apply W).
  cbn [opaque mbind outcome_bind]. eexists. split; [done|]. split; [done|]. split; [done|].
  by apply DecodeOnionMessagePayload_wire.
Qed.

(** A hop whose payload is described for the finals sorted, built from the
    finals as given. *)
Lemma hopPayload_ok node data final reply finals sorted :
  payload_ok (hopPayload data final reply sorted) -> Permutation finals sorted ->
  exists h, createSphinxHop node (hopPayload data final reply finals) = Ret h
            /\ hop_is node (hopPayload data final reply (valued sorted)) h.
Proof.
  intros W P.
  assert (hopPayload data final reply (valued sorted) = unmarked (hopPayload data final reply sorted))
    as -> by by destruct final.
  apply createSphinxHop_ok; try done. by destruct final.
Qed.

Lemma plain_payload_ok data : u64 (len data) -> payload_ok (hopPayload data false None []).
Proof. intros H. constructor; try done; apply Forall_nil_2 || constructor. Qed.

Lemma plain_payload_wf data : u64 (len data) -> payload_wf (hopPayload data false None []).
Proof. intros H. split; [by apply plain_payload_ok | apply Forall_nil_2]. Qed.

Lemma onion_payloads_ok datas reply finals :
  Forall (fun d => u64 (len d)) datas ->
  (forall d, u64 (len d) -> payload_ok (hopPayload d true reply finals)) ->
  Forall payload_ok (onion_payloads datas reply finals).
Proof.
  intros F H. induction datas as [|d [|d' r] IH]; [apply Forall_nil_2|..];
    apply Forall_cons in F as [Hd F].
  - apply Forall_cons_2; [by apply H | apply Forall_nil_2].
  - apply Forall_cons_2; [by apply plain_payload_ok | by apply IH].
Qed.

Section Path.
Context (route : BlindedPath) (extra : list BlindedHop) (reply : option ReplyPath).
Context (finals sorted : list FinalHopPayload) (Hperm : Permutation finals sorted).
Context (Hlen : length (BlindedHops route) = length (bp_EncryptedData route)).
Context (Hok : Forall payload_ok (onion_payloads (route_datas route extra) reply sorted)).

Let n := length (bp_EncryptedData route).
Let m := length extra.

Lemma payload_at i d : route_datas route extra !! i = Some d ->
  onion_payloads (route_datas route extra) reply (valued sorted) !! i
    = Some (hopPayload d (bool_decide (i = n + m - 1)%nat) reply (valued sorted))
  /\ payload_ok (hopPayload d (bool_decide (i = n + m - 1)%nat) reply sorted).
Proof.
  intros Hd. assert (forall fs, onion_payloads (route_datas route extra) reply fs !! i
    = Some (hopPayload d (bool_decide (i = n + m - 1)%nat) reply fs)) as E.
  { intros fs. rewrite onion_payloads_lookup, Hd. cbn. unfold route_datas.
    by rewrite length_app, length_map. }
  split; [done|]. rewrite Forall_forall in Hok. by eapply Hok, list_elem_of_lookup_2.
Qed.

Definition hop_at (i : nat) (h : OnionHop) : Prop :=
  exists node payload, route_nodes route extra !! i = Some node
    /\ onion_payloads (route_datas route extra) reply (valued sorted) !! i = Some payload
    /\ hop_is node payload h.

Lemma ourHop_ok i : (i < n)%nat -> exists h, ourHop route m reply finals i = Ret h /\ hop_at i h.
Proof.
  intros Hi. unfold ourHop, index.
  destruct (lookup_lt_is_Some_2 (bp_EncryptedData route) i Hi) as [d Hd].
  destruct (lookup_lt_is_Some_2 (BlindedHops route) i) as [node Hn]; [by rewrite Hlen|].
  rewrite Hd, Hn. cbn [mbind outcome_bind].
  destruct (payload_at i d) as [E W]; [unfold route_datas; by apply lookup_app_l_Some|].
  assert ((bool_decide (i = length (bp_EncryptedData route) - 1)%nat && bool_decide (m = 0)%nat)
          = bool_decide (i = n + m - 1)%nat) as ->.
  { fold n. rewrite <- bool_decide_and. apply bool_decide_ext. lia. }
  destruct (hopPayload_ok node d _ reply finals sorted W Hperm) as (h & -> & Hh).
  exists h. split; [done|]. exists node, (hopPayload d (bool_decide (i = n + m - 1)%nat) reply (valued sorted)).
  split; [unfold route_nodes; by apply lookup_app_l_Some | done].
Qed.

Lemma extraHop_ok i : (i < m)%nat ->
  exists h, extraHop extra reply finals i = Ret h /\ hop_at (n + i) h.
Proof.
  intros Hi. unfold extraHop, index.
  destruct (lookup_lt_is_Some_2 extra i Hi) as [b Hb]. rewrite Hb. cbn [mbind outcome_bind].
  destruct (payload_at (n + i) (bh_EncryptedData b)) as [E W].
  { unfold route_datas. rewrite lookup_app_r by (fold n; lia). fold n.
    replace (n + i - n)%nat with i by lia. by rewrite list_lookup_fmap, Hb. }
  rewrite (bool_decide_ext (n + i = n + m - 1)%nat (i = m - 1)%nat) in E, W by lia.
  fold m. destruct (hopPayload_ok (BlindedNodeID b) _ _ reply finals sorted W Hperm) as (h & -> & Hh).
  exists h. split; [done|]. eexists _, _. split; [|done].
  unfold route_nodes. rewrite lookup_app_r by (rewrite Hlen; fold n; lia).
  rewrite Hlen. fold n. replace (n + i - n)%nat with i by lia. by rewrite list_lookup_fmap, Hb.
Qed.

Lemma route_payloads_length :
  length (onion_payloads (route_datas route extra) reply (valued sorted)) = (n + m)%nat.
Proof. rewrite onion_payloads_length. unfold route_datas. by rewrite length_app, length_map. Qed.

Lemma route_nodes_length : length (route_nodes route extra) = (n + m)%nat.
Proof. unfold route_nodes. by rewrite length_app, length_map, Hlen. Qed.

Lemma hops_filled hs : length hs = (n + m)%nat ->
  (forall k h, hs !! k = Some h -> hop_at k h) ->
  Forall3 hop_is (route_nodes route extra)
    (onion_payloads (route_datas route extra) reply (valued sorted)) hs.
Proof.
  intros L H. apply Forall3_lookup_all; rewrite ?route_nodes_length, ?route_payloads_length; try done.
  intros k node payload h Hn Hp Hh. destruct (H k h Hh) as (node' & payload' & En & Ep & ?).
  congruence.
Qed.

Lemma blindedToSphinx_ok : (n + m <= NumMaxHops)%nat ->
  exists path, blindedToSphinx route extra reply finals = Ret path
    /\ onion_for (route_nodes route extra)
         (onion_payloads (route_datas route extra) reply (valued sorted)) path.
Proof.
  intros Hmax. unfold blindedToSphinx. fold n m.
  destruct (each_seq (ourHop route m reply finals) hop_at 0 n) as (hs & Ehs & Lhs & Hhs).
  { intros k Hk. apply ourHop_ok. lia. }
  rewrite (fillPath_ok _ _ _ _ _ hs) by (try done; unfold emptyPath; rewrite length_replicate; lia).
  cbn [mbind outcome_bind Nat.add]. rewrite take_0. cbn [app].
  destruct (each_seq (extraHop extra reply finals) (fun i => hop_at (n + i)) 0 m)
    as (xs & Exs & Lxs & Hxs).
  { intros k Hk. apply extraHop_ok. lia. }
  assert (map Some (hs ++ xs) ++ replicate (NumMaxHops - length (hs ++ xs)) None
          = map Some hs ++ map Some xs ++ drop (n + m) (@emptyPath _ SP)) as Epath.
  { unfold emptyPath. rewrite map_app, <- app_assoc, drop_replicate, length_app. by rewrite Lhs, Lxs. }
  exists (map Some (hs ++ xs) ++ replicate (NumMaxHops - length (hs ++ xs)) None). split.
  - case_bool_decide as Hm.
    + rewrite Epath. destruct xs; [|cbn in Lxs; lia]. by rewrite Hm, Nat.add_0_r.
    + rewrite (fillPath_ok _ _ _ _ _ xs); [|done|].
      2: { rewrite length_app, length_map, length_drop. unfold emptyPath. rewrite length_replicate. lia. }
      rewrite Epath. cbn [Nat.add]. rewrite take_app_length' by (by rewrite length_map).
      rewrite drop_app_ge by (rewrite length_map; lia). rewrite length_map, drop_drop, Lhs.
      by replace (n + (n + m - n))%nat with (n + m)%nat by lia.
  - eexists. split; [done|]. apply hops_filled; [rewrite length_app; lia|].
    intros k h Hk. apply lookup_app_Some in Hk as [Hk|[Hk1 Hk]]; [by apply (Hhs k)|].
    rewrite Lhs in *. apply Hxs in Hk. by replace (n + (0 + (k - n)))%nat with k in Hk by lia.
Qed.

Lemma blindedToSphinx_overflow : (NumMaxHops < n + m)%nat ->
  blindedToSphinx route extra reply finals = Panic "index out of range".
Proof.
  intros Hmax. unfold blindedToSphinx. fold n m.
  assert (length (@emptyPath _ SP) = NumMaxHops) as Le by apply length_replicate.
  destruct (each_seq (ourHop route m reply finals) hop_at 0 n) as (hs & Ehs & Lhs & _).
  { intros k Hk. apply ourHop_ok. lia. }
  destruct (decide (NumMaxHops < n)%nat).
  { by rewrite (fillPath_overflow _ _ _ _ _ hs) by (try done; rewrite Le; lia). }
  rewrite (fillPath_ok _ _ _ _ _ hs) by (try done; rewrite Le; lia).
  cbn [mbind outcome_bind Nat.add]. rewrite take_0. cbn [app].
  destruct (each_seq (extraHop extra reply finals) (fun i => hop_at (n + i)) 0 m)
    as (xs & Exs & _).
  { intros k Hk. apply extraHop_ok. lia. }
  rewrite bool_decide_false by lia.
  rewrite (fillPath_overflow _ _ _ _ _ xs); [done|done|..];
    rewrite length_app, length_map, length_drop, Le; lia.
Qed.
End Path.

(** The hops of a direct connection carry no reply path and no final payloads. *)
Lemma directHops_ok (destHops : list BlindedHop) :
  Forall (fun b => u64 (len (bh_EncryptedData b))) destHops ->
  exists hs, each (directHop destHops) (seq 0 (length destHops)) = Ret hs
    /\ length hs = length destHops
    /\ Forall3 hop_is (map BlindedNodeID destHops)
         (map (fun b => hopPayload (bh_EncryptedData b) false None []) destHops) hs.
Proof.
  intros Hu.
  destruct (each_seq (directHop destHops) (fun i h => exists b, destHops !! i = Some b
    /\ hop_is (BlindedNodeID b) (hopPayload (bh_EncryptedData b) false None []) h)
    0 (length destHops)) as (hs & Ehs & Lhs & Hhs).
  { intros k Hk. destruct (lookup_lt_is_Some_2 destHops k) as [b Hb]; [lia|].
    unfold directHop, index. rewrite Hb. cbn [mbind outcome_bind].
    destruct (createSphinxHop_ok (BlindedNodeID b) (hopPayload (bh_EncryptedData b) false None [])
                (hopPayload (bh_EncryptedData b) false None [])) as (h & E & Hh); try done.
    { rewrite Forall_forall in Hu. apply plain_payload_ok. by eapply Hu, list_elem_of_lookup_2. }
    unfold hopPayload in E. rewrite E. by exists h; split; [|exists b]. }
  exists hs. do 2 (split; [done|]). apply Forall3_lookup_all; rewrite ?length_map; try done.
  intros k node payload h Hn Hp Hh. rewrite list_lookup_fmap in Hn. rewrite list_lookup_fmap in Hp.
  destruct (Hhs k h Hh) as (b & Hb & H). cbn [Nat.add] in Hb. rewrite Hb in Hn, Hp.
  cbn in Hn, Hp. injection Hn as <-. injection Hp as <-. done.
Qed.

Lemma directPath_ok (destHops : list BlindedHop) :
  Forall (fun b => u64 (len (bh_EncryptedData b))) destHops ->
  (length destHops <= NumMaxHops)%nat ->
  exists path, fillPath (directHop destHops) 0 0 (length destHops) emptyPath = Ret path
    /\ onion_for (map BlindedNodeID destHops)
         (map (fun b => hopPayload (bh_EncryptedData b) false None []) destHops) path.
Proof.
  intros Hu Hmax. destruct (directHops_ok destHops Hu) as (hs & Ehs & Lhs & Hhs).
  rewrite (fillPath_ok _ _ _ _ _ hs) by (try done; unfold emptyPath; rewrite length_replicate; lia).
  eexists. split; [done|]. exists hs. split; [|done].
  cbn [Nat.add]. rewrite take_0. cbn [app]. unfold emptyPath. by rewrite drop_replicate, Lhs.
Qed.

Lemma directPath_overflow (destHops : list BlindedHop) :
  Forall (fun b => u64 (len (bh_EncryptedData b))) destHops ->
  (NumMaxHops < length destHops)%nat ->
  fillPath (directHop destHops) 0 0 (length destHops) emptyPath = Panic "index out of range".
Proof.
  intros Hu Hmax. destruct (directHops_ok destHops Hu) as (hs & Ehs & _).
  by rewrite (fillPath_overflow _ _ _ _ _ hs)
    by (try done; unfold emptyPath; rewrite length_replicate; lia).
Qed.
End OnionFacts.

(** ** Properties of the selection of peers *)

Section RelayingFacts.
Context {W : Type} `{LC : Lndclient, RL : !RoutesLnd W, FB : FeatureBits, FBL : !FeatureBitsLaws,
  GR : Grpc, GRL : !GrpcLaws}.

(** A node that can relay: it has public channels, it is announced, and its
    announcement has the features that are required (the even ones). *)
Definition relays (features : list Z) (info : NodeInfo) : Prop :=
  ni_Channels info <> [] /\
  exists node, ni_Node info = Some node /\
    forall f, f ∈ features -> Z.even f = true -> f ∈ node_Features node.

Lemma checkFeatures_Ret features vec :
  (checkFeatures features vec = Ret tt /\ forall f, f ∈ features -> Z.even f = true -> f ∈ vec)
  \/ (checkFeatures features vec = Err (EWrap "required not not set" ErrFeatureMismatch)
      /\ exists f, f ∈ features /\ Z.even f = true /\ f ∉ vec).
Proof.
  induction features as [|f features IH]; [left; split; [done|]; set_solver|].
  cbn [checkFeatures]. rewrite IsRequired_even.
  destruct (Z.even f) eqn:Ef; cbn [negb].
  - destruct (IsSet vec f) eqn:Es; cbn [negb].
    + apply IsSet_elem in Es. destruct IH as [[-> H]|[-> H]]; [left | right]; split; try done.
      * intros g [->|Hg]%elem_of_cons; auto.
      * destruct H as (g & ? & ? & ?). exists g. set_solver.
    + right. split; [done|]. exists f. split; [left|]. split; [done|].
      intros H%IsSet_elem. congruence.
  - destruct IH as [[-> H]|[-> H]]; [left | right]; split; try done.
    + intros g [->|Hg]%elem_of_cons; [congruence | auto].
    + destruct H as (g & ? & ? & ?). exists g. set_solver.
Qed.

Lemma createRelayCheck_cases features info :
  (createRelayCheck features info = Ret tt /\ relays features info)
  \/ (fails (createRelayCheck features info) /\ ~ relays features info).
Proof.
  unfold createRelayCheck, relays. case_bool_decide as Hc.
  { right. split; [by eexists|]. intros [H _]. by apply len_nil_inv in Hc. }
  assert (ni_Channels info <> []) as Hne by (intros E; by rewrite E in Hc).
  destruct (ni_Node info) as [node|].
  - destruct (checkFeatures_Ret features (node_Features node)) as [[-> H]|[-> H]].
    + left. split; [done|]. split; [done|]. by exists node.
    + right. split; [by eexists|]. intros (_ & ? & [= <-] & H'). destruct H as (f & ? & ? & ?). auto.
  - right. split; [by eexists|]. by intros (_ & ? & ? & _).
Qed.

Lemma relayingLoop_ok features (graph : bytes -> outcome NodeInfo) channels acc w :
  (forall v w, GetNodeInfo v true w = (w, graph v)) ->
  Forall (fun c => returns (graph (PubKeyBytes c))
                   \/ exists m, graph (PubKeyBytes c) = Err (EStatus NotFound m)) channels ->
  exists peers, relayingLoop (createRelayCheck features) channels acc w = (w, Ret (acc ++ peers))
    /\ forall info, info ∈ peers <->
       relays features info /\ exists c, c ∈ channels /\ graph (PubKeyBytes c) = Ret info.
Proof.
  intros HG. revert acc. induction channels as [|c channels IH]; intros acc F.
  - exists []. split; [by rewrite app_nil_r|]. intros info. split; [by intros ?%elem_of_nil|].
    intros (_ & c & ?%elem_of_nil & _). done.
  - inversion F as [|? ? Hc F']; subst. cbn [relayingLoop]. unfold attempt at 1. rewrite HG.
    destruct Hc as [[info Hc]|[m Hc]]; rewrite Hc.
    + destruct (createRelayCheck_cases features info) as [[-> R]|[[e ->] R]].
      * destruct (IH (acc ++ [info]) F') as (peers & -> & Hp). exists (info :: peers).
        split; [by rewrite <- app_assoc|]. intros i. rewrite elem_of_cons, Hp. split.
        -- intros [->|(Ri & c' & ? & ?)]; (split; [done|]).
           ++ exists c. split; [left | congruence].
           ++ exists c'. split; [by right | done].
        -- intros (Ri & c' & [->|Hin]%elem_of_cons & E); [left; congruence|]. right. eauto.
      * destruct (IH acc F') as (peers & -> & Hp). exists peers. split; [done|].
        intros i. rewrite Hp. split; intros (Ri & c' & Hin & E); (split; [done|]).
        -- exists c'. split; [by right | done].
        -- apply elem_of_cons in Hin as [->|Hin]; [congruence|]. eauto.
    + rewrite FromError_status, bool_decide_true by done.
      destruct (IH acc F') as (peers & -> & Hp). exists peers. split; [done|].
      intros i. rewrite Hp. split; intros (Ri & c' & Hin & E); (split; [done|]).
      * exists c'. split; [by right | done].
      * apply elem_of_cons in Hin as [->|Hin]; [congruence|]. eauto.
Qed.

Lemma relayingLoop_fails features (graph : bytes -> outcome NodeInfo) pre c post acc e w :
  (forall v w, GetNodeInfo v true w = (w, graph v)) ->
  Forall (fun c => returns (graph (PubKeyBytes c))
                   \/ exists m, graph (PubKeyBytes c) = Err (EStatus NotFound m)) pre ->
  graph (PubKeyBytes c) = Err e -> status_FromError e <> Some NotFound ->
  relayingLoop (createRelayCheck features) (pre ++ c :: post) acc w
  = (w, Err (EWrap "get node" e)).
Proof.
  intros HG F He Hs. revert acc. induction F as [|c' pre Hc F IH]; intros acc; cbn [app relayingLoop].
  - unfold attempt. by rewrite HG, He, bool_decide_false.
  - unfold attempt at 1. rewrite HG. destruct Hc as [[info Hc]|[m Hc]]; rewrite Hc.
    + by destruct (createRelayCheck_cases features info) as [[-> _]|[[e' ->] _]].
    + by rewrite FromError_status, bool_decide_true.
Qed.

(** The relaying peers are, of the peers we have active channels with, the
    nodes of the graph that have public channels, are announced and have every
    required feature; peers missing from the graph are skipped, and any other
    failed lookup fails the call.  Without channels it fails. *)
Theorem getRelayingPeers_spec features (graph : bytes -> outcome NodeInfo) channels w w' :
  (forall v w, GetNodeInfo v true w = (w, graph v)) ->
  ListChannels true false w = (w', Ret channels) ->
  (channels = [] ->
     getRelayingPeers (createRelayCheck features) w = (w', Err ErrNoChannels))
  /\ (channels <> [] ->
      Forall (fun c => returns (graph (PubKeyBytes c))
                       \/ exists m, graph (PubKeyBytes c) = Err (EStatus NotFound m)) channels ->
      exists peers, getRelayingPeers (createRelayCheck features) w = (w', Ret peers)
        /\ forall info, info ∈ peers <->
           relays features info /\ exists c, c ∈ channels /\ graph (PubKeyBytes c) = Ret info)
  /\ (forall pre c post e, channels = pre ++ c :: post ->
      Forall (fun c => returns (graph (PubKeyBytes c))
                       \/ exists m, graph (PubKeyBytes c) = Err (EStatus NotFound m)) pre ->
      graph (PubKeyBytes c) = Err e -> status_FromError e <> Some NotFound ->
      getRelayingPeers (createRelayCheck features) w = (w', Err (EWrap "get node" e))).
Proof.
  intros HG HL. unfold getRelayingPeers.
  rewrite (io_bind_Ret _ _ _ _ _ (iwrap_Ret _ _ _ _ _ HL)).
  split; [by intros ->|]. split.
  - intros Hne F. case_bool_decide as Hc; [by apply len_nil_inv in Hc|].
    by apply (relayingLoop_ok features graph channels []).
  - intros pre c post e -> F He Hs.
    rewrite bool_decide_false by (rewrite len_app; unfold len; cbn; lia).
    by apply (relayingLoop_fails features graph).
Qed.
End RelayingFacts.

(** ** Properties of the routes to our node *)

Section GeneratorFacts.
Context {W : Type} `{CR : Crypto, CL : !CryptoLaws, TL : !Tlv, TLL : !TlvLaws, SP : !Sphinx,
  KS : !Keys W, LC : Lndclient, RL : !RoutesLnd W, FB : FeatureBits, FBL : !FeatureBitsLaws,
  GR : Grpc, GRL : !GrpcLaws}.

(** The first of the peers with the most channels is picked. *)
Lemma pickMostPeers_from best peers :
  exists info, pickMostPeers (Some best) peers = Some info
    /\ info ∈ best :: peers
    /\ Forall (fun p => len (ni_Channels p) <= len (ni_Channels info)) (best :: peers).
Proof.
  revert best. induction peers as [|p peers IH]; intros best; cbn [pickMostPeers].
  - exists best. split; [done|]. split; [left|]. by repeat constructor.
  - case_bool_decide as Hm.
    + destruct (IH p) as (info & -> & Hin & F). exists info. split; [done|]. split; [by right|].
      constructor; [|done]. inversion F; subst. lia.
    + destruct (IH best) as (info & -> & Hin & F). exists info. inversion F as [|? ? F1 F2]; subst.
      split; [done|]. split; [|constructor; [done|]; constructor; [lia | done]].
      apply elem_of_cons in Hin as [->|Hin]; [left|]. right. by right.
Qed.

Lemma pickMostPeers_most peers : peers <> [] ->
  exists info, pickMostPeers None peers = Some info /\ info ∈ peers
    /\ Forall (fun p => len (ni_Channels p) <= len (ni_Channels info)) peers.
Proof.
  destruct peers as [|p peers]; [done|]. intros _. cbn [pickMostPeers].
  rewrite bool_decide_false by lia. apply pickMostPeers_from.
Qed.

Lemma buildBlindedRoute_ok peers our info node intro :
  peers <> [] -> pickMostPeers None peers = Some info -> ni_Node info = Some node ->
  ParsePubKey (node_PubKey node) = Ret intro ->
  exists hs, buildBlindedRoute peers our = Ret hs /\ map NodePub hs = [intro; our]
    /\ Forall2 carries hs (hop_data [intro; our] None).
Proof.
  intros Hne Hi Hn Hp. unfold buildBlindedRoute.
  rewrite bool_decide_false by (by intros ?%len_nil_inv).
  rewrite Hi. cbn [deref mbind outcome_bind]. rewrite Hn. cbn [deref mbind outcome_bind].
  rewrite Hp. cbn [wrap mbind outcome_bind].
  destruct (encodeBlindedData_next our None) as (b & Eb & Db). unfold encodeBlindedData in Eb.
  cbn [NextNodeID] in Eb. apply wrap_Ret_inv in Eb. rewrite Eb. cbn [wrap mbind outcome_bind].
  eexists. split; [done|]. split; [done|]. by repeat constructor.
Qed.

(** C34: The route to our node starts at a peer that can relay and has the most
    channels of all that can, and tells it that we are the next node: the
    blinded path is built from these two hops with a new session key.  When
    no peer can relay, the call fails with ErrNoRelayingPeers. *)
Theorem ReplyPath_generate_spec (b : BlindedRouteGenerator) features graph channels w w' w'' key :
  (forall v w, GetNodeInfo v true w = (w, graph v)) ->
  ListChannels true false w = (w', Ret channels) -> channels <> [] ->
  Forall (fun c => returns (graph (PubKeyBytes c))
                   \/ exists m, graph (PubKeyBytes c) = Err (EStatus NotFound m)) channels ->
  (forall v info node, graph v = Ret info -> ni_Node info = Some node ->
     returns (ParsePubKey (node_PubKey node))) ->
  NewPrivateKey w' = (w'', Ret key) ->
  let candidate info :=
    relays features info /\ exists c, c ∈ channels /\ graph (PubKeyBytes c) = Ret info in
  (exists info node intro hs,
     candidate info /\ ni_Node info = Some node /\ ParsePubKey (node_PubKey node) = Ret intro
     /\ (forall other, candidate other -> len (ni_Channels other) <= len (ni_Channels info))
     /\ map NodePub hs = [intro; pubkey b] /\ Forall2 carries hs (hop_data [intro; pubkey b] None)
     /\ ReplyPath_generate b features w
        = (w'', wrap "sphinx blinded route" (BuildBlindedPath key hs)))
  \/ ((forall info, ~ candidate info)
      /\ exists e, ReplyPath_generate b features w = (w', Err e)
                   /\ errors_Is e ErrNoRelayingPeers = true).
Proof.
  intros HG HL Hne F HP HK candidate.
  assert (exists peers, getRelayingPeers (createRelayCheck features) w = (w', Ret peers)
    /\ forall info, info ∈ peers <-> candidate info) as (peers & EP & Hpeers).
  { unfold getRelayingPeers. rewrite (io_bind_Ret _ _ _ _ _ (iwrap_Ret _ _ _ _ _ HL)).
    rewrite bool_decide_false by (by intros ?%len_nil_inv).
    by apply (relayingLoop_ok features graph channels []). }
  unfold ReplyPath_generate. rewrite (io_bind_Ret _ _ _ _ _ (iwrap_Ret _ _ _ _ _ EP)).
  destruct peers as [|p peers].
  { right. split; [by intros info ?%Hpeers%elem_of_nil|]. by eexists. }
  destruct (pickMostPeers_most (p :: peers)) as (info & Ei & Hin & Hmax); [done|].
  apply Hpeers in Hin as Hc. destruct Hc as [(Hch & node & Hn & Hf) (c & Hcin & Hg)].
  destruct (HP _ _ _ Hg Hn) as [intro Hparse].
  destruct (buildBlindedRoute_ok (p :: peers) (pubkey b) info node intro) as (hs & Eh & Hnp & Hca);
    try done.
  left. exists info, node, intro, hs. split; [by apply Hpeers|]. repeat (split; [done|]).
  split; [|split; [done|]; split; [done|]].
  - intros other Ho%Hpeers. rewrite Forall_forall in Hmax. by apply Hmax.
  - rewrite Eh. cbn [wrap]. unfold pure at 1.
    rewrite (io_bind_Ret _ _ _ _ _ (eq_refl : (w', Ret hs) = (w', Ret hs))).
    by rewrite (io_bind_Ret _ _ _ _ _ (iwrap_Ret _ _ _ _ _ HK)).
Qed.
End GeneratorFacts.

(** ** Properties of the messages along a route *)

Section RouteFacts.
Context `{CR : Crypto, CL : !CryptoLaws, TL : !Tlv, TLL : !TlvLaws, SP : !Sphinx,
  SL : !SphinxLaws, SO : !SphinxOps, MO : MapOrder, MOL : !MapOrderLaws}.

Lemma SerializeCompressed_inj p q : SerializeCompressed p = SerializeCompressed q -> p = q.
Proof.
  intros H. pose proof (ParsePubKey_Serialize p) as Hp. rewrite H, ParsePubKey_Serialize in Hp.
  by injection Hp.
Qed.

(** What a request must satisfy. *)
Record valid_request (r : BlindedRouteRequest) : Prop := {
  vr_hops : hops r <> [];
  vr_session : sessionKey r <> None;
  vr_blinding : blindingKey r <> None;
  vr_intro : forall dest, blindedDestination r = Some dest -> last (hops r) = Some (FirstNodeID dest);
}.

Lemma validate_ok r : valid_request r -> validate r = Ret tt.
Proof.
  intros [Hh Hs Hb Hi]. unfold validate.
  rewrite bool_decide_false by (by intros ?%len_nil_inv).
  destruct (sessionKey r); [|done]. destruct (blindingKey r); [|done].
  destruct (blindedDestination r) as [dest|]; [|done].
  specialize (Hi dest eq_refl). rewrite last_lookup in Hi. unfold index.
  rewrite Nat.sub_1_r, Hi. cbn [mbind outcome_bind]. by rewrite bool_decide_true.
Qed.

(** The error of a request that is not valid. *)
Definition refusal (r : BlindedRouteRequest) : error :=
  if bool_decide (len (hops r) = 0) then ErrNoPath
  else match sessionKey r, blindingKey r with
       | None, _ => ErrSessionKeyRequired
       | _, None => ErrBlindingKeyRequired
       | _, _ => ErrNoIntroductionNode
       end.

Lemma validate_bad r : ~ valid_request r ->
  exists e, validate r = Err e /\ errors_Is e (refusal r) = true.
Proof.
  intros H. unfold validate, refusal. case_bool_decide as Hh; [by eexists|].
  destruct (sessionKey r) as [sk|] eqn:Es; [|by eexists].
  destruct (blindingKey r) as [bk|] eqn:Eb; [|by eexists].
  assert (hops r <> []) as Hne by (intros E; by rewrite E in Hh).
  destruct (blindedDestination r) as [dest|] eqn:Ed.
  2: { exfalso. apply H. constructor; congruence. }
  unfold index. destruct (hops r !! (length (hops r) - 1)%nat) as [lastHop|] eqn:El.
  2: { apply lookup_ge_None in El. destruct (hops r); cbn in El; [done | lia]. }
  cbn [mbind outcome_bind]. case_bool_decide as Hi; cbn [negb]; [|by eexists].
  exfalso. apply H. constructor; try congruence. intros dest' E.
  rewrite last_lookup, <- Nat.sub_1_r, El. apply SerializeCompressed_inj in Hi. congruence.
Qed.

(** A request without hops, without a session or blinding key, or whose
    hops do not end at the introduction node of its blinded destination is
    refused with the error for the first of these, and left as it is; every
    other request passes validation. *)
Theorem CreateBlindedRoute_refuses (f : RouteFunctions) (r : BlindedRouteRequest) :
  (valid_request r -> validate r = Ret tt)
  /\ (~ valid_request r ->
      exists e, CreateBlindedRoute f r = (r, Err e) /\ errors_Is e (refusal r) = true).
Proof.
  split; [apply validate_ok|]. intros H. unfold CreateBlindedRoute.
  destruct (validate_bad r H) as (e & -> & He). cbn [wrap]. eexists. split; [done|].
  cbn. rewrite He. apply orb_true_r.
Qed.

(** The hops that are blinded: all but the introduction node of a blinded
    destination. *)
Definition own_hops (r : BlindedRouteRequest) : list PublicKey :=
  match blindedDestination r with
  | None => hops r
  | Some _ => take (length (hops r) - 1) (hops r)
  end.

(** The request after the call. *)
Definition used_request (r : BlindedRouteRequest) : BlindedRouteRequest :=
  match blindedDestination r with
  | None => r
  | Some _ => trim_hops r
  end.

Lemma CreateBlindedRoute_hops f r firstNode : valid_request r -> own_hops r <> [] ->
  head (hops r) = Some firstNode ->
  CreateBlindedRoute f r = (used_request r, routeToHops f (used_request r) firstNode)
  /\ hops (used_request r) = own_hops r.
Proof.
  intros V Hown Hf. unfold CreateBlindedRoute. rewrite validate_ok by done. cbn [wrap].
  unfold index. rewrite <- head_lookup, Hf. unfold used_request, own_hops in *.
  destruct (blindedDestination r); [|done].
  rewrite bool_decide_false; [done|]. by intros ?%len_nil_inv.
Qed.

Lemma createOnionMessage_ok path key point pkt blob :
  NewOnionPacket path key [] DeterministicPacketFiller = Ret pkt ->
  OnionPacket_Encode pkt = Ret blob ->
  createOnionMessage path (Some key) point = Ret (NewOnionMessage point blob).
Proof. intros H1 H2. unfold createOnionMessage. cbn [deref mbind outcome_bind]. by rewrite H1; cbn; rewrite H2. Qed.

(** The blinded path that a request asks for, and the payloads along it. *)
Section Request.
Context (r : BlindedRouteRequest) (sk bk : PrivateKey) (firstNode : PublicKey).
Context (V : valid_request r) (Hown : own_hops r <> []).
Context (Hsk : sessionKey r = Some sk) (Hbk : blindingKey r = Some bk).
Context (Hfirst : head (hops r) = Some firstNode).

Lemma used_fields : sessionKey (used_request r) = Some sk /\ blindingKey (used_request r) = Some bk
  /\ replyPath (used_request r) = replyPath r /\ finalPayloads (used_request r) = finalPayloads r
  /\ request_blindedStart (used_request r) = request_blindedStart r
  /\ request_blindedHops (used_request r) = request_blindedHops r.
Proof.
  unfold used_request, request_blindedStart, request_blindedHops, trim_hops.
  by destruct (blindedDestination r) eqn:E; cbn; rewrite ?E.
Qed.

(** From the hops to blind to the sphinx path. *)
Lemma route_reaches_sphinx : exists hs,
  createPathToBlind (own_hops r) (request_blindedStart r) encodeBlindedData = Ret hs
  /\ map NodePub hs = own_hops r /\ Forall2 carries hs (hop_data (own_hops r) (request_blindedStart r))
  /\ forall bp, BuildBlindedPath bk hs = Ret bp ->
     length (BlindedHops bp) = length (bp_EncryptedData bp)
     /\ length (bp_EncryptedData bp) = length (own_hops r)
     /\ CreateBlindedRoute default_functions r = (used_request r,
          sphinxPath ← wrap "could not create sphinx path"
            (blindedToSphinx bp (request_blindedHops r) (replyPath r) (finalPayloads r));
          onionMsg ← wrap "could not create onion message"
            (createOnionMessage sphinxPath (Some sk) (priv_PubKey bk));
          Ret {| br_OnionMessage := onionMsg; FirstNode := firstNode |}).
Proof.
  destruct (createPathToBlind_ok (own_hops r) (request_blindedStart r) Hown)
    as (hs & Ehs & Hn & Hd).
  exists hs. do 3 (split; [done|]). intros bp Hbp.
  destruct (BuildBlindedPath_hops _ _ _ Hbp) as (L1 & L2 & _ & _).
  split; [congruence|]. split; [by rewrite L2, <- Hn, length_map|].
  destruct (CreateBlindedRoute_hops default_functions r firstNode V Hown Hfirst) as [-> Eh].
  f_equal. unfold routeToHops. destruct used_fields as (E1 & E2 & E3 & E4 & E5 & E6).
  rewrite Eh, E1, E2, E3, E4, E5, E6. cbn [f_encodeBlindedData blindPath default_functions].
  rewrite Ehs. cbn [wrap mbind outcome_bind deref]. by rewrite Hbp.
Qed.
End Request.

(** C9: For a valid request with hops of its own, whose payloads can be
    encoded, CreateBlindedRoute blinds those hops - the data of each names the
    next, the last is given the introduction node and the blinding point of the
    blinded destination.  When these hops and those of the destination are at most
    NumMaxHops, its onion runs through the blinded hops and then those of the
    destination; only the payload for the last hop decodes with the reply path and
    the final payloads, in the order of their types and without the value-less
    ones outside the namespaces; the message is for the first hop, and the
    request is left without the introduction node.  When they are more -
    nothing bounds the hops of a destination, which the recipient of the
    message chose - it panics. *)
Theorem CreateBlindedRoute_spec (r : BlindedRouteRequest) sk bk firstNode sorted :
  valid_request r -> own_hops r <> [] ->
  sessionKey r = Some sk -> blindingKey r = Some bk -> head (hops r) = Some firstNode ->
  Permutation (finalPayloads r) sorted ->
  exists hs, createPathToBlind (own_hops r) (request_blindedStart r) encodeBlindedData = Ret hs
    /\ map NodePub hs = own_hops r
    /\ Forall2 carries hs (hop_data (own_hops r) (request_blindedStart r))
    /\ forall bp, BuildBlindedPath bk hs = Ret bp ->
       let nodes := route_nodes bp (request_blindedHops r) in
       let datas := route_datas bp (request_blindedHops r) in
       Forall payload_ok (onion_payloads datas (replyPath r) sorted) ->
       length nodes = (length (own_hops r) + length (request_blindedHops r))%nat
       /\ ((length nodes <= NumMaxHops)%nat ->
           exists path, onion_for nodes (onion_payloads datas (replyPath r) (valued sorted)) path
             /\ forall pkt blob,
                NewOnionPacket path sk [] DeterministicPacketFiller = Ret pkt ->
                OnionPacket_Encode pkt = Ret blob ->
                CreateBlindedRoute default_functions r
                = (used_request r,
                   Ret {| br_OnionMessage := NewOnionMessage (priv_PubKey bk) blob;
                          FirstNode := firstNode |}))
       /\ ((NumMaxHops < length nodes)%nat ->
           CreateBlindedRoute default_functions r = (used_request r, Panic "index out of range")).
Proof.
  intros V Hown Hsk Hbk Hf P.
  destruct (route_reaches_sphinx r sk bk firstNode V Hown Hsk Hbk Hf) as (hs & Ehs & Hn & Hd & H).
  exists hs. do 3 (split; [done|]). intros bp Hbp nodes datas Hok.
  destruct (H bp Hbp) as (L1 & L2 & ->). clear H.
  assert (length nodes = (length (bp_EncryptedData bp) + length (request_blindedHops r))%nat) as L
    by by apply route_nodes_length.
  split; [congruence|]. split; intros Hmax; rewrite L in Hmax.
  - destruct (blindedToSphinx_ok bp (request_blindedHops r) (replyPath r) (finalPayloads r) sorted
                P L1 Hok Hmax) as (path & -> & Hpath).
    exists path. split; [done|]. intros pkt blob H1 H2. cbn [wrap mbind outcome_bind].
    by rewrite (createOnionMessage_ok _ _ _ _ _ H1 H2).
  - by rewrite (blindedToSphinx_overflow bp _ _ _ sorted P L1 Hok) by lia.
Qed.

(** C38: When the only hop is the introduction node, and the blinded destination has
    at most NumMaxHops hops, the onion runs through those hops alone, and every payload decodes to
    its encrypted data and nothing else: the reply path and the final payloads
    of the request are dropped, whatever they are. *)
Theorem CreateBlindedRoute_direct (r : BlindedRouteRequest) sk dest intro :
  valid_request r -> sessionKey r = Some sk -> blindedDestination r = Some dest ->
  hops r = [intro] ->
  Forall (fun b => u64 (len (bh_EncryptedData b))) (Hops dest) ->
  (length (Hops dest) <= NumMaxHops)%nat ->
  exists path,
    onion_for (map BlindedNodeID (Hops dest))
      (map (fun b => {| omp_ReplyPath := None; omp_EncryptedData := bh_EncryptedData b;
                        FinalHopPayloads := [] |}) (Hops dest)) path
    /\ forall pkt blob,
       NewOnionPacket path sk [] DeterministicPacketFiller = Ret pkt ->
       OnionPacket_Encode pkt = Ret blob ->
       CreateBlindedRoute default_functions r
       = (trim_hops r, Ret {| br_OnionMessage := NewOnionMessage (BlindingPoint dest) blob;
                              FirstNode := FirstNodeID dest |}).
Proof.
  intros V Hsk Hd Hh Hu Hmax. destruct (directPath_ok (Hops dest) Hu Hmax) as (path & Ep & Hp).
  exists path. split; [done|]. intros pkt blob H1 H2.
  unfold CreateBlindedRoute. rewrite validate_ok by done. cbn [wrap]. unfold index.
  rewrite Hh, Hd. cbn [lookup list_lookup].
  rewrite bool_decide_true by (unfold trim_hops; cbn; by rewrite Hh).
  f_equal. cbn [f_directToBlinded default_functions]. unfold directToBlinded.
  change (blindedDestination (trim_hops r)) with (blindedDestination r).
  change (sessionKey (trim_hops r)) with (sessionKey r).
  rewrite Hd, Hsk. cbn [deref mbind outcome_bind]. rewrite Ep. cbn [mbind outcome_bind].
  by rewrite (createOnionMessage_ok _ _ _ _ _ H1 H2).
Qed.
End RouteFacts.

(** ** Witnesses *)

Definition key_bytes (p : @PublicKey ref_Crypto) : bytes := SerializeCompressed p.

(** A graph: [w_small] and [w_large] can relay, [w_plain] lacks a feature. *)
Definition w_small : NodeInfo := MkNodeInfo (Some (MkNode (key_bytes (true, x01)) [38; 4] [])) [1].
Definition w_large : NodeInfo :=
  MkNodeInfo (Some (MkNode (key_bytes (false, x02)) [38] [])) [1; 2].
Definition w_plain : NodeInfo :=
  MkNodeInfo (Some (MkNode (key_bytes (false, x03)) [39] [])) [1; 2; 3].

Definition w_graph : list (bytes * NodeInfo) :=
  [(key_bytes (true, x01), w_small); (key_bytes (false, x02), w_large);
   (key_bytes (false, x03), w_plain)].

#[export] Instance w_RoutesLnd : RoutesLnd ref_World := {|
  ListChannels _ _ w := (w, Ret (rw_channels w));
  GetNodeInfo v _ w := (w, ref_node w_graph v);
|}.

(** The last channel is with a node that is not in the graph. *)
Definition w_world : ref_World :=
  MkWorld [MkChannelInfo (key_bytes (true, x01)); MkChannelInfo (key_bytes (false, x02));
           MkChannelInfo (key_bytes (false, x03)); MkChannelInfo (key_bytes (false, x04))]
    w_graph [] None (Err ErrNoRouteFound) [x0a] [].

Lemma w_lookups : Forall (fun c => returns (ref_node w_graph (PubKeyBytes c))
  \/ exists m, ref_node w_graph (PubKeyBytes c) = Err (EStatus NotFound m)) (rw_channels w_world).
Proof. repeat (apply Forall_cons_2; [first [by left; eexists | by right; eexists]|]).
  apply Forall_nil_2.
Defined.

Lemma getRelayingPeers_spec_witness :
  exists peers, getRelayingPeers (createRelayCheck [38]) w_world = (w_world, Ret peers)
    /\ forall info, info ∈ peers <-> relays [38] info /\
         exists c, c ∈ rw_channels w_world /\ ref_node w_graph (PubKeyBytes c) = Ret info.
Proof.
  apply (getRelayingPeers_spec [38] (ref_node w_graph) (rw_channels w_world) w_world w_world);
    [done | done | done | exact w_lookups].
Defined.

Definition w_keyless : ref_World :=
  MkWorld (rw_channels w_world) w_graph [] None (Err ErrNoRouteFound) [] [].

Lemma w_parse v info node : ref_node w_graph v = Ret info -> ni_Node info = Some node ->
  returns (ParsePubKey (node_PubKey node)).
Proof.
  unfold w_graph. cbn [ref_node]. intros H Hn.
  repeat case_bool_decide; try discriminate H; injection H as <-; injection Hn as <-; by eexists.
Defined.

Definition w_key : PrivateKey := x0a.
Definition w_blinding : PrivateKey := x0b.
Definition w_generator : BlindedRouteGenerator := NewBlindedRouteGenerator (true, x09).

Lemma ReplyPath_generate_spec_witness :
  let candidate info := relays [38] info /\
    exists c, c ∈ rw_channels w_world /\ ref_node w_graph (PubKeyBytes c) = Ret info in
  (exists info node intro hs,
     candidate info /\ ni_Node info = Some node /\ ParsePubKey (node_PubKey node) = Ret intro
     /\ (forall other, candidate other -> len (ni_Channels other) <= len (ni_Channels info))
     /\ map NodePub hs = [intro; pubkey w_generator]
     /\ Forall2 carries hs (hop_data [intro; pubkey w_generator] None)
     /\ ReplyPath_generate w_generator [38] w_world
        = (w_keyless, wrap "sphinx blinded route" (BuildBlindedPath w_key hs)))
  \/ ((forall info, ~ candidate info)
      /\ exists e, ReplyPath_generate w_generator [38] w_world
                   = (w_world, Err e) /\ errors_Is e ErrNoRelayingPeers = true).
Proof.
  apply (ReplyPath_generate_spec w_generator [38] (ref_node w_graph)
           (rw_channels w_world) w_world w_world w_keyless w_key);
    [done | done | done | exact w_lookups | exact w_parse | done].
Defined.

(** A request along two hops to a blinded destination of one hop behind the
    second. *)
Definition w_dest (n : nat) : ReplyPath :=
  MkReplyPath (true, x05) (false, x06) (replicate n (MkBlindedHop (true, x07) (lit "blob"))).

Definition w_req (path : list (@PublicKey ref_Crypto)) (n : nat) : BlindedRouteRequest :=
  {| sessionKey := Some w_key; blindingKey := Some w_blinding; hops := path;
     replyPath := Some (MkReplyPath (true, x01) (false, x02) [MkBlindedHop (false, x03) (lit "r")]);
     blindedDestination := Some (w_dest n);
     finalPayloads := [MkFinalHopPayload 66 (lit "invoice"); MkFinalHopPayload 64 (lit "req")] |}.

Definition w_finals : list FinalHopPayload :=
  [MkFinalHopPayload 64 (lit "req"); MkFinalHopPayload 66 (lit "invoice")].

Definition w_path : list (@PublicKey ref_Crypto) := [(false, x04); (true, x05)].

Lemma w_req_valid path n : last path = Some (true, x05) -> valid_request (w_req path n).
Proof. intros H. constructor; try done; [by destruct path|]. by intros dest [= <-]. Qed.

Lemma CreateBlindedRoute_refuses_witness :
  validate (w_req w_path 1) = Ret tt
  /\ exists e, CreateBlindedRoute default_functions (w_req [(true, x05); (false, x04)] 1)
      = (w_req [(true, x05); (false, x04)] 1, Err e) /\ errors_Is e ErrNoIntroductionNode = true.
Proof.
  split; [by apply (CreateBlindedRoute_refuses default_functions), w_req_valid|].
  apply (CreateBlindedRoute_refuses default_functions (w_req [(true, x05); (false, x04)] 1)).
  intros V. discriminate (vr_intro _ V _ eq_refl).
Defined.

Lemma w_finals_ok data : u64 (len data) ->
  payload_ok (hopPayload data true (replyPath (w_req w_path 1)) w_finals).
Proof.
  intros H. constructor; [|done|..].
  - intros p [= <-]. split; [unfold len; cbn; lia|]. apply Forall_cons_2; [done | apply Forall_nil_2].
  - repeat (apply Forall_cons_2; [by split; [cbn; lia|]|]). apply Forall_nil_2.
  - repeat constructor.
Qed.

(** The path blinded for [w_req w_path n]. *)
Definition w_hops (n : nat) : list BlindedPathHop :=
  from_Ret [] (createPathToBlind (own_hops (w_req w_path n)) (request_blindedStart (w_req w_path n))
                 encodeBlindedData).
Definition w_blinded (n : nat) : BlindedPath :=
  from_Ret (MkBlindedPath (true, x00) (true, x00) [] []) (BuildBlindedPath w_blinding (w_hops n)).

Lemma w_blinded_ok n : createPathToBlind (own_hops (w_req w_path n))
    (request_blindedStart (w_req w_path n)) encodeBlindedData = Ret (w_hops n) ->
  BuildBlindedPath w_blinding (w_hops n) = Ret (w_blinded n).
Proof. intros E. unfold w_blinded. by destruct (w_hops n). Qed.

(** A destination of one hop, and one of 27 hops. *)
Lemma CreateBlindedRoute_spec_witness :
  (exists path,
    onion_for [(true, x04); (true, x07)]
      (onion_payloads (route_datas (w_blinded 1) (Hops (w_dest 1))) (replyPath (w_req w_path 1))
         w_finals) path
    /\ CreateBlindedRoute default_functions (w_req w_path 1)
       = (trim_hops (w_req w_path 1),
          Ret {| br_OnionMessage := NewOnionMessage (priv_PubKey w_blinding) (concat (map ref_layer path));
                 FirstNode := (false, x04) |}))
  /\ CreateBlindedRoute default_functions (w_req w_path 27)
     = (trim_hops (w_req w_path 27), Panic "index out of range").
Proof.
  split.
  - destruct (CreateBlindedRoute_spec (w_req w_path 1) w_key w_blinding (false, x04) w_finals)
      as (hs & Ehs & _ & _ & H);
      [by apply w_req_valid | done | done | done | done | apply Permutation_swap |].
    assert (hs = w_hops 1) as -> by (unfold w_hops; by rewrite Ehs).
    destruct (H (w_blinded 1)) as (_ & Hc & _).
    + by apply w_blinded_ok.
    + apply onion_payloads_ok; [|apply w_finals_ok]. apply (bool_decide_unpack _). vm_compute. exact I.
    + destruct Hc as (path & Hpath & Hc); [apply (bool_decide_unpack _); vm_compute; exact I|].
      exists path. split; [exact Hpath|]. by apply (Hc (concat (map ref_layer path))).
  - destruct (CreateBlindedRoute_spec (w_req w_path 27) w_key w_blinding (false, x04) w_finals)
      as (hs & Ehs & _ & _ & H);
      [by apply w_req_valid | done | done | done | done | apply Permutation_swap |].
    assert (hs = w_hops 27) as -> by (unfold w_hops; by rewrite Ehs).
    destruct (H (w_blinded 27)) as (_ & _ & Hc).
    + by apply w_blinded_ok.
    + apply onion_payloads_ok; [|apply w_finals_ok]. apply (bool_decide_unpack _). vm_compute. exact I.
    + apply Hc. apply (bool_decide_unpack _). vm_compute. exact I.
Defined.

(** A request over one hop, the introduction node. *)
Lemma CreateBlindedRoute_direct_witness :
  exists path,
    onion_for [(true, x07)] [{| omp_ReplyPath := None; omp_EncryptedData := lit "blob";
                                FinalHopPayloads := [] |}] path
    /\ CreateBlindedRoute default_functions (w_req [(true, x05)] 1)
       = (trim_hops (w_req [(true, x05)] 1),
          Ret {| br_OnionMessage := NewOnionMessage (false, x06) (concat (map ref_layer path));
                 FirstNode := (true, x05) |}).
Proof.
  destruct (CreateBlindedRoute_direct (w_req [(true, x05)] 1) w_key (w_dest 1) (true, x05))
    as (path & Hp & H); try done.
  - by apply w_req_valid.
  - by apply Forall_cons_2, Forall_nil_2.
  - apply (bool_decide_unpack _). vm_compute. exact I.
  - exists path. split; [exact Hp|]. by apply (H (concat (map ref_layer path))).
Defined.
