(* ===== verification/Messenger.v ===== *)
(** onionmsg/messenger.go, onionmsg/onion.go, onionmsg/node_ecdh.go and
    onionmsg/interface.go: the onion messenger - sending, receiving and
    forwarding onion messages, and the handlers registered for the payloads
    that are for our node. *)
From S2P Require Import Prelude Deps DepsRef Io LndDeps LndRef.
From S2P Require Import Stream Merkle Shared RouteBlinding OnionMessages OnionPayload Routes.

Definition lookupPeerBackoffDefault : Z := 1000000000.
Definition lookupPeerAttemptsDefault : Z := 5.
Definition defaultTimeout : Z := 15000000000.

Definition ErrNotStarted : error := ENamed "onionmsg.ErrNotStarted".
Definition ErrHandlerNotFound : error := ENamed "onionmsg.ErrHandlerNotFound".
Definition ErrHandlerRegistered : error := ENamed "onionmsg.ErrHandlerRegistered".
Definition ErrNoAddresses : error := ENamed "onionmsg.ErrNoAddresses".
Definition ErrNoConnection : error := ENamed "onionmsg.ErrNoConnection".
Definition ErrNoPath : error := ENamed "onionmsg.ErrNoPath".
Definition ErrFinalPayload : error := ENamed "onionmsg.ErrFinalPayload".
Definition ErrBadMessage : error := ENamed "onionmsg.ErrBadMessage".
Definition ErrBadOnionMsg : error := ENamed "onionmsg.ErrBadOnionMsg".
Definition ErrBadOnionBlob : error := ENamed "onionmsg.ErrBadOnionBlob".
Definition ErrNilPubkeyInRoute : error := ENamed "onionmsg.ErrNilPubkeyInRoute".
Definition ErrNoForwardingOnion : error := ENamed "onionmsg.ErrNoForwardingOnion".
Definition ErrNoNextNodeID : error := ENamed "onionmsg.ErrNoNextNodeID".
Definition ErrBothDest : error := ENamed "onionmsg.ErrBothDest".
Definition ErrNoDest : error := ENamed "onionmsg.ErrNoDest".
Definition ErrNoBlindedHops : error := ENamed "onionmsg.ErrNoBlindedHops".
Definition ErrShuttingDown : error := ENamed "onionmsg.ErrShuttingDown".
Definition ErrLNDShutdown : error := ENamed "onionmsg.ErrLNDShutdown".
Definition ErrNoEncryptedData : error := ENamed "onionmsg.ErrNoEncryptedData".
Definition ErrNoForwardingPayload : error := ENamed "onionmsg.ErrNoForwardingPayload".

(** A key locator of lnd's keychain. *)
Record KeyLocator := MkKeyLocator { Family : Z; Index : Z }.

(** The interfaces LndOnionMsg and LndOnionSigner: the calls to lnd.  The
    channels of SubscribeCustomMessages are the events of the loop below.
    [WaitBackoff d] is the select on [ctx.Done()] and [time.After(d)]: it
    fails with the error of the context. *)
Class OnionLnd (W : Type) `{Lndclient} := {
  SendCustomMessage : CustomMessage -> io W unit;
  SubscribeCustomMessages : io W unit;
  og_GetNodeInfo : bytes -> bool -> io W NodeInfo;
  ListPeers : io W (list Peer);
  Connect : bytes -> gostring -> bool -> io W unit;
  GetInfo_IdentityPubkey : io W bytes;
  QueryRoutes : QueryRoutesRequest -> io W (list Hop);
  WaitBackoff : Z -> io W unit;
}.

Class LndOnionSigner (W : Type) `{Crypto} := {
  KeyFamilyNodeKey : Z;
  DeriveSharedKey : PublicKey -> KeyLocator -> io W bytes;
}.

(** ** The node's key (node_ecdh.go) *)

Section NodeECDH.
Context {W : Type} `{CR : Crypto, LC : Lndclient, OL : !OnionLnd W, OS : !LndOnionSigner W}.

(** (r NodeECDH).ECDH *)
Definition ECDH (key : PublicKey) : io W bytes :=
  DeriveSharedKey key {| Family := KeyFamilyNodeKey; Index := 0 |}.

Definition NewNodeECDH : io W (SingleKeyECDH W) :=
  identity ← iwrap "get info failed" GetInfo_IdentityPubkey;
  key ← pure (wrap "could not parse node key" (ParsePubKey identity));
  mret {| ecdh_PubKey := key; ecdh_ECDH := ECDH |}.
End NodeECDH.

(** ** Sending *)

Section Sending.
Context {W : Type} `{CR : Crypto, TL : !Tlv, LW : !Lndwire, SP : !Sphinx, SO : !SphinxOps,
  KS : !Keys W, VX : !Vertices, LC : Lndclient, OL : !OnionLnd W, LN : Lnwire}.

Record SendMessageRequest := NewSendMessageRequest {
  sm_Peer : option PublicKey;
  sm_BlindedDestination : option ReplyPath;
  sm_ReplyPath : option ReplyPath;
  sm_FinalPayloads : list FinalHopPayload;
  DirectConnect : bool;
}.

(** (s SendMessageRequest).targetPeer *)
Definition targetPeer (s : SendMessageRequest) : option PublicKey :=
  match sm_BlindedDestination s with
  | None => sm_Peer s
  | Some dest => Some (FirstNodeID dest)
  end.

(** (s SendMessageRequest).Validate *)
Definition SendMessageRequest_Validate (s : SendMessageRequest) : outcome unit :=
  let clearDestSet := is_some (sm_Peer s) in
  let blindDestSet := is_some (sm_BlindedDestination s) in
  if clearDestSet && blindDestSet then Err ErrBothDest
  else if negb (clearDestSet || blindDestSet) then Err ErrNoDest
  else match sm_BlindedDestination s with
       | Some dest => if bool_decide (len (Hops dest) = 0) then Err ErrNoBlindedHops else Ret tt
       | None => Ret tt
       end.

Definition customOnionMessage (peer : PublicKey) (msg : OnionMessage) : outcome CustomMessage :=
  buf ← wrap "onion message encode" (OnionMessage_Encode msg);
  Ret {| cm_Peer := NewVertex peer; cm_MsgType := OnionMessageType; cm_Data := buf |}.

(** [route.NewVertex(peer)] on a pointer. *)
Definition peerVertex (peer : option PublicKey) : outcome bytes :=
  p ← deref peer; Ret (NewVertex p).

(** The loop over the peers of findPeer. *)
Fixpoint amongPeers (peer : option PublicKey) (peers : list Peer) : outcome bool :=
  match peers with
  | [] => Ret false
  | currentPeer :: rest =>
      vertex ← peerVertex peer;
      if bool_decide (peer_Pubkey currentPeer = vertex) then Ret true else amongPeers peer rest
  end.

(** (m Messenger).findPeer *)
Definition findPeer (peer : option PublicKey) : io W bool :=
  peers ← iwrap "list peers" ListPeers;
  pure (amongPeers peer peers).

(** The loop of lookupAndConnect: one look at the peers per attempt, and a
    wait between them. *)
Fixpoint waitForPeer (peer : option PublicKey) (backoff : Z) (attempts : nat) : io W unit :=
  match attempts with
  | O => pure (Err ErrNoConnection)
  | S attempts =>
      isPeer ← iopaque "find peer" (findPeer peer);
      if (isPeer : bool) then mret tt
      else (WaitBackoff backoff ;; waitForPeer peer backoff attempts)
  end.

(** (m Messenger).lookupAndConnect *)
Definition lookupAndConnect (backoff : Z) (attempts : nat) (peer : option PublicKey) : io W unit :=
  isPeer ← iwrap "find peer" (findPeer peer);
  if (isPeer : bool) then mret tt
  else
    vertex ← pure (peerVertex peer);
    info ← iwrap "could not lookup node" (og_GetNodeInfo vertex false);
    node ← pure (deref (ni_Node info));
    match node_Addresses node with
    | [] => pure (Err (EWrap "peer" ErrNoAddresses))
    | address :: _ =>
        iwrap "could not connect to peer" (Connect vertex address true) ;;
        waitForPeer peer backoff attempts
    end.

Definition queryRoutesRequest (vertex : bytes) : QueryRoutesRequest :=
  {| qr_PubKey := vertex; UseMissionControl := false; AmtMsat := 1000;
     FeeLimitMsat := MaxMilliSatoshi |}.

(** The loop over the hops of the route. *)
Definition routeHop (hop : Hop) : outcome PublicKey :=
  match hop_PubKey hop with
  | None => Err ErrNilPubkeyInRoute
  | Some key => wrap "hop" (ParsePubKey key)
  end.

Definition multiHopPath (peer : option PublicKey) : io W (list PublicKey) :=
  vertex ← pure (peerVertex peer);
  attempt (QueryRoutes (queryRoutesRequest vertex))
    (fun routeHops => pure (each routeHop routeHops))
    (fun err => if bool_decide (err = ErrNoRouteFound) then mret []
                else pure (Err (EWrap "query routes failed" err))).

(** (m Messenger).SendMessage *)
Definition SendMessage (backoff : Z) (attempts : nat) (req : SendMessageRequest) : io W unit :=
  session ← iwrap "could not get session key" NewPrivateKey;
  blinding ← iwrap "could not get blinding key" NewPrivateKey;
  let target := targetPeer req in
  path ← (if negb (DirectConnect req)
          then iwrap "could not find path" (multiHopPath target)
          else (iwrap "lookup and connect" (lookupAndConnect backoff attempts target) ;;
                target ← pure (deref target);
                mret [target]));
  if bool_decide (len path = 0) then pure (Err (EWrap "target" ErrNoPath))
  else
    let '(pathRequest, f) :=
      NewBlindedRouteRequest (Some session) (Some blinding) path (sm_ReplyPath req)
        (sm_BlindedDestination req) (sm_FinalPayloads req) in
    pathResponse ← pure (wrap "create blinded route" (CreateBlindedRoute f pathRequest).2);
    msg ← pure (wrap "could not create custom message"
      (customOnionMessage (FirstNode pathResponse) (br_OnionMessage pathResponse)));
    SendCustomMessage msg.
End Sending.

(** ** Receiving and forwarding *)

Section Receiving.
Context {W : Type} `{CR : Crypto, TL : !Tlv, LW : !Lndwire, SP : !Sphinx, SR : !SphinxRouter W,
  VX : !Vertices, LC : Lndclient, OL : !OnionLnd W, MO : MapOrder}.

(** A handler is given the reply path, the encrypted data and the value of
    the payload; it acts on the world, and may be a nil function. *)
Definition OnionMessageHandler : Type := option ReplyPath -> bytes -> bytes -> io W unit.
Abbreviation handlerMap := (gmap Z (option OnionMessageHandler)).

(** (m Messenger).processOnion *)
Definition processOnion (data : bytes) : io W (PublicKey * ProcessedPacket) :=
  '(onionMsg, _) ← pure (recast ErrBadMessage "decode" (OnionMessage_Decode data));
  onionPkt ← pure (recast ErrBadOnionBlob "decode" (OnionPacket_Decode (om_OnionBlob onionMsg)));
  processed ← iwrap "process packet"
    (ProcessOnionPacket onionPkt [] 0 (om_BlindingPoint onionMsg));
  mret (om_BlindingPoint onionMsg, processed).

Definition decryptBlobFunc (nodeKey : SingleKeyECDH W) (blindingPoint : PublicKey)
    (payload : option OnionMessagePayload) : io W BlindedRouteData :=
  match payload with
  | None => pure (Err ErrNoForwardingPayload)
  | Some payload =>
      if bool_decide (len (omp_EncryptedData payload) = 0) then pure (Err ErrNoEncryptedData)
      else
        decrypted ← iwrap "could not decrypt data blob"
          (DecryptBlindedData nodeKey blindingPoint (omp_EncryptedData payload));
        pure (wrap "could not decode data blob" (DecodeBlindedRouteData decrypted))
  end.

(** (m Messenger).forwardMessage *)
Definition forwardMessage (nodeKey : SingleKeyECDH W) (data : BlindedRouteData)
    (blindingPoint : PublicKey) (onionPacket : OnionPacket) : io W unit :=
  match NextNodeID data with
  | None => pure (Err ErrNoNextNodeID)
  | Some nextNodeID =>
      nextBlinding ← iwrap "could not calculate next ephemeral"
        (NextEphemeral nodeKey blindingPoint);
      let nextBlinding := default nextBlinding (NextBlindingOverride data) in
      packet ← pure (wrap "could not encode packet" (OnionPacket_Encode onionPacket));
      let onionMsg := NewOnionMessage nextBlinding packet in
      buf ← pure (wrap "could not encode onion message" (OnionMessage_Encode onionMsg));
      let customMsg := {| cm_Peer := NewVertex nextNodeID; cm_MsgType := OnionMessageType;
                          cm_Data := buf |} in
      iwrap "could not send message" (SendCustomMessage customMsg)
  end.

Record onionMessageKit := MkKit {
  kit_processOnion : bytes -> io W (PublicKey * ProcessedPacket);
  kit_decodePayload : bytes -> outcome OnionMessagePayload;
  kit_decryptDataBlob : PublicKey -> option OnionMessagePayload -> io W BlindedRouteData;
  (** a map that may be nil *)
  kit_handlers : option handlerMap;
  kit_forwardMessage : BlindedRouteData -> PublicKey -> OnionPacket -> io W unit;
}.

(** The loop over the final hop payloads. *)
Fixpoint deliverPayloads (handlers : handlerMap) (payload : OnionMessagePayload)
    (finals : list FinalHopPayload) : io W unit :=
  match finals with
  | [] => mret tt
  | extraData :: rest =>
      match handlers !! TLVType extraData with
      | None => deliverPayloads handlers payload rest
      | Some handler =>
          handler ← pure (deref handler);
          iwrap "handler for"
            (handler (omp_ReplyPath payload) (omp_EncryptedData payload) (fhp_Value extraData)) ;;
          deliverPayloads handlers payload rest
      end
  end.

Definition handleOnionMessage (msg : CustomMessage) (kit : onionMessageKit) : io W unit :=
  '(blinding, processedPacket) ← map_io (recast ErrBadOnionBlob "could not process onion packet")
    (kit_processOnion kit (cm_Data msg));
  let payloadBytes := hp_Payload (pp_Payload processedPacket) in
  payload ← pure (recast ErrBadOnionBlob "could not process payload"
    (kit_decodePayload kit payloadBytes));
  match Action processedPacket with
  | ExitNode =>
      match kit_handlers kit with
      | None => mret tt
      | Some handlers => deliverPayloads handlers payload (FinalHopPayloads payload)
      end
  | MoreHops =>
      if bool_decide (len (FinalHopPayloads payload) <> 0)
      then pure (Err (EWrap "unexpected final hop payloads" ErrFinalPayload))
      else match NextPacket processedPacket with
      | None => pure (Err ErrNoForwardingOnion)
      | Some next =>
          data ← iwrap "could not decrypt data blob"
            (kit_decryptDataBlob kit blinding (Some payload));
          kit_forwardMessage kit data blinding next
      end
  | Failure => pure (Err ErrBadMessage)
  | OtherProcessCode _ => mret tt
  end.

(** The kit of manageOnionMessages. *)
Definition messengerKit (nodeKey : SingleKeyECDH W) (handlers : handlerMap) : onionMessageKit := {|
  kit_processOnion := processOnion;
  kit_decodePayload := DecodeOnionMessagePayload;
  kit_decryptDataBlob := decryptBlobFunc nodeKey;
  kit_handlers := Some handlers;
  kit_forwardMessage := forwardMessage nodeKey;
|}.

(** ** Registration *)

(** A registerHandler without its channel. *)
Record registerHandler := newRegisterHandler {
  rh_tlvType : Z;
  rh_handler : option OnionMessageHandler;
  rh_deregister : bool;
}.

(** (m Messenger).registerHandler: the map after the call, and its error. *)
Definition Messenger_registerHandler (handlers : handlerMap) (request : registerHandler)
    : handlerMap * option error :=
  let ok := is_some (handlers !! rh_tlvType request) in
  if rh_deregister request then
    if negb ok then (handlers, Some (EWrap "type" ErrHandlerNotFound))
    else (delete (rh_tlvType request) handlers, None)
  else if ok then (handlers, Some (EWrap "type" ErrHandlerRegistered))
  else (<[rh_tlvType request := rh_handler request]> handlers, None).

(** ** The event loop *)

(** What the select of manageOnionMessages receives; a registration comes with
    the number of the call that waits for the answer. *)
Inductive event :=
| EvRegister (call : nat) (request : registerHandler)
| EvMessage (msg : CustomMessage)
| EvMessagesClosed
| EvError (err : error)
| EvErrorsClosed
| EvQuit.

(** What an iteration of the loop leaves: the handlers, the answer on the error
    channel of a registration ([None]: the channel is closed), and the error
    the loop ends with, if it ends. *)
Record iteration := MkIteration {
  it_handlers : handlerMap;
  it_answer : option (nat * option error);
  it_exit : option error;
}.

Definition handleEvent (nodeKey : SingleKeyECDH W) (handlers : handlerMap) (ev : event)
    : io W iteration :=
  match ev with
  | EvRegister call request =>
      let '(handlers, err) := Messenger_registerHandler handlers request in
      mret (MkIteration handlers (Some (call, err)) None)
  | EvMessage msg =>
      if negb (bool_decide (cm_MsgType msg = OnionMessageType))
      then mret (MkIteration handlers None None)
      else
        attempt (handleOnionMessage msg (messengerKit nodeKey handlers))
          (fun _ => mret (MkIteration handlers None None))
          (* every error is logged *)
          (fun _ => mret (MkIteration handlers None None))
  | EvMessagesClosed => mret (MkIteration handlers None (Some (EWrap "messages" ErrLNDShutdown)))
  | EvError err => mret (MkIteration handlers None (Some (EWrap "message subscription failed" err)))
  | EvErrorsClosed =>
      mret (MkIteration handlers None (Some (EWrap "message errors" ErrLNDShutdown)))
  | EvQuit => mret (MkIteration handlers None (Some ErrShuttingDown))
  end.
End Receiving.
Arguments OnionMessageHandler W {_}.
Abbreviation handlerMap W := (gmap Z (option (OnionMessageHandler W))).

(** ** Facts *)

Section ReceivingFacts.
Context {W : Type} `{CR : Crypto, CL : !CryptoLaws, TL : !Tlv, TLL : !TlvLaws, LW : !Lndwire,
  LWL : !LndwireLaws, SP : !Sphinx, SR : !SphinxRouter W, VX : !Vertices, LC : Lndclient,
  OL : !OnionLnd W, MO : MapOrder}.

(** The code outside the repository that receiving relies on does not panic. *)
Record calm_env (nodeKey : SingleKeyECDH W) : Prop := {
  ce_process pkt data n p : calm (ProcessOnionPacket pkt data n p);
  ce_next p : calm (NextEphemeral nodeKey p);
  ce_decrypt p b : calm (DecryptBlindedData nodeKey p b);
  ce_send msg : calm (SendCustomMessage msg);
  ce_encode pkt : settles (OnionPacket_Encode pkt);
  ce_decode b : settles (OnionPacket_Decode b);
}.

(** Handlers that are functions and do not panic. *)
Definition calm_handlers (handlers : handlerMap W) : Prop :=
  forall t h, handlers !! t = Some h ->
    exists f, h = Some f /\ forall reply data value, calm (f reply data value).

Lemma processOnion_calm nodeKey data : calm_env nodeKey -> calm (processOnion data).
Proof.
  intros E. apply calm_bind; [apply calm_pure, settles_recast, OnionMessage_Decode_settles|].
  intros [msg rest]. apply calm_bind; [apply calm_pure, settles_recast, E|]. intros pkt.
  apply calm_bind; [apply calm_iwrap, E|]. intros p. apply calm_mret.
Qed.

Lemma decryptBlobFunc_calm nodeKey p payload : calm_env nodeKey ->
  calm (decryptBlobFunc nodeKey p payload).
Proof.
  intros E. destruct payload as [payload|]; [|apply calm_pure, settles_Err].
  unfold decryptBlobFunc. case_bool_decide; [apply calm_pure, settles_Err|].
  apply calm_bind; [apply calm_iwrap, E|]. intros b.
  apply calm_pure, settles_wrap, DecodeBlindedRouteData_settles.
Qed.

Lemma forwardMessage_calm nodeKey data p pkt : calm_env nodeKey ->
  calm (forwardMessage nodeKey data p pkt).
Proof.
  intros E. unfold forwardMessage. destruct (NextNodeID data); [|apply calm_pure, settles_Err].
  apply calm_bind; [apply calm_iwrap, E|]. intros nb.
  apply calm_bind; [apply calm_pure, settles_wrap, E|]. intros b.
  rewrite OnionMessage_Encode_bytes.
  apply calm_bind; [apply calm_pure, settles_Ret|]. intros buf. apply calm_iwrap, E.
Qed.

Lemma deliverPayloads_calm handlers payload finals : calm_handlers handlers ->
  calm (deliverPayloads handlers payload finals).
Proof.
  intros H. induction finals as [|f finals IH]; [apply calm_mret|]. cbn [deliverPayloads].
  destruct (handlers !! TLVType f) as [h|] eqn:E; [|done].
  destruct (H _ _ E) as (g & -> & Hg).
  assert (calm (iwrap "handler for" (g (omp_ReplyPath payload) (omp_EncryptedData payload) (fhp_Value f)) ;;
                deliverPayloads handlers payload finals)) as C; [|exact C].
  apply calm_bind; [by apply calm_iwrap | done].
Qed.

Lemma handleOnionMessage_calm nodeKey handlers msg :
  calm_env nodeKey -> calm_handlers handlers ->
  calm (handleOnionMessage msg (messengerKit nodeKey handlers)).
Proof.
  intros E H. unfold handleOnionMessage. cbn [messengerKit kit_processOnion kit_decodePayload
    kit_handlers kit_decryptDataBlob kit_forwardMessage].
  apply calm_bind; [apply calm_map; [apply settles_recast | by eapply processOnion_calm]|].
  intros [blinding packet].
  apply calm_bind; [apply calm_pure, settles_recast, DecodeOnionMessagePayload_settles|].
  intros payload. destruct (Action packet); [by apply deliverPayloads_calm| |
    apply calm_pure, settles_Err | apply calm_mret].
  case_bool_decide; [apply calm_pure, settles_Err|].
  destruct (NextPacket packet); [|apply calm_pure, settles_Err].
  apply calm_bind; [by apply calm_iwrap, decryptBlobFunc_calm|]. intros data.
  by apply forwardMessage_calm.
Qed.

(** C23: No custom message, whatever its bytes, makes the messenger panic or
    end: with handlers that do not panic, the loop goes on with the same
    handlers, whether the message was delivered, forwarded or refused. *)
Theorem messages_survive (nodeKey : SingleKeyECDH W) (handlers : handlerMap W) (msg : CustomMessage)
    (w : W) :
  calm_env nodeKey -> calm_handlers handlers ->
  exists w', handleEvent nodeKey handlers (EvMessage msg) w
             = (w', Ret (MkIteration handlers None None)).
Proof.
  intros E H. cbn [handleEvent]. case_bool_decide; cbn [negb]; [|by exists w].
  unfold attempt. pose proof (handleOnionMessage_calm nodeKey handlers msg E H w) as C.
  destruct (handleOnionMessage msg (messengerKit nodeKey handlers) w) as [w' o].
  destruct C as [[? Ho]|[? Ho]]; cbn in Ho; subst; by exists w'.
Qed.

(** Running the handlers of the payloads, one after the other. *)
Fixpoint run_all (runs : list (io W unit)) : io W unit :=
  match runs with
  | [] => mret tt
  | m :: rest => iwrap "handler for" m ;; run_all rest
  end.

(** The calls a payload makes: each final payload whose type has a handler, in
    the order of the payload. *)
Definition handler_runs (handlers : handlerMap W) (o : OnionMessagePayload) : list (io W unit) :=
  omap (fun f => match handlers !! TLVType f with
                 | Some (Some h) => Some (h (omp_ReplyPath o) (omp_EncryptedData o) (fhp_Value f))
                 | _ => None
                 end) (FinalHopPayloads o).

Lemma deliverPayloads_runs handlers o w : (forall t, handlers !! t <> Some None) ->
  deliverPayloads handlers o (FinalHopPayloads o) w = run_all (handler_runs handlers o) w.
Proof.
  intros H. unfold handler_runs. revert w.
  induction (FinalHopPayloads o) as [|f finals IH]; intros w; [done|].
  cbn [deliverPayloads omap list_omap]. destruct (handlers !! TLVType f) as [[h|]|] eqn:E.
  - change ((iwrap "handler for" (h (omp_ReplyPath o) (omp_EncryptedData o) (fhp_Value f)) ;;
      deliverPayloads handlers o finals) w = run_all (h (omp_ReplyPath o) (omp_EncryptedData o)
        (fhp_Value f) :: omap (fun f => match handlers !! TLVType f with
                 | Some (Some h) => Some (h (omp_ReplyPath o) (omp_EncryptedData o) (fhp_Value f))
                 | _ => None
                 end) finals) w).
    cbn [run_all]. unfold mbind, io_bind. destruct (map_io _ _ w) as [w' []]; done || apply IH.
  - by destruct (H (TLVType f)).
  - apply IH.
Qed.
End ReceivingFacts.

Section ReceivingProperties.
Context {W : Type} `{CR : Crypto, CL : !CryptoLaws, TL : !Tlv, TLL : !TlvLaws, LW : !Lndwire,
  LWL : !LndwireLaws, SP : !Sphinx, SR : !SphinxRouter W, VX : !Vertices, VXL : !VerticesLaws,
  LC : Lndclient, OL : !OnionLnd W, MO : MapOrder, MOL : !MapOrderLaws}.

Lemma processOnion_ok m data pkt packet w w1 :
  OnionMessage_Encode m = Ret data -> len (om_OnionBlob m) < 65536 ->
  OnionPacket_Decode (om_OnionBlob m) = Ret pkt ->
  ProcessOnionPacket pkt [] 0 (om_BlindingPoint m) w = (w1, Ret packet) ->
  processOnion data w = (w1, Ret (om_BlindingPoint m, packet)).
Proof.
  intros E Hl Ep Hp. unfold processOnion.
  pose proof (OnionMessage_Decode_ok m data [] Hl E) as D. rewrite app_nil_r in D.
  rewrite (io_bind_pure _ _ _ (m, [])) by (by rewrite D).
  rewrite (io_bind_pure _ _ _ pkt) by (by rewrite Ep).
  by rewrite (io_bind_Ret _ _ _ _ _ (iwrap_Ret _ _ _ _ _ Hp)).
Qed.

(** The bytes of a message carry an onion that peels to this packet. *)
Definition peels (msg : CustomMessage) (w w1 : W) (blinding : PublicKey) (packet : ProcessedPacket)
    : Prop :=
  exists m pkt, OnionMessage_Encode m = Ret (cm_Data msg) /\ om_BlindingPoint m = blinding
    /\ len (om_OnionBlob m) < 65536 /\ OnionPacket_Decode (om_OnionBlob m) = Ret pkt
    /\ ProcessOnionPacket pkt [] 0 blinding w = (w1, Ret packet).

(** What a message is made of once it is peeled: the payload decodes. *)
Lemma handle_peeled nodeKey handlers msg w w1 blinding packet o :
  peels msg w w1 blinding packet ->
  DecodeOnionMessagePayload (hp_Payload (pp_Payload packet)) = Ret o ->
  Action packet = ExitNode -> (forall t, handlers !! t <> Some None) ->
  handleOnionMessage msg (messengerKit nodeKey handlers) w = run_all (handler_runs handlers o) w1.
Proof.
  intros (m & pkt & Em & <- & Hl & Ep & Hp) Ho Ha Hh.
  unfold handleOnionMessage. cbn [messengerKit kit_processOnion kit_decodePayload kit_handlers].
  pose proof (processOnion_ok _ _ _ _ _ _ Em Hl Ep Hp) as Eo.
  rewrite (io_bind_Ret _ _ _ _ _ (map_io_Ret (recast _ _) _ _ _ _ Eo)).
  rewrite (io_bind_pure _ _ _ o), Ha by by rewrite Ho. by apply deliverPayloads_runs.
Qed.

(** A peeled message for another node, whose data decrypts. *)
Lemma handle_forwarded nodeKey handlers msg w w1 w2 w3 blinding packet next data payload route
    nextNode nextBlinding blob :
  peels msg w w1 blinding packet -> Action packet = MoreHops -> NextPacket packet = Some next ->
  DecodeOnionMessagePayload (hp_Payload (pp_Payload packet))
    = Ret (hopPayload data false None []) -> data <> [] ->
  DecryptBlindedData nodeKey blinding data w1 = (w2, Ret payload) ->
  DecodeBlindedRouteData payload = Ret route -> NextNodeID route = Some nextNode ->
  NextEphemeral nodeKey blinding w2 = (w3, Ret nextBlinding) ->
  OnionPacket_Encode next = Ret blob ->
  exists out, handleOnionMessage msg (messengerKit nodeKey handlers) w
              = iwrap "could not send message" (SendCustomMessage out) w3
    /\ cm_Peer out = SerializeCompressed nextNode /\ cm_MsgType out = OnionMessageType
    /\ OnionMessage_Encode (NewOnionMessage (default nextBlinding (NextBlindingOverride route)) blob)
       = Ret (cm_Data out).
Proof.
  intros (m & pkt & Em & <- & Hl & Ep & Hp) Ha Hn Ho Hd Edec Er Enn Ene Eb. eexists. split.
  - unfold handleOnionMessage. cbn [messengerKit kit_processOnion kit_decodePayload kit_handlers
      kit_decryptDataBlob kit_forwardMessage].
    pose proof (processOnion_ok _ _ _ _ _ _ Em Hl Ep Hp) as Eo.
    rewrite (io_bind_Ret _ _ _ _ _ (map_io_Ret (recast _ _) _ _ _ _ Eo)).
    rewrite (io_bind_pure _ _ _ (hopPayload data false None [])), Ha by by rewrite Ho.
    rewrite bool_decide_false by (unfold len; cbn; lia). rewrite Hn.
    assert (decryptBlobFunc nodeKey (om_BlindingPoint m) (Some (hopPayload data false None [])) w1
            = (w2, Ret route)) as Ede.
    { unfold decryptBlobFunc. cbn [omp_EncryptedData hopPayload].
      rewrite bool_decide_false by (by intros ?%len_nil_inv).
      rewrite (io_bind_Ret _ _ _ _ _ (iwrap_Ret _ _ _ _ _ Edec)). apply pure_Ret. by rewrite Er. }
    rewrite (io_bind_Ret _ _ _ _ _ (iwrap_Ret _ _ _ _ _ Ede)). unfold forwardMessage. rewrite Enn.
    rewrite (io_bind_Ret _ _ _ _ _ (iwrap_Ret _ _ _ _ _ Ene)). rewrite Eb.
    rewrite (io_bind_pure _ _ _ blob) by done. rewrite OnionMessage_Encode_bytes. reflexivity.
  - cbn. split; [apply NewVertex_bytes|]. split; [done|]. apply OnionMessage_Encode_bytes.
Qed.

(** C22: An onion that ends at our node hands each final payload whose type has
    a handler to that handler, with the reply path and the encrypted data, in
    the order of the types, whatever order the sender gave them in; other
    payloads are skipped, as are those without a value that are of neither
    namespace type, and the first handler that fails ends the delivery. *)
Theorem handleOnionMessage_exit nodeKey handlers msg w w1 blinding packet given o :
  peels msg w w1 blinding packet -> Action packet = ExitNode ->
  EncodeOnionMessagePayload given = Ret (hp_Payload (pp_Payload packet)) ->
  payload_ok o -> omp_ReplyPath given = omp_ReplyPath o ->
  omp_EncryptedData given = omp_EncryptedData o ->
  Permutation (FinalHopPayloads given) (FinalHopPayloads o) ->
  (forall t, handlers !! t <> Some None) ->
  handleOnionMessage msg (messengerKit nodeKey handlers) w
  = run_all (handler_runs handlers (unmarked o)) w1.
Proof.
  intros Hp Ha Eg Wf Er Ed P Hh.
  rewrite (EncodeOnionMessagePayload_wire o) in Eg by (try done; apply Wf). injection Eg as Eg.
  apply (handle_peeled _ _ _ _ _ blinding packet); try done. rewrite <- Eg.
  by apply DecodeOnionMessagePayload_wire.
Qed.

(** C21: An onion with more hops is forwarded: the next packet goes to the node
    named in the encrypted data, as an onion message whose blinding point is
    the override in the data when there is one and the next ephemeral key when
    not. *)
Theorem handleOnionMessage_forward nodeKey handlers msg w w1 w2 w3 blinding packet next data
    payload route nextNode nextBlinding blob :
  peels msg w w1 blinding packet -> Action packet = MoreHops -> NextPacket packet = Some next ->
  payload_wf (hopPayload data false None []) -> data <> [] ->
  EncodeOnionMessagePayload (hopPayload data false None [])
    = Ret (hp_Payload (pp_Payload packet)) ->
  DecryptBlindedData nodeKey blinding data w1 = (w2, Ret payload) ->
  EncodeBlindedRouteData route = Ret payload -> NextNodeID route = Some nextNode ->
  NextEphemeral nodeKey blinding w2 = (w3, Ret nextBlinding) ->
  OnionPacket_Encode next = Ret blob ->
  exists out, handleOnionMessage msg (messengerKit nodeKey handlers) w
              = iwrap "could not send message" (SendCustomMessage out) w3
    /\ cm_Peer out = SerializeCompressed nextNode /\ cm_MsgType out = OnionMessageType
    /\ OnionMessage_Encode (NewOnionMessage (default nextBlinding (NextBlindingOverride route)) blob)
       = Ret (cm_Data out).
Proof.
  intros Hp Ha Hn Wf Hd Eg Edec Er Enn Ene Eb.
  rewrite (EncodeOnionMessagePayload_wire (hopPayload data false None [])) in Eg
    by (try done; apply Wf). injection Eg as Eg.
  apply (handle_forwarded nodeKey handlers msg w w1 w2 w3 blinding packet next data payload route
           nextNode nextBlinding blob); try done.
  - rewrite <- Eg.
    apply DecodeOnionMessagePayload_raws; [done | apply payload_raws_wf, Wf | by apply kept_all].
  - rewrite EncodeBlindedRouteData_wire in Er. injection Er as <-.
    apply DecodeBlindedRouteData_raws; [apply field_raws_wf, brd_fields_wf|].
    apply filter_all, (field_raws_known _ _ (brd_fields_wf route) (brd_fits route)).
Qed.
End ReceivingProperties.

(** ** Properties of sending *)

Section SendingFacts.
Context {W : Type} `{CR : Crypto, CL : !CryptoLaws, TL : !Tlv, TLL : !TlvLaws, LW : !Lndwire,
  LWL : !LndwireLaws, SP : !Sphinx, SO : !SphinxOps, KS : !Keys W, VX : !Vertices,
  VXL : !VerticesLaws, LC : Lndclient, OL : !OnionLnd W, LN : Lnwire}.

Lemma amongPeers_spec p peers :
  amongPeers (Some p) peers = Ret (bool_decide (SerializeCompressed p ∈ map peer_Pubkey peers)).
Proof.
  induction peers as [|q peers IH]; [done|]. cbn [amongPeers peerVertex deref mbind outcome_bind map].
  rewrite NewVertex_bytes, IH.
  destruct (bool_decide (peer_Pubkey q = SerializeCompressed p)) eqn:H.
  - apply bool_decide_eq_true in H. rewrite bool_decide_true; [done|]. apply elem_of_cons. by left.
  - apply bool_decide_eq_false in H. f_equal. apply bool_decide_ext. rewrite elem_of_cons.
    split; [by right|]. by intros [?|?].
Qed.

(** One look at the peers: who is connected, and the world after. *)
Definition sees (p : PublicKey) (w w' : W) (connected : bool) : Prop :=
  exists peers, ListPeers w = (w', Ret peers)
    /\ connected = bool_decide (SerializeCompressed p ∈ map peer_Pubkey peers).

Lemma findPeer_sees p w w' b : sees p w w' b -> findPeer (Some p) w = (w', Ret b).
Proof.
  intros (peers & E & ->). unfold findPeer.
  rewrite (io_bind_Ret _ _ _ _ _ (iwrap_Ret _ _ _ _ _ E)). unfold pure. by rewrite amongPeers_spec.
Qed.

(** [n] looks that do not see the peer, each followed by a wait. *)
Inductive unseen (p : PublicKey) (backoff : Z) : nat -> W -> W -> Prop :=
| unseen_O w : unseen p backoff 0 w w
| unseen_S n w w1 w2 w3 : sees p w w1 false -> WaitBackoff backoff w1 = (w2, Ret tt) ->
    unseen p backoff n w2 w3 -> unseen p backoff (S n) w w3.

Lemma waitForPeer_unseen p backoff n attempts w w' : unseen p backoff n w w' ->
  (n <= attempts)%nat ->
  waitForPeer (Some p) backoff attempts w = waitForPeer (Some p) backoff (attempts - n) w'.
Proof.
  intros U. revert attempts. induction U as [w|n w w1 w2 w3 Hs Hw U IH]; intros attempts Hn.
  - by rewrite Nat.sub_0_r.
  - destruct attempts as [|attempts]; [lia|]. cbn [waitForPeer Nat.sub].
    assert (iopaque "find peer" (findPeer (Some p)) w = (w1, Ret false)) as E.
    { unfold map_io. by rewrite (findPeer_sees _ _ _ _ Hs). }
    rewrite (io_bind_Ret _ _ _ _ _ E), (io_bind_Ret _ _ _ _ _ Hw). apply IH. lia.
Qed.

(** C36: A peer we are connected to is not connected to again.  Otherwise the
    first advertised address is dialled (ErrNoAddresses without one), and then
    the peers are listed at most [attempts] times, with a wait after each
    look that does not see the peer: the first look that does ends the call,
    and when none does it fails with ErrNoConnection.  This is for a node that the
    graph has an announcement of; without one the call panics. *)
Theorem lookupAndConnect_spec p backoff attempts w w1 connected :
  sees p w w1 connected ->
  (connected = true -> lookupAndConnect backoff attempts (Some p) w = (w1, Ret tt))
  /\ (connected = false -> forall w2 info node,
      og_GetNodeInfo (SerializeCompressed p) false w1 = (w2, Ret info) ->
      ni_Node info = Some node ->
      (node_Addresses node = [] ->
       lookupAndConnect backoff attempts (Some p) w = (w2, Err (EWrap "peer" ErrNoAddresses)))
      /\ (forall address more w3, node_Addresses node = address :: more ->
          Connect (SerializeCompressed p) address true w2 = (w3, Ret tt) ->
          (forall n w4 w5, (n < attempts)%nat -> unseen p backoff n w3 w4 -> sees p w4 w5 true ->
             lookupAndConnect backoff attempts (Some p) w = (w5, Ret tt))
          /\ (forall w4, unseen p backoff attempts w3 w4 ->
             lookupAndConnect backoff attempts (Some p) w = (w4, Err ErrNoConnection)))).
Proof.
  intros Hs. unfold lookupAndConnect. apply findPeer_sees in Hs.
  rewrite (io_bind_Ret _ _ _ _ _ (iwrap_Ret _ _ _ _ _ Hs)).
  split; [by intros ->|]. intros -> w2 info node Hi Hn.
  rewrite (io_bind_pure _ _ _ (SerializeCompressed p)) by (cbn; by rewrite NewVertex_bytes).
  rewrite (io_bind_Ret _ _ _ _ _ (iwrap_Ret _ _ _ _ _ Hi)).
  rewrite (io_bind_pure _ _ _ node) by (by rewrite Hn).
  split; [by intros ->|]. intros address more w3 -> Hc.
  rewrite (io_bind_Ret _ _ _ _ _ (iwrap_Ret _ _ _ _ _ Hc)). split.
  - intros n w4 w5 Hlt U Hs'. rewrite (waitForPeer_unseen _ _ _ _ _ _ U) by lia.
    destruct (attempts - n)%nat as [|k] eqn:Ek; [lia|]. cbn [waitForPeer].
    apply findPeer_sees in Hs'.
    rewrite (io_bind_Ret _ _ _ _ _ (map_io_Ret (opaque _) _ _ _ _ Hs')). done.
  - intros w4 U. rewrite (waitForPeer_unseen _ _ _ _ _ _ U) by lia. by rewrite Nat.sub_diag.
Qed.

(** A graph entry without the node's announcement, which the relay check of
    package routes allows for, makes lookupAndConnect panic. *)
Theorem lookupAndConnect_no_node p backoff attempts w w1 w2 info :
  sees p w w1 false -> og_GetNodeInfo (SerializeCompressed p) false w1 = (w2, Ret info) ->
  ni_Node info = None ->
  lookupAndConnect backoff attempts (Some p) w = (w2, Panic "nil pointer dereference").
Proof.
  intros Hs Hi Hn. unfold lookupAndConnect. apply findPeer_sees in Hs.
  rewrite (io_bind_Ret _ _ _ _ _ (iwrap_Ret _ _ _ _ _ Hs)).
  rewrite (io_bind_pure _ _ _ (SerializeCompressed p)) by (cbn; by rewrite NewVertex_bytes).
  rewrite (io_bind_Ret _ _ _ _ _ (iwrap_Ret _ _ _ _ _ Hi)), Hn. done.
Qed.

(** A response of CreateBlindedRoute is for the first hop of the request. *)
Lemma CreateBlindedRoute_first r r' resp :
  CreateBlindedRoute default_functions r = (r', Ret resp) ->
  head (hops r) = Some (FirstNode resp).
Proof.
  unfold CreateBlindedRoute. destruct (validate r) as [u|e|s|] eqn:V; try done. cbn [wrap].
  destruct (hops r) as [|h hs] eqn:Eh; [done|]. cbn [index lookup list_lookup head].
  assert (forall f r', routeToHops f r' h = Ret resp -> FirstNode resp = h) as Hroute.
  { intros f q H. unfold routeToHops in H. go_inv. done. }
  destruct (blindedDestination r) as [dest|] eqn:Ed.
  2: { intros [= _ H]. by rewrite (Hroute _ _ H). }
  case_bool_decide as Hl; intros [= _ H]; [|by rewrite (Hroute _ _ H)].
  assert (hs = []) as ->.
  { apply len_nil_inv in Hl. cbn in Hl. rewrite Eh in Hl. destruct hs; [done|]. done. }
  cbn [f_directToBlinded default_functions] in H. unfold directToBlinded in H.
  change (blindedDestination (trim_hops r)) with (blindedDestination r) in H.
  rewrite Ed in H. cbn [deref mbind outcome_bind] in H. go_inv. cbn [FirstNode].
  unfold validate in V. rewrite Eh, Ed in V. case_bool_decide; [done|].
  destruct (sessionKey r); [|done]. destruct (blindingKey r); [|done].
  cbn [index lookup list_lookup length Nat.sub mbind outcome_bind] in V.
  case_bool_decide as Hi; cbn in V; [|done]. by apply SerializeCompressed_inj in Hi as ->.
Qed.

Lemma multiHopPath_inv peer w w' path : multiHopPath peer w = (w', Ret path) -> path <> [] ->
  exists target route, peer = Some target
    /\ QueryRoutes (queryRoutesRequest (SerializeCompressed target)) w = (w', Ret route)
    /\ Forall2 (fun hop p => exists key, hop_PubKey hop = Some key /\ ParsePubKey key = Ret p)
         route path.
Proof.
  unfold multiHopPath. destruct peer as [target|]; [|done].
  rewrite (io_bind_pure _ _ _ (SerializeCompressed target)) by (cbn; by rewrite NewVertex_bytes).
  intros H Hne. exists target. unfold attempt in H.
  destruct (QueryRoutes _ w) as [w1 [route|e|s|]] eqn:Q; try done.
  - unfold pure in H. injection H as -> H. exists route. split; [done|]. split; [done|].
    apply each_Forall2 in H. apply (Forall2_impl _ _ _ _ H). intros hop p. unfold routeHop.
    destruct (hop_PubKey hop) as [key|]; [|done]. intros Hp%wrap_Ret_inv. by exists key.
  - case_bool_decide; [|done]. by injection H as _ <-.
Qed.

(** When SendMessage returns without an error it has sent one custom
    message, last of all: an onion message that CreateBlindedRoute made with
    two new keys, sent to the first hop of the path - the target itself when a
    direct connection was asked for and made, and otherwise the route that lnd
    found to it. *)
Theorem SendMessage_sends backoff attempts (req : SendMessageRequest) w w' :
  SendMessage backoff attempts req w = (w', Ret tt) ->
  exists target sk bk w1 w2 w3 first path msg,
    targetPeer req = Some target
    /\ NewPrivateKey w = (w1, Ret sk) /\ NewPrivateKey w1 = (w2, Ret bk)
    /\ (if DirectConnect req
        then path = [] /\ first = target
             /\ lookupAndConnect backoff attempts (Some target) w2 = (w3, Ret tt)
        else exists route, QueryRoutes (queryRoutesRequest (SerializeCompressed target)) w2
                           = (w3, Ret route)
             /\ Forall2 (fun hop p => exists key, hop_PubKey hop = Some key
                                                  /\ ParsePubKey key = Ret p) route (first :: path))
    /\ SendCustomMessage msg w3 = (w', Ret tt)
    /\ cm_Peer msg = SerializeCompressed first /\ cm_MsgType msg = OnionMessageType
    /\ exists r' resp,
       CreateBlindedRoute default_functions
         {| sessionKey := Some sk; blindingKey := Some bk; hops := first :: path;
            replyPath := sm_ReplyPath req; blindedDestination := sm_BlindedDestination req;
            finalPayloads := sm_FinalPayloads req |} = (r', Ret resp)
       /\ OnionMessage_Encode (br_OnionMessage resp) = Ret (cm_Data msg).
Proof.
  intros H. unfold SendMessage in H. io_inv. rename x into sk, x0 into bk, x1 into path.
  case_bool_decide as Hl; [done|].
  assert (path <> []) as Hne by (intros ->; done).
  cbn [NewBlindedRouteRequest] in H. io_inv. go_inv. rename x into resp, x0 into msg.
  match type of E2 with context [CreateBlindedRoute _ ?r] => set (r0 := r) in E2 end.
  destruct (CreateBlindedRoute default_functions r0) as [r' o] eqn:Ec. cbn in E2. subst o.
  pose proof (CreateBlindedRoute_first _ _ _ Ec) as Hf. cbn [hops r0] in Hf.
  destruct path as [|first path]; [done|]. injection Hf as ->.
  unfold customOnionMessage in E3. go_inv.
  assert (exists target, targetPeer req = Some target
    /\ if DirectConnect req
       then path = [] /\ FirstNode resp = target
            /\ lookupAndConnect backoff attempts (Some target) w1 = (w2, Ret tt)
       else exists route, QueryRoutes (queryRoutesRequest (SerializeCompressed target)) w1
                          = (w2, Ret route)
            /\ Forall2 (fun hop p => exists key, hop_PubKey hop = Some key
                                       /\ ParsePubKey key = Ret p) route (FirstNode resp :: path))
    as (target & Ht & Hpath).
  { destruct (DirectConnect req); cbn [negb] in E1; io_inv.
    - destruct (targetPeer req) as [target|]; [|done]. exists target. split; [done|].
      injection E1 as <- <- <-. injection E4 as <-. by destruct x0.
    - by destruct (multiHopPath_inv _ _ _ _ E1 Hne) as (target & route & -> & HQ & HF); eauto. }
  exists target, sk, bk, w0, w1, w2, (FirstNode resp), path. eexists. repeat (split; [done|]).
  split; [apply NewVertex_bytes|]. split; [done|].
  exists r', resp. split; [exact Ec | done].
Qed.
End SendingFacts.

(** ** Witnesses *)

(** The world of LndRef.v as lnd: a peer that is dialled is connected after the
    waits it takes. *)
Definition set_sent (w : ref_World) (sent : list CustomMessage) : ref_World :=
  MkWorld (rw_channels w) (rw_graph w) (rw_peers w) (rw_connecting w) (rw_route w) (rw_keys w) sent.
Definition set_peers (w : ref_World) (peers : list Peer) (connecting : option (nat * Peer))
    : ref_World :=
  MkWorld (rw_channels w) (rw_graph w) peers connecting (rw_route w) (rw_keys w) (rw_sent w).

#[export] Instance w_OnionLnd : OnionLnd ref_World := {|
  SendCustomMessage msg w := (set_sent w (rw_sent w ++ [msg]), Ret tt);
  SubscribeCustomMessages w := (w, Ret tt);
  og_GetNodeInfo v _ w := (w, ref_node (rw_graph w) v);
  ListPeers w := (w, Ret (rw_peers w));
  Connect v _ _ w := (set_peers w (rw_peers w) (Some (2%nat, MkPeer v)), Ret tt);
  GetInfo_IdentityPubkey w := (w, Ret (key_bytes (true, x09)));
  QueryRoutes _ w := (w, rw_route w);
  WaitBackoff _ w :=
    match rw_connecting w with
    | Some (S n, p) => (set_peers w (rw_peers w) (Some (n, p)), Ret tt)
    | Some (O, p) => (set_peers w (p :: rw_peers w) None, Ret tt)
    | None => (w, Ret tt)
    end;
|}.

#[export] Instance w_Lnwire : Lnwire := {| MaxMilliSatoshi := 18446744073709551615 |}.

Definition w_nodeKey : SingleKeyECDH ref_World :=
  MkSingleKeyECDH (W := ref_World) (true, x09) (fun _ => pure (Ret [])).

Definition w_handler : OnionMessageHandler ref_World := fun _ _ value w =>
  (set_sent w (rw_sent w ++ [MkCustomMessage [] 0 value]), Ret tt).

Definition w_handlers : handlerMap ref_World := {[ 64 := Some w_handler ]}.

Lemma w_calm_env : calm_env w_nodeKey.
Proof.
  constructor; try (intros; left; eexists; reflexivity).
  intros pkt data n p w. cbn. destruct (pkt : bytes) as [|a [|b r]]; try apply settles_Err.
  case_bool_decide; [apply settles_Err|]. destruct (drop _ _); apply settles_Ret.
Qed.

Lemma w_calm_handlers : calm_handlers w_handlers.
Proof.
  intros t h H. unfold w_handlers in H. rewrite lookup_singleton in H. case_decide; [|done].
  injection H as <-. exists w_handler. split; [done|]. intros reply data value w. apply settles_Ret.
Qed.

Lemma messages_survive_witness :
  exists w', handleEvent w_nodeKey w_handlers
    (EvMessage (MkCustomMessage [] OnionMessageType (lit "junk"))) w_world
  = (w', Ret (MkIteration w_handlers None None)).
Proof. apply messages_survive; [exact w_calm_env | exact w_calm_handlers]. Defined.

(** A payload for our node, given out of order. *)
Definition w_exit (finals : list FinalHopPayload) : OnionMessagePayload :=
  {| omp_ReplyPath := None; omp_EncryptedData := lit "data"; FinalHopPayloads := finals |}.
Definition w_given : OnionMessagePayload :=
  w_exit [MkFinalHopPayload 66 (lit "invoice"); MkFinalHopPayload 64 (lit "req")].
Definition w_sorted : OnionMessagePayload :=
  w_exit [MkFinalHopPayload 64 (lit "req"); MkFinalHopPayload 66 (lit "invoice")].

Definition layer (payload : bytes) : bytes := be_bytes 2 (len payload) ++ payload.
Definition w_point : @PublicKey ref_Crypto := (false, x08).
Definition w_message (blob : bytes) : CustomMessage :=
  MkCustomMessage [] OnionMessageType
    (from_Ret [] (OnionMessage_Encode (NewOnionMessage w_point blob))).

Definition w_exit_bytes : bytes := from_Ret [] (EncodeOnionMessagePayload w_given).

Lemma w_exit_ok : payload_ok w_sorted.
Proof.
  constructor; [done|done|..].
  - repeat (apply Forall_cons_2; [by split; [cbn; lia|]|]). apply Forall_nil_2.
  - repeat constructor.
Qed.

Lemma handleOnionMessage_exit_witness :
  handleOnionMessage (w_message (layer w_exit_bytes)) (messengerKit w_nodeKey w_handlers) w_world
  = run_all [w_handler None (lit "data") (lit "req")] w_world.
Proof.
  apply (handleOnionMessage_exit w_nodeKey w_handlers (w_message (layer w_exit_bytes)) w_world w_world
           w_point (MkProcessedPacket ExitNode None (MkHopPayload PayloadTLV w_exit_bytes))
           w_given w_sorted);
    [|done| |exact w_exit_ok|done|done|apply Permutation_swap|].
  - exists (NewOnionMessage w_point (layer w_exit_bytes)), (layer w_exit_bytes).
    split; [reflexivity|]. split; [done|]. split; [by vm_compute|]. by split.
  - apply from_Ret_eq. vm_compute. reflexivity.
  - intros t. unfold w_handlers. rewrite lookup_singleton. by case_decide.
Defined.

(** An onion with another layer, for the node [w_next]. *)
Definition w_next : @PublicKey ref_Crypto := (true, x0c).
Definition w_route : BlindedRouteData :=
  {| NextNodeID := Some w_next; NextBlindingOverride := Some (true, x0d) |}.
Definition w_data : bytes := from_Ret [] (EncodeBlindedRouteData w_route).
Definition w_hop_bytes : bytes := from_Ret [] (EncodeOnionMessagePayload (hopPayload w_data false None [])).
Definition w_inner : bytes := layer (lit "inner").
Definition w_packet : @OnionPacket _ ref_Sphinx := w_inner.

Lemma handleOnionMessage_forward_witness :
  exists out,
    handleOnionMessage (w_message (layer w_hop_bytes ++ w_inner)) (messengerKit w_nodeKey w_handlers)
      w_world
    = iwrap "could not send message" (SendCustomMessage out) w_world
    /\ cm_Peer out = SerializeCompressed w_next /\ cm_MsgType out = OnionMessageType
    /\ OnionMessage_Encode (NewOnionMessage ((true, x0d) : @PublicKey ref_Crypto) w_inner)
       = Ret (cm_Data out).
Proof.
  apply (handleOnionMessage_forward w_nodeKey w_handlers (w_message (layer w_hop_bytes ++ w_inner))
           w_world w_world w_world w_world w_point
           (MkProcessedPacket MoreHops (Some w_packet)
              (MkHopPayload PayloadTLV w_hop_bytes))
           w_packet w_data w_data w_route w_next (true, x08) w_inner); try done.
  - exists (NewOnionMessage w_point (layer w_hop_bytes ++ w_inner)), (layer w_hop_bytes ++ w_inner).
    split; [reflexivity|]. split; [done|]. split; [by vm_compute|]. by split.
  - apply plain_payload_wf. by vm_compute.
Defined.

(** [w_large] is not a peer, and is found in the graph. *)
Definition w_dial_graph : list (bytes * NodeInfo) :=
  [(key_bytes (false, x02), MkNodeInfo (Some (MkNode [] [] ["host:9735"%string])) []);
   (key_bytes (false, x03), MkNodeInfo None [])].
Definition w_dial (peers : list Peer) (connecting : option (nat * Peer)) : ref_World :=
  MkWorld [] w_dial_graph peers connecting (Err ErrNoRouteFound) [x0a; x0b] [].
Definition w_target : @PublicKey ref_Crypto := (false, x02).
Definition w_peer : Peer := MkPeer (key_bytes w_target).

Lemma lookupAndConnect_spec_witness :
  lookupAndConnect 1 5 (Some w_target) (w_dial [] None) = (w_dial [w_peer] None, Ret tt).
Proof.
  destruct (lookupAndConnect_spec w_target 1 5 (w_dial [] None) (w_dial [] None) false) as [_ H].
  { by exists []. }
  destruct (H eq_refl (w_dial [] None) (MkNodeInfo (Some (MkNode [] [] ["host:9735"%string])) [])
              (MkNode [] [] ["host:9735"%string]) eq_refl eq_refl) as [_ H'].
  apply (proj1 (H' "host:9735"%string [] (w_dial [] (Some (2%nat, w_peer))) eq_refl eq_refl)
           3%nat (w_dial [w_peer] None)); [lia| |].
  - eapply unseen_S; [by exists [] | reflexivity|].
    eapply unseen_S; [by exists [] | reflexivity|].
    eapply unseen_S; [by exists [] | reflexivity|]. apply unseen_O.
  - by exists [w_peer].
Defined.

Definition w_unannounced : @PublicKey ref_Crypto := (false, x03).

Lemma lookupAndConnect_no_node_witness :
  lookupAndConnect 1 5 (Some w_unannounced) (w_dial [] None)
  = (w_dial [] None, Panic "nil pointer dereference").
Proof.
  apply (lookupAndConnect_no_node w_unannounced 1 5 (w_dial [] None) (w_dial [] None) (w_dial [] None)
           (MkNodeInfo None [])); [by exists [] | done | done].
Defined.

Definition w_send : SendMessageRequest :=
  {| sm_Peer := Some w_target; sm_BlindedDestination := None; sm_ReplyPath := None;
     sm_FinalPayloads := w_finals; DirectConnect := true |}.

Lemma SendMessage_sends_witness :
  exists msg w3,
    SendCustomMessage msg w3
    = ((SendMessage 1 5 w_send (w_dial [w_peer] None)).1, Ret tt)
    /\ cm_Peer msg = SerializeCompressed w_target /\ cm_MsgType msg = OnionMessageType.
Proof.
  destruct (SendMessage_sends 1 5 w_send (w_dial [w_peer] None)
              (SendMessage 1 5 w_send (w_dial [w_peer] None)).1)
    as (target & sk & bk & w1 & w2 & w3 & first & path & msg & Ht & _ & _ & Hp & Hs & Hpeer & Htype & _).
  - apply surjective_pairing_Ret. vm_compute. reflexivity.
  - exists msg, w3. split; [exact Hs|]. split; [|exact Htype]. rewrite Hpeer.
    injection Ht as <-. cbn in Hp. by destruct Hp as (_ & -> & _).
Defined.
