(* ===== verification/MessengerSystem.v ===== *)
(** onionmsg/messenger.go: the messenger as a concurrent system - the event
    loop's goroutine, the callers of RegisterHandler and DeregisterHandler, and
    Start and Stop - as a step relation. *)
From S2P Require Import Prelude Deps DepsRef Io LndDeps LndRef Stream.
From S2P Require Import Merkle Shared RouteBlinding OnionMessages OnionPayload Routes Messenger.

Section System.
Context {W : Type} `{CR : Crypto, TL : !Tlv, LW : !Lndwire, SP : !Sphinx, SR : !SphinxRouter W,
  VX : !Vertices, LC : Lndclient, OL : !OnionLnd W, MO : MapOrder}.
Context (nodeKey : SingleKeyECDH W).

(** The goroutine of Start: it subscribes, loops, and ends with an error. *)
Inductive loopState := NotRunning | Subscribing | Running | Finished (err : error).

(** A call of handleRegistration: at its first select, at its second with the
    answer of the loop in the buffered error channel, or returned. *)
Inductive call :=
| Waiting (request : registerHandler (W := W))
| Handled (request : registerHandler (W := W)) (answer : option error)
| Returned (request : registerHandler (W := W)) (result : outcome unit).

(** The Messenger: its two flags, the handlers, whether [quit] is closed, the
    goroutine, the error passed to requestShutdown, the calls in progress; and
    the world. *)
Record Messenger := MkMessenger {
  started : bool;
  stopped : bool;
  quit : bool;
  onionMsgHandlers : handlerMap W;
  loop : loopState;
  requestedShutdown : option error;
  calls : gmap nat call;
  world : W;
}.

Definition NewOnionMessenger (w : W) : Messenger := {|
  started := false; stopped := false; quit := false; onionMsgHandlers := ∅; loop := NotRunning;
  requestedShutdown := None; calls := ∅; world := w;
|}.

Definition set_call (m : Messenger) (id : nat) (c : call) : Messenger := {|
  started := started m; stopped := stopped m; quit := quit m;
  onionMsgHandlers := onionMsgHandlers m; loop := loop m;
  requestedShutdown := requestedShutdown m; calls := <[id := c]> (calls m); world := world m;
|}.

Definition set_loop (m : Messenger) (l : loopState) (shutdown : option error) (w : W)
    : Messenger := {|
  started := started m; stopped := stopped m; quit := quit m;
  onionMsgHandlers := onionMsgHandlers m; loop := l;
  requestedShutdown := shutdown; calls := calls m; world := w;
|}.

(** (m Messenger).Start, given what the router's Start returns. *)
Definition Start (m : Messenger) (router : outcome unit) : Messenger * outcome unit :=
  if started m then (m, Err (ENew "messenger already started"))
  else
    let m' l := {| started := true; stopped := stopped m; quit := quit m;
                   onionMsgHandlers := onionMsgHandlers m; loop := l;
                   requestedShutdown := requestedShutdown m; calls := calls m; world := world m |} in
    match wrap "could not start router" router with
    | Ret _ => (m' Subscribing, Ret tt)
    | Err e => (m' NotRunning, Err e)
    | Panic s => (m' NotRunning, Panic s)
    | Diverge => (m' NotRunning, Diverge)
    end.

(** (m Messenger).Stop up to its wait for the goroutine, and whether the wait
    is over. *)
Definition Stop (m : Messenger) : Messenger * outcome unit :=
  if stopped m then (m, Err (ENew "messenger already stopped"))
  else
    ({| started := started m; stopped := true; quit := true;
        onionMsgHandlers := onionMsgHandlers m; loop := loop m;
        requestedShutdown := requestedShutdown m; calls := calls m; world := world m |}, Ret tt).

Definition wg_done (m : Messenger) : bool :=
  match loop m with NotRunning | Finished _ => true | _ => false end.

(** handleRegistration up to its first select. *)
Definition handleRegistration (m : Messenger) (request : registerHandler (W := W)) : call :=
  match wrap "invalid payload" (ValidateFinalPayload (rh_tlvType request)) with
  | Ret _ => if negb (started m) then Returned request (Err (EWrap "can't" ErrNotStarted))
             else Waiting request
  | Err e => Returned request (Err e)
  | Panic s => Returned request (Panic s)
  | Diverge => Returned request Diverge
  end.

Definition RegisterHandler (m : Messenger) (tlvType : Z) (handler : option (OnionMessageHandler W))
    : call :=
  handleRegistration m (newRegisterHandler tlvType handler false).
Definition DeregisterHandler (m : Messenger) (tlvType : Z) : call :=
  handleRegistration m (newRegisterHandler tlvType None true).

(** The end of the goroutine: an error other than ErrShuttingDown is passed to
    requestShutdown. *)
Definition finish (m : Messenger) (err : error) (w : W) : Messenger :=
  set_loop m (Finished err)
    (if bool_decide (err = ErrShuttingDown) then requestedShutdown m else Some err) w.

(** The messenger after an iteration of the loop. *)
Definition after_iteration (m : Messenger) (it : iteration (W := W)) (w : W) : Messenger :=
  let m := {| started := started m; stopped := stopped m; quit := quit m;
              onionMsgHandlers := it_handlers it; loop := loop m;
              requestedShutdown := requestedShutdown m; calls := calls m; world := w |} in
  match it_exit it with Some err => finish m err w | None => m end.

(** What the second select of a call returns. *)
Definition call_result (answer : option error) : outcome unit :=
  match answer with None => Ret tt | Some e => Err (EWrap "failed" e) end.

(** The steps.  [trace] of a step is the registration the loop handled. *)
Inductive step : Messenger -> list (registerHandler (W := W)) -> Messenger -> Prop :=
| step_start m m' router r : Start m router = (m', r) -> step m [] m'
| step_stop m m' r : Stop m = (m', r) -> step m [] m'
| step_subscribed m w : loop m = Subscribing ->
    SubscribeCustomMessages (world m) = (w, Ret tt) ->
    step m [] (set_loop m Running (requestedShutdown m) w)
| step_not_subscribed m w e : loop m = Subscribing ->
    SubscribeCustomMessages (world m) = (w, Err e) ->
    step m [] (finish m e w)
| step_call m id request : calls m !! id = None ->
    step m [] (set_call m id (handleRegistration m request))
| step_register m id request w it : loop m = Running -> calls m !! id = Some (Waiting request) ->
    handleEvent nodeKey (onionMsgHandlers m) (EvRegister id request) (world m) = (w, Ret it) ->
    step m [request]
      (match it_answer it with
       | Some (id, answer) => set_call (after_iteration m it w) id (Handled request answer)
       | None => after_iteration m it w
       end)
| step_event m ev w it : loop m = Running ->
    match ev with EvRegister _ _ => False | EvQuit => quit m = true | _ => True end ->
    handleEvent nodeKey (onionMsgHandlers m) ev (world m) = (w, Ret it) ->
    step m [] (after_iteration m it w)
| step_answered m id request answer : calls m !! id = Some (Handled request answer) ->
    step m [] (set_call m id (Returned request (call_result answer)))
| step_abandoned m id request : quit m = true ->
    calls m !! id = Some (Waiting request) \/
      (exists answer, calls m !! id = Some (Handled request answer)) ->
    step m [] (set_call m id (Returned request (Err (EWrap "could not" ErrShuttingDown)))).

(** Runs, with the registrations the loop handled, in order. *)
Inductive run : Messenger -> list (registerHandler (W := W)) -> Messenger -> Prop :=
| run_nil m : run m [] m
| run_step m1 m2 m3 tr tr' : run m1 tr m2 -> step m2 tr' m3 -> run m1 (tr ++ tr') m3.

(** The handlers after these registrations. *)
Definition registered (requests : list (registerHandler (W := W))) : handlerMap W :=
  fold_left (fun hs r => (Messenger_registerHandler hs r).1) requests ∅.

(** The loop handled [r], with this answer. *)
Definition was_handled (handled : list (registerHandler (W := W))) (r : registerHandler (W := W))
    (answer : option error) : Prop :=
  exists before after, handled = before ++ r :: after
    /\ answer = (Messenger_registerHandler (registered before) r).2.

(** What holds of every reachable messenger. *)
Record messenger_ok (m : Messenger) (handled : list (registerHandler (W := W))) : Prop := {
  mo_handlers : onionMsgHandlers m = registered handled;
  mo_types : Forall (fun r => 64 <= rh_tlvType r) handled;
  mo_waiting : forall id r, calls m !! id = Some (Waiting r) -> 64 <= rh_tlvType r;
  mo_handled : forall id r a, calls m !! id = Some (Handled r a) -> was_handled handled r a;
  mo_returned : forall id r, calls m !! id = Some (Returned r (Ret tt)) ->
    was_handled handled r None;
  mo_quit : quit m = stopped m;
  mo_started : loop m <> NotRunning -> started m = true;
  mo_shutdown : forall e,
    requestedShutdown m = Some e <-> loop m = Finished e /\ e <> ErrShuttingDown;
}.

Lemma new_ok w : messenger_ok (NewOnionMessenger w) [].
Proof.
  constructor; cbn; try done; try apply Forall_nil_2; try (intros *; by rewrite lookup_empty).
  intros e. split; [done|]. by intros [? _].
Qed.

Lemma registered_snoc handled r :
  registered (handled ++ [r]) = (Messenger_registerHandler (registered handled) r).1.
Proof. unfold registered. by rewrite fold_left_app. Qed.

Lemma was_handled_mono handled r a more :
  was_handled handled r a -> was_handled (handled ++ more) r a.
Proof.
  intros (before & after & -> & ->). exists before, (after ++ more). by rewrite <- app_assoc.
Qed.

Lemma messenger_ok_call m handled id c :
  messenger_ok m handled ->
  match c with
  | Waiting r => 64 <= rh_tlvType r
  | Handled r a => was_handled handled r a
  | Returned r (Ret _) => was_handled handled r None
  | Returned _ _ => True
  end -> messenger_ok (set_call m id c) handled.
Proof.
  intros [? ? Hw Hh Hr ? ? ?] Hc. constructor; try done; cbn [calls set_call].
  all: intros id' r; intros; rewrite lookup_insert in *; case_decide; simplify_eq; eauto.
Qed.

Lemma messenger_ok_loop m handled l s w :
  messenger_ok m handled -> started m = true ->
  (forall e, s = Some e <-> l = Finished e /\ e <> ErrShuttingDown) ->
  messenger_ok (set_loop m l s w) handled.
Proof. intros [? ? ? ? ? ? ? ?] Hs Hsd. by constructor. Qed.

Lemma messenger_ok_finish m handled e w :
  messenger_ok m handled -> (forall e', loop m <> Finished e') -> started m = true ->
  messenger_ok (finish m e w) handled.
Proof.
  intros M Hl Hs. apply messenger_ok_loop; [done..|]. intros e'.
  assert (requestedShutdown m = None) as Hn.
  { destruct (requestedShutdown m) eqn:E; [|done]. by apply (mo_shutdown _ _ M) in E as [?%Hl _]. }
  case_bool_decide as He; [rewrite Hn|]; split; try done; intros; simplify_eq; [|done|].
  - by destruct H as [[= ->] H].
  - by destruct H as [[= ->] _].
Qed.

Lemma handleEvent_iteration handlers ev w w' it :
  handleEvent nodeKey handlers ev w = (w', Ret it) ->
  match ev with
  | EvRegister id r => it = MkIteration (Messenger_registerHandler handlers r).1
                              (Some (id, (Messenger_registerHandler handlers r).2)) None /\ w' = w
  | EvMessage _ => it = MkIteration handlers None None
  | _ => it_handlers it = handlers /\ it_answer it = None /\ it_exit it <> None
  end.
Proof.
  destruct ev; cbn; try by intros [= <- <-].
  - destruct (Messenger_registerHandler handlers request). by intros [= <- <-].
  - case_bool_decide; cbn; [|by intros [= <- <-]].
    unfold attempt. destruct (handleOnionMessage _ _ w) as [w1 [|e|s|]]; try done; by intros [= <- <-].
Qed.

Lemma step_ok m handled tr m' :
  messenger_ok m handled -> step m tr m' -> messenger_ok m' (handled ++ tr).
Proof.
  intros M. destruct 1 as [m m' router r E|m m' r E|m w Hl E|m w e Hl E|m id request Hid
    |m id request w it Hl Hid E|m ev w it Hl Hev E|m id request a Hid|m id request Hq Hid];
    rewrite ?app_nil_r.
  - unfold Start in E. destruct (started m) eqn:Es; [by injection E as <- <-|].
    destruct (loop m) eqn:El; try (exfalso; by rewrite (mo_started _ _ M) in Es; [|rewrite El]).
    destruct M as [? ? ? ? ? ? ? Hsd]. rewrite El in Hsd.
    assert (requestedShutdown m = None) as Hn.
    { destruct (requestedShutdown m); [|done]. by destruct (proj1 (Hsd _) eq_refl). }
    destruct (wrap _ router); injection E as <- <-; constructor; try done; cbn;
      rewrite Hn; intros e; (split; [done|]; by intros [? _]).
  - unfold Stop in E. destruct (stopped m); injection E as <- <-; [done|]. by destruct M.
  - apply messenger_ok_loop; [done|apply M; by rewrite Hl|]. intros e.
    rewrite (mo_shutdown _ _ M), Hl. split; by intros [? _].
  - apply messenger_ok_finish; [done | by rewrite Hl | apply M; by rewrite Hl].
  - apply messenger_ok_call; [done|]. unfold handleRegistration, ValidateFinalPayload.
    unfold finalHopPayloadStart. case_bool_decide; cbn; [done|]. destruct (started m); cbn; [lia | done].
  - apply handleEvent_iteration in E as [-> ->]. cbn [it_answer].
    apply messenger_ok_call; [|by exists handled, []; rewrite (mo_handlers _ _ M)].
    destruct M as [Hh Ht Hw Hd Hr Hq Hs Hsd]. constructor; cbn [after_iteration it_exit it_handlers
      onionMsgHandlers calls quit stopped loop started requestedShutdown]; try done.
    + by rewrite registered_snoc, Hh.
    + apply Forall_app. split; [done|]. apply Forall_cons_2; [eauto | apply Forall_nil_2].
    + intros. by eapply was_handled_mono, Hd.
    + intros. by eapply was_handled_mono, Hr.
  - apply handleEvent_iteration in E.
    assert (it_handlers it = onionMsgHandlers m) as Eh.
    { destruct ev; try done; try (by subst); by destruct E. }
    set (m1 := {| started := started m; stopped := stopped m; quit := quit m;
              onionMsgHandlers := it_handlers it; loop := loop m;
              requestedShutdown := requestedShutdown m; calls := calls m; world := w |}).
    assert (messenger_ok m1 handled) as M1.
    { destruct M. constructor; try done. cbn. by rewrite Eh. }
    unfold after_iteration. fold m1. destruct (it_exit it); [|done].
    apply messenger_ok_finish; [done | by cbn; rewrite Hl | apply M; by rewrite Hl].
  - apply messenger_ok_call; [done|]. apply (mo_handled _ _ M) in Hid.
    destruct a; cbn; [done|]. done.
  - by apply messenger_ok_call.
Qed.

Lemma run_ok w handled m : run (NewOnionMessenger w) handled m -> messenger_ok m handled.
Proof.
  intros R. remember (NewOnionMessenger w) as m0 eqn:E0. induction R; subst.
  - apply new_ok.
  - eapply step_ok; [by apply IHR | done].
Qed.

Lemma registerHandler_cases (handlers : handlerMap W) (r : registerHandler (W := W)) :
  let t := rh_tlvType r in
  ((Messenger_registerHandler handlers r).2 = None
   /\ (if rh_deregister r then is_Some (handlers !! t) else handlers !! t = None)
   /\ (Messenger_registerHandler handlers r).1 !! t
      = (if rh_deregister r then None else Some (rh_handler r))
   /\ (forall t', t' <> t -> (Messenger_registerHandler handlers r).1 !! t' = handlers !! t'))
  \/ (is_Some (Messenger_registerHandler handlers r).2
      /\ (Messenger_registerHandler handlers r).1 = handlers).
Proof.
  cbn zeta. unfold Messenger_registerHandler.
  destruct (rh_deregister r), (handlers !! rh_tlvType r) as [h|] eqn:E; cbn [is_some negb fst snd].
  - left. split; [done|]. split; [done|]. split; [apply lookup_delete_eq|].
    intros t' Ht. by apply lookup_delete_ne.
  - right. by split.
  - right. by split.
  - left. split; [done|]. split; [done|]. split; [apply lookup_insert_eq|].
    intros t' Ht. by apply lookup_insert_ne.
Qed.

Lemma registered_types handled : Forall (fun r => 64 <= rh_tlvType r) handled ->
  forall t, is_Some (registered handled !! t) -> 64 <= t.
Proof.
  induction handled as [|r handled IH] using rev_ind; intros F t.
  - intros [h H]. discriminate H.
  - apply Forall_app in F as [F Fr]. apply Forall_cons in Fr as [Hr _]. rewrite registered_snoc.
    destruct (registerHandler_cases (registered handled) r) as [(_ & _ & Ht & Hne)|[_ ->]]; [|by apply IH].
    destruct (decide (t = rh_tlvType r)) as [->|Hn]; [done|]. rewrite Hne by done. by apply IH.
Qed.

(** C20: In every reachable state the handlers are those left by the requests
    that the event loop handled, one after the other, and they are for final
    hop payload types only.  A call of RegisterHandler or DeregisterHandler
    that returned nil was handled, at a moment when its type had no handler
    (had one), and gave the type its handler (took it away) without touching
    another; the quit channel is closed exactly when the messenger was
    stopped, and a shutdown is requested exactly when the loop ended for
    another reason. *)
Theorem registration_reachable w handled m :
  run (NewOnionMessenger w) handled m ->
  onionMsgHandlers m = registered handled
  /\ (forall t, is_Some (onionMsgHandlers m !! t) -> 64 <= t)
  /\ (forall id r, calls m !! id = Some (Returned r (Ret tt)) ->
      exists before after, handled = before ++ r :: after
        /\ (if rh_deregister r then is_Some (registered before !! rh_tlvType r)
            else registered before !! rh_tlvType r = None)
        /\ registered (before ++ [r]) !! rh_tlvType r
           = (if rh_deregister r then None else Some (rh_handler r))
        /\ forall t, t <> rh_tlvType r -> registered (before ++ [r]) !! t = registered before !! t)
  /\ quit m = stopped m
  /\ (forall e, requestedShutdown m = Some e <-> loop m = Finished e /\ e <> ErrShuttingDown).
Proof.
  intros R%run_ok. destruct R as [Hh Ht _ _ Hr Hq _ Hs].
  split; [done|]. split; [rewrite Hh; by apply registered_types|]. split; [|done].
  intros id r (before & after & -> & Ha)%Hr. exists before, after. split; [done|].
  rewrite registered_snoc.
  destruct (registerHandler_cases (registered before) r) as [(_ & ? & ? & ?)|[[? E] _]]; [done|].
  congruence.
Qed.

Lemma step_ended m tr m' id r e : step m tr m' -> loop m = Finished e -> started m = true ->
  calls m !! id = Some (Waiting r) -> quit m' = false ->
  loop m' = Finished e /\ started m' = true /\ calls m' !! id = Some (Waiting r).
Proof.
  intros S Hl Hs Hc Hq. destruct S as [m m' router r' E|m m' r' E|m w El E|m w e' El E|m id' request Hid
    |m id' request w it El Hid E|m ev w it El Hev E|m id' request a Hid|m id' request Hq' Hid];
    try congruence.
  - unfold Start in E. rewrite Hs in E. by injection E as <- <-.
  - unfold Stop in E. by destruct (stopped m); injection E as <- <-.
  - cbn. rewrite lookup_insert_ne by congruence. done.
  - cbn. rewrite lookup_insert_ne by congruence. done.
  - cbn in Hq. congruence.
Qed.

Lemma step_quit m tr m' : step m tr m' -> quit m' = false -> quit m = false.
Proof.
  destruct 1 as [m m' router r' E|m m' r' E|m w El E|m w e' El E|m id' request Hid
    |m id' request w it El Hid E|m ev w it El Hev E|m id' request a Hid|m id' request Hq' Hid];
    try done.
  - unfold Start in E. destruct (started m); [by injection E as <- <-|].
    by destruct (wrap _ router); injection E as <- <-.
  - unfold Stop in E. by destruct (stopped m); injection E as <- <-.
  - unfold after_iteration. destruct (it_answer it) as [[? ?]|], (it_exit it); done.
  - unfold after_iteration. by destruct (it_exit it).
Qed.

(** Once the event loop has ended - lnd closed a stream, or the
    subscription failed - a registration that was not handed over waits for as
    long as the messenger is not stopped; once it is, the call can return, with
    ErrShuttingDown. *)
Theorem registration_waits_for_stop w handled m tr m' id r e :
  run (NewOnionMessenger w) handled m -> loop m = Finished e ->
  calls m !! id = Some (Waiting r) -> run m tr m' ->
  (quit m' = false -> calls m' !! id = Some (Waiting r))
  /\ (quit m' = false -> exists m1, Stop m' = (m1, Ret tt)
      /\ step m1 [] (set_call m1 id (Returned r (Err (EWrap "could not" ErrShuttingDown))))).
Proof.
  intros R Hl Hc R'. pose proof (run_ok _ _ _ R) as M.
  assert (started m = true) as Hs by (apply M; by rewrite Hl).
  assert (quit m' = false -> loop m' = Finished e /\ started m' = true
            /\ calls m' !! id = Some (Waiting r)) as K.
  { clear R M. induction R' as [m|m m2 m3 tr tr' R' IH S]; [done|]. intros Hq.
    destruct IH as (? & ? & ?); [done..|by eapply step_quit|]. by eapply step_ended. }
  split; [intros Hq; by apply K|]. intros Hq. assert (messenger_ok m' (handled ++ tr)) as M'.
  { clear - R' M. induction R' as [m|m m2 m3 tr tr' R' IH S]; [by rewrite app_nil_r|].
    rewrite app_assoc. eapply step_ok; [by apply IH | done]. }
  unfold Stop. rewrite <- (mo_quit _ _ M'), Hq. eexists. split; [done|].
  apply step_abandoned; [done|]. left. by apply K.
Qed.

(** A stopped messenger's loop can always end, without a shutdown request. *)
Lemma stopped_loop_ends m : quit m = true -> loop m = Running ->
  exists m', step m [] m' /\ loop m' = Finished ErrShuttingDown
    /\ requestedShutdown m' = requestedShutdown m.
Proof.
  intros Hq Hl.
  exists (after_iteration m (MkIteration (onionMsgHandlers m) None (Some ErrShuttingDown)) (world m)).
  split; [by apply (step_event _ EvQuit)|]. by split.
Qed.
End System.

(** ** Witnesses *)

Definition w_register : registerHandler (W := ref_World) := newRegisterHandler 64 (Some w_handler) false.

(** Started, subscribed, and with a registration that was answered. *)
Definition w_started : Messenger (W := ref_World) :=
  (Start (NewOnionMessenger w_world) (Ret tt)).1.
Definition w_running : Messenger (W := ref_World) := set_loop w_started Running None w_world.
Definition w_called : Messenger (W := ref_World) := set_call w_running 0 (Waiting w_register).
Definition w_answered : Messenger (W := ref_World) :=
  set_call (set_call (after_iteration w_called
    (MkIteration (W := ref_World) {[ 64 := Some w_handler ]} (Some (0%nat, None)) None) w_world)
    0 (Handled w_register None)) 0 (Returned w_register (Ret tt)).

Lemma w_run_running : run w_nodeKey (NewOnionMessenger w_world) [] w_running.
Proof.
  change (@nil (registerHandler (W := ref_World))) with
    (([] ++ []) ++ [] : list (registerHandler (W := ref_World))).
  eapply run_step; [eapply run_step; [apply run_nil|]|].
  - by apply (step_start _ _ w_started (Ret tt) (Ret tt)).
  - by apply step_subscribed.
Qed.

Lemma w_run_called : run w_nodeKey (NewOnionMessenger w_world) [] w_called.
Proof.
  change (@nil (registerHandler (W := ref_World))) with
    ([] ++ [] : list (registerHandler (W := ref_World))).
  eapply run_step; [apply w_run_running|]. by apply (step_call _ w_running 0 w_register).
Qed.

Lemma w_run_answered : run w_nodeKey (NewOnionMessenger w_world) [w_register] w_answered.
Proof.
  change [w_register] with (([] ++ [w_register]) ++ []).
  eapply run_step; [eapply run_step; [apply w_run_called|]|].
  - by apply (step_register _ w_called 0 w_register w_world
      (MkIteration (W := ref_World) {[ 64 := Some w_handler ]} (Some (0%nat, None)) None)).
  - by apply (step_answered _ _ 0 w_register None).
Qed.

Lemma registration_reachable_witness :
  onionMsgHandlers w_answered = registered [w_register]
  /\ exists before after, [w_register] = before ++ w_register :: after
     /\ registered before !! 64 = None
     /\ registered (before ++ [w_register]) !! 64 = Some (Some w_handler).
Proof.
  destruct (registration_reachable w_nodeKey w_world [w_register] w_answered w_run_answered)
    as (Hh & _ & Hr & _).
  split; [exact Hh|].
  destruct (Hr 0%nat w_register eq_refl) as (before & after & E & Hb & Ha & _).
  exists before, after. split; [exact E|]. split; [exact Hb | exact Ha].
Defined.

(** The loop ended by a closed stream, with a registration waiting. *)
Definition w_ended : Messenger (W := ref_World) :=
  after_iteration w_called
    (MkIteration (W := ref_World) ∅ None (Some (EWrap "messages" ErrLNDShutdown))) w_world.

Lemma w_run_ended : run w_nodeKey (NewOnionMessenger w_world) [] w_ended.
Proof.
  change (@nil (registerHandler (W := ref_World))) with
    ([] ++ [] : list (registerHandler (W := ref_World))).
  eapply run_step; [apply w_run_called|]. by apply (step_event _ w_called EvMessagesClosed).
Qed.

Lemma registration_waits_for_stop_witness :
  calls w_ended !! 0%nat = Some (Waiting w_register)
  /\ exists m1, Stop w_ended = (m1, Ret tt)
     /\ step w_nodeKey m1 []
          (set_call m1 0 (Returned w_register (Err (EWrap "could not" ErrShuttingDown)))).
Proof.
  destruct (registration_waits_for_stop w_nodeKey w_world [] w_ended [] w_ended 0 w_register
              (EWrap "messages" ErrLNDShutdown) w_run_ended) as [H1 H2];
    [done | done | apply run_nil |].
  split; [by apply H1 | by apply H2].
Defined.
