(* ===== verification/Registry.v ===== *)
(** An abstract specification of what the messenger promises to the callers of
    RegisterHandler and DeregisterHandler - a registry whose operations are
    atomic - and the proof that the messenger of MessengerSystem.v, with its
    event loop, channels and selects, implements it. *)
From S2P Require Import Prelude Deps DepsRef Io LndDeps LndRef Stream.
From S2P Require Import Merkle Shared RouteBlinding OnionMessages OnionPayload Routes Messenger MessengerSystem.

(** ** The specification *)

Section Spec.
Context {W : Type} `{CR : Crypto}.

(** An operation is invoked, performed at one instant, and returns what it was
    answered - or that the registry is shut, when it is. *)
Inductive operation :=
| Invoked (request : registerHandler (W := W))
| Performed (request : registerHandler (W := W)) (answer : option error)
| Done (request : registerHandler (W := W)) (result : outcome unit).

Record registry := MkRegistry {
  opened : bool;
  shut : bool;
  entries : handlerMap W;
  operations : gmap nat operation;
}.

Definition empty_registry : registry :=
  {| opened := false; shut := false; entries := ∅; operations := ∅ |}.

Definition with_operation (r : registry) (hs : handlerMap W) (id : nat) (o : operation)
    : registry :=
  {| opened := opened r; shut := shut r; entries := hs;
     operations := <[id := o]> (operations r) |}.

(** What an operation does: an entry is made only where there is none, and
    removed only where there is one; nothing else changes. *)
Inductive performs (hs : handlerMap W)
    : registerHandler (W := W) -> handlerMap W -> option error -> Prop :=
| performs_register t h : hs !! t = None ->
    performs hs (newRegisterHandler t h false) (<[t := h]> hs) None
| performs_duplicate t h : is_Some (hs !! t) ->
    performs hs (newRegisterHandler t h false) hs (Some (EWrap "type" ErrHandlerRegistered))
| performs_deregister t h : is_Some (hs !! t) ->
    performs hs (newRegisterHandler t h true) (delete t hs) None
| performs_missing t h : hs !! t = None ->
    performs hs (newRegisterHandler t h true) hs (Some (EWrap "type" ErrHandlerNotFound)).

Inductive spec_step : registry -> registry -> Prop :=
| spec_open r : spec_step r {| opened := true; shut := shut r; entries := entries r;
                               operations := operations r |}
| spec_shut r : spec_step r {| opened := opened r; shut := true; entries := entries r;
                               operations := operations r |}
| spec_invoke r id request : operations r !! id = None ->
    spec_step r (with_operation r (entries r) id (Invoked request))
| spec_bad_type r id request : operations r !! id = Some (Invoked request) ->
    rh_tlvType request < finalHopPayloadStart ->
    spec_step r (with_operation r (entries r) id
      (Done request (Err (EWrap "invalid payload" (EWrap "type" ErrNotFinalPayload)))))
| spec_not_open r id request : operations r !! id = Some (Invoked request) -> opened r = false ->
    spec_step r (with_operation r (entries r) id (Done request (Err (EWrap "can't" ErrNotStarted))))
| spec_perform r id request hs answer : operations r !! id = Some (Invoked request) ->
    opened r = true -> finalHopPayloadStart <= rh_tlvType request ->
    performs (entries r) request hs answer ->
    spec_step r (with_operation r hs id (Performed request answer))
| spec_return r id request answer : operations r !! id = Some (Performed request answer) ->
    spec_step r (with_operation r (entries r) id
      (Done request (match answer with None => Ret tt | Some e => Err (EWrap "failed" e) end)))
| spec_give_up r id request : shut r = true ->
    operations r !! id = Some (Invoked request)
      \/ (exists answer, operations r !! id = Some (Performed request answer)) ->
    spec_step r (with_operation r (entries r) id
      (Done request (Err (EWrap "could not" ErrShuttingDown)))).

Lemma performs_function hs request hs' answer :
  performs hs request hs' answer <-> Messenger_registerHandler hs request = (hs', answer).
Proof.
  unfold Messenger_registerHandler. split.
  - destruct 1 as [t h E|t h [h0 E]|t h [h0 E]|t h E]; cbn; by rewrite E.
  - destruct request as [t h []]; cbn; destruct (hs !! t) as [h0|] eqn:E; cbn; intros [= <- <-];
      constructor; by rewrite ?E.
Qed.
End Spec.

(** ** The messenger as a registry *)

Section Refinement.
Context {W : Type} `{CR : Crypto, TL : !Tlv, LW : !Lndwire, SP : !Sphinx, SR : !SphinxRouter W,
  VX : !Vertices, LC : Lndclient, OL : !OnionLnd W, MO : MapOrder}.
Context (nodeKey : SingleKeyECDH W).

Definition abs_call (c : call (W := W)) : operation (W := W) :=
  match c with
  | Waiting request => Invoked request
  | Handled request answer => Performed request answer
  | Returned request result => Done request result
  end.

Definition abs (m : Messenger (W := W)) : registry (W := W) :=
  {| opened := started m; shut := quit m; entries := onionMsgHandlers m;
     operations := abs_call <$> calls m |}.

(** The operations in the abstraction of a messenger that gained a call. *)
Lemma abs_set_call m id c :
  abs (set_call m id c) = with_operation (abs m) (onionMsgHandlers m) id (abs_call c).
Proof. unfold abs, with_operation. cbn. by rewrite fmap_insert. Qed.

Lemma abs_lookup m id c : calls m !! id = Some c -> operations (abs m) !! id = Some (abs_call c).
Proof. intros H. cbn. by rewrite lookup_fmap, H. Qed.

(** The loop, its goroutine and the world are not part of the registry. *)
Lemma abs_after_iteration m it w : it_handlers it = onionMsgHandlers m ->
  abs (after_iteration m it w) = abs m.
Proof. intros E. unfold after_iteration, abs, finish. destruct (it_exit it); cbn; by rewrite E. Qed.

Lemma with_operation_twice (r : registry (W := W)) id o o' :
  with_operation (with_operation r (entries r) id o) (entries r) id o' = with_operation r (entries r) id o'.
Proof. unfold with_operation. cbn. by rewrite insert_insert_eq. Qed.

(** A call up to its first select: refused at once, or waiting. *)
Lemma handleRegistration_refines m id request : calls m !! id = None ->
  rtc spec_step (abs m) (abs (set_call m id (handleRegistration m request))).
Proof.
  intros Hid. rewrite abs_set_call.
  assert (operations (abs m) !! id = None) as Ho by (cbn; by rewrite lookup_fmap, Hid).
  eapply rtc_l; [by apply (spec_invoke _ id request)|].
  set (r := with_operation (abs m) (entries (abs m)) id (Invoked request)).
  assert (operations r !! id = Some (Invoked request)) as Hr by (cbn; by rewrite lookup_insert_eq).
  unfold handleRegistration, ValidateFinalPayload. case_bool_decide as Ht; cbn [wrap].
  - apply rtc_once. pose proof (spec_bad_type r id request Hr Ht) as S.
    unfold r in S. cbn [entries with_operation] in S. by rewrite with_operation_twice in S.
  - destruct (started m) eqn:Es; cbn [negb abs_call]; [done|].
    apply rtc_once. pose proof (spec_not_open r id request Hr Es) as S.
    unfold r in S. cbn [entries with_operation] in S. by rewrite with_operation_twice in S.
Qed.

Lemma step_refines m handled tr m' : messenger_ok m handled -> step nodeKey m tr m' ->
  rtc spec_step (abs m) (abs m').
Proof.
  intros M. destruct 1 as [m m' router r E|m m' r E|m w Hl E|m w e Hl E|m id request Hid
    |m id request w it Hl Hid E|m ev w it Hl Hev E|m id request a Hid|m id request Hq Hid].
  - unfold Start in E. destruct (started m) eqn:Es; [by injection E as <- _|].
    destruct (wrap _ router); injection E as <- _; apply rtc_once, spec_open.
  - unfold Stop in E. destruct (stopped m); injection E as <- _; [done|]. apply rtc_once, spec_shut.
  - done.
  - done.
  - by apply handleRegistration_refines.
  - pose proof (mo_started _ _ M) as Hs. rewrite Hl in Hs.
    pose proof (mo_waiting _ _ M _ _ Hid) as Ht.
    apply handleEvent_iteration in E as [-> ->]. cbn [it_answer].
    apply rtc_once. rewrite abs_set_call. cbn [after_iteration it_exit it_handlers onionMsgHandlers].
    apply (spec_perform (abs m) id request); [by apply (abs_lookup m id (Waiting request))|by apply Hs|done|].
    apply performs_function. apply surjective_pairing.
  - rewrite abs_after_iteration; [done|]. apply handleEvent_iteration in E.
    destruct ev; try done; try (by subst); by destruct E.
  - apply rtc_once. rewrite abs_set_call. pose proof (abs_lookup _ _ _ Hid) as Ho.
    exact (spec_return (abs m) id request a Ho).
  - apply rtc_once. rewrite abs_set_call. apply (spec_give_up (abs m) id request); [done|].
    destruct Hid as [H|[a H]]; apply abs_lookup in H; [by left | right; by exists a].
Qed.

(** C13: The messenger implements the registry: every run of the event loop's
    goroutine, the callers, Start and Stop, with the messages that arrive in
    between, is a run of the specification, in which each registration takes
    effect at one instant between its call and its return.  The abstraction
    keeps every call with what it returned, so that no client can tell the
    difference. *)
Theorem registry_refinement (w : W) handled (m : Messenger (W := W)) :
  run nodeKey (NewOnionMessenger w) handled m ->
  rtc spec_step empty_registry (abs m)
  /\ (forall id request result, calls m !! id = Some (Returned request result)
      <-> operations (abs m) !! id = Some (Done request result)).
Proof.
  intros R. split.
  - assert (forall m0, m0 = NewOnionMessenger w -> run nodeKey m0 handled m ->
              rtc spec_step (abs m0) (abs m)) as K; [|by apply K in R].
    clear R. intros m0 E R. induction R as [m|m1 m2 m3 tr tr' R IH S]; [done|]. subst.
    etrans; [by apply IH|]. eapply step_refines; [by eapply run_ok | done].
  - intros id request result. cbn. rewrite lookup_fmap. split; [by intros ->|].
    destruct (calls m !! id) as [[]|]; cbn; try done. by intros [= -> ->].
Qed.
End Refinement.

(** ** Witness *)

Lemma registry_refinement_witness :
  rtc spec_step (empty_registry (W := ref_World)) (abs w_answered)
  /\ operations (abs w_answered) !! 0%nat = Some (Done w_register (Ret tt))
  /\ entries (abs w_answered) = {[ 64 := Some w_handler ]}.
Proof.
  destruct (registry_refinement w_nodeKey w_world [w_register] w_answered w_run_answered) as [R H].
  split; [exact R|]. split; [|reflexivity]. by apply H.
Defined.
