(* ===== verification/Rpc.v ===== *)
(** rpcserver/: the gRPC server - parsing of requests, composition of
    responses, its calls, and its start and stop.  The request and response
    messages are those of offersrpc/offersrpc.proto. *)
From S2P Require Import Prelude Deps DepsRef Io LndDeps LndRef GoTime Stream Merkle Signatures Shared.
From S2P Require Import Offers Bech32 OfferStrings RouteBlinding OnionMessages OnionPayload Routes.
From S2P Require Import Messenger MessengerSystem.

Definition ErrServerShuttingDown : error := EStatus Aborted "server shutting down".
Definition ErrFeatureOverflow : error := ENamed "rpcserver.ErrFeatureOverflow".

(** ** Messages *)

Record rpcBlindedHop := MkRpcBlindedHop {
  rb_BlindedNodeId : bytes;
  rb_EncryptedData : bytes;
}.

Record rpcBlindedPath := MkRpcBlindedPath {
  rp_IntroductionNode : bytes;
  rp_BlindingPoint : bytes;
  rp_Hops : list rpcBlindedHop;
}.

Record SendOnionMessageRequest := MkSendOnionMessageRequest {
  so_Pubkey : bytes;
  so_BlindedDestination : option rpcBlindedPath;
  so_ReplyPath : option rpcBlindedPath;
  so_FinalPayloads : gmap Z bytes;
  so_DirectConnect : bool;
}.

Record rpcOffer := MkRpcOffer {
  ro_MinAmountMsat : Z;
  ro_Description : bytes;
  ro_Features : bytes;
  ro_ExpiryUnixSeconds : Z;
  ro_Issuer : bytes;
  ro_MinQuantity : Z;
  ro_MaxQuantity : Z;
  ro_NodeId : bytes;
  ro_Signature : bytes;
}.

(** ** Parsing and composing (common.go) *)

Section Parsing.
Context `{CR : Crypto, SP : !Sphinx, MO : MapOrder}.

(** [status.Errorf(code, ...)] for a call that failed. *)
Definition coded {A} (code : grpc_code) (msg : gostring) (m : outcome A) : outcome A :=
  match m with Err _ => Err (EStatus code msg) | _ => m end.

Definition parseHop (hop : rpcBlindedHop) : outcome BlindedHop :=
  pubkey ← coded InvalidArgument "introduction node" (ParsePubKey (rb_BlindedNodeId hop));
  Ret {| BlindedNodeID := pubkey; bh_EncryptedData := rb_EncryptedData hop |}.

Definition parseReplyPath (req : option rpcBlindedPath) : outcome (option ReplyPath) :=
  match req with
  | None => Ret None
  | Some req =>
      intro ← coded InvalidArgument "introduction node" (ParsePubKey (rp_IntroductionNode req));
      blinding ← coded InvalidArgument "blinding point" (ParsePubKey (rp_BlindingPoint req));
      hops ← each parseHop (rp_Hops req);
      Ret (Some {| FirstNodeID := intro; BlindingPoint := blinding; Hops := hops |})
  end.

Definition composeReplyPath (resp : option ReplyPath) : option rpcBlindedPath :=
  match resp with
  | None => None
  | Some resp =>
      Some {| rp_IntroductionNode := SerializeCompressed (FirstNodeID resp);
              rp_BlindingPoint := SerializeCompressed (BlindingPoint resp);
              rp_Hops := map (fun hop =>
                {| rb_BlindedNodeId := SerializeCompressed (BlindedNodeID hop);
                   rb_EncryptedData := bh_EncryptedData hop |}) (Hops resp) |}
  end.

Definition composeBlindedRoute (route : BlindedPath) : outcome rpcBlindedPath :=
  hops ← each (fun i =>
    node ← index (BlindedHops route) i;
    data ← index (bp_EncryptedData route) i;
    Ret {| rb_BlindedNodeId := SerializeCompressed node; rb_EncryptedData := data |})
    (seq 0 (length (BlindedHops route)));
  Ret {| rp_IntroductionNode := SerializeCompressed (IntroductionPoint route);
         rp_BlindingPoint := SerializeCompressed (bp_BlindingPoint route);
         rp_Hops := hops |}.

(** ** Requests *)

(** The body of the loop over the map of final payloads. *)
Definition parseFinalPayload (entry : Z * bytes) : outcome FinalHopPayload :=
  let finalPayload := {| TLVType := entry.1; fhp_Value := entry.2 |} in
  _ ← coded InvalidArgument "final payload" (FinalHopPayload_Validate finalPayload);
  Ret finalPayload.

Definition parseSendOnionMessageRequest (req : SendOnionMessageRequest)
    : outcome SendMessageRequest :=
  let pubkeySet := bool_decide (len (so_Pubkey req) <> 0) in
  let blindedSet := is_some (so_BlindedDestination req) in
  '(pubkey, blindedDest) ←
    (if pubkeySet && blindedSet
     then Err (EStatus InvalidArgument "set either pubkey or blinded,not both")
     else if negb (pubkeySet || blindedSet)
     then Err (EStatus InvalidArgument "pubkey or blinded required")
     else if pubkeySet
     then pubkey ← coded InvalidArgument "peer pubkey" (ParsePubKey (so_Pubkey req));
          Ret (Some pubkey, None)
     else blindedDest ← coded InvalidArgument "blinded dest"
            (parseReplyPath (so_BlindedDestination req));
          Ret (None, blindedDest));
  replyPath ← parseReplyPath (so_ReplyPath req);
  finalHopPayloads ← each parseFinalPayload (map_range (so_FinalPayloads req));
  let onionReq := {| sm_Peer := pubkey; sm_BlindedDestination := blindedDest;
                     sm_ReplyPath := replyPath; sm_FinalPayloads := finalHopPayloads;
                     DirectConnect := so_DirectConnect req |} in
  _ ← coded InvalidArgument "onion request" (SendMessageRequest_Validate onionReq);
  Ret onionReq.

(** A uint64 checked against a uint16. *)
Definition parseFeature (feature : Z) : outcome Z :=
  if bool_decide (feature > 65535) then Err (EStatus InvalidArgument "feature exceeds maximum value")
  else Ret (to_u16 feature).

Definition parseGenerateBlindedRouteRequest (features : list Z) : outcome (list Z) :=
  each parseFeature features.

Definition parseSubscribeOnionPayloadRequest (tlvType : Z) : outcome Z :=
  _ ← coded InvalidArgument "tlv type" (ValidateFinalPayload tlvType);
  Ret tlvType.

Definition parseDecodeOfferRequest (offer : bytes) : outcome bytes :=
  if bool_decide (offer = []) then Err (EStatus InvalidArgument "offer string required")
  else Ret offer.
End Parsing.

(** ** Offers over rpc *)

(** [hex.EncodeToString] *)
Definition hex_digit (n : Z) : byte := byte_of_Z (if bool_decide (n < 10) then 48 + n else 87 + n).
Definition hex_EncodeToString (b : bytes) : bytes :=
  concat (map (fun c => [hex_digit (byte_to_Z c / 16); hex_digit (byte_to_Z c mod 16)]) b).

Section Responses.
Context `{CR : Crypto, FE : Features}.

Definition composeDecodeOfferResponse (offer : Offer) : outcome rpcOffer :=
  features ← match o_Features offer with
             | Some f => coded Internal "encode features" (fv_Encode f)
             | None => Ret []
             end;
  Ret {| ro_MinAmountMsat := to_u64 (o_MinimumAmount offer);
         ro_Description := o_Description offer;
         ro_Features := features;
         ro_ExpiryUnixSeconds :=
           if negb (time_IsZero (o_Expiry offer)) then to_u64 (t_Unix (o_Expiry offer)) else 0;
         ro_Issuer := o_Issuer offer;
         ro_MinQuantity := o_QuantityMin offer;
         ro_MaxQuantity := o_QuantityMax offer;
         ro_NodeId := match o_NodeID offer with
                      | Some nodeID => hex_EncodeToString (schnorr_SerializePubKey nodeID)
                      | None => []
                      end;
         ro_Signature := match o_Signature offer with
                         | Some sig => hex_EncodeToString sig
                         | None => []
                         end |}.
End Responses.

(** ** Starting and stopping the server (server.go) *)

(** [close] of a channel that may be closed already. *)
Definition close_chan (closed : bool) : outcome bool :=
  if closed then Panic "close of closed channel" else Ret true.

Section Server.
Context {W : Type} `{CR : Crypto, TL : !Tlv, LW : !Lndwire, SP : !Sphinx, SR : !SphinxRouter W,
  VX : !Vertices, LC : Lndclient, OL : !OnionLnd W, OS : !LndOnionSigner W, MO : MapOrder}.

(** The server's fields; the messenger and the generator are nil until Start. *)
Record Server := MkServer {
  sv_started : bool;
  sv_stopped : bool;
  onionMsgr : option (Messenger (W := W));
  routeGenerator : option BlindedRouteGenerator;
  ready : bool;
  sv_quit : bool;
}.

Definition NewServer : Server := {|
  sv_started := false; sv_stopped := false; onionMsgr := None; routeGenerator := None;
  ready := false; sv_quit := false;
|}.

(** (s Server).Start: the server and the world after, and what is returned.
    [router] is what the start of the messenger's router returns. *)
Definition Server_Start (s : Server) (router : outcome unit) (w : W)
    : W * (Server * outcome unit) :=
  if sv_started s then (w, (s, Err (ENew "server already started")))
  else
    let s' msgr gen rdy := {| sv_started := true; sv_stopped := sv_stopped s; onionMsgr := msgr;
                              routeGenerator := gen; ready := rdy; sv_quit := sv_quit s |} in
    match iwrap "could not create router signer" NewNodeECDH w with
    | (w, Ret nodeKeyECDH) =>
        let gen := Some (NewBlindedRouteGenerator (ecdh_PubKey nodeKeyECDH)) in
        let '(msgr, result) := Start (NewOnionMessenger w) router in
        (w, match wrap "could not start onion messenger" result with
            | Ret _ =>
                match close_chan (ready s) with
                | Ret rdy => (s' (Some msgr) gen rdy, Ret tt)
                | _ => (s' (Some msgr) gen (ready s), Panic "close of closed channel")
                end
            | failed => (s' (Some msgr) gen (ready s), failed)
            end)
    | (w, Err e) => (w, (s' (onionMsgr s) (routeGenerator s) (ready s), Err e))
    | (w, Panic m) => (w, (s' (onionMsgr s) (routeGenerator s) (ready s), Panic m))
    | (w, Diverge) => (w, (s' (onionMsgr s) (routeGenerator s) (ready s), Diverge))
    end.

(** (s Server).Stop *)
Definition Server_Stop (s : Server) : Server * outcome unit :=
  if sv_stopped s then (s, Err (ENew "server already stopped"))
  else
    let s' msgr q := {| sv_started := sv_started s; sv_stopped := true; onionMsgr := msgr;
                        routeGenerator := routeGenerator s; ready := ready s; sv_quit := q |} in
    match close_chan (sv_quit s) with
    | Ret q =>
        match onionMsgr s with
        | None => (s' None q, Ret tt)
        | Some msgr =>
            let '(msgr, result) := Stop msgr in
            (s' (Some msgr) q, wrap "could not stop onion messenger" result)
        end
    | _ => (s' (onionMsgr s) (sv_quit s), Panic "close of closed channel")
    end.

(** Calls of Start and Stop, in any order and number; the last result. *)
Inductive served : Server -> option (outcome unit) -> Prop :=
| served_new : served NewServer None
| served_start s r router w w' s' r' : served s r -> settles router ->
    Server_Start s router w = (w', (s', r')) -> settles (iwrap "key" NewNodeECDH w).2 ->
    served s' (Some r')
| served_stop s r s' r' : served s r -> Server_Stop s = (s', r') -> served s' (Some r').

Record server_ok (s : Server) : Prop := {
  sk_ready : ready s = true -> sv_started s = true /\ routeGenerator s <> None
    /\ exists m, onionMsgr s = Some m /\ started m = true;
  sk_fresh : sv_started s = false -> ready s = false /\ onionMsgr s = None;
  sk_quit : sv_quit s = sv_stopped s;
  sk_msgr : forall m, onionMsgr s = Some m -> stopped m = true -> sv_stopped s = true;
}.

End Server.

(** ** The calls of the server *)

Section Calls.
Context {W : Type} `{CR : Crypto, TL : !Tlv, LN : !Lntypes, FE : Features, MO : MapOrder,
  BL : Bech32Lib, LW : !Lndwire, SP : !Sphinx, SO : !SphinxOps, KS : !Keys W, VX : !Vertices,
  LC : Lndclient, OL : !OnionLnd W, RL : !RoutesLnd W, FB : FeatureBits, GR : Grpc, LI : Lnwire}.

(** (s Server).waitForReady: a select on two channels.  When both are ready the
    choice is Go's; when neither is, the call blocks. *)
Definition waitForReady (s : Server (W := W)) (ctxDone picksReady : bool) : outcome unit :=
  if ready s && (negb ctxDone || picksReady) then Ret tt
  else if ctxDone then Err (EStatus Unavailable "server not ready")
  else Diverge.

(** (s Server).SendOnionMessage, with the messenger's defaults for the lookup
    of a peer. *)
Definition SendOnionMessage (s : Server (W := W)) (ctxDone picksReady : bool)
    (req : SendOnionMessageRequest) : io W unit :=
  pure (waitForReady s ctxDone picksReady) ;;
  onionReq ← pure (parseSendOnionMessageRequest req);
  pure (deref (onionMsgr s)) ;;
  attempt (SendMessage lookupPeerBackoffDefault (Z.to_nat lookupPeerAttemptsDefault) onionReq) mret
    (fun err =>
       if errors_Is err Messenger.ErrNoPath
       then pure (Err (EStatus NotFound "could not find path to destination"))
       else pure (Err (EStatus Internal "send message failed"))).

(** (s Server).GenerateBlindedRoute *)
Definition GenerateBlindedRoute (s : Server (W := W)) (ctxDone picksReady : bool)
    (features : list Z) : io W rpcBlindedPath :=
  pure (waitForReady s ctxDone picksReady) ;;
  features ← pure (parseGenerateBlindedRouteRequest features);
  generator ← pure (deref (routeGenerator s));
  route ← map_io (coded Internal "route") (ReplyPath_generate generator features);
  pure (composeBlindedRoute route).

(** (s Server).DecodeOffer *)
Definition rpc_DecodeOffer (s : Server (W := W)) (ctxDone picksReady : bool) (offer : bytes)
    : outcome rpcOffer :=
  _ ← waitForReady s ctxDone picksReady;
  offerStr ← parseDecodeOfferRequest offer;
  offer ← DecodeOfferStr offerStr;
  composeDecodeOfferResponse offer.

(** (s Server).SubscribeOnionPayload up to its registration with the
    messenger, which Subscription.v goes on from: the type to register. *)
Definition SubscribeOnionPayload (s : Server (W := W)) (ctxDone picksReady : bool) (tlvType : Z)
    : outcome Z :=
  _ ← waitForReady s ctxDone picksReady;
  tlvType ← parseSubscribeOnionPayloadRequest tlvType;
  _ ← deref (onionMsgr s);
  Ret tlvType.
End Calls.

(** ** Properties *)

Section ParsingFacts.
Context `{CR : Crypto, CL : !CryptoLaws, SP : !Sphinx, MO : MapOrder, MOL : !MapOrderLaws}.

(** A call whose errors all have this status code. *)
Definition codes {A} (code : grpc_code) (m : outcome A) : Prop :=
  settles m /\ forall e, m = Err e -> exists msg, e = EStatus code msg.

Lemma codes_bind {A B} c (m : outcome A) (f : A -> outcome B) :
  codes c m -> (forall a, m = Ret a -> codes c (f a)) -> codes c (m ≫= f).
Proof.
  intros [Hs He] Hf. destruct Hs as [[a ->]|[e ->]]; [by apply Hf|].
  split; [apply settles_Err|]. intros e0 [= <-]. by apply He.
Qed.

Lemma codes_coded {A} c msg (m : outcome A) : settles m -> codes c (coded c msg m).
Proof.
  intros [[a ->]|[e ->]]; cbn; [by split; [apply settles_Ret|] | split; [apply settles_Err|]].
  intros ? [= <-]. by eexists.
Qed.

Lemma codes_Ret {A} c (a : A) : codes c (Ret a).
Proof. by split; [apply settles_Ret|]. Qed.

Lemma codes_status {A} c msg : codes (A := A) c (Err (EStatus c msg)).
Proof. split; [apply settles_Err|]. intros e [= <-]. by eexists. Qed.

Lemma codes_each {A B} c (f : A -> outcome B) l : (forall x, codes c (f x)) -> codes c (each f l).
Proof.
  intros H. induction l as [|x l IH]; cbn [each]; [apply codes_Ret|].
  apply codes_bind; [done|]. intros y _. apply codes_bind; [done|]. intros; apply codes_Ret.
Qed.

Lemma parseReplyPath_codes req : codes InvalidArgument (parseReplyPath req).
Proof.
  destruct req as [req|]; [|apply codes_Ret]. cbn [parseReplyPath].
  repeat (apply codes_bind; [apply codes_coded, ParsePubKey_settles|]; intros ? _).
  apply codes_bind; [|intros; apply codes_Ret]. apply codes_each. intros hop.
  apply codes_bind; [apply codes_coded, ParsePubKey_settles|]. intros; apply codes_Ret.
Qed.

Lemma Validate_settles r : settles (SendMessageRequest_Validate r).
Proof.
  unfold SendMessageRequest_Validate.
  repeat first [case_match | case_bool_decide]; auto using settles_Ret, settles_Err.
Qed.

Lemma parseSend_codes req : codes InvalidArgument (parseSendOnionMessageRequest req).
Proof.
  unfold parseSendOnionMessageRequest. apply codes_bind.
  - destruct (_ && _); [apply codes_status|]. destruct (negb _); [apply codes_status|].
    destruct (bool_decide _).
    + apply codes_bind; [apply codes_coded, ParsePubKey_settles|]. intros; apply codes_Ret.
    + apply codes_bind; [apply codes_coded, parseReplyPath_codes|]. intros; apply codes_Ret.
  - intros [pubkey dest] _. apply codes_bind; [apply parseReplyPath_codes|]. intros reply _.
    apply codes_bind.
    + apply codes_each. intros [t v]. apply codes_bind; [|intros; apply codes_Ret].
      apply codes_coded. unfold FinalHopPayload_Validate, ValidateFinalPayload.
      case_bool_decide; [apply settles_Err | apply settles_Ret].
    + intros finals _. apply codes_bind; [apply codes_coded, Validate_settles|].
      intros; apply codes_Ret.
Qed.

Lemma coded_Ret_inv {A} c msg (m : outcome A) a : coded c msg m = Ret a -> m = Ret a.
Proof. by destruct m. Qed.

Lemma parseFinalPayloads_inv entries finals : each parseFinalPayload entries = Ret finals ->
  map (fun f => (TLVType f, fhp_Value f)) finals = entries /\ Forall (fun f => 64 <= TLVType f) finals.
Proof.
  revert finals. induction entries as [|[t v] entries IH]; intros finals H; cbn [each] in H; go_inv.
  - by split; [|apply Forall_nil_2].
  - destruct (IH _ E0) as [E1 F]. unfold parseFinalPayload in E. go_inv. apply coded_Ret_inv in E2.
    unfold FinalHopPayload_Validate, ValidateFinalPayload, finalHopPayloadStart in E2.
    case_bool_decide; [done|]. cbn in *. split; [done|]. apply Forall_cons_2; [cbn; lia | done].
Qed.

(** C35: A request to send a message parses without a panic, and is refused
    with the code InvalidArgument only.  A request that is accepted names one
    destination, a key or a blinded path with hops, passes the messenger's
    validation, and carries the final payloads of the map, all of final hop
    types, in the order the map was ranged over. *)
Theorem parseSendOnionMessageRequest_spec (req : SendOnionMessageRequest) :
  codes InvalidArgument (parseSendOnionMessageRequest req)
  /\ forall r, parseSendOnionMessageRequest req = Ret r ->
     SendMessageRequest_Validate r = Ret tt
     /\ Permutation (map (fun f => (TLVType f, fhp_Value f)) (sm_FinalPayloads r))
          (map_to_list (so_FinalPayloads req))
     /\ Forall (fun f => 64 <= TLVType f) (sm_FinalPayloads r)
     /\ NoDup (map TLVType (sm_FinalPayloads r))
     /\ parseReplyPath (so_ReplyPath req) = Ret (sm_ReplyPath r)
     /\ DirectConnect r = so_DirectConnect req
     /\ match so_BlindedDestination req with
        | None => exists p, ParsePubKey (so_Pubkey req) = Ret p /\ sm_Peer r = Some p
                            /\ sm_BlindedDestination r = None
        | Some d => so_Pubkey req = [] /\ sm_Peer r = None
                    /\ parseReplyPath (Some d) = Ret (sm_BlindedDestination r)
        end.
Proof.
  split; [apply parseSend_codes|]. intros r H. unfold parseSendOnionMessageRequest in H.
  go_inv. destruct x as [pubkey dest]. go_inv. apply coded_Ret_inv in E2.
  apply parseFinalPayloads_inv in E1 as [Em Ef]. cbn [sm_FinalPayloads sm_ReplyPath sm_Peer
    sm_BlindedDestination DirectConnect]. destruct x1.
  split; [done|]. split; [by rewrite Em, map_range_perm|]. split; [done|]. split.
  { rewrite <- (map_map (fun f => (TLVType f, fhp_Value f)) fst), Em, map_range_perm.
    apply NoDup_fst_map_to_list. }
  split; [done|]. split; [done|].
  destruct (so_BlindedDestination req) as [d|]; cbn [is_some] in E.
  - rewrite andb_true_r, orb_true_r in E. case_bool_decide as Hp; [done|]. cbn [negb] in E.
    go_inv. apply coded_Ret_inv in E1. split; [|done]. apply len_nil_inv. lia.
  - rewrite andb_false_r, orb_false_r in E. case_bool_decide as Hp; [|done]. cbn [negb] in E.
    go_inv. apply coded_Ret_inv in E1. by eexists.
Qed.

Definition composeHop (hop : BlindedHop) : rpcBlindedHop :=
  {| rb_BlindedNodeId := SerializeCompressed (BlindedNodeID hop);
     rb_EncryptedData := bh_EncryptedData hop |}.

Lemma parseHops_compose hops : each parseHop (map composeHop hops) = Ret hops.
Proof.
  assert (forall hop, parseHop (composeHop hop) = Ret hop) as E.
  { intros [id data]. unfold parseHop. cbn. by rewrite ParsePubKey_Serialize. }
  induction hops as [|hop hops IH]; [done|]. cbn [map each]. rewrite E. cbn [mbind outcome_bind].
  by rewrite IH.
Qed.

Lemma composeHops_parse hops parsed : each parseHop hops = Ret parsed ->
  Forall (fun h => length (rb_BlindedNodeId h) = 33%nat) hops ->
  map composeHop parsed = hops.
Proof.
  revert parsed. induction hops as [|[id data] hops IH]; intros parsed H F; cbn [each] in H; go_inv;
    [done|]. apply Forall_cons in F as [Fi F]. unfold parseHop in E. go_inv.
  apply coded_Ret_inv in E1. cbn [map]. rewrite (IH _ E0 F). cbn in *. unfold composeHop. cbn.
  by rewrite (ParsePubKey_canonical _ _ Fi E1).
Qed.

Lemma reply_path_compose p : parseReplyPath (composeReplyPath p) = Ret p.
Proof.
  destruct p as [[first blinding hops]|]; [|done]. cbn [composeReplyPath parseReplyPath FirstNodeID
    BlindingPoint Hops rp_IntroductionNode rp_BlindingPoint rp_Hops].
  rewrite !ParsePubKey_Serialize. cbn [coded mbind outcome_bind]. change (map _ hops) with (map composeHop hops).
  by rewrite parseHops_compose.
Qed.

(** A reply path sent over rpc comes back as it was, and a path over rpc
    whose keys are compressed is parsed without losing anything. *)
Theorem reply_path_rpc :
  (forall p, parseReplyPath (composeReplyPath p) = Ret p)
  /\ (forall r p, parseReplyPath (Some r) = Ret p -> length (rp_IntroductionNode r) = 33%nat ->
      length (rp_BlindingPoint r) = 33%nat ->
      Forall (fun h => length (rb_BlindedNodeId h) = 33%nat) (rp_Hops r) ->
      composeReplyPath p = Some r).
Proof.
  split.
  - apply reply_path_compose.
  - intros [intro blinding hops] p H L1 L2 F. cbn [parseReplyPath rp_IntroductionNode
      rp_BlindingPoint rp_Hops] in *. go_inv. apply coded_Ret_inv in E, E0.
    cbn [composeReplyPath FirstNodeID BlindingPoint Hops].
    rewrite (ParsePubKey_canonical _ _ L1 E), (ParsePubKey_canonical _ _ L2 E0).
    change (map _ x1) with (map composeHop x1). by rewrite (composeHops_parse _ _ E1 F).
Qed.
End ParsingFacts.

(** ** The server's life *)

Section ServerFacts.
Context {W : Type} `{CR : Crypto, TL : !Tlv, LW : !Lndwire, SP : !Sphinx, SR : !SphinxRouter W,
  VX : !Vertices, LC : Lndclient, OL : !OnionLnd W, OS : !LndOnionSigner W, MO : MapOrder}.

Lemma settles_is_Ret_or_Err {A} (m : outcome A) : settles m -> (exists a, m = Ret a) \/ exists e, m = Err e.
Proof. by intros [?|?]; [left|right]. Qed.

Lemma served_ok s r : served s r ->
  server_ok s /\ (forall o, r = Some o -> settles o).
Proof.
  induction 1 as [|s r router w w' s' r' _ [IH _] Hr E Hn|s r s' r' _ [IH _] E].
  - split; [by constructor|done].
  - assert (server_ok s' /\ settles r') as [? ?]; [|split; [done|by intros ? [= <-]]].
    unfold Server_Start in E. destruct (sv_started s) eqn:Es.
    { injection E as _ <- <-. split; [done | apply settles_Err]. }
    destruct IH as [Hk Hf Hq Hm]. destruct (Hf Es) as [Er Em].
    unfold map_io in E, Hn. destruct (NewNodeECDH w) as [w1 [key|e|m|]]; cbn [wrap snd] in *.
    + unfold Start in E. cbn [NewOnionMessenger started] in E. rewrite Er in E.
      destruct Hr as [[[] ->]|[e ->]]; cbn in E; injection E as _ <- <-;
        (split; [|by auto with go]); constructor; cbn; try done.
      * intros _. split; [done|]. split; [done|]. by eexists.
      * by intros m [= <-].
      * by intros m [= <-].
    + injection E as _ <- <-. split; [|apply settles_Err]. rewrite Er, Em.
      constructor; cbn; try done.
    + by destruct Hn as [[? ?]|[? ?]].
    + by destruct Hn as [[? ?]|[? ?]].
  - assert (server_ok s' /\ settles r') as [? ?]; [|split; [done|by intros ? [= <-]]].
    unfold Server_Stop in E. destruct (sv_stopped s) eqn:Es.
    { injection E as <- <-. split; [done | apply settles_Err]. }
    destruct IH as [Hk Hf Hq Hm]. rewrite Hq, Es in E. cbn [close_chan] in E.
    destruct (onionMsgr s) as [m|] eqn:Em.
    + unfold Stop in E. destruct (stopped m) eqn:Esm.
      { by rewrite (Hm m eq_refl Esm) in Es. }
      injection E as <- <-. split; [|apply settles_Ret]. constructor; cbn; try done.
      * intros [? [? (m' & [= <-] & ?)]]%Hk. split; [done|]. split; [done|]. by eexists.
      * by intros [_ ?]%Hf.
    + injection E as <- <-. split; [|apply settles_Ret]. constructor; cbn; try done.
Qed.
End ServerFacts.

(** ** Properties of the calls *)

Section CallFacts.
Context {W : Type} `{CR : Crypto, CL : !CryptoLaws, TL : !Tlv, TLL : !TlvLaws, LN : !Lntypes,
  LNL : !LntypesLaws, FE : Features, FEL : !FeaturesLaws, MO : MapOrder, MOL : !MapOrderLaws,
  BL : Bech32Lib, LW : !Lndwire, SP : !Sphinx, SO : !SphinxOps, SR : !SphinxRouter W, KS : !Keys W,
  VX : !Vertices, VXL : !VerticesLaws, LC : Lndclient, OL : !OnionLnd W, OS : !LndOnionSigner W,
  RL : !RoutesLnd W, FB : FeatureBits, GR : Grpc, LI : Lnwire}.

Lemma served_ready s r : served s r -> ready s = true ->
  exists m g, onionMsgr s = Some m /\ started m = true /\ routeGenerator s = Some g.
Proof.
  intros [[Hk _ _ _] _]%served_ok (_ & Hg & m & Hm & Hs)%Hk.
  destruct (routeGenerator s) as [g|]; [|done]. by exists m, g.
Qed.

(** The server comes up once and goes down once, whatever order and number
    of calls of Start and Stop it sees: no call panics (no channel is closed
    twice), quit is closed exactly when Stop was called, a server that is
    ready has its messenger, which was started, and its route generator, and
    every call of Start after the first, and of Stop after the first, fails
    and changes nothing. *)
Theorem server_lifecycle (s : Server (W := W)) (r : option (outcome unit)) :
  served s r ->
  (forall o, r = Some o -> settles o)
  /\ (ready s = true -> sv_started s = true
      /\ exists m g, onionMsgr s = Some m /\ started m = true /\ routeGenerator s = Some g)
  /\ sv_quit s = sv_stopped s
  /\ (sv_started s = true -> forall router w,
      Server_Start s router w = (w, (s, Err (ENew "server already started"))))
  /\ (sv_stopped s = true -> Server_Stop s = (s, Err (ENew "server already stopped"))).
Proof.
  intros H. pose proof (served_ok _ _ H) as [[Hk _ Hq _] Hr].
  split; [done|]. split; [|split; [done|]].
  - intros E. split; [by apply Hk | by eapply served_ready].
  - split; intros E; unfold Server_Start, Server_Stop; by rewrite E.
Qed.

Lemma SendMessage_no_route backoff attempts (req : SendMessageRequest) target sk bk w w1 w2 w3 :
  DirectConnect req = false -> targetPeer req = Some target ->
  NewPrivateKey w = (w1, Ret sk) -> NewPrivateKey w1 = (w2, Ret bk) ->
  QueryRoutes (queryRoutesRequest (SerializeCompressed target)) w2 = (w3, Err ErrNoRouteFound) ->
  SendMessage backoff attempts req w = (w3, Err (EWrap "target" Messenger.ErrNoPath)).
Proof.
  intros Hd Ht Hs Hb Hq. unfold SendMessage.
  rewrite (io_bind_Ret _ _ _ _ _ (iwrap_Ret _ _ _ _ _ Hs)).
  rewrite (io_bind_Ret _ _ _ _ _ (iwrap_Ret _ _ _ _ _ Hb)), Hd, Ht. cbn [negb].
  assert (iwrap "could not find path" (multiHopPath (Some target)) w2 = (w3, Ret [])) as E.
  { unfold map_io, multiHopPath.
    rewrite (io_bind_pure _ _ _ (SerializeCompressed target)) by (cbn; by rewrite NewVertex_bytes).
    unfold attempt. by rewrite Hq. }
  by rewrite (io_bind_Ret _ _ _ _ _ E).
Qed.

(** A call on a ready server with a valid request is one of the messenger. *)
Lemma SendOnionMessage_sends s ctxDone picksReady req onionReq m w :
  waitForReady s ctxDone picksReady = Ret tt -> onionMsgr s = Some m ->
  parseSendOnionMessageRequest req = Ret onionReq ->
  SendOnionMessage s ctxDone picksReady req w
  = match SendMessage lookupPeerBackoffDefault 5 onionReq w with
    | (w', Ret _) => (w', Ret tt)
    | (w', Err e) =>
        (w', Err (if errors_Is e Messenger.ErrNoPath
                  then EStatus NotFound "could not find path to destination"
                  else EStatus Internal "send message failed"))
    | (w', Panic p) => (w', Panic p)
    | (w', Diverge) => (w', Diverge)
    end.
Proof.
  intros Hw Hm Hp. unfold SendOnionMessage.
  rewrite (io_bind_pure _ _ _ tt), (io_bind_pure _ _ _ onionReq), (io_bind_pure _ _ _ m)
    by (done || by rewrite Hm). unfold attempt.
  change (Z.to_nat lookupPeerAttemptsDefault) with 5%nat.
  destruct (SendMessage lookupPeerBackoffDefault 5 onionReq w) as [w' [[]|e|p|]]; try done.
  by destruct (errors_Is e _).
Qed.

Lemma SendOnionMessage_invalid s ctxDone picksReady req e w :
  waitForReady s ctxDone picksReady = Ret tt -> parseSendOnionMessageRequest req = Err e ->
  SendOnionMessage s ctxDone picksReady req w = (w, Err e).
Proof.
  intros Hw Hp. unfold SendOnionMessage. rewrite (io_bind_pure _ _ _ tt) by done.
  by apply io_bind_Err; rewrite Hp.
Qed.

Lemma waitForReady_cases (s : Server (W := W)) ctxDone picksReady :
  ready s = true /\ waitForReady s ctxDone picksReady = Ret tt
  \/ waitForReady s ctxDone picksReady = Err (EStatus Unavailable "server not ready")
  \/ ready s = false /\ waitForReady s ctxDone picksReady = Diverge.
Proof. unfold waitForReady. destruct (ready s), ctxDone, picksReady; cbn; auto. Qed.

(** The status codes of SendOnionMessage. *)
Definition send_codes : list grpc_code := [Unavailable; InvalidArgument; NotFound; Internal].

(** C27: SendOnionMessage on a server that is not ready blocks, or is refused
    when the client gives up, without a call to lnd.  On a server that is
    ready the messenger it needs is there; every error carries one of four
    status codes, an invalid request is refused with InvalidArgument before
    any call to lnd, and when lnd knows no route to the destination and no
    direct connection was asked for, the answer is NotFound. *)
Theorem SendOnionMessage_spec (s : Server (W := W)) r ctxDone picksReady req w :
  served s r ->
  (ready s = false -> SendOnionMessage s ctxDone picksReady req w
     = (w, if ctxDone then Err (EStatus Unavailable "server not ready") else Diverge))
  /\ (forall w' e, SendOnionMessage s ctxDone picksReady req w = (w', Err e) ->
      exists code msg, e = EStatus code msg /\ code ∈ send_codes)
  /\ (ready s = true -> ctxDone = false -> forall e, parseSendOnionMessageRequest req = Err e ->
      SendOnionMessage s ctxDone picksReady req w = (w, Err e)
      /\ exists msg, e = EStatus InvalidArgument msg)
  /\ (ready s = true -> ctxDone = false -> forall onionReq target sk bk w1 w2 w3,
      parseSendOnionMessageRequest req = Ret onionReq -> so_DirectConnect req = false ->
      targetPeer onionReq = Some target ->
      NewPrivateKey w = (w1, Ret sk) -> NewPrivateKey w1 = (w2, Ret bk) ->
      QueryRoutes (queryRoutesRequest (SerializeCompressed target)) w2 = (w3, Err ErrNoRouteFound) ->
      SendOnionMessage s ctxDone picksReady req w
      = (w3, Err (EStatus NotFound "could not find path to destination"))).
Proof.
  intros Hs. pose proof (parseSend_codes req) as [Hset Hcode].
  assert (forall code msg, code ∈ send_codes -> exists c' m', EStatus code msg = EStatus c' m'
            /\ c' ∈ send_codes) as K by eauto.
  split; [|split; [|split]].
  - intros E. unfold SendOnionMessage, waitForReady. rewrite E. by destruct ctxDone.
  - intros w' e. destruct (waitForReady_cases s ctxDone picksReady) as [[Er Ew]|[Ew|[_ Ew]]];
      [|unfold SendOnionMessage; rewrite Ew..].
    + destruct (served_ready _ _ Hs Er) as (m & g & Em & _). destruct Hset as [[onionReq Hp]|[e' Hp]].
      * rewrite (SendOnionMessage_sends _ _ _ _ _ _ _ Ew Em Hp).
        destruct (SendMessage lookupPeerBackoffDefault 5 onionReq w) as [w1 [[]|e1|p|]]; try done.
        destruct (errors_Is e1 _); intros [= <- <-]; apply K; unfold send_codes; set_solver.
      * rewrite (SendOnionMessage_invalid _ _ _ _ _ _ Ew Hp). intros [= <- <-].
        destruct (Hcode _ Hp) as [msg ->]. apply K. unfold send_codes. set_solver.
    + intros [= <- <-]. apply K. unfold send_codes. set_solver.
    + done.
  - intros Er -> e Hp. split; [|by apply Hcode].
    apply SendOnionMessage_invalid; [|done]. unfold waitForReady. by rewrite Er.
  - intros Er -> onionReq target sk bk w1 w2 w3 Hp Hd Ht Hk Hb Hq.
    destruct (served_ready _ _ Hs Er) as (m & g & Em & _).
    rewrite (SendOnionMessage_sends s false picksReady req onionReq m) by
      (done || unfold waitForReady; by rewrite Er).
    rewrite (SendMessage_no_route _ _ onionReq target sk bk w w1 w2 w3); [done| |done..].
    unfold parseSendOnionMessageRequest in Hp. go_inv. destruct x as [p d]. go_inv. done.
Qed.

(** *** Generating a route *)

(** A blinded path, as the reply path a sender parses. *)
Definition path_of (route : BlindedPath) : ReplyPath :=
  {| FirstNodeID := IntroductionPoint route; BlindingPoint := bp_BlindingPoint route;
     Hops := zip_with (fun node data => {| BlindedNodeID := node; bh_EncryptedData := data |})
               (BlindedHops route) (bp_EncryptedData route) |}.

Lemma each_index {A B} (nodes : list A) (f : nat -> outcome B) (g : list B) :
  length g = length nodes -> (forall i, (i < length nodes)%nat -> exists x, g !! i = Some x /\ f i = Ret x) ->
  each f (seq 0 (length nodes)) = Ret g.
Proof.
  intros L H. apply each_Forall2, Forall2_same_length_lookup_2; [by rewrite length_seq|].
  intros i j y Hj Hy. apply lookup_seq in Hj as [-> Hi]. cbn.
  destruct (H i Hi) as (x & Hx & ->). congruence.
Qed.

(** A path with data for each hop is composed, and parses back. *)
Lemma composeBlindedRoute_total route :
  length (bp_EncryptedData route) = length (BlindedHops route) ->
  exists p, composeBlindedRoute route = Ret p
    /\ composeReplyPath (Some (path_of route)) = Some p.
Proof.
  intros L. eexists. split; [|reflexivity]. unfold composeBlindedRoute.
  erewrite each_index; [reflexivity| |]; cbn [composeReplyPath path_of Hops].
  - rewrite length_map, length_zip_with. lia.
  - intros i Hi. destruct (lookup_lt_is_Some_2 _ _ Hi) as [node Hn].
    rewrite <- L in Hi. destruct (lookup_lt_is_Some_2 _ _ Hi) as [data Hd].
    eexists. split.
    + rewrite list_lookup_fmap, lookup_zip_with, Hn. cbn. rewrite Hd. reflexivity.
    + unfold index. by rewrite Hn, Hd.
Qed.

Lemma parseFeatures_inv features parsed :
  Forall (fun f => 0 <= f) features -> parseGenerateBlindedRouteRequest features = Ret parsed ->
  parsed = features /\ Forall u16 features.
Proof.
  unfold parseGenerateBlindedRouteRequest. revert parsed.
  induction features as [|f features IH]; intros parsed F H; cbn [each] in H; go_inv; [done|].
  apply Forall_cons in F as [F0 F]. destruct (IH _ F E0) as [-> U]. unfold parseFeature in E.
  case_bool_decide; [done|]. injection E as <-. unfold to_u16, u16.
  rewrite Z.mod_small by lia. split; [done|]. apply Forall_cons_2; [lia | done].
Qed.

Lemma parseFeatures_codes features :
  codes InvalidArgument (parseGenerateBlindedRouteRequest features).
Proof.
  apply codes_each. intros f. unfold parseFeature. case_bool_decide; [apply codes_status | apply codes_Ret].
Qed.

Lemma parseFeatures_overflow features :
  Exists (fun f => f > 65535) features -> exists msg,
  parseGenerateBlindedRouteRequest features = Err (EStatus InvalidArgument msg).
Proof.
  intros H. destruct (parseFeatures_codes features) as [[[p Hp]|[e He]] Hc].
  - exfalso. clear Hc. unfold parseGenerateBlindedRouteRequest in Hp. apply each_Forall2 in Hp.
    induction Hp as [|f y fs ys Hy _ IH]; [by apply Exists_nil in H|].
    apply Exists_cons in H as [H|H]; [|by apply IH]. unfold parseFeature in Hy.
    by rewrite bool_decide_true in Hy.
  - destruct (Hc _ He) as [msg ->]. by exists msg.
Qed.

Context `{SL : !SphinxLaws}.

Lemma ReplyPath_generate_hops g features w w' route :
  ReplyPath_generate g features w = (w', Ret route) ->
  length (BlindedHops route) = 2%nat /\ length (bp_EncryptedData route) = 2%nat.
Proof.
  intros H. unfold ReplyPath_generate in H. io_inv. go_inv. apply BuildBlindedPath_hops in H.
  assert (length x0 = 2%nat) as L.
  { unfold buildBlindedRoute in E0. case_bool_decide; [done|]. go_inv. done. }
  destruct H as (-> & -> & _). done.
Qed.

Lemma GenerateBlindedRoute_route s ctxDone picksReady features parsed g w :
  waitForReady s ctxDone picksReady = Ret tt -> routeGenerator s = Some g ->
  parseGenerateBlindedRouteRequest features = Ret parsed ->
  GenerateBlindedRoute s ctxDone picksReady features w
  = (map_io (coded Internal "route") (ReplyPath_generate g parsed)
       ≫= fun route => pure (composeBlindedRoute route)) w.
Proof.
  intros Hw Hg Hp. unfold GenerateBlindedRoute.
  by rewrite (io_bind_pure _ _ _ tt), (io_bind_pure _ _ _ parsed), (io_bind_pure _ _ _ g)
    by (done || by rewrite Hg).
Qed.

(** C32: A feature over 65535 is refused with InvalidArgument before any call to
    lnd.  Otherwise the server asks its generator for a route with exactly
    these features, and a route that the generator makes always reaches the
    client, complete: parsed again by a sender it gives the introduction
    point, the blinding point and both hops with their data, so that it is
    accepted as the blinded destination of a message. *)
Theorem GenerateBlindedRoute_spec (s : Server (W := W)) r picksReady features w :
  served s r -> ready s = true -> Forall (fun f => 0 <= f) features ->
  (Exists (fun f => f > 65535) features ->
   exists msg, GenerateBlindedRoute s false picksReady features w
               = (w, Err (EStatus InvalidArgument msg)))
  /\ (Forall u16 features -> exists g, routeGenerator s = Some g /\ forall w',
      (forall e, ReplyPath_generate g features w = (w', Err e) ->
       GenerateBlindedRoute s false picksReady features w = (w', Err (EStatus Internal "route")))
      /\ (forall route, ReplyPath_generate g features w = (w', Ret route) ->
          exists p, GenerateBlindedRoute s false picksReady features w = (w', Ret p)
            /\ parseReplyPath (Some p) = Ret (Some (path_of route))
            /\ length (rp_Hops p) = 2%nat
            /\ parseSendOnionMessageRequest
                 {| so_Pubkey := []; so_BlindedDestination := Some p; so_ReplyPath := None;
                    so_FinalPayloads := ∅; so_DirectConnect := false |}
               = Ret {| sm_Peer := None; sm_BlindedDestination := Some (path_of route);
                        sm_ReplyPath := None; sm_FinalPayloads := []; DirectConnect := false |})).
Proof.
  intros Hs Er F. destruct (served_ready _ _ Hs Er) as (m & g & _ & _ & Eg).
  assert (waitForReady s false picksReady = Ret tt) as Ew by (unfold waitForReady; by rewrite Er).
  split.
  - intros [msg Hp]%parseFeatures_overflow. exists msg. unfold GenerateBlindedRoute.
    rewrite (io_bind_pure _ _ _ tt) by done. by apply io_bind_Err; rewrite Hp.
  - intros U. exists g. split; [done|].
    assert (parseGenerateBlindedRouteRequest features = Ret features) as Hp.
    { destruct (parseFeatures_codes features) as [[[p Hp]|[e He]] _].
      - rewrite Hp. f_equal. by eapply parseFeatures_inv.
      - exfalso. unfold parseGenerateBlindedRouteRequest in He.
        rewrite (each_Ret _ (fun f => f)) in He; [done|]. intros f Hf.
        rewrite Forall_forall in U. specialize (U f Hf). unfold u16 in U. unfold parseFeature, to_u16.
        rewrite bool_decide_false by lia. by rewrite Z.mod_small by lia. }
    intros w'. rewrite (GenerateBlindedRoute_route _ _ _ _ _ _ _ Ew Eg Hp). split.
    + intros e E. apply io_bind_Err. unfold map_io. by rewrite E.
    + intros route E. destruct (ReplyPath_generate_hops _ _ _ _ _ E) as [L1 L2].
      destruct (composeBlindedRoute_total route) as (p & Ec & Ep); [congruence|].
      exists p. rewrite (io_bind_Ret _ _ _ _ _ (map_io_Ret (coded _ _) _ _ _ _ E)).
      split; [unfold pure; by rewrite Ec|].
      assert (parseReplyPath (Some p) = Ret (Some (path_of route))) as Hparse.
      { rewrite <- Ep. apply reply_path_compose. }
      assert (length (Hops (path_of route)) = 2%nat) as Lh.
      { unfold path_of. cbn. rewrite length_zip_with. lia. }
      split; [done|]. split.
      { cbn in Ep. injection Ep as <-. cbn. by rewrite length_map. }
      unfold parseSendOnionMessageRequest. cbn [so_Pubkey so_BlindedDestination so_ReplyPath
        so_FinalPayloads so_DirectConnect is_some]. rewrite Hparse. cbn [coded].
      assert (map_range (∅ : gmap Z bytes) = []) as ->.
      { apply Permutation_nil_r. by rewrite map_range_perm, map_to_list_empty. }
      rewrite bool_decide_false by (intros H; by apply H). cbn. unfold SendMessageRequest_Validate. cbn.
      rewrite bool_decide_false; [done|].
      unfold len. cbn in Lh. rewrite Lh. lia.
Qed.

(** *** Decoding an offer *)

(** The bytes that hexadecimal digits stand for. *)
Definition unhex_digit (c : byte) : Z :=
  if bool_decide (byte_to_Z c < 58) then byte_to_Z c - 48 else byte_to_Z c - 87.
Fixpoint unhex (b : bytes) : bytes :=
  match b with
  | hi :: lo :: r => byte_of_Z (unhex_digit hi * 16 + unhex_digit lo) :: unhex r
  | _ => []
  end.

Lemma unhex_byte c :
  byte_of_Z (unhex_digit (hex_digit (byte_to_Z c / 16)) * 16
             + unhex_digit (hex_digit (byte_to_Z c mod 16))) = c.
Proof. destruct c; vm_compute; reflexivity. Qed.

Lemma unhex_hex b : unhex (hex_EncodeToString b) = b.
Proof.
  unfold hex_EncodeToString. induction b as [|c b IH]; [done|]. cbn [map concat app unhex].
  by rewrite unhex_byte, IH.
Qed.

Lemma hex_length b : length (hex_EncodeToString b) = (2 * length b)%nat.
Proof.
  unfold hex_EncodeToString. induction b as [|c b IH]; [done|]. cbn [map concat]. rewrite length_app, IH.
  cbn. lia.
Qed.

Lemma DecodeOfferStr_offer str o : DecodeOfferStr str = Ret o ->
  offer_wf o /\ exists p, o_NodeID o = Some p.
Proof.
  unfold DecodeOfferStr. intros H. go_inv. destruct x0 as [hrp data]. case_bool_decide; [done|].
  go_inv. split; [by eapply DecodeOffer_typed|]. unfold Offer_Validate in E3.
  destruct (o_NodeID o) as [p|]; [by exists p | done].
Qed.

(** An empty string is refused with InvalidArgument, and a string that does
    not decode with the error of the decoder.  Every offer that decodes is
    returned, without a failure in composing the response: the integers are
    those of the offer, unchanged by their conversion to uint64, the
    expiry is recovered from its seconds, the node's key and the signature are
    in hexadecimal digits that read back, and the features are the encoding of
    the offer's vector. *)
Theorem rpc_DecodeOffer_spec (s : Server (W := W)) ctxDone picksReady (str : bytes) :
  waitForReady s ctxDone picksReady = Ret tt ->
  (str = [] -> exists msg, rpc_DecodeOffer s ctxDone picksReady str = Err (EStatus InvalidArgument msg))
  /\ (str <> [] -> forall e, DecodeOfferStr str = Err e ->
      rpc_DecodeOffer s ctxDone picksReady str = Err e)
  /\ (str <> [] -> forall o, DecodeOfferStr str = Ret o ->
      exists resp p, rpc_DecodeOffer s ctxDone picksReady str = Ret resp
        /\ ro_MinAmountMsat resp = o_MinimumAmount o
        /\ ro_Description resp = o_Description o /\ ro_Issuer resp = o_Issuer o
        /\ ro_MinQuantity resp = o_QuantityMin o /\ ro_MaxQuantity resp = o_QuantityMax o
        /\ u64 (ro_MinAmountMsat resp) /\ u64 (ro_ExpiryUnixSeconds resp)
        /\ u64 (ro_MinQuantity resp) /\ u64 (ro_MaxQuantity resp)
        /\ (o_Expiry o = zero_Time \/ to_i64 (ro_ExpiryUnixSeconds resp) = t_Unix (o_Expiry o))
        /\ o_NodeID o = Some p /\ length (ro_NodeId resp) = 64%nat
        /\ schnorr_ParsePubKey (unhex (ro_NodeId resp)) = Ret p
        /\ match o_Signature o with
           | Some sig => unhex (ro_Signature resp) = sig /\ length (ro_Signature resp) = 128%nat
           | None => ro_Signature resp = []
           end
        /\ exists raw, o_Features o = Some (NewFeatureVector raw)
           /\ raw_Decode (ro_Features resp) = Ret raw).
Proof.
  intros Hw. unfold rpc_DecodeOffer. rewrite Hw. cbn [mbind outcome_bind].
  unfold parseDecodeOfferRequest.
  split; [intros ->; by eexists|]. split; intros Hne.
  { intros e He. rewrite bool_decide_false by done. cbn. by rewrite He. }
  intros o Ho. destruct (DecodeOfferStr_offer _ _ Ho) as [[_ ow_amount0 _ ow_features0 ow_expiry0 _ ow_min0
    ow_max0 ow_node0 ow_sig0] [p Hp]].
  rewrite bool_decide_false by done. cbn [mbind outcome_bind]. rewrite Ho. cbn [mbind outcome_bind].
  destruct ow_features0 as [raw Hf]. unfold composeDecodeOfferResponse. rewrite Hf, Hp.
  destruct (fv_Encode_ok raw) as [fb Hfb]. rewrite Hfb. cbn [coded mbind outcome_bind].
  eexists _, p. split; [reflexivity|]. cbn. rewrite (to_u64_small _ ow_amount0).
  do 6 (split; [done|]).
  split; [destruct (negb _); [apply to_u64_range | by split]|]. do 2 (split; [done|]).
  split.
  { destruct (time_IsZero (o_Expiry o)) eqn:Z; cbn.
    - left. unfold time_IsZero in Z. by apply bool_decide_eq_true in Z.
    - right. destruct ow_expiry0 as [E|(? & _)]; [by rewrite E in Z | by apply to_i64_u64]. }
  split; [done|]. rewrite hex_length, schnorr_SerializePubKey_length, unhex_hex.
  split; [done|]. split; [by apply ow_node0|]. split.
  - destruct (o_Signature o) as [sig|]; [|done].
    rewrite unhex_hex, hex_length, (ow_sig0 sig) by done. done.
  - exists raw. split; [done|]. by apply fv_Decode_Encode.
Qed.
End CallFacts.

(** ** Witnesses *)

#[export] Instance w_OnionSigner : LndOnionSigner ref_World := {|
  KeyFamilyNodeKey := 6;
  DeriveSharedKey _ _ w := (w, Ret []);
|}.

(** A server that was started. *)
Definition w_server : Server (W := ref_World) := (Server_Start NewServer (Ret tt) w_world).2.1.

Lemma w_served : served w_server (Some (Ret tt)).
Proof.
  eapply (served_start NewServer None (Ret tt) w_world w_world); [apply served_new | | reflexivity|].
  - left. by exists tt.
  - left. by eexists.
Qed.

Lemma server_lifecycle_witness :
  (exists m g, onionMsgr w_server = Some m /\ started m = true /\ routeGenerator w_server = Some g)
  /\ Server_Start w_server (Ret tt) w_world
     = (w_world, (w_server, Err (ENew "server already started"))).
Proof.
  destruct (server_lifecycle w_server _ w_served) as (_ & Hr & _ & Hs & _).
  split; [by apply Hr | by apply Hs].
Defined.

Definition w_request_to (p : @PublicKey ref_Crypto) : SendOnionMessageRequest :=
  {| so_Pubkey := key_bytes p; so_BlindedDestination := None; so_ReplyPath := None;
     so_FinalPayloads := {[ 64 := lit "request" ]}; so_DirectConnect := false |}.

Definition w_onionReq : SendMessageRequest :=
  {| sm_Peer := Some w_target; sm_BlindedDestination := None; sm_ReplyPath := None;
     sm_FinalPayloads := [MkFinalHopPayload 64 (lit "request")]; DirectConnect := false |}.

Lemma w_parsed : parseSendOnionMessageRequest (w_request_to w_target) = Ret w_onionReq.
Proof. reflexivity. Qed.

Lemma parseSendOnionMessageRequest_spec_witness :
  SendMessageRequest_Validate w_onionReq = Ret tt /\ NoDup (map TLVType (sm_FinalPayloads w_onionReq)).
Proof.
  destruct (parseSendOnionMessageRequest_spec (w_request_to w_target)) as [_ H].
  destruct (H w_onionReq w_parsed) as (? & _ & _ & ? & _). by split.
Defined.

Definition w_rpc_path : rpcBlindedPath :=
  {| rp_IntroductionNode := key_bytes (true, x05); rp_BlindingPoint := key_bytes (false, x06);
     rp_Hops := [{| rb_BlindedNodeId := key_bytes (true, x07); rb_EncryptedData := lit "blob" |}] |}.

Lemma reply_path_rpc_witness :
  composeReplyPath (Some (w_dest 1)) = Some w_rpc_path.
Proof.
  apply (proj2 reply_path_rpc); [reflexivity | reflexivity | reflexivity|].
  by apply Forall_cons_2; [|apply Forall_nil_2].
Defined.

Lemma SendOnionMessage_spec_witness :
  SendOnionMessage w_server false true (w_request_to w_target) (w_dial [] None)
  = ((NewPrivateKey (NewPrivateKey (w_dial [] None)).1).1,
     Err (EStatus NotFound "could not find path to destination")).
Proof.
  destruct (SendOnionMessage_spec w_server _ false true (w_request_to w_target) (w_dial [] None) w_served)
    as (_ & _ & _ & H).
  by eapply (H eq_refl eq_refl w_onionReq w_target x0a x0b); [exact w_parsed|..].
Defined.

Definition w_made_route : BlindedPath :=
  from_Ret (w_blinded 1) (ReplyPath_generate w_generator [38] w_world).2.

Lemma GenerateBlindedRoute_spec_witness :
  exists p, GenerateBlindedRoute w_server false true [38] w_world
            = ((ReplyPath_generate w_generator [38] w_world).1, Ret p)
    /\ parseReplyPath (Some p) = Ret (Some (path_of w_made_route)) /\ length (rp_Hops p) = 2%nat.
Proof.
  destruct (GenerateBlindedRoute_spec w_server _ true [38] w_world w_served eq_refl) as [_ H].
  { repeat constructor; lia. }
  destruct H as (g & Hg & H); [repeat constructor; lia|]. injection Hg as <-.
  destruct (H (ReplyPath_generate w_generator [38] w_world).1) as [_ H'].
  destruct (H' w_made_route) as (p & E & Hp & Hl & _); [reflexivity|].
  by exists p.
Defined.

Lemma rpc_DecodeOffer_spec_witness :
  exists resp, rpc_DecodeOffer w_server false true w_offer_str = Ret resp
    /\ ro_MinAmountMsat resp = 1000 /\ length (ro_NodeId resp) = 64%nat
    /\ schnorr_ParsePubKey (unhex (ro_NodeId resp)) = Ret (false, x05).
Proof.
  destruct (rpc_DecodeOffer_spec w_server false true w_offer_str eq_refl) as (_ & _ & H).
  destruct (H ltac:(vm_compute; discriminate) w_str_offer) as
    (resp & p & E & Ha & _ & _ & _ & _ & _ & _ & _ & _ & _ & Hp & Hl & Hparse & _);
    [apply from_Ret_eq; vm_compute; reflexivity|].
  exists resp. split; [exact E|]. split; [exact Ha|]. split; [exact Hl|].
  assert (p = (false, x05)) as <- by (vm_compute in Hp; by injection Hp). exact Hparse.
Defined.
