(* ===== verification/NetDeps.v ===== *)
(** The interface between the nodes of a network: what lightning-onion is
    documented to promise the nodes along a blinded path and along an onion, and
    what lnd does with a message.  NetRef.v has an instance. *)
From S2P Require Import Prelude Deps Io LndDeps Messenger.

(** Route blinding, as a function of public keys: the blinding point that a node
    that was given one hands on, and the key it goes by in the path. *)
Class Blinding `{Crypto} := {
  next_point : PublicKey -> PublicKey -> PublicKey;
  blinded_id : PublicKey -> PublicKey -> PublicKey;
}.

(** The world of one node: the node's key, when its lnd answers; the onions that
    its router's replay log has; what its lnd was given to send; its peers. *)
Class NodeWorld (W : Type) `{Sphinx} := {
  node_up : PublicKey -> W -> Prop;
  seen : W -> OnionPacket -> Prop;
  sent : W -> list CustomMessage;
  connected : W -> bytes -> Prop;
}.

(** The blinding points along a path that starts with this one. *)
Fixpoint path_points `{Blinding} (point : PublicKey) (nodes : list PublicKey) : list PublicKey :=
  match nodes with
  | [] => []
  | node :: rest => point :: path_points (next_point node point) rest
  end.

Lemma path_points_length `{Blinding} point nodes : length (path_points point nodes) = length nodes.
Proof. revert point. induction nodes as [|n nodes IH]; intros point; cbn; [done|]. by rewrite IH. Qed.

Section Laws.
Context {W : Type} `{CR : Crypto, SP : !Sphinx, SO : !SphinxOps, SR : !SphinxRouter W,
  LC : Lndclient, OL : !OnionLnd W, OS : !LndOnionSigner W, BL : !Blinding, NW : !NodeWorld W}.

(** The key of NewNodeECDH. *)
Definition own_key (node : PublicKey) : SingleKeyECDH W :=
  {| ecdh_PubKey := node; ecdh_ECDH := ECDH |}.

(** A call that sends nothing and loses no peer. *)
Definition rested (node : PublicKey) (w w' : W) : Prop :=
  node_up node w' /\ sent w' = sent w /\ forall v, connected w v -> connected w' v.

(** The node that a hop is for, given the blinding point of the hop, peels an
    onion that it has not seen. *)
Definition peels_at (h : OnionHop) (p : OnionPacket) (action : ProcessCode)
    (next : option OnionPacket) : Prop :=
  forall node point w, node_up node w -> oh_NodePub h = blinded_id node point -> ~ seen w p ->
  exists w', ProcessOnionPacket p [] 0 point w
             = (w', Ret (MkProcessedPacket action next (oh_HopPayload h)))
             /\ rested node w w'.

(** An onion for these hops: a layer for each. *)
Fixpoint peels_to (hs : list OnionHop) (p : OnionPacket) : Prop :=
  match hs with
  | [] => False
  | h :: rest =>
      (exists blob, OnionPacket_Encode p = Ret blob /\ len blob < 65536)
      /\ match rest with
         | [] => exists next, peels_at h p ExitNode next
         | _ => exists q, peels_at h p MoreHops (Some q) /\ peels_to rest q
         end
  end.
End Laws.

(** What lightning-onion and lnd are documented to do. *)
Class OnionLaws (W : Type) `{CR : Crypto, SP : !Sphinx, SO : !SphinxOps, SR : !SphinxRouter W,
    LC : Lndclient, OL : !OnionLnd W, OS : !LndOnionSigner W, BL : !Blinding, NW : !NodeWorld W}
    : Prop := {
  blinded_path k hs bp : BuildBlindedPath k hs = Ret bp ->
    BlindedHops bp
      = zip_with blinded_id (map NodePub hs) (path_points (priv_PubKey k) (map NodePub hs))
    /\ Forall (fun d => u64 (len d)) (bp_EncryptedData bp);
  (** the node of a hop decrypts the data for it, which is not empty when what
      was encrypted is not *)
  blinded_data k hs bp i h point d : BuildBlindedPath k hs = Ret bp -> hs !! i = Some h ->
    path_points (priv_PubKey k) (map NodePub hs) !! i = Some point ->
    bp_EncryptedData bp !! i = Some d ->
    (bph_Payload h <> [] -> d <> [])
    /\ forall w, node_up (NodePub h) w -> exists w',
       DecryptBlindedData (own_key (NodePub h)) point d w = (w', Ret (bph_Payload h))
       /\ rested (NodePub h) w w';
  blinded_next node point w : node_up node w -> exists w',
    NextEphemeral (own_key node) point w = (w', Ret (next_point node point)) /\ rested node w w';
  onion_layers (hs : list OnionHop) sk p :
    NewOnionPacket (map Some hs ++ replicate (NumMaxHops - length hs) None) sk []
      DeterministicPacketFiller = Ret p -> hs <> [] -> peels_to (W := W) hs p;
  lnd_sends node w msg : node_up node w -> connected w (cm_Peer msg) -> exists w',
    SendCustomMessage msg w = (w', Ret tt);
  lnd_sent node w w' msg : SendCustomMessage msg w = (w', Ret tt) ->
    sent w' = sent w ++ [msg] /\ (node_up node w -> node_up node w');
}.

(** A call that rests, whatever it returns. *)
Definition rests `{NodeWorld W} {A} (m : io W A) : Prop :=
  forall node w, node_up node w -> rested node w (m w).1.

(** The other calls that sending makes send nothing. *)
Class SenderLaws (W : Type) `{CR : Crypto, SP : !Sphinx, KS : !Keys W, LC : Lndclient,
    OL : !OnionLnd W, NW : !NodeWorld W} : Prop := {
  key_rests : rests NewPrivateKey;
  peers_rest : rests ListPeers;
  node_rests v b : rests (og_GetNodeInfo v b);
  connect_rests v address b : rests (Connect v address b);
  wait_rests d : rests (WaitBackoff d);
  routes_rest r : rests (QueryRoutes r);
}.
