(* ===== verification/NetRef.v ===== *)
(** A concrete instance of the interfaces of NetDeps.v, with their laws.

    It is not lightning-onion: keys are added instead of multiplied, data is
    labelled with the blinded key of the hop that may read it instead of
    encrypted, and an onion is the list of its layers, each labelled with the
    key that peels it.  A node reads and peels only what is labelled for it, and
    a router refuses an onion it has seen. *)
From S2P Require Import Prelude Deps DepsRef Io LndDeps LndRef Messenger NetDeps.

(** ** Keys *)

Abbreviation key := (@PublicKey ref_Crypto).

Definition byte_add (a b : byte) : byte := byte_of_Z (byte_to_Z a + byte_to_Z b).
Definition key_add (p q : key) : key :=
  let '(s, a) := p : bool * byte in let '(t, b) := q : bool * byte in (xorb s t, byte_add a b).

#[export] Instance net_Blinding : Blinding := {|
  next_point := key_add;
  blinded_id node point := let '(s, b) := key_add node point : bool * byte in (negb s, b);
|}.

(** ** Paths and onions *)

Definition label (p : key) : bytes := SerializeCompressed p.
Definition unlabel (p : key) (b : bytes) : outcome bytes :=
  if bool_decide (take 33 b = label p) then Ret (drop 33 b) else Err (EExt "not for this key").

Definition net_ids (k : byte) (hops : list BlindedPathHop) : list key :=
  zip_with blinded_id (map NodePub hops) (path_points ((false, k) : key) (map NodePub hops)).

Definition net_built (k : byte) (h : BlindedPathHop) (hops : list BlindedPathHop) : BlindedPath :=
  MkBlindedPath (NodePub h) ((false, k) : key) (net_ids k hops)
    (zip_with (fun (id : key) h => label id ++ bph_Payload h) (net_ids k hops) hops).

Definition net_path (k : byte) (hops : list BlindedPathHop) : outcome BlindedPath :=
  match hops with
  | [] => Err (EExt "no hops")
  | h :: _ =>
      if bool_decide (Forall (fun h => len (bph_Payload h) < 65536) hops)
      then Ret (net_built k h hops)
      else Err (EExt "payload too long")
  end.

Lemma net_path_inv k hops p : net_path k hops = Ret p ->
  exists h, head hops = Some h /\ p = net_built k h hops
  /\ Forall (fun h => len (bph_Payload h) < 65536) hops.
Proof.
  destruct hops as [|h hops]; [done|]. unfold net_path. case_bool_decide; [|done].
  intros [= <-]. by exists h.
Qed.

Lemma net_ids_length k hops : length (net_ids k hops) = length hops.
Proof. unfold net_ids. rewrite length_zip_with, path_points_length, !length_map. lia. Qed.

#[export] Instance net_Sphinx : Sphinx := {|
  PrivateKey := byte;
  priv_PubKey k := (false, k);
  BuildBlindedPath := net_path;
  PayloadType := unit;
  PayloadTLV := tt;
  NumMaxHops := 27;
  PacketFiller := unit;
  DeterministicPacketFiller := tt;
  OnionPacket := bytes;
  OnionPacket_Encode b := Ret b;
  OnionPacket_Decode b := Ret b;
|}.

#[export] Instance net_SphinxLaws : SphinxLaws.
Proof.
  constructor; [|by intros pkt b [= <-]].
  intros k hops p (h & Hh & -> & _)%net_path_inv. unfold net_built.
  cbn [BlindedHops bp_EncryptedData IntroductionPoint bp_BlindingPoint].
  rewrite length_zip_with, net_ids_length. split; [done|]. split; [lia|]. split; [|done].
  destruct hops; [done|]. by injection Hh as ->.
Qed.

Definition net_layer (h : option OnionHop) : bytes :=
  match h with
  | Some h => label (oh_NodePub h) ++ be_bytes 2 (len (hp_Payload (oh_HopPayload h)))
              ++ hp_Payload (oh_HopPayload h)
  | None => []
  end.

#[export] Instance net_SphinxOps : SphinxOps := {|
  NewOnionPacket path _ _ _ :=
    let packet := concat (map net_layer path) in
    if bool_decide (len packet < 65536) then Ret packet else Err (EExt "payloads too long")
|}.

(** ** The world of a node *)

Record net_World := MkNetWorld {
  nw_key : key;
  nw_log : list bytes;
  nw_sent : list CustomMessage;
  nw_peers : list bytes;
  nw_route : outcome (list Hop);
  nw_keys : list byte;
  nw_inbox : list (option (@OnionPayload.ReplyPath ref_Crypto) * bytes);
}.

Definition set_nw (w : net_World) (log : list bytes) (out : list CustomMessage) (keys : list byte)
    inbox : net_World :=
  MkNetWorld (nw_key w) log out (nw_peers w) (nw_route w) keys inbox.

#[export] Instance net_Keys : Keys net_World := {|
  NewPrivateKey w :=
    match nw_keys w with
    | [] => (w, Err (EExt "random source"))
    | k :: ks => (set_nw w (nw_log w) (nw_sent w) ks (nw_inbox w), Ret k)
    end
|}.

(** One layer: for the key [id]. *)
Definition net_peel (id : key) (pkt : bytes) : outcome ProcessedPacket :=
  rest ← unlabel id pkt;
  match rest with
  | a :: b :: r =>
      let l := Z.to_nat (be_val 0 [a; b]) in
      if bool_decide (length r < l)%nat then Err (EExt "short packet")
      else
        let payload := MkHopPayload tt (take l r) in
        match drop l r with
        | [] => Ret (MkProcessedPacket ExitNode None payload)
        | next => Ret (MkProcessedPacket MoreHops (Some next) payload)
        end
  | _ => Err (EExt "short packet")
  end.

#[export] Instance net_SphinxRouter : SphinxRouter net_World := {|
  NextEphemeral nodeKey point := pure (Ret (key_add (ecdh_PubKey nodeKey) point));
  DecryptBlindedData nodeKey point data :=
    pure (unlabel (blinded_id (ecdh_PubKey nodeKey) point) data);
  ProcessOnionPacket pkt _ _ point w :=
    if bool_decide (pkt ∈ nw_log w) then (w, Err (EExt "replayed packet"))
    else (set_nw w (pkt :: nw_log w) (nw_sent w) (nw_keys w) (nw_inbox w),
          net_peel (blinded_id (nw_key w) point) pkt);
|}.

#[export] Instance net_OnionLnd : OnionLnd net_World := {|
  SendCustomMessage msg w :=
    if bool_decide (cm_Peer msg ∈ nw_peers w)
    then (set_nw w (nw_log w) (nw_sent w ++ [msg]) (nw_keys w) (nw_inbox w), Ret tt)
    else (w, Err (EExt "peer not connected"));
  SubscribeCustomMessages w := (w, Ret tt);
  og_GetNodeInfo _ _ w := (w, Err (EStatus NotFound "unable to find node"));
  ListPeers w := (w, Ret (map MkPeer (nw_peers w)));
  Connect _ _ _ w := (w, Ret tt);
  GetInfo_IdentityPubkey w := (w, Ret (label (nw_key w)));
  QueryRoutes _ w := (w, nw_route w);
  WaitBackoff _ w := (w, Ret tt);
|}.

#[export] Instance net_LndOnionSigner : LndOnionSigner net_World := {|
  KeyFamilyNodeKey := 6;
  DeriveSharedKey _ _ := pure (Ret []);
|}.

#[export] Instance net_NodeWorld : NodeWorld net_World := {|
  node_up node w := nw_key w = node;
  seen w p := p ∈ nw_log w;
  sent := nw_sent;
  connected w v := v ∈ nw_peers w;
|}.

(** ** The laws *)

Lemma label_length p : length (label p) = 33%nat.
Proof. apply SerializeCompressed_length. Qed.

Lemma unlabel_label p b : unlabel p (label p ++ b) = Ret b.
Proof.
  unfold unlabel. rewrite (take_app_length' (label p) b 33), (drop_app_length' (label p) b 33)
    by (by rewrite label_length). by rewrite bool_decide_true.
Qed.

Lemma net_peel_layer id h rest : oh_NodePub h = id -> len (net_layer (Some h) ++ rest) < 65536 ->
  net_peel id (net_layer (Some h) ++ rest)
  = Ret (MkProcessedPacket (if bool_decide (rest = []) then ExitNode else MoreHops)
           (if bool_decide (rest = []) then None else Some rest) (oh_HopPayload h)).
Proof.
  intros <- Hl. unfold net_peel, net_layer. rewrite <- !app_assoc, unlabel_label.
  cbn [mbind outcome_bind]. set (b := hp_Payload (oh_HopPayload h)) in *.
  assert (0 <= len b < 65536) as Hb.
  { unfold len in *. cbn [net_layer] in Hl. fold b in Hl. rewrite !length_app in Hl. lia. }
  pose proof (be_val_be_bytes 2 (len b)) as V.
  destruct (be_bytes 2 (len b)) as [|x [|y [|]]] eqn:E; try (by apply (f_equal length) in E).
  cbn [app]. rewrite V by (cbn; lia).
  rewrite bool_decide_false by (rewrite length_app; unfold len; lia).
  assert (Z.to_nat (len b) = length b) as -> by (unfold len; lia).
  rewrite take_app_length, drop_app_length.
  assert (MkHopPayload tt b = oh_HopPayload h) as -> by by destruct h as [n [[] p]].
  destruct rest; [by rewrite !bool_decide_true | by rewrite !bool_decide_false].
Qed.

Lemma net_layers hs pkt : len pkt < 65536 -> hs <> [] -> pkt = concat (map net_layer (map Some hs)) ->
  peels_to (W := net_World) hs pkt.
Proof.
  revert pkt. induction hs as [|h hs IH]; intros pkt Hl Hne ->; [done|].
  cbn [peels_to]. split; [by eexists|].
  assert (forall action next, net_peel (oh_NodePub h) (concat (map net_layer (map Some (h :: hs))))
            = Ret (MkProcessedPacket action next (oh_HopPayload h)) ->
          peels_at (W := net_World) h (concat (map net_layer (map Some (h :: hs)))) action next) as K.
  { intros action next Hp node point w <- Hid Hnew. cbn [ProcessOnionPacket net_SphinxRouter].
    rewrite bool_decide_false by done. rewrite <- Hid, Hp. eexists. split; [reflexivity|].
    by repeat split. }
  cbn [map concat] in *. rewrite net_peel_layer in K by done.
  destruct hs as [|h' hs]; [exists None; by apply K|].
  assert (concat (map net_layer (map Some (h' :: hs))) <> []) as Hr.
  { cbn [map concat net_layer]. rewrite <- !app_assoc. intros E%(f_equal length).
    rewrite length_app, label_length in E. cbn in E. lia. }
  rewrite bool_decide_false in K by done. eexists. split; [by apply K|].
  apply IH; [|done|done]. unfold len in *. rewrite length_app in Hl. lia.
Qed.

#[export] Instance net_OnionLaws : OnionLaws net_World.
Proof.
  constructor.
  - intros k hops p (h & _ & -> & F)%net_path_inv. unfold net_built.
    cbn [BlindedHops bp_EncryptedData]. split; [done|].
    apply Forall_lookup_2. intros i d (id & h' & -> & _ & Hh)%lookup_zip_with_Some.
    rewrite Forall_lookup in F. specialize (F _ _ Hh). cbn in F.
    unfold u64, len in *. rewrite length_app, label_length. lia.
  - intros k hops p i h point d (h0 & _ & -> & _)%net_path_inv Hh Hp Hd. unfold net_built in Hd.
    cbn [bp_EncryptedData] in Hd.
    apply lookup_zip_with_Some in Hd as (id & h' & -> & Hid & Hh'). rewrite Hh in Hh'.
    injection Hh' as <-. apply lookup_zip_with_Some in Hid as (n & e & -> & Hn & He).
    rewrite list_lookup_fmap, Hh in Hn. injection Hn as <-. cbn [priv_PubKey net_Sphinx] in Hp.
    rewrite Hp in He. injection He as <-. split.
    + intros _ E%(f_equal length). rewrite length_app, label_length in E. cbn in E. lia.
    + intros w Hw. exists w. split; [|by repeat split].
      cbn [DecryptBlindedData net_SphinxRouter own_key ecdh_PubKey]. unfold pure. by rewrite unlabel_label.
  - intros node point w Hw. exists w. by repeat split.
  - intros hs sk p. cbn [NewOnionPacket net_SphinxOps]. case_bool_decide; [|done].
    intros [= <-] Hne. apply net_layers; [done..|].
    rewrite map_app, concat_app.
    assert (forall n, concat (map net_layer (replicate n None)) = []) as -> by by induction n.
    by rewrite app_nil_r.
  - intros node w msg _ Hc. cbn. rewrite bool_decide_true by done. by eexists.
  - intros node w w' msg. cbn. case_bool_decide; [|done]. by intros [= <-].
Qed.

#[export] Instance net_SenderLaws : SenderLaws net_World.
Proof.
  constructor; intros; intros node w Hw; try by repeat split.
  cbn. destruct (nw_keys w); by repeat split.
Qed.
