(* ===== verification/Network.v ===== *)
(** Nodes that run boltnd, as a network: the message that one of them sends, the
    nodes that forward it, and the node that delivers it.

    The messenger is the same code at every node.  This file puts the sender
    (Messenger.SendMessage over Routes.CreateBlindedRoute) together with the
    receivers (Messenger.handleOnionMessage), for the laws of NetDeps.v: what a
    node can decrypt, and what is left of an onion that it peels. *)
From S2P Require Import Prelude Deps DepsRef Io LndDeps LndRef.
From S2P Require Import Stream Merkle Shared RouteBlinding OnionMessages OnionPayload Routes.
From S2P Require Import Messenger Rpc NetDeps NetRef.

(** ** Along a route *)

Section Travel.
Context {W : Type} `{CR : Crypto, TL : !Tlv, LW : !Lndwire, SP : !Sphinx, SO : !SphinxOps,
  SR : !SphinxRouter W, VX : !Vertices, LC : Lndclient, OL : !OnionLnd W, OS : !LndOnionSigner W,
  BL : !Blinding, NW : !NodeWorld W, MO : MapOrder}.

(** A node that is up and has not seen the onion of these bytes. *)
Definition ready_for (node : PublicKey) (w : W) (data : bytes) : Prop :=
  node_up node w /\ forall m rest p, OnionMessage_Decode data = Ret (m, rest) ->
    OnionPacket_Decode (om_OnionBlob m) = Ret p -> ~ seen w p.

(** Whatever its handlers, a node that is handed these bytes as a message
    sends [out] and does nothing else. *)
Definition relays (node : PublicKey) (data : bytes) (out : CustomMessage) : Prop :=
  forall handlers msg w, cm_Data msg = data -> ready_for node w data -> exists w1,
    handleOnionMessage msg (messengerKit (own_key node) handlers) w
    = iwrap "could not send message" (SendCustomMessage out) w1 /\ rested node w w1.

(** Or it calls its handlers with this payload. *)
Definition delivers (node : PublicKey) (data : bytes) (o : OnionMessagePayload) : Prop :=
  forall handlers msg w, cm_Data msg = data -> ready_for node w data ->
  (forall t, handlers !! t <> Some None) -> exists w1,
    handleOnionMessage msg (messengerKit (own_key node) handlers) w
    = run_all (handler_runs handlers o) w1 /\ rested node w w1.

(** The way of a message: the nodes, each with the bytes that it is handed. *)
Inductive travels (o : OnionMessagePayload) : list PublicKey -> list bytes -> Prop :=
| travels_arrives node data : delivers node data o -> travels o [node] [data]
| travels_relayed node next nodes data out rest :
    relays node data out -> cm_Peer out = SerializeCompressed next ->
    cm_MsgType out = OnionMessageType -> travels o (next :: nodes) (cm_Data out :: rest) ->
    travels o (node :: next :: nodes) (data :: cm_Data out :: rest).

(** A node on the way, with the blinding point and the data it is given. *)
Record station := MkStation { st_node : PublicKey; st_point : PublicKey; st_data : bytes }.

Definition station_id (s : station) : PublicKey := blinded_id (st_node s) (st_point s).

(** The data tells the node this. *)
Definition opens (s : station) (route : BlindedRouteData) : Prop :=
  st_data s <> [] /\ exists payload, DecodeBlindedRouteData payload = Ret route
  /\ forall w, node_up (st_node s) w -> exists w',
     DecryptBlindedData (own_key (st_node s)) (st_point s) (st_data s) w = (w', Ret payload)
     /\ rested (st_node s) w w'.

(** Each node is told the next one, and hands on the point that one needs. *)
Definition leads_to (s s' : station) : Prop :=
  exists route, opens s route /\ NextNodeID route = Some (st_node s')
    /\ default (next_point (st_node s) (st_point s)) (NextBlindingOverride route) = st_point s'.

(** The stations of a blinded path. *)
Definition stations (point : PublicKey) (nodes : list PublicKey) (datas : list bytes)
    : list station :=
  zip_with (fun '(node, point) data => MkStation node point data)
    (zip nodes (path_points point nodes)) datas.

(** A blinded destination that a path through these nodes was built for. *)
Definition blinded_for (dest : ReplyPath) (nodes : list PublicKey) : Prop :=
  exists k hs bp, BuildBlindedPath k hs = Ret bp /\ dest = path_of bp /\ map NodePub hs = nodes
    /\ Forall2 carries hs (hop_data nodes None).

(** The nodes behind the own hops of a request. *)
Definition behind (dest : option ReplyPath) (nodes : list PublicKey) : Prop :=
  match dest with
  | None => nodes = []
  | Some dest => blinded_for dest nodes
  end.
End Travel.

(** ** Facts *)

Section TravelFacts.
Context {W : Type} `{CR : Crypto, CL : !CryptoLaws, TL : !Tlv, TLL : !TlvLaws, LW : !Lndwire,
  LWL : !LndwireLaws, SP : !Sphinx, SL : !SphinxLaws, SO : !SphinxOps, SR : !SphinxRouter W,
  VX : !Vertices, VXL : !VerticesLaws, LC : Lndclient, OL : !OnionLnd W, OS : !LndOnionSigner W,
  BL : !Blinding, NW : !NodeWorld W, ON : !OnionLaws W, MO : MapOrder, MOL : !MapOrderLaws,
  KS : !Keys W, LN : Lnwire}.

Lemma rested_trans node (w w1 w2 : W) : rested node w w1 -> rested node w1 w2 -> rested node w w2.
Proof. intros (_ & S1 & C1) (U & S2 & C2). split; [done|]. split; [congruence | auto]. Qed.

Lemma path_points_next point nodes i node here : nodes !! i = Some node ->
  path_points point nodes !! i = Some here -> is_Some (nodes !! S i) ->
  path_points point nodes !! S i = Some (next_point node here).
Proof.
  revert point i. induction nodes as [|n nodes IH]; intros point i; [done|].
  destruct i as [|i]; cbn [lookup list_lookup path_points].
  - intros [= ->] [= ->] [x Hx]. destruct nodes; [done|]. reflexivity.
  - apply IH.
Qed.

(** *** Stations *)

Lemma stations_lookup point nodes datas i s : stations point nodes datas !! i = Some s <->
  nodes !! i = Some (st_node s) /\ path_points point nodes !! i = Some (st_point s)
  /\ datas !! i = Some (st_data s).
Proof.
  unfold stations. rewrite lookup_zip_with_Some. split.
  - intros ([node here] & d & -> & H & Hd). apply lookup_zip_with_Some in H.
    by destruct H as (? & ? & [= <- <-] & ? & ?).
  - intros (Hn & Hp & Hd). exists (st_node s, st_point s), (st_data s). split; [by destruct s|].
    split; [|done]. apply lookup_zip_with_Some. by exists (st_node s), (st_point s).
Qed.

Lemma stations_fields point nodes datas : length datas = length nodes ->
  map st_node (stations point nodes datas) = nodes
  /\ map station_id (stations point nodes datas) = zip_with blinded_id nodes (path_points point nodes)
  /\ map st_data (stations point nodes datas) = datas.
Proof.
  unfold stations. revert point datas. induction nodes as [|n nodes IH]; intros point [|d datas] L;
    try done. cbn [path_points]. cbn in L. destruct (IH (next_point n point) datas) as (H1 & H2 & H3);
    [lia|]. cbn in *. by rewrite H1, H2, H3.
Qed.

Lemma hop_data_lookup path start i node : path !! i = Some node ->
  hop_data path start !! i
  = Some (match path !! S i with
          | Some next => Some {| NextNodeID := Some next; NextBlindingOverride := None |}
          | None => start_data <$> start
          end).
Proof.
  revert i. induction path as [|p path IH]; intros i; [done|].
  destruct path as [|q path]; [by destruct i as [|i]|]. destruct i as [|i]; [done|].
  intros H. cbn [hop_data]. by apply IH.
Qed.

Lemma empty_route_data : DecodeBlindedRouteData [] = Ret {| NextNodeID := None; NextBlindingOverride := None |}.
Proof.
  change [] with (wire []) at 1.
  apply (DecodeBlindedRouteData_raws {| NextNodeID := None; NextBlindingOverride := None |});
    [by split; constructor | done].
Qed.

(** A station of a blinded path is told what its hop carries. *)
Lemma station_opens k hs bp i s route : BuildBlindedPath k hs = Ret bp ->
  stations (priv_PubKey k) (map NodePub hs) (bp_EncryptedData bp) !! i = Some s ->
  (exists h, hs !! i = Some h /\ carries h (Some route)) -> NextNodeID route <> None ->
  opens (W := W) s route.
Proof.
  intros Hb (Hn & Hp & Hd)%stations_lookup (h & Hh & Hc) Hne.
  rewrite list_lookup_fmap, Hh in Hn. injection Hn as Hn.
  destruct (blinded_data k hs bp i h _ _ Hb Hh Hp Hd) as [D1 D2]. split.
  - apply D1. intros E. unfold carries in Hc. rewrite E, empty_route_data in Hc. by injection Hc as <-.
  - exists (bph_Payload h). split; [done|]. intros w Hw. rewrite <- Hn in *. by apply D2.
Qed.

(** *** From the stations to the way *)

(** The message that hands this onion on with this point. *)
Definition onion_bytes (point : PublicKey) (p : OnionPacket) (data : bytes) : Prop :=
  exists blob, OnionPacket_Encode p = Ret blob /\ len blob < 65536
  /\ OnionMessage_Encode (NewOnionMessage point blob) = Ret data.

Lemma ready_peels s h p action next data msg (w : W) :
  oh_NodePub h = station_id s -> peels_at h p action next -> onion_bytes (st_point s) p data ->
  cm_Data msg = data -> ready_for (st_node s) w data ->
  exists w1, peels msg w w1 (st_point s) (MkProcessedPacket action next (oh_HopPayload h))
             /\ rested (st_node s) w w1.
Proof.
  intros Hid Hp (blob & Eb & Hl & Em) <- [Hup Hnew].
  pose proof (OnionPacket_Decode_Encode _ _ Eb) as Ed.
  pose proof (OnionMessage_Decode_ok (NewOnionMessage (st_point s) blob) _ [] Hl Em) as D.
  rewrite app_nil_r in D. destruct (Hp _ _ w Hup Hid (Hnew _ _ _ D Ed)) as (w1 & Ep & R).
  exists w1. split; [|done]. by exists (NewOnionMessage (st_point s) blob), p.
Qed.

Lemma station_relays s s' h p q data data' : leads_to (W := W) s s' ->
  hop_is (station_id s) (hopPayload (st_data s) false None []) h ->
  peels_at (W := W) h p MoreHops (Some q) -> onion_bytes (st_point s) p data ->
  onion_bytes (st_point s') q data' ->
  relays (W := W) (st_node s) data
    (MkCustomMessage (SerializeCompressed (st_node s')) OnionMessageType data').
Proof.
  intros (route & (Hne & payload & Dp & Hdec) & Enext & Epoint) (Hid & _ & Ho) Hp Hdata
    (blob' & Eb' & _ & Em') handlers msg w Hm Hr.
  destruct (ready_peels _ _ _ _ _ _ msg w Hid Hp Hdata Hm Hr) as (w1 & Hpeels & R1).
  destruct (Hdec w1 (proj1 R1)) as (w2 & Edec & R2).
  destruct (blinded_next (st_node s) (st_point s) w2 (proj1 R2)) as (w3 & En & R3).
  exists w3. split; [|by eapply rested_trans, rested_trans].
  destruct (handle_forwarded (own_key (st_node s)) handlers msg w w1 w2 w3 _ _ q (st_data s) payload
              route (st_node s') _ blob' Hpeels eq_refl eq_refl Ho Hne Edec Dp Enext En Eb')
    as ([peer type data''] & -> & Epeer & Etype & Edata).
  cbn in *. rewrite Epoint, Em' in Edata. by injection Edata as <-; subst.
Qed.

Lemma station_delivers s h p next data o : hop_is (station_id s) o h ->
  peels_at (W := W) h p ExitNode next -> onion_bytes (st_point s) p data ->
  delivers (W := W) (st_node s) data o.
Proof.
  intros (Hid & _ & Ho) Hp Hdata handlers msg w Hm Hr Hh.
  destruct (ready_peels _ _ _ _ _ _ msg w Hid Hp Hdata Hm Hr) as (w1 & Hpeels & R1).
  exists w1. split; [|done]. by eapply handle_peeled.
Qed.

Lemma encoded_onion point p :
  (exists blob, OnionPacket_Encode p = Ret blob /\ len blob < 65536) ->
  exists data, onion_bytes point p data.
Proof.
  intros (blob & Eb & Hl). eexists. exists blob. split; [done|]. split; [done|].
  apply OnionMessage_Encode_bytes.
Qed.

(** An onion for the stations travels along them. *)
Lemma stations_travel ss : forall s hs p data reply finals,
  (forall i t t', (s :: ss) !! i = Some t -> (s :: ss) !! S i = Some t' -> leads_to (W := W) t t') ->
  Forall3 hop_is (map station_id (s :: ss))
    (onion_payloads (map st_data (s :: ss)) reply finals) hs ->
  peels_to (W := W) hs p -> onion_bytes (st_point s) p data ->
  exists last rest, travels (W := W) (hopPayload last true reply finals)
                      (map st_node (s :: ss)) (data :: rest).
Proof.
  induction ss as [|s' ss IH]; intros s hs p data reply finals Hl F Hp Hd; cbn [map onion_payloads] in *.
  - inversion F as [|? ? h ? ? hs' Hh F']; subst. inversion F'; subst. cbn in Hp.
    destruct Hp as (_ & next & Hp). exists (st_data s), []. constructor. by eapply station_delivers.
  - inversion F as [|? ? h ? ? hs' Hh F']; subst. cbn [peels_to] in Hp. destruct Hp as (_ & Hp).
    destruct hs' as [|h' hs']; [by inversion F'|]. destruct Hp as (q & Hp & Hq).
    destruct (encoded_onion (st_point s') q (proj1 Hq)) as [data' Hd'].
    destruct (IH s' (h' :: hs') q data' reply finals) as (last & rest & T); try done.
    { intros i t t' H1 H2. by apply (Hl (S i)). }
    exists last, (data' :: rest).
    apply (travels_relayed _ _ _ _ _ (MkCustomMessage (SerializeCompressed (st_node s')) OnionMessageType data'));
      [|done..]. eapply station_relays; try done. by apply (Hl 0%nat).
Qed.

(** *** The stations of a request *)

Section Path.
Context (k : PrivateKey) (hs : list BlindedPathHop) (bp : BlindedPath) (start : option blindedStart).
Context (Hb : BuildBlindedPath k hs = Ret bp).
Context (Hc : Forall2 carries hs (hop_data (map NodePub hs) start)).

Let ss := stations (priv_PubKey k) (map NodePub hs) (bp_EncryptedData bp).

Lemma path_stations_length : length ss = length hs.
Proof.
  destruct (BuildBlindedPath_hops _ _ _ Hb) as (_ & L & _). unfold ss, stations.
  rewrite !length_zip_with, path_points_length, !length_map. lia.
Qed.

Lemma path_station_opens i s route : ss !! i = Some s ->
  hop_data (map NodePub hs) start !! i = Some (Some route) -> NextNodeID route <> None ->
  opens (W := W) s route.
Proof.
  intros Hs Hd. eapply station_opens; [exact Hb | exact Hs|].
  destruct (Forall2_lookup_r _ _ _ _ _ Hc Hd) as (h & ? & ?). by exists h.
Qed.

Lemma path_stations_lead i s s' : ss !! i = Some s -> ss !! S i = Some s' -> leads_to (W := W) s s'.
Proof.
  intros Hs Hs'. pose proof Hs as (Hn & Hp & _)%stations_lookup.
  pose proof Hs' as (Hn' & Hp' & _)%stations_lookup.
  exists {| NextNodeID := Some (st_node s'); NextBlindingOverride := None |}. split; [|split; [done|]].
  - eapply path_station_opens; [exact Hs | | done]. by rewrite (hop_data_lookup _ _ _ _ Hn), Hn'.
  - cbn. rewrite (path_points_next _ _ _ _ _ Hn Hp) in Hp' by by eexists. by injection Hp'.
Qed.

(** The last one is told where the blinded destination starts. *)
Lemma path_last_opens s b : start = Some b -> last ss = Some s -> opens (W := W) s (start_data b).
Proof.
  intros Hstart Hl. rewrite last_lookup, path_stations_length in Hl.
  eapply path_station_opens; [exact Hl| |done].
  pose proof Hl as (Hn & _ & _)%stations_lookup. rewrite (hop_data_lookup _ _ _ _ Hn).
  rewrite lookup_ge_None_2, Hstart; [done|]. rewrite length_map. lia.
Qed.

Lemma path_stations_fields : map st_node ss = map NodePub hs
  /\ map station_id ss = BlindedHops bp /\ map st_data ss = bp_EncryptedData bp.
Proof.
  destruct (BuildBlindedPath_hops _ _ _ Hb) as (_ & L & _).
  destruct (blinded_path _ _ _ Hb) as [-> _]. apply stations_fields. by rewrite L, length_map.
Qed.
End Path.

Lemma path_of_hops bp : length (BlindedHops bp) = length (bp_EncryptedData bp) ->
  map BlindedNodeID (Hops (path_of bp)) = BlindedHops bp
  /\ map bh_EncryptedData (Hops (path_of bp)) = bp_EncryptedData bp.
Proof.
  unfold path_of. cbn [Hops]. generalize (bp_EncryptedData bp).
  induction (BlindedHops bp) as [|n ns IH]; intros [|d ds] L; try done. cbn in L.
  destruct (IH ds) as [H1 H2]; [lia|]. cbn in *. by rewrite H1, H2.
Qed.

(** What lies behind the own hops of a request, as stations. *)
Lemma behind_stations dest nodes : behind dest nodes -> exists ds,
  map st_node ds = nodes
  /\ map station_id ds = map BlindedNodeID (match dest with Some d => Hops d | None => [] end)
  /\ map st_data ds = map bh_EncryptedData (match dest with Some d => Hops d | None => [] end)
  /\ Forall (fun d => u64 (len d)) (map st_data ds)
  /\ (forall i s s', ds !! i = Some s -> ds !! S i = Some s' -> leads_to (W := W) s s')
  /\ forall d, dest = Some d -> exists s, head ds = Some s /\ st_node s = FirstNodeID d
       /\ st_point s = BlindingPoint d.
Proof.
  destruct dest as [d|]; cbn [behind].
  2: { intros ->. exists []. by repeat split. }
  intros (k & hs & bp & Hb & -> & <- & Hc).
  destruct (path_stations_fields k hs bp Hb) as (F1 & F2 & F3).
  destruct (BuildBlindedPath_hops _ _ _ Hb) as (L1 & L2 & Hi & Hp).
  destruct (path_of_hops bp) as [P1 P2]; [congruence|].
  destruct (blinded_path _ _ _ Hb) as [_ U].
  exists (stations (priv_PubKey k) (map NodePub hs) (bp_EncryptedData bp)).
  rewrite P1, P2, F3. repeat (split; [done|]). split; [by eapply path_stations_lead|].
  intros ? [= <-]. cbn [path_of FirstNodeID BlindingPoint]. rewrite Hp.
  destruct hs as [|h hs]; [done|]. destruct (bp_EncryptedData bp) as [|x xs]; [done|].
  eexists. split; [reflexivity|]. cbn in *. split; [by injection Hi | done].
Qed.

(** *** The way of a message that is sent *)

Lemma validate_Ret_inv r : validate r = Ret tt -> valid_request r.
Proof.
  unfold validate. case_bool_decide as Hh; [done|].
  destruct (sessionKey r) eqn:Es; [|done]. destruct (blindingKey r) eqn:Eb; [|done].
  intros H. constructor; [by intros E; rewrite E in Hh | by rewrite Es | by rewrite Eb|].
  intros dest Ed. rewrite Ed in H. go_inv. case_bool_decide as Hi; [|done].
  apply SerializeCompressed_inj in Hi as <-. unfold index in E.
  rewrite last_lookup, <- Nat.sub_1_r. by destruct (hops r !! (length (hops r) - 1)%nat); simplify_eq.
Qed.

(** What CreateBlindedRoute went through when it returned a response. *)
Lemma CreateBlindedRoute_inv r r' resp : CreateBlindedRoute default_functions r = (r', Ret resp) ->
  own_hops r <> [] -> exists sk bk hs bp sphinxPath pkt blob,
    map NodePub hs = own_hops r /\ Forall2 carries hs (hop_data (own_hops r) (request_blindedStart r))
    /\ BuildBlindedPath bk hs = Ret bp
    /\ blindedToSphinx bp (request_blindedHops r) (replyPath r) (finalPayloads r) = Ret sphinxPath
    /\ NewOnionPacket sphinxPath sk [] DeterministicPacketFiller = Ret pkt
    /\ OnionPacket_Encode pkt = Ret blob
    /\ br_OnionMessage resp = NewOnionMessage (priv_PubKey bk) blob
    /\ (forall dest, blindedDestination r = Some dest -> last (hops r) = Some (FirstNodeID dest)).
Proof.
  intros H Hown. assert (valid_request r) as V.
  { unfold CreateBlindedRoute in H. destruct (validate r) as [[]|e|s|] eqn:E; try done.
    by apply validate_Ret_inv. }
  pose proof (vr_session _ V) as Hs. destruct (sessionKey r) as [sk|] eqn:Es; [clear Hs|done].
  pose proof (vr_blinding _ V) as Hb. destruct (blindingKey r) as [bk|] eqn:Eb; [clear Hb|done].
  destruct (head (hops r)) as [firstNode|] eqn:Ef.
  2: { destruct (hops r) eqn:Eh; [|done]. by destruct (vr_hops _ V). }
  destruct (route_reaches_sphinx r sk bk firstNode V Hown Es Eb Ef) as (hs & Ehs & Hn & Hd & Hbp).
  destruct (CreateBlindedRoute_hops default_functions r firstNode V Hown Ef) as [E Eh].
  rewrite E in H. injection H as _ H. unfold routeToHops in H.
  destruct (used_fields r sk bk Es Eb) as (E1 & E2 & E3 & E4 & E5 & E6).
  rewrite Eh, E1, E2, E3, E4, E5, E6 in H. cbn [f_encodeBlindedData blindPath default_functions] in H.
  rewrite Ehs in H. cbn [wrap mbind outcome_bind deref] in H. go_inv.
  unfold createOnionMessage in E8. cbn [deref mbind outcome_bind] in E8. go_inv.
  exists sk, bk, hs. eexists _, _, _, _. repeat (split; [done|]). apply V.
Qed.

(** The same when the introduction node is the only hop. *)
Lemma CreateBlindedRoute_direct_inv r r' resp :
  CreateBlindedRoute default_functions r = (r', Ret resp) -> own_hops r = [] ->
  exists dest sk sphinxPath pkt blob,
    blindedDestination r = Some dest /\ hops r = [FirstNodeID dest]
    /\ fillPath (directHop (Hops dest)) 0 0 (length (Hops dest)) emptyPath = Ret sphinxPath
    /\ NewOnionPacket sphinxPath sk [] DeterministicPacketFiller = Ret pkt
    /\ OnionPacket_Encode pkt = Ret blob
    /\ br_OnionMessage resp = NewOnionMessage (BlindingPoint dest) blob.
Proof.
  intros H Hown. assert (valid_request r) as V.
  { unfold CreateBlindedRoute in H. destruct (validate r) as [[]|e|s|] eqn:E; try done.
    by apply validate_Ret_inv. }
  pose proof (vr_hops _ V) as Hh. unfold own_hops in Hown.
  destruct (blindedDestination r) as [dest|] eqn:Ed; [|done].
  pose proof (vr_intro _ V _ Ed) as Hi.
  destruct (hops r) as [|intro [|? ?]] eqn:Eh; [done| |done]. injection Hi as ->.
  unfold CreateBlindedRoute in H. rewrite validate_ok in H by done. cbn [wrap] in H.
  unfold index in H. rewrite Eh, Ed in H. cbn [lookup list_lookup] in H.
  rewrite bool_decide_true in H by (unfold trim_hops; cbn; by rewrite Eh).
  injection H as _ H. cbn [f_directToBlinded default_functions] in H. unfold directToBlinded in H.
  change (blindedDestination (trim_hops r)) with (blindedDestination r) in H.
  rewrite Ed in H. cbn [deref mbind outcome_bind] in H. go_inv.
  unfold createOnionMessage in *. go_inv.
  eexists dest, _, _, _, _. by repeat split.
Qed.

(** Neighbours in a list. *)
Lemma app_successive {A} (R : A -> A -> Prop) l k :
  (forall i x y, l !! i = Some x -> l !! S i = Some y -> R x y) ->
  (forall i x y, k !! i = Some x -> k !! S i = Some y -> R x y) ->
  (forall x y, last l = Some x -> head k = Some y -> R x y) ->
  forall i x y, (l ++ k) !! i = Some x -> (l ++ k) !! S i = Some y -> R x y.
Proof.
  intros Hl Hk Hj i x y Hx Hy. destruct (decide (S i < length l)%nat).
  - rewrite !lookup_app_l in * by lia. by eapply Hl.
  - rewrite (lookup_app_r l k (S i)) in Hy by lia. destruct (decide (S i = length l)) as [E|].
    + rewrite lookup_app_l in Hx by lia. apply Hj.
      * by rewrite last_lookup, <- E.
      * rewrite head_lookup. by replace 0%nat with (S i - length l)%nat by lia.
    + rewrite lookup_app_r in Hx by lia. apply (Hk (i - length l)%nat); [done|].
      by replace (S (i - length l)) with (S i - length l)%nat by lia.
Qed.

(** A path that blindedToSphinx makes fits, and has its hops. *)
Lemma blindedToSphinx_inv route extra reply finals sorted path :
  blindedToSphinx route extra reply finals = Ret path -> Permutation finals sorted ->
  length (BlindedHops route) = length (bp_EncryptedData route) ->
  Forall payload_ok (onion_payloads (route_datas route extra) reply sorted) ->
  onion_for (route_nodes route extra)
    (onion_payloads (route_datas route extra) reply (valued sorted)) path.
Proof.
  intros H P Hlen Hwf.
  destruct (decide (length (bp_EncryptedData route) + length extra <= NumMaxHops)%nat) as [Hmax|Hmax].
  - destruct (blindedToSphinx_ok route extra reply finals sorted P Hlen Hwf Hmax) as (path' & E & O).
    congruence.
  - rewrite (blindedToSphinx_overflow route extra reply finals sorted P) in H by (done || lia). done.
Qed.

(** An onion for these stations, handed to the first of them. *)
Lemma onion_travels ss s ohs sk pkt blob data reply finals :
  head ss = Some s ->
  (forall i t t', ss !! i = Some t -> ss !! S i = Some t' -> leads_to (W := W) t t') ->
  Forall3 hop_is (map station_id ss) (onion_payloads (map st_data ss) reply finals) ohs ->
  NewOnionPacket (map Some ohs ++ replicate (NumMaxHops - length ohs) None) sk []
    DeterministicPacketFiller = Ret pkt ->
  OnionPacket_Encode pkt = Ret blob -> OnionMessage_Encode (NewOnionMessage (st_point s) blob) = Ret data ->
  exists last rest, travels (W := W) (hopPayload last true reply finals) (map st_node ss) (data :: rest).
Proof.
  intros Hs Hlead Hhops Hp Hblob Hdata. destruct ss as [|s0 ss]; [done|]. injection Hs as ->.
  assert (ohs <> []) as Hne by (intros ->; by inversion Hhops).
  pose proof (onion_layers _ _ _ Hp Hne) as Hpeels.
  eapply stations_travel; [exact Hlead | exact Hhops | exact Hpeels|].
  destruct ohs as [|oh ohs]; [done|]. destruct Hpeels as ((blob' & Eb' & Hl) & _).
  exists blob. rewrite Hblob in Eb'. by injection Eb' as ->.
Qed.

(** The onion of a response travels along the own hops of its request and the
    nodes behind them. *)
Lemma response_travels r r' resp nodes sorted data :
  CreateBlindedRoute default_functions r = (r', Ret resp) -> own_hops r <> [] ->
  behind (blindedDestination r) nodes -> Permutation (finalPayloads r) sorted ->
  (forall d, u64 (len d) -> payload_ok (hopPayload d true (replyPath r) sorted)) ->
  OnionMessage_Encode (br_OnionMessage resp) = Ret data ->
  exists last rest, travels (W := W) (hopPayload last true (replyPath r) (valued sorted))
                      (own_hops r ++ nodes) (data :: rest).
Proof.
  intros Hc Hown Hbeh P Wf Hdata.
  destruct (CreateBlindedRoute_inv _ _ _ Hc Hown)
    as (sk & bk & hs & bp & path & p & blob & Hn & Hcar & Hb & Hsphinx & Hp & Hblob & Hmsg & Hintro).
  destruct (behind_stations _ _ Hbeh) as (ds & D1 & D2 & D3 & D4 & Dlead & Dhead).
  rewrite <- Hn in Hcar. destruct (path_stations_fields bk hs bp Hb) as (F1 & F2 & F3).
  set (os := stations (priv_PubKey bk) (map NodePub hs) (bp_EncryptedData bp)) in *.
  destruct (blinded_path _ _ _ Hb) as [_ U]. destruct (BuildBlindedPath_hops _ _ _ Hb) as (L1 & L2 & _).
  assert (Forall payload_ok (onion_payloads (route_datas bp (request_blindedHops r)) (replyPath r) sorted))
    as Hok.
  { apply onion_payloads_ok; [|done]. apply Forall_app_2; [done|]. by rewrite D3 in D4. }
  destruct (blindedToSphinx_inv _ _ _ _ sorted _ Hsphinx P ltac:(congruence) Hok) as (ohs & -> & Hhops).
  assert (map station_id (os ++ ds) = route_nodes bp (request_blindedHops r)) as Eids.
  { unfold route_nodes. by rewrite map_app, F2, D2. }
  assert (map st_data (os ++ ds) = route_datas bp (request_blindedHops r)) as Edatas.
  { unfold route_datas. by rewrite map_app, F3, D3. }
  assert (map st_node (os ++ ds) = own_hops r ++ nodes) as Enodes.
  { by rewrite map_app, F1, Hn, D1. }
  rewrite <- Eids, <- Edatas in Hhops. rewrite <- Enodes.
  assert (exists s, head os = Some s /\ st_point s = priv_PubKey bk) as (s & Hs & Epoint).
  { subst os. destruct hs as [|h hs]; [by destruct Hown|].
    destruct (bp_EncryptedData bp); [done|]. by eexists. }
  eapply (onion_travels _ s); [by destruct os | | exact Hhops | exact Hp | exact Hblob |
    by rewrite Epoint, <- Hmsg].
  apply (app_successive (leads_to (W := W)) os ds); [by eapply path_stations_lead | exact Dlead|].
  intros t t' Ht Ht'. destruct (blindedDestination r) as [dest|] eqn:Ed.
  2: { cbn in Hbeh. subst nodes. by destruct ds. }
  destruct (Dhead dest eq_refl) as (t1 & E1 & En & Ep). rewrite Ht' in E1. injection E1 as <-.
  exists (start_data {| unblindedID := FirstNodeID dest; blindingPoint := BlindingPoint dest |}).
  split; [|by rewrite En, Ep].
  eapply path_last_opens; [exact Hb | exact Hcar | | exact Ht].
  unfold request_blindedStart. by rewrite Ed.
Qed.

Lemma onion_payloads_bare datas : onion_payloads datas None []
  = map (fun d => hopPayload d false None []) datas.
Proof. induction datas as [|d [|d' datas] IH]; [done..|]. cbn [onion_payloads map] in *. by rewrite IH. Qed.

(** With the introduction node as the only hop it travels along the blinded path,
    and arrives with nothing but the data for the last node. *)
Lemma direct_response_travels r r' resp nodes data :
  CreateBlindedRoute default_functions r = (r', Ret resp) -> own_hops r = [] ->
  behind (blindedDestination r) nodes -> OnionMessage_Encode (br_OnionMessage resp) = Ret data ->
  exists last rest, travels (W := W) (hopPayload last false None []) nodes (data :: rest).
Proof.
  intros Hc Hown Hbeh Hdata.
  destruct (CreateBlindedRoute_direct_inv _ _ _ Hc Hown)
    as (dest & sk & path & pkt & blob & Hd & _ & Hfill & Hp & Hblob & Hmsg).
  rewrite Hd in Hbeh.
  destruct (behind_stations _ _ Hbeh) as (ds & D1 & D2 & D3 & D4 & Dlead & Dhead).
  destruct (Dhead dest eq_refl) as (s & Hs & _ & Ep).
  assert (Forall (fun b => u64 (len (bh_EncryptedData b))) (Hops dest)) as Hu.
  { rewrite D3 in D4. apply Forall_forall. intros b Hb.
    by apply (proj1 (Forall_forall _ _) D4 (bh_EncryptedData b)), list_elem_of_fmap_2. }
  destruct (decide (length (Hops dest) <= NumMaxHops)%nat) as [Hmax|Hmax].
  2: { rewrite directPath_overflow in Hfill by (done || lia). done. }
  destruct (directPath_ok _ Hu Hmax) as (path' & E & ohs & Eo & Hhops).
  assert (path = path') as -> by congruence. subst path'.
  change (fun b => hopPayload (bh_EncryptedData b) false None [])
    with (fun b => (fun d => hopPayload d false None []) (bh_EncryptedData b)) in Hhops.
  rewrite <- (map_map bh_EncryptedData), <- D2, <- D3, <- onion_payloads_bare in Hhops.
  rewrite <- D1.
  destruct (onion_travels ds s ohs sk pkt blob data None []) as (last & rest & T); try done.
  { by rewrite Ep, <- Hmsg. }
  by exists last, rest.
Qed.

(** The path that SendMessage finds once it has drawn its two keys: the target
    itself, connected to, or the route that lnd found to it. *)
Definition finds_path (backoff : Z) (attempts : nat) (req : SendMessageRequest) (w w' : W)
    (path : list PublicKey) : Prop :=
  exists target sk bk w1 w2, targetPeer req = Some target
  /\ NewPrivateKey w = (w1, Ret sk) /\ NewPrivateKey w1 = (w2, Ret bk)
  /\ if DirectConnect req
     then path = [target] /\ lookupAndConnect backoff attempts (Some target) w2 = (w', Ret tt)
     else exists route, QueryRoutes (queryRoutesRequest (SerializeCompressed target)) w2 = (w', Ret route)
          /\ Forall2 (fun hop p => exists key, hop_PubKey hop = Some key /\ ParsePubKey key = Ret p)
               route path.

Lemma blinded_for_head dest nodes : blinded_for dest nodes -> head nodes = Some (FirstNodeID dest).
Proof. intros (k & hs & bp & Hb & -> & <- & _). by apply BuildBlindedPath_hops in Hb as (_ & _ & ? & _). Qed.

(** The reply path and the final payloads of a request, sorted by their types,
    can be encoded. *)
Definition sendable (req : SendMessageRequest) (sorted : list FinalHopPayload) : Prop :=
  Permutation (sm_FinalPayloads req) sorted
  /\ forall d, u64 (len d) -> payload_ok (hopPayload d true (sm_ReplyPath req) sorted).

(** The path ends where it starts, at the introduction node of the blinded
    destination: directToBlinded makes the onion. *)
Definition direct_to_blinded (req : SendMessageRequest) (path : list PublicKey) : bool :=
  is_some (sm_BlindedDestination req) && bool_decide (length path <= 1)%nat.

(** What the last node gets. *)
Definition last_payload (req : SendMessageRequest) (path : list PublicKey)
    (sorted : list FinalHopPayload) (data : bytes) : OnionMessagePayload :=
  hopPayload data (negb (direct_to_blinded req path)) (sm_ReplyPath req) (valued sorted).

Lemma last_payload_whole req path sorted data :
  sm_BlindedDestination req = None \/ (1 < length path)%nat ->
  last_payload req path sorted data = hopPayload data true (sm_ReplyPath req) (valued sorted).
Proof.
  intros H. unfold last_payload, direct_to_blinded. destruct H as [-> | H]; [done|].
  rewrite bool_decide_false by lia. by rewrite andb_false_r.
Qed.

(** What SendMessage sends, and the way it goes. *)
Lemma SendMessage_travels_aux backoff attempts (req : SendMessageRequest) nodes sorted w w' :
  SendMessage backoff attempts req w = (w', Ret tt) ->
  behind (sm_BlindedDestination req) nodes -> sendable req sorted ->
  exists path w3 msg first,
    finds_path backoff attempts req w w3 path /\ head path = Some first
    /\ SendCustomMessage msg w3 = (w', Ret tt)
    /\ cm_Peer msg = SerializeCompressed first /\ cm_MsgType msg = OnionMessageType
    /\ exists last rest, travels (W := W) (last_payload req path sorted last)
                           (path ++ tail nodes) (cm_Data msg :: rest).
Proof.
  intros H Hbeh [P Wf].
  destruct (SendMessage_sends _ _ _ _ _ H) as (target & sk & bk & w1 & w2 & w3 & first & path & msg
    & Ht & Hk1 & Hk2 & Hpath & Hs & Hpeer & Htype & r' & resp & Hc & Hdata).
  exists (first :: path), w3, msg, first.
  split; [exists target, sk, bk, w1, w2; do 3 (split; [done|]); destruct (DirectConnect req);
          [by destruct Hpath as (-> & -> & ?) | exact Hpath]|].
  repeat (split; [done|]).
  set (r := MkBlindedRouteRequest _ _ _ _ _ _) in Hc.
  change ((first :: path) ++ tail nodes) with (first :: path ++ tail nodes).
  destruct (sm_BlindedDestination req) as [dest|] eqn:Ed.
  - pose proof (blinded_for_head _ _ Hbeh) as Hhead. destruct path as [|second path].
    + (* the introduction node is the path *)
      assert (own_hops r = []) as Hown by done.
      destruct (CreateBlindedRoute_direct_inv _ _ _ Hc Hown)
        as (dest' & _ & _ & _ & _ & [= <-] & [= ->] & _).
      assert (FirstNodeID dest :: [] ++ tail nodes = nodes) as ->.
      { destruct nodes; [done|]. by injection Hhead as ->. }
      unfold last_payload, direct_to_blinded. rewrite Ed. cbn [is_some andb length].
      rewrite bool_decide_true by lia. by apply (direct_response_travels r r' resp).
    + assert (own_hops r <> []) as Hne.
      { unfold own_hops. cbn [blindedDestination hops r].
        intros E%(f_equal length). rewrite length_take in E. cbn in *. lia. }
      destruct (CreateBlindedRoute_inv _ _ _ Hc Hne) as (? & ? & ? & ? & ? & ? & ? & _ & _ & _ & _ & _ & _ & _ & Hi).
      specialize (Hi dest eq_refl). cbn [hops r] in Hi. apply last_Some in Hi as [init Hi].
      assert (first :: (second :: path) ++ tail nodes = own_hops r ++ nodes) as ->.
      { change (first :: (second :: path) ++ tail nodes) with ((first :: second :: path) ++ tail nodes).
        unfold own_hops. cbn [blindedDestination hops r]. rewrite Hi.
        rewrite length_app, Nat.add_sub, take_app_length, <- app_assoc. by destruct nodes; simplify_eq/=. }
      destruct (response_travels r r' resp nodes sorted (cm_Data msg)) as (last & rest & T); try done.
      exists last, rest. rewrite last_payload_whole by (right; cbn; lia). exact T.
  - cbn in Hbeh. subst nodes.
    assert (first :: path ++ tail [] = own_hops r ++ []) as -> by done.
    destruct (response_travels r r' resp [] sorted (cm_Data msg)) as (last & rest & T); try done.
    exists last, rest. rewrite last_payload_whole by by left. exact T.
Qed.

(** A message that was sent reaches its destination.  When SendMessage
    returns without an error it handed one message to lnd, for the first node
    of the path it found; each node on the path, and then each node of the
    blinded path behind it when the destination is one, is told the next node
    and given the blinding point with which that one can peel its layer, and
    relays the message whatever handlers it has; the last node calls its
    handlers with the reply path and the final payloads of the request, in the
    order of their types - or, when the introduction node of a blinded destination
    is the whole path, with neither. *)
Theorem SendMessage_travels backoff attempts (req : SendMessageRequest) nodes sorted w w' :
  SendMessage backoff attempts req w = (w', Ret tt) ->
  behind (sm_BlindedDestination req) nodes -> sendable req sorted ->
  exists path w3 msg first,
    finds_path backoff attempts req w w3 path /\ head path = Some first
    /\ SendCustomMessage msg w3 = (w', Ret tt)
    /\ cm_Peer msg = SerializeCompressed first /\ cm_MsgType msg = OnionMessageType
    /\ exists last rest, travels (W := W) (last_payload req path sorted last)
                           (path ++ tail nodes) (cm_Data msg :: rest).
Proof. apply SendMessage_travels_aux. Qed.

(** A route that a node generated is a blinded path to it. *)
Lemma generated_blinded_for `{RL : !RoutesLnd W, FB : FeatureBits, GR : Grpc}
    (g : BlindedRouteGenerator) features (v v' : W) route :
  ReplyPath_generate g features v = (v', Ret route) ->
  exists intro, blinded_for (path_of route) [intro; pubkey g].
Proof.
  intros H. unfold ReplyPath_generate in H. io_inv. go_inv. rename x0 into hs.
  unfold buildBlindedRoute in E0. case_bool_decide; [done|].
  go_inv. match goal with E : EncodeBlindedRouteData _ = Ret _ |- _ => rename E into Ee end.
  match goal with E : ParsePubKey _ = Ret ?p |- _ => exists p end.
  eexists _, _, route. split; [done|]. split; [done|]. split; [done|]. cbn [map NodePub hop_data].
  constructor; [|by repeat constructor]. cbn [carries bph_Payload].
  destruct (encodeBlindedData_next (pubkey g) None) as (b & Eb & Db). unfold encodeBlindedData in Eb.
  cbn [NextNodeID] in Eb. apply wrap_Ret_inv in Eb. congruence.
Qed.

(** C11: A route that boltnd generates leads home.  Whoever sends a message, with
    payloads that can be encoded, to the route of GenerateBlindedRoute over a path
    of at least two nodes - lnd's route to the peer that the route starts at - has
    it relayed along the path and by that peer to the node that generated the route, which calls its handlers
    with the reply path and the final payloads of the request - those that have a
    value or a namespace type - though the request does not name it. *)
Theorem generated_route_leads_home `{RL : !RoutesLnd W, FB : FeatureBits, GR : Grpc}
    (g : BlindedRouteGenerator) features (v v' : W) route
    backoff attempts (req : SendMessageRequest) sorted w w' :
  ReplyPath_generate g features v = (v', Ret route) ->
  sm_BlindedDestination req = Some (path_of route) -> sendable req sorted ->
  SendMessage backoff attempts req w = (w', Ret tt) ->
  exists path w3 msg first,
    finds_path backoff attempts req w w3 path /\ head path = Some first
    /\ SendCustomMessage msg w3 = (w', Ret tt) /\ cm_Peer msg = SerializeCompressed first
    /\ ((1 < length path)%nat ->
        exists last rest, travels (W := W) (hopPayload last true (sm_ReplyPath req) (valued sorted))
                            (path ++ [pubkey g]) (cm_Data msg :: rest)).
Proof.
  intros Hg Hd Hs H. destruct (generated_blinded_for _ _ _ _ _ Hg) as [intro Hb].
  destruct (SendMessage_travels_aux backoff attempts req [intro; pubkey g] sorted w w' H)
    as (path & w3 & msg & first & Hp & Hf & Hsend & Hpeer & _ & last & rest & T); [|done|].
  { by rewrite Hd. }
  exists path, w3, msg, first. repeat (split; [done|]). intros Hl. exists last, rest.
  rewrite last_payload_whole in T by by right. exact T.
Qed.
End TravelFacts.

(** ** Witnesses *)

(** [w_D] is behind [w_C], and generates a route to itself. *)
Definition w_B : key := (true, x0b).
Definition w_C : key := (false, x0c).
Definition w_D : key := (true, x0d).

#[export] Instance net_RoutesLnd : RoutesLnd net_World := {|
  ListChannels _ _ w := (w, Ret (map MkChannelInfo (nw_peers w)));
  GetNodeInfo v _ w := (w, Ret (MkNodeInfo (Some (MkNode v [38] [])) [1]));
|}.

Definition w_node (node : key) (peers : list key) (route : outcome (list Hop)) (keys : list byte)
    : net_World :=
  MkNetWorld node [] [] (map label peers) route keys [].

Definition w_home : net_World := w_node w_D [w_C] (Err ErrNoRouteFound) [x21].
Definition w_home_route : BlindedPath :=
  from_Ret (MkBlindedPath w_D w_D [] []) (ReplyPath_generate (NewBlindedRouteGenerator w_D) [] w_home).2.

(** The sender, whose lnd has a route to [w_C] through [w_B]. *)
Definition w_sender : net_World :=
  w_node (false, x0a) [w_B] (Ret [MkHop (Some (label w_B)); MkHop (Some (label w_C))]) [x31; x32].
Definition w_home_with (finals : list FinalHopPayload) : SendMessageRequest :=
  {| sm_Peer := None; sm_BlindedDestination := Some (path_of w_home_route);
     sm_ReplyPath := replyPath (w_req w_path 1); sm_FinalPayloads := finals;
     DirectConnect := false |}.
Definition w_to_home : SendMessageRequest :=
  w_home_with [MkFinalHopPayload 66 (lit "invoice"); MkFinalHopPayload 64 (lit "req")].

Lemma w_to_home_sent : SendMessage 1 5 w_to_home w_sender = ((SendMessage 1 5 w_to_home w_sender).1, Ret tt).
Proof. apply surjective_pairing_Ret. vm_compute. reflexivity. Qed.

Lemma w_home_generated : exists w, ReplyPath_generate (NewBlindedRouteGenerator w_D) [] w_home
  = (w, Ret w_home_route).
Proof.
  eexists. apply (returned_Ret (ReplyPath_generate (NewBlindedRouteGenerator w_D) [] w_home)).
  vm_compute. reflexivity.
Qed.

Lemma w_to_home_sendable : sendable w_to_home w_finals.
Proof. split; [apply Permutation_swap | exact w_finals_ok]. Qed.

Lemma w_finds_path finals w3 path :
  finds_path 1 5 (w_home_with finals) w_sender w3 path -> path = [w_B; w_C].
Proof.
  intros (target & sk & bk & w1 & w2 & _ & [= <- _] & [= <- _] & route & [= _ <-] & F).
  inversion F as [|? ? ? ? (k1 & E1 & P1) F']; subst.
  inversion F' as [|? ? ? ? (k2 & E2 & P2) F'']; subst. inversion F''; subst.
  injection E1 as <-. injection E2 as <-. unfold label in *. rewrite ParsePubKey_Serialize in *.
  by injection P1 as <-; injection P2 as <-.
Qed.

Lemma SendMessage_travels_witness : exists last rest msg,
  travels (W := net_World) (hopPayload last true (sm_ReplyPath w_to_home) w_finals) [w_B; w_C; w_D]
    (cm_Data msg :: rest).
Proof.
  destruct w_home_generated as [w Hg].
  destruct (generated_blinded_for (NewBlindedRouteGenerator w_D) [] w_home w w_home_route Hg)
    as [intro Hb].
  destruct (SendMessage_travels 1 5 w_to_home [intro; w_D] w_finals w_sender
              (SendMessage 1 5 w_to_home w_sender).1 w_to_home_sent Hb w_to_home_sendable)
    as (path & w3 & msg & first & Hp & _ & _ & _ & _ & last & rest & Ht).
  apply w_finds_path in Hp as ->. by exists last, rest, msg.
Defined.

Lemma generated_route_leads_home_witness : exists last rest msg,
  travels (W := net_World) (hopPayload last true (sm_ReplyPath w_to_home) w_finals) [w_B; w_C; w_D]
    (cm_Data msg :: rest).
Proof.
  destruct w_home_generated as [w Hg].
  destruct (generated_route_leads_home (NewBlindedRouteGenerator w_D) [] w_home w w_home_route
              1 5 w_to_home w_finals w_sender (SendMessage 1 5 w_to_home w_sender).1
              Hg eq_refl w_to_home_sendable w_to_home_sent)
    as (path & w3 & msg & first & Hp & _ & _ & _ & Ht).
  apply w_finds_path in Hp as ->. destruct Ht as (last & rest & Ht); [cbn; lia|].
  by exists last, rest, msg.
Defined.
