(* ===== verification/NetworkRun.v ===== *)
(** The network at work: nodes with their worlds and handlers, and the messages
    in flight between their lnds.

    Network.v says what each node on the way of a message does when it is handed
    the message.  Here the nodes are put together: a message is sent by the
    node that SendMessage runs at, and handed from event loop to event loop. *)
From S2P Require Import Prelude Deps DepsRef Io LndDeps LndRef.
From S2P Require Import Stream Merkle Shared RouteBlinding OnionMessages OnionPayload Routes.
From S2P Require Import Messenger Rpc NetDeps NetRef Network.

(** ** The state *)

Section Machine.
Context {W : Type} `{CR : Crypto, TL : !Tlv, LW : !Lndwire, SP : !Sphinx, SO : !SphinxOps,
  SR : !SphinxRouter W, KS : !Keys W, VX : !Vertices, LC : Lndclient, OL : !OnionLnd W,
  OS : !LndOnionSigner W, LN : Lnwire, NW : !NodeWorld W, MO : MapOrder}.

(** A node that runs boltnd. *)
Record member := MkMember {
  mb_node : PublicKey;
  mb_handlers : handlerMap W;
  mb_world : W;
}.

(** The nodes, by their vertices; the messages in flight, with their senders. *)
Record network := MkNetwork {
  members : gmap bytes member;
  flight : list (bytes * CustomMessage);
}.

(** What a node's lnd was given to send in between. *)
Definition emitted (vertex : bytes) (w w' : W) : list (bytes * CustomMessage) :=
  map (fun msg => (vertex, msg)) (drop (length (sent w)) (sent w')).

(** A message as lnd hands it to the node it is for. *)
Definition handed_on (from : bytes) (msg : CustomMessage) : CustomMessage :=
  {| cm_Peer := from; cm_MsgType := cm_MsgType msg; cm_Data := cm_Data msg |}.

(** The event loop of its node takes the [i]-th message in flight. *)
Definition receive_at (n : network) (i : nat) : option network :=
  match flight n !! i with
  | None => None
  | Some (from, msg) =>
      match members n !! cm_Peer msg with
      | None => None
      | Some b =>
          match handleEvent (own_key (mb_node b)) (mb_handlers b) (EvMessage (handed_on from msg))
                  (mb_world b) with
          | (w', Ret it) =>
              Some {| members := <[cm_Peer msg := MkMember (mb_node b) (it_handlers it) w']> (members n);
                      flight := delete i (flight n) ++ emitted (cm_Peer msg) (mb_world b) w' |}
          | _ => None
          end
      end
  end.

(** A client's call of SendMessage at a node. *)
Definition send_at (n : network) (vertex : bytes) (backoff : Z) (attempts : nat)
    (req : SendMessageRequest) : option (network * outcome unit) :=
  match members n !! vertex with
  | None => None
  | Some b =>
      let '(w', o) := SendMessage backoff attempts req (mb_world b) in
      Some ({| members := <[vertex := MkMember (mb_node b) (mb_handlers b) w']> (members n);
               flight := flight n ++ emitted vertex (mb_world b) w' |}, o)
  end.

Definition received_one (n n' : network) : Prop := exists i, receive_at n i = Some n'.

(** The nodes on the way of a message, ready for it: each is a member that is
    up, whose router has not seen its layer, and whose lnd is connected to the
    next; the handlers of the last one do not panic. *)
Fixpoint way_ready (n : network) (nodes : list PublicKey) (datas : list bytes) : Prop :=
  match nodes, datas with
  | [], [] => True
  | node :: nodes, data :: datas =>
      (exists b, members n !! SerializeCompressed node = Some b /\ mb_node b = node
       /\ ready_for node (mb_world b) data
       /\ match nodes with
          | next :: _ => connected (mb_world b) (SerializeCompressed next)
          | [] => calm_handlers (mb_handlers b)
          end)
      /\ way_ready n nodes datas
  | _, _ => False
  end.

(** The message arrived at [node]: its handlers ran on this payload, and what
    they sent is in flight with what was. *)
Definition arrived (n n' : network) (others : list (bytes * CustomMessage)) (node : PublicKey)
    (o : OnionMessagePayload) : Prop :=
  exists b b' w1, members n !! SerializeCompressed node = Some b
  /\ members n' !! SerializeCompressed node = Some b'
  /\ rested node (mb_world b) w1
  /\ mb_world b' = (run_all (handler_runs (mb_handlers b) o) w1).1
  /\ mb_handlers b' = mb_handlers b
  /\ flight n' = others ++ emitted (SerializeCompressed node) (mb_world b) (mb_world b').
End Machine.

(** ** Facts *)

Section MachineFacts.
Context {W : Type} `{CR : Crypto, CL : !CryptoLaws, TL : !Tlv, TLL : !TlvLaws, LW : !Lndwire,
  LWL : !LndwireLaws, SP : !Sphinx, SL : !SphinxLaws, SO : !SphinxOps, SR : !SphinxRouter W,
  KS : !Keys W, VX : !Vertices, VXL : !VerticesLaws, LC : Lndclient, OL : !OnionLnd W,
  OS : !LndOnionSigner W, LN : Lnwire, BL : !Blinding, NW : !NodeWorld W, ON : !OnionLaws W,
  SE : !SenderLaws W, MO : MapOrder, MOL : !MapOrderLaws}.

Lemma way_ready_update (n n' : network (W := W)) v nodes datas :
  (forall v', v' <> v -> members n' !! v' = members n !! v') ->
  Forall (fun node => SerializeCompressed node <> v) nodes ->
  way_ready n nodes datas -> way_ready n' nodes datas.
Proof.
  intros Hm. revert datas. induction nodes as [|node nodes IH]; intros [|data datas]; try done.
  intros [Hv F]%Forall_cons [(b & Hb & H) R]. split; [|by apply IH].
  exists b. by rewrite Hm.
Qed.

Lemma run_all_settles (runs : list (io W unit)) w : Forall calm runs -> settles (run_all runs w).2.
Proof.
  intros F. revert w. induction F as [|m runs Hm F IH]; [apply calm_mret|].
  cbn [run_all]. change (calm (iwrap "handler for" m ;; run_all runs)).
  by apply calm_bind; [apply calm_iwrap|].
Qed.

Lemma handler_runs_calm (handlers : handlerMap W) o : calm_handlers handlers ->
  Forall calm (handler_runs handlers o).
Proof.
  intros H. apply Forall_forall. intros m (f & _ & Hf)%list_elem_of_omap.
  destruct (handlers !! TLVType f) as [[h|]|] eqn:E; try done. injection Hf as <-.
  destruct (H _ _ E) as (g & [= <-] & Hg). apply Hg.
Qed.

(** The event loop goes on whether handling the message failed or not. *)
Lemma handleEvent_message nodeKey (handlers : handlerMap W) msg w :
  cm_MsgType msg = OnionMessageType ->
  settles (handleOnionMessage msg (messengerKit nodeKey handlers) w).2 ->
  handleEvent nodeKey handlers (EvMessage msg) w
  = ((handleOnionMessage msg (messengerKit nodeKey handlers) w).1,
     Ret (MkIteration handlers None None)).
Proof.
  intros Ht S. cbn [handleEvent]. rewrite bool_decide_true by done. cbn [negb]. unfold attempt.
  destruct (handleOnionMessage _ _ w) as [w' [a|e|s|]]; try done; by destruct S as [[? ?]|[? ?]].
Qed.

Lemma emitted_one v (w w' : W) msg : sent w' = sent w ++ [msg] -> emitted v w w' = [(v, msg)].
Proof. intros E. unfold emitted. by rewrite E, drop_app_length. Qed.

(** The message at the end of the flight, handed to a node that relays it. *)
Lemma receive_relays (n : network (W := W)) b node next others from msg out :
  flight n = others ++ [(from, msg)] -> cm_Peer msg = SerializeCompressed node ->
  cm_MsgType msg = OnionMessageType -> members n !! SerializeCompressed node = Some b ->
  mb_node b = node -> ready_for node (mb_world b) (cm_Data msg) ->
  connected (mb_world b) (SerializeCompressed next) ->
  relays node (cm_Data msg) out -> cm_Peer out = SerializeCompressed next ->
  exists n', receive_at n (length others) = Some n'
    /\ flight n' = others ++ [(SerializeCompressed node, out)]
    /\ forall v, v <> SerializeCompressed node -> members n' !! v = members n !! v.
Proof.
  intros Hf Hpeer Htype Hb <- Hr Hc Hrel Hout.
  destruct (Hrel (mb_handlers b) (handed_on from msg) (mb_world b) eq_refl Hr)
    as (w1 & E & (Hup & Hsent & Hconn)).
  destruct (lnd_sends (mb_node b) w1 out Hup) as (w2 & Es); [rewrite Hout; by apply Hconn|].
  destruct (lnd_sent (mb_node b) w1 w2 out Es) as [Hs2 _].
  rewrite (iwrap_Ret _ _ _ _ _ Es) in E.
  pose proof (handleEvent_message (own_key (mb_node b)) (mb_handlers b) (handed_on from msg)
                (mb_world b) Htype) as Eh. rewrite E in Eh.
  eexists. split; [|split].
  - unfold receive_at. rewrite Hf, lookup_app_r, Nat.sub_diag by done. cbn [lookup list_lookup].
    rewrite Hpeer, Hb, Eh by apply settles_Ret. reflexivity.
  - cbn [flight fst]. rewrite (emitted_one _ _ _ out) by (by rewrite Hs2, Hsent). f_equal.
    rewrite delete_middle. by rewrite app_nil_r.
  - intros v Hv. cbn [members]. by rewrite lookup_insert_ne.
Qed.

(** The same with a node that delivers it. *)
Lemma receive_delivers (n : network (W := W)) b node others from msg o :
  flight n = others ++ [(from, msg)] -> cm_Peer msg = SerializeCompressed node ->
  cm_MsgType msg = OnionMessageType -> members n !! SerializeCompressed node = Some b ->
  mb_node b = node -> ready_for node (mb_world b) (cm_Data msg) -> calm_handlers (mb_handlers b) ->
  delivers node (cm_Data msg) o ->
  exists n', receive_at n (length others) = Some n' /\ arrived n n' others node o.
Proof.
  intros Hf Hpeer Htype Hb <- Hr Hh Hdel.
  destruct (Hdel (mb_handlers b) (handed_on from msg) (mb_world b) eq_refl Hr) as (w1 & E & R).
  { intros t Ht. by destruct (Hh _ _ Ht) as (? & ? & _). }
  pose proof (handleEvent_message (own_key (mb_node b)) (mb_handlers b) (handed_on from msg)
                (mb_world b) Htype) as Eh. rewrite E in Eh.
  eexists. split.
  - unfold receive_at. rewrite Hf, lookup_app_r, Nat.sub_diag by done. cbn [lookup list_lookup].
    rewrite Hpeer, Hb, Eh by by apply run_all_settles, handler_runs_calm. reflexivity.
  - eexists b, _, w1. split; [done|]. split; [apply lookup_insert_eq|]. split; [done|].
    do 2 (split; [done|]). cbn [flight mb_world]. by rewrite delete_middle, app_nil_r.
Qed.

(** The last message in flight, handed on until it arrives. *)
Lemma travels_arrives_at o nodes datas last : travels (W := W) o nodes datas ->
  forall (n : network (W := W)) others from msg,
  flight n = others ++ [(from, msg)] -> head datas = Some (cm_Data msg) ->
  (SerializeCompressed <$> head nodes) = Some (cm_Peer msg) -> cm_MsgType msg = OnionMessageType ->
  NoDup nodes -> way_ready n nodes datas -> list.last nodes = Some last ->
  exists n', nsteps received_one (length nodes) n n' /\ arrived n n' others last o.
Proof.
  induction 1 as [node data Hdel|node next nodes data out rest Hrel Hpeer Htype T IH];
    intros n others from msg Hf [= ->] [= Ep] Hty ND HR Hl.
  - injection Hl as ->. destruct HR as [(b & Hb & Hn & Hr & Hc) _].
    destruct (receive_delivers n b last others from msg o) as (n' & E & A); try done.
    exists n'. split; [|done]. apply nsteps_once. by eexists.
  - change (list.last (next :: nodes) = Some last) in Hl. apply NoDup_cons in ND as [Hnot ND]. destruct HR as [(b & Hb & Hn & Hr & Hc) HR].
    destruct (receive_relays n b node next others from msg out) as (n1 & E & Hf1 & Hm1); try done.
    destruct (IH n1 others (SerializeCompressed node) out) as (n' & Hs & A); try done.
    + by rewrite Hpeer.
    + eapply way_ready_update; [exact Hm1| |done]. apply Forall_forall.
      intros m Hm Es. apply SerializeCompressed_inj in Es as ->. done.
    + exists n'. split; [eapply nsteps_l; [by eexists | exact Hs]|].
      destruct A as (b1 & b' & w1 & H1 & A). exists b1, b', w1. split; [|done].
      rewrite <- Hm1; [done|]. intros Es. apply SerializeCompressed_inj in Es as ->.
          by apply Hnot, (last_Some_elem_of _ _ Hl).
Qed.

(** *** The sender *)

Lemma rests_bind {A B} (m : io W A) (f : A -> io W B) : rests m -> (forall a, rests (f a)) -> rests (m ≫= f).
Proof.
  intros Hm Hf node w Hw. specialize (Hm node w Hw). unfold mbind, io_bind.
  destruct (m w) as [w1 [a|e|s|]]; try done. eapply rested_trans; [done|]. by apply Hf, Hm.
Qed.

Lemma rests_pure {A} (o : outcome A) : rests (pure (W := W) o).
Proof. by intros node w Hw. Qed.

Lemma rests_map {A B} (f : outcome A -> outcome B) (m : io W A) : rests m -> rests (map_io f m).
Proof. intros Hm node w Hw. specialize (Hm node w Hw). unfold map_io. by destruct (m w). Qed.

Lemma findPeer_rests p : rests (findPeer (W := W) p).
Proof. apply rests_bind; [apply rests_map, peers_rest|]. intros peers. apply rests_pure. Qed.

Lemma waitForPeer_rests p backoff attempts : rests (waitForPeer (W := W) p backoff attempts).
Proof.
  induction attempts as [|n IH]; [apply rests_pure|]. cbn [waitForPeer].
  apply rests_bind; [apply rests_map, findPeer_rests|]. intros [|]; [apply rests_pure|].
  apply rests_bind; [apply wait_rests | done].
Qed.

Lemma lookupAndConnect_rests p backoff attempts : rests (lookupAndConnect (W := W) backoff attempts p).
Proof.
  apply rests_bind; [apply rests_map, findPeer_rests|]. intros [|]; [apply rests_pure|].
  apply rests_bind; [apply rests_pure|]. intros v.
  apply rests_bind; [apply rests_map, node_rests|]. intros info.
  apply rests_bind; [apply rests_pure|]. intros a. destruct (node_Addresses a); [apply rests_pure|].
  apply rests_bind; [apply rests_map, connect_rests|]. intros _. apply waitForPeer_rests.
Qed.

(** Until it sends, SendMessage rests. *)
Lemma finds_path_rests backoff attempts req (w w3 : W) path node : node_up node w ->
  finds_path backoff attempts req w w3 path -> rested node w w3.
Proof.
  intros Hw (target & sk & bk & w1 & w2 & _ & E1 & E2 & Hp).
  pose proof (key_rests node w Hw) as R1. rewrite E1 in R1.
  pose proof (key_rests node w1 (proj1 R1)) as R2. rewrite E2 in R2.
  assert (rested node w2 w3) as R3.
  { destruct (DirectConnect req).
    - destruct Hp as [_ E3]. pose proof (lookupAndConnect_rests (Some target) backoff attempts node w2 (proj1 R2)) as R.
      by rewrite E3 in R.
    - destruct Hp as (route & E3 & _).
      pose proof (routes_rest (queryRoutesRequest (SerializeCompressed target)) node w2 (proj1 R2)) as R.
      by rewrite E3 in R. }
  by eapply rested_trans, rested_trans.
Qed.

(** Sending, and the run that ends with the handlers of the last node. *)
Lemma message_crosses (n : network (W := W)) v a backoff attempts req nodes sorted n1 :
  members n !! v = Some a -> v = SerializeCompressed (mb_node a) -> node_up (mb_node a) (mb_world a) ->
  send_at n v backoff attempts req = Some (n1, Ret tt) ->
  behind (sm_BlindedDestination req) nodes -> sendable req sorted ->
  exists path w3 msg, finds_path backoff attempts req (mb_world a) w3 path
    /\ flight n1 = flight n ++ [(v, msg)]
    /\ let way := path ++ tail nodes in exists data datas,
       let o := last_payload req path sorted data in
       travels (W := W) o way (cm_Data msg :: datas)
       /\ forall last, list.last way = Some last -> NoDup (mb_node a :: way) ->
          way_ready n way (cm_Data msg :: datas) ->
          exists n', nsteps received_one (length way) n1 n' /\ arrived n1 n' (flight n) last o.
Proof.
  intros Ha Hv Hup Hsend Hbeh Hs. unfold send_at in Hsend. rewrite Ha in Hsend.
  destruct (SendMessage backoff attempts req (mb_world a)) as [w' o] eqn:E.
  injection Hsend as <- ->.
  destruct (SendMessage_travels_aux _ _ _ _ _ _ _ E Hbeh Hs)
    as (path & w3 & msg & first & Hp & Hf & Hmsg & Hpeer & Htype & data & rest & T).
  destruct (finds_path_rests _ _ _ _ _ _ _ Hup Hp) as (Hup3 & Hsent3 & _).
  destruct (lnd_sent (mb_node a) _ _ _ Hmsg) as [Hsent _].
  exists path, w3, msg. split; [done|]. split.
  { cbn [flight]. by rewrite (emitted_one _ _ _ msg) by (by rewrite Hsent, Hsent3). }
  intros way. exists data, rest.
  split; [done|]. intros last Hl [Hna ND]%NoDup_cons HR.
  apply (travels_arrives_at _ way (cm_Data msg :: rest) last T _ (flight n) v msg); try done.
  - cbn [flight]. by rewrite (emitted_one _ _ _ msg) by (by rewrite Hsent, Hsent3).
  - rewrite Hpeer. destruct path; [done|]. cbn in *. by injection Hf as ->.
  - eapply way_ready_update; [|apply Forall_forall|exact HR].
    + intros v' Hne. cbn [members]. by rewrite lookup_insert_ne.
    + intros m Hm. rewrite Hv. intros Es. by apply SerializeCompressed_inj in Es as ->.
Qed.

(** C10: A message crosses the network.  When SendMessage, for a request whose
    final payloads and reply path can be encoded, returns without an error at a
    node, one message enters flight; and when the nodes of its way - the path, and
    the blinded path behind it - are up and connected, have not seen its onion,
    and are not the sender or each other, and the handlers of the last one do not
    panic, then handing it from event loop to event loop, once to each of them, ends with the handlers of the last node run, and
    with nothing in flight but what was before and what those handlers sent.
    The handlers are run on the request's reply path and its final payloads, in
    the order of their types and without the value-less ones outside the
    namespaces - but when the destination is blinded and the path has no node
    before its introduction node, on no reply path and no payload at all: the
    request's are lost. *)
Theorem message_delivered (n : network (W := W)) v a backoff attempts req nodes sorted n1 :
  members n !! v = Some a -> v = SerializeCompressed (mb_node a) -> node_up (mb_node a) (mb_world a) ->
  send_at n v backoff attempts req = Some (n1, Ret tt) ->
  behind (sm_BlindedDestination req) nodes -> sendable req sorted ->
  exists path w3 msg, finds_path backoff attempts req (mb_world a) w3 path
    /\ flight n1 = flight n ++ [(v, msg)]
    /\ let way := path ++ tail nodes in exists data datas,
       let o := last_payload req path sorted data in
       travels (W := W) o way (cm_Data msg :: datas)
       /\ forall last, list.last way = Some last -> NoDup (mb_node a :: way) ->
          way_ready n way (cm_Data msg :: datas) ->
          exists n', nsteps received_one (length way) n1 n' /\ arrived n1 n' (flight n) last o.
Proof. apply message_crosses. Qed.
End MachineFacts.

(** ** Witnesses *)

(** [w_D] has a handler that keeps what it is given. *)
Definition w_keep : OnionMessageHandler net_World := fun reply _ value w =>
  (set_nw w (nw_log w) (nw_sent w) (nw_keys w) (nw_inbox w ++ [(reply, value)]), Ret tt).

Definition w_member (w : net_World) (handlers : handlerMap net_World) : member (W := net_World) :=
  MkMember (nw_key w) handlers w.

Definition w_B_world : net_World := w_node w_B [w_C] (Err ErrNoRouteFound) [x41; x42].

Definition w_net : network (W := net_World) := {|
  members := <[label (false, x0a) := w_member w_sender ∅]>
    (<[label w_B := w_member w_B_world ∅]>
    (<[label w_C := w_member (w_node w_C [w_B; w_D] (Err ErrNoRouteFound) []) ∅]>
    (<[label w_D := w_member (w_node w_D [w_C] (Err ErrNoRouteFound) []) {[ 64 := Some w_keep ]}]> ∅)));
  flight := []
|}.

Lemma w_net_member node : node ∈ [w_B; w_C; w_D] -> exists b, members w_net !! label node = Some b
  /\ mb_node b = node /\ nw_key (mb_world b) = node /\ nw_log (mb_world b) = []
  /\ calm_handlers (mb_handlers b).
Proof.
  assert (calm_handlers (∅ : handlerMap net_World)) as C0 by by intros t h.
  assert (calm_handlers ({[ 64 := Some w_keep ]} : handlerMap net_World)) as C1.
  { intros t h H. rewrite lookup_singleton in H. case_decide; [|done]. injection H as <-.
    exists w_keep. split; [done|]. intros reply data value w. apply settles_Ret. }
  rewrite !elem_of_cons. intros [->|[->|[->|H]]]; [| | |by apply elem_of_nil in H].
  all: eexists; split; [reflexivity|]; by repeat split.
Qed.

Definition w_net_sent : network (W := net_World) :=
  match send_at w_net (label (false, x0a)) 1 5 w_to_home with Some (n, _) => n | None => w_net end.

Lemma w_net_sends : send_at w_net (label (false, x0a)) 1 5 w_to_home = Some (w_net_sent, Ret tt).
Proof.
  unfold w_net_sent, send_at.
  replace (members w_net !! label (false, x0a)) with (Some (w_member w_sender ∅)) by reflexivity.
  cbn [w_member mb_world]. by rewrite w_to_home_sent.
Qed.

Lemma w_ready node data (b : member (W := net_World)) :
  nw_key (mb_world b) = node -> nw_log (mb_world b) = [] -> ready_for node (mb_world b) data.
Proof.
  intros Hk Hl. split; [done|]. intros ? ? p _ _. cbn [seen net_NodeWorld].
  rewrite Hl. apply not_elem_of_nil.
Qed.

Lemma w_way_ready_direct o datas : travels (W := net_World) o [w_C; w_D] datas ->
  way_ready w_net [w_C; w_D] datas.
Proof.
  intros T. inversion T as [|? ? ? ? ? ? _ _ _ T1]; subst. inversion T1; subst.
  destruct (w_net_member w_C) as (bC & C1 & C2 & C3 & C4 & _); [set_solver|].
  destruct (w_net_member w_D) as (bD & D1 & D2 & D3 & D4 & D5); [set_solver|].
  repeat split; [exists bC | exists bD]; do 2 (split; [done|]); (split; [by apply w_ready|]); [|done].
  injection C1 as <-. apply list_elem_of_further, list_elem_of_here.
Qed.

Lemma w_way_ready o datas : travels (W := net_World) o [w_B; w_C; w_D] datas ->
  way_ready w_net [w_B; w_C; w_D] datas.
Proof.
  intros T. inversion T as [|? ? ? ? ? ? _ _ _ T1]; subst.
  destruct (w_net_member w_B) as (bB & B1 & B2 & B3 & B4 & _); [set_solver|].
  split; [|by eapply w_way_ready_direct].
  exists bB. do 2 (split; [done|]). split; [by apply w_ready|].
  injection B1 as <-. apply list_elem_of_here.
Qed.

(** [w_B] sends the same to the route, directly to its peer [w_C]. *)
Definition w_direct : SendMessageRequest :=
  {| sm_Peer := None; sm_BlindedDestination := Some (path_of w_home_route);
     sm_ReplyPath := replyPath (w_req w_path 1); sm_FinalPayloads := sm_FinalPayloads w_to_home;
     DirectConnect := true |}.

Definition w_net_direct : network (W := net_World) :=
  match send_at w_net (label w_B) 1 5 w_direct with Some (n, _) => n | None => w_net end.

Lemma w_direct_sends : send_at w_net (label w_B) 1 5 w_direct = Some (w_net_direct, Ret tt).
Proof.
  unfold w_net_direct, send_at.
  replace (members w_net !! label w_B) with (Some (w_member w_B_world ∅)) by reflexivity.
  cbn [w_member mb_world].
  assert (SendMessage 1 5 w_direct w_B_world = ((SendMessage 1 5 w_direct w_B_world).1, Ret tt)) as ->;
    [|done].
  apply surjective_pairing_Ret. vm_compute. reflexivity.
Qed.

(** Along the route that lnd found, and directly to the introduction node. *)
Lemma message_delivered_witness :
  (exists n' b', nsteps received_one 3 w_net_sent n' /\ members n' !! label w_D = Some b'
     /\ (sm_ReplyPath w_to_home, lit "req") ∈ nw_inbox (mb_world b'))
  /\ exists n' b', nsteps received_one 2 w_net_direct n' /\ members n' !! label w_D = Some b'
     /\ rested w_D (w_node w_D [w_C] (Err ErrNoRouteFound) []) (mb_world b').
Proof.
  destruct w_home_generated as [w Hg].
  destruct (generated_blinded_for (NewBlindedRouteGenerator w_D) [] w_home w w_home_route Hg)
    as [intro Hb]. split.
  - assert (node_up (mb_node (w_member w_sender ∅)) (mb_world (w_member w_sender ∅))) as Hup by reflexivity.
    destruct (message_delivered (W := net_World) w_net (label (false, x0a)) (w_member w_sender ∅) 1 5 w_to_home
                [intro; w_D] w_finals w_net_sent eq_refl eq_refl Hup w_net_sends Hb w_to_home_sendable)
      as (path & w3 & msg & Hp & _ & data & datas & T & Ht).
    apply w_finds_path in Hp as ->. destruct (Ht w_D eq_refl) as (n' & Hn & b & b' & w1 & Eb & Eb' & _ & Ew & _).
    + apply (bool_decide_unpack _). vm_compute. exact I.
    + by eapply w_way_ready.
    + exists n', b'. split; [exact Hn|]. split; [exact Eb'|].
      assert (b = w_member (w_node w_D [w_C] (Err ErrNoRouteFound) []) {[ 64 := Some w_keep ]}) as ->
        by (apply (inj Some); rewrite <- Eb; reflexivity).
      assert (nw_inbox (mb_world b') = nw_inbox w1 ++ [(sm_ReplyPath w_to_home, lit "req")]) as ->
        by (rewrite Ew; reflexivity).
      apply elem_of_app. right. by apply list_elem_of_singleton.
  - assert (node_up (mb_node (w_member w_B_world ∅)) (mb_world (w_member w_B_world ∅))) as Hup by reflexivity.
    destruct (message_delivered (W := net_World) w_net (label w_B) (w_member w_B_world ∅) 1 5 w_direct
                [intro; w_D] w_finals w_net_direct eq_refl eq_refl Hup w_direct_sends Hb w_to_home_sendable)
      as (path & w3 & msg & (target & _ & _ & _ & _ & [= <-] & _ & _ & -> & _) & _ & data & datas & T & Ht).
    destruct (Ht w_D eq_refl) as (n' & Hn & b & b' & w1 & Eb & Eb' & Hr & Ew & _).
    + apply (bool_decide_unpack _). vm_compute. exact I.
    + by eapply w_way_ready_direct.
    + exists n', b'. split; [exact Hn|]. split; [exact Eb'|].
      assert (b = w_member (w_node w_D [w_C] (Err ErrNoRouteFound) []) {[ 64 := Some w_keep ]}) as ->
        by (apply (inj Some); rewrite <- Eb; reflexivity).
      rewrite Ew. exact Hr.
Defined.
