(* ===== verification/OfferFlow.v ===== *)
(** An offer at work: a payer decodes an offer string, makes and signs an invoice
    request for it, and sends it as an onion message; the node behind the offer
    gets a request that it can decode and that passes validation, for the offer
    whose string the payer had.

    The parts are those of the codecs (OfferStrings.v, InvoiceRequests.v) and of
    the network (NetworkRun.v). *)
From S2P Require Import Prelude Deps DepsRef Io LndDeps LndRef GoTime Stream Merkle Signatures Shared.
From S2P Require Import Offers InvoiceRequests RouteBlinding OnionMessages OnionPayload OfferStrings.
From S2P Require Import Routes Messenger Rpc NetDeps NetRef Network NetworkRun.

(** ** The request *)

Section Request.
Context `{CR : Crypto, CL : !CryptoLaws, TL : !Tlv, TLL : !TlvLaws, LN : !Lntypes,
          LNL : !LntypesLaws, FE : Features, FEL : !FeaturesLaws,
          MO : MapOrder, MOL : !MapOrderLaws, BL : Bech32Lib}.

(** [b] is a request by payer [k], signed and encoded, for the offer of the
    string [s]. *)
Definition requests (s : bytes) (o : Offer) (k : PublicKey) (b : bytes) : Prop :=
  DecodeOfferStr s = Ret o /\ o_MerkleRoot o <> ZeroHash /\ xonly_key k
  /\ exists amount quantity note sig r,
    u64 amount /\ u64 quantity /\ u64 (len note) /\ length sig = 64%nat
    /\ NewInvoiceRequest o amount quantity (Some k) note = Ret r
    /\ valid_signature sig k (InvoiceRequest_SignatureDigest r)
    /\ EncodeInvoiceRequest (ir_set_Signature r (Some sig)) = Ret b.

(** Who gets [b] gets a valid request for the offer [o] by payer [k]. *)
Definition accepted (o : Offer) (k : PublicKey) (b : bytes) : Prop :=
  exists r, DecodeInvoiceRequest b = Ret r /\ InvoiceRequest_Validate r = Ret tt
  /\ ir_OfferID r = o_MerkleRoot o /\ ir_Chainhash r = o_Chainhash o /\ ir_PayerKey r = Some k
  /\ o_MinimumAmount o <= ir_Amount r /\ quantity_allowed o (ir_Quantity r).

Lemma DecodeOfferStr_typed s o : DecodeOfferStr s = Ret o ->
  offer_wf o /\ is_hash (o_MerkleRoot o).
Proof.
  unfold DecodeOfferStr. intros H. go_inv. destruct x0 as [hrp data].
  case_bool_decide; [done|]. go_inv.
  match goal with E : DecodeOffer _ = Ret _ |- _ => rename E into Ed end.
  split; [by eapply DecodeOffer_typed | by eapply DecodeOffer_hash].
Qed.

Lemma requests_accepted s o k b : requests s o k b -> accepted o k b.
Proof.
  intros (Hs & Hz & Hk & amount & quantity & note & sig & r & Ha & Hq & Hn & Hl & Hr & Hv & He).
  apply DecodeOfferStr_typed in Hs as [W Hh].
  destruct (signed_request_wire o amount quantity k note sig r) as (b' & E & D & V); try done.
  assert (b' = b) as -> by congruence.
  assert (forall p, Some k = Some p -> xonly_key p) as Hk' by (by intros p [= <-]).
  destruct (NewInvoiceRequest_allowed _ _ _ _ _ W Hq _ Hr) as [A Q].
  rewrite NewInvoiceRequest_checked in Hr by done.
  destruct (raw_root _) as [h| | |] eqn:Eh in Hr; try done.
  cbn [opaque mbind outcome_bind] in Hr. injection Hr as <-.
  exists (ir_set_Signature (new_request o amount quantity (Some k) note h) (Some sig)). by repeat split.
Qed.
End Request.

(** ** Its way *)

Section Flow.
Context {W : Type} `{CR : Crypto, CL : !CryptoLaws, TL : !Tlv, TLL : !TlvLaws, LW : !Lndwire,
  LWL : !LndwireLaws, SP : !Sphinx, SL : !SphinxLaws, SO : !SphinxOps, SR : !SphinxRouter W,
  KS : !Keys W, VX : !Vertices, VXL : !VerticesLaws, LC : Lndclient, OL : !OnionLnd W,
  OS : !LndOnionSigner W, LN : Lnwire, BL : !Blinding, NW : !NodeWorld W, ON : !OnionLaws W,
  SE : !SenderLaws W, MO : MapOrder, MOL : !MapOrderLaws,
  LT : !Lntypes, LTL : !LntypesLaws, FE : Features, FEL : !FeaturesLaws, B32 : Bech32Lib}.

(** The message that carries the request. *)
Record carries_request (req : SendMessageRequest) (b : bytes) : Prop := {
  cr_finals : sm_FinalPayloads req = [MkFinalHopPayload InvoiceRequestNamespaceType b];
  cr_length : u64 (len b);
  cr_reply : forall p, sm_ReplyPath req = Some p -> path_wf p;
}.

Lemma carries_request_sendable req b : carries_request req b ->
  sendable req [MkFinalHopPayload InvoiceRequestNamespaceType b].
Proof.
  intros [Hf Hl Hr]. split; [by rewrite Hf|]. intros d Hd. constructor; cbn; try done.
  - apply Forall_singleton. unfold final_ok, u64. cbn. unfold InvoiceRequestNamespaceType.
    split; [lia|]. by split; [lia|].
  - repeat constructor.
Qed.

Lemma handler_runs_one (handlers : handlerMap W) o t b (h : OnionMessageHandler W) :
  FinalHopPayloads o = [MkFinalHopPayload t b] -> handlers !! t = Some (Some h) ->
  handler_runs handlers o = [h (omp_ReplyPath o) (omp_EncryptedData o) b].
Proof.
  intros Ho Hh. unfold handler_runs. rewrite Ho. cbn [omap list_omap TLVType fhp_Value].
  unfold OnionMessageHandler in *. by rewrite Hh.
Qed.

Lemma run_one (m : io W unit) w : (run_all [m] w).1 = (m w).1.
Proof. cbn [run_all]. unfold map_io, mbind, io_bind. by destruct (m w) as [w' [[]| | |]]. Qed.

(** C12: An offer leads to its request.  A payer with an x-only (even) key who
    decodes an offer string, makes an invoice request for the offer, signs it, and
    sends it, with a reply path that can be encoded, from a node towards a node or
    a blinded destination gives it to a network that can bring it there: when the
    nodes of the way are up, connected, have not seen the onion and are not the
    sender or each other, and the handlers of the last one do not panic, the event
    loops hand it on, one step each, and the last node calls its handler of invoice
    requests with the reply path and bytes that decode to a valid request - signed
    by the payer, within the bounds of the offer, and naming the offer by the
    Merkle root of the string.  Not so when the destination is blinded and the path
    has no node before its introduction node: the message arrives, but the
    request is lost, and the last node calls no handler. *)
Theorem offer_request_delivered (s : bytes) (o : Offer) (k : PublicKey) (b : bytes)
    (n : network (W := W)) v a backoff attempts req nodes n1 :
  requests s o k b -> carries_request req b ->
  members n !! v = Some a -> v = SerializeCompressed (mb_node a) -> node_up (mb_node a) (mb_world a) ->
  send_at n v backoff attempts req = Some (n1, Ret tt) ->
  behind (sm_BlindedDestination req) nodes ->
  exists path w3 msg, finds_path backoff attempts req (mb_world a) w3 path
    /\ flight n1 = flight n ++ [(v, msg)]
    /\ let way := path ++ tail nodes in exists data datas,
       travels (W := W) (last_payload req path [MkFinalHopPayload InvoiceRequestNamespaceType b] data)
         way (cm_Data msg :: datas)
       /\ forall last m (h : OnionMessageHandler W), list.last way = Some last -> NoDup (mb_node a :: way) ->
          way_ready n way (cm_Data msg :: datas) ->
          members n1 !! SerializeCompressed last = Some m ->
          mb_handlers m !! InvoiceRequestNamespaceType = Some (Some h) ->
          exists n' m' w1, nsteps received_one (length way) n1 n'
            /\ members n' !! SerializeCompressed last = Some m' /\ rested last (mb_world m) w1
            /\ if direct_to_blinded req path then mb_world m' = w1
               else mb_world m' = (h (sm_ReplyPath req) data b w1).1 /\ accepted o k b.
Proof.
  intros Hq%requests_accepted C Ha Hv Hup Hsend Hbeh.
  destruct (message_crosses n v a backoff attempts req nodes _ n1 Ha Hv Hup Hsend Hbeh
              (carries_request_sendable _ _ C)) as (path & w3 & msg & Hp & Hf & data & datas & T & Hd).
  exists path, w3, msg. split; [done|]. split; [done|]. intros way.
  exists data, datas. split; [exact T|].
  intros last m h Hl ND HR Hm Hh. destruct (Hd last Hl ND HR) as (n' & Hn & c & c' & w1 & Hc & Hc' & Hw & E & _).
  assert (c = m) as -> by congruence. exists n', c', w1. split; [done|]. split; [done|]. split; [done|].
  rewrite E. unfold last_payload. destruct (direct_to_blinded req path) eqn:Ed; [done|].
  split; [|done]. erewrite handler_runs_one; [apply run_one | reflexivity | exact Hh].
Qed.
End Flow.

(** ** Witnesses *)

(** A request for the offer of a string, signed, and sent to the route of
    [w_D]. *)
Definition w_payer : @PublicKey ref_Crypto := (false, x09).
Definition w_flow_request : InvoiceRequest :=
  from_Ret w_request (NewInvoiceRequest w_str_offer 2000 2 (Some w_payer) (lit "note")).
Definition w_flow_sig : bytes :=
  InvoiceRequest_SignatureDigest w_flow_request ++ schnorr_SerializePubKey w_payer.
Definition w_flow_bytes : bytes :=
  from_Ret [] (EncodeInvoiceRequest (ir_set_Signature w_flow_request (Some w_flow_sig))).

Lemma w_flow_requests : requests w_offer_str w_str_offer w_payer w_flow_bytes.
Proof.
  split; [apply from_Ret_eq; vm_compute; reflexivity|]. split; [vm_compute; discriminate|].
  split; [reflexivity|]. exists 2000, 2, (lit "note"), w_flow_sig, w_flow_request.
  do 2 (split; [by split|]). split; [split; vm_compute; congruence|].
  split; [vm_compute; reflexivity|]. split; [apply from_Ret_eq; vm_compute; reflexivity|].
  split; [|apply from_Ret_eq; vm_compute; reflexivity].
  exists w_flow_sig. split; vm_compute; reflexivity.
Qed.

Definition w_flow : SendMessageRequest :=
  w_home_with [MkFinalHopPayload InvoiceRequestNamespaceType w_flow_bytes].

Lemma w_flow_carries : carries_request w_flow w_flow_bytes.
Proof.
  constructor; [reflexivity | split; vm_compute; congruence|].
  intros p [= <-]. split; [unfold len; cbn; lia|]. apply Forall_cons_2; [done | apply Forall_nil_2].
Qed.

Lemma send_at_sends {W} `{CR : Crypto, TL : !Tlv, LW : !Lndwire, SP : !Sphinx, SO : !SphinxOps,
    SR : !SphinxRouter W, KS : !Keys W, VX : !Vertices, LC : Lndclient, OL : !OnionLnd W,
    OS : !LndOnionSigner W, LN : Lnwire, NW : !NodeWorld W, MO : MapOrder}
    (n : network (W := W)) v b backoff attempts req w' :
  members n !! v = Some b -> SendMessage backoff attempts req (mb_world b) = (w', Ret tt) ->
  send_at n v backoff attempts req
  = Some ({| members := <[v := MkMember (mb_node b) (mb_handlers b) w']> (members n);
             flight := flight n ++ emitted v (mb_world b) w' |}, Ret tt).
Proof. intros Hb E. unfold send_at. by rewrite Hb, E. Qed.

Definition w_flow_world : net_World := (SendMessage 1 5 w_flow w_sender).1.
Lemma w_flow_sending : SendMessage 1 5 w_flow w_sender = (w_flow_world, Ret tt).
Proof. unfold w_flow_world. apply surjective_pairing_Ret. vm_compute. reflexivity. Qed.

Definition w_flow_sent : network (W := net_World) :=
  {| members := <[label (false, x0a) := MkMember (false, x0a) ∅ w_flow_world]> (members w_net);
     flight := flight w_net ++ emitted (label (false, x0a)) w_sender w_flow_world |}.

Lemma w_flow_sends : send_at w_net (label (false, x0a)) 1 5 w_flow = Some (w_flow_sent, Ret tt).
Proof.
  apply (send_at_sends w_net (label (false, x0a)) (w_member w_sender ∅)); [reflexivity|].
  cbn [w_member mb_world]. exact w_flow_sending.
Qed.

Definition w_home_member : member (W := net_World) :=
  w_member (w_node w_D [w_C] (Err ErrNoRouteFound) []) {[ 64 := Some w_keep ]}.

Lemma w_flow_home : members w_flow_sent !! label w_D = Some w_home_member.
Proof. unfold w_flow_sent. cbn [members]. rewrite lookup_insert_ne by done. reflexivity. Qed.

Lemma w_keep_keeps reply data value w :
  (reply, value) ∈ nw_inbox (w_keep reply data value w).1.
Proof. apply elem_of_app. right. by apply list_elem_of_singleton. Qed.

Lemma offer_request_delivered_witness : exists n' m', nsteps received_one 3 w_flow_sent n'
  /\ members n' !! label w_D = Some m'
  /\ (sm_ReplyPath w_flow, w_flow_bytes) ∈ nw_inbox (mb_world m')
  /\ accepted w_str_offer w_payer w_flow_bytes.
Proof.
  destruct w_home_generated as [w Hg].
  destruct (generated_blinded_for (NewBlindedRouteGenerator w_D) [] w_home w w_home_route Hg)
    as [intro Hb].
  assert (node_up (mb_node (w_member w_sender ∅)) (mb_world (w_member w_sender ∅))) as Hup by reflexivity.
  destruct (offer_request_delivered (W := net_World) w_offer_str w_str_offer w_payer w_flow_bytes w_net
              (label (false, x0a)) (w_member w_sender ∅) 1 5 w_flow [intro; w_D] w_flow_sent
              w_flow_requests w_flow_carries eq_refl eq_refl Hup w_flow_sends Hb)
    as (path & w3 & msg & Hp & _ & data & datas & T & Ht).
  apply w_finds_path in Hp as ->.
  destruct (Ht w_D w_home_member w_keep eq_refl) as (n' & m' & w1 & Hn & Hm & _ & Ew & Hacc).
  - apply (bool_decide_unpack _). vm_compute. exact I.
  - by eapply w_way_ready.
  - exact w_flow_home.
  - reflexivity.
  - exists n', m'. split; [exact Hn|]. split; [exact Hm|]. split; [|exact Hacc].
    rewrite Ew. apply w_keep_keeps.
Defined.
