(* ===== verification/Subscription.v ===== *)
(** rpcserver/impl_subscribe_onion_payload.go: a subscription to the payloads
    of one type, as the two goroutines that share it - the event loop of the
    messenger, which takes its registrations and calls the handler, and the
    call that sends what it receives to the client. *)
From S2P Require Import Prelude Deps DepsRef OnionPayload Messenger Rpc.

Section Subscription.
Context `{CR : Crypto}.

Record onionPayloadResponse := MkOnionPayloadResponse {
  payload : bytes;
  op_replyPath : option ReplyPath;
}.

(** The message for the client. *)
Record SubscribeOnionPayloadResponse := MkSubscribeOnionPayloadResponse {
  so_Value : bytes;
  sr_ReplyPath : option rpcBlindedPath;
}.

Definition response (msg : onionPayloadResponse) : SubscribeOnionPayloadResponse :=
  {| so_Value := payload msg; sr_ReplyPath := composeReplyPath (op_replyPath msg) |}.

(** The call: in RegisterHandler, at the select of its loop, in the send of a
    message to the client, in its deferred DeregisterHandler with the error it
    will return, or returned. *)
Inductive subscriber :=
| Registering
| Consuming
| Sending (msg : onionPayloadResponse)
| Deregistering (result : error)
| Exited (result : error).

(** The event loop: at its select, in the handler of the subscription, or
    ended, as it does when lnd closes a stream. *)
Inductive eventLoop := AtSelect | InHandler (msg : onionPayloadResponse) | Ended.

(** The state they share: whether the messenger has the handler; the channel
    [incoming] with its capacity; the client's context, the quit channel of
    the server and that of the messenger; what the client was sent; and, for
    the statements, the messages whose handler returned nil. *)
Record subscription := MkSubscription {
  registered : bool;
  capacity : nat;
  incoming : list onionPayloadResponse;
  ctx_done : option error;
  sub_quit : bool;
  msgr_quit : bool;
  caller : subscriber;
  events : eventLoop;
  sent : list SubscribeOnionPayloadResponse;
  accepted : list onionPayloadResponse;
}.

(** SubscribeOnionPayload makes the channel with one place, and calls
    handleSubscribeOnionPayload. *)
Definition subscribed : subscription := {|
  registered := false; capacity := 1; incoming := []; ctx_done := None; sub_quit := false;
  msgr_quit := false; caller := Registering; events := AtSelect; sent := []; accepted := [];
|}.

(** The loop or the caller moves on; the messenger gains or loses the handler. *)
Definition set_events (s : subscription) (e : eventLoop) : subscription := {|
  registered := registered s; capacity := capacity s; incoming := incoming s;
  ctx_done := ctx_done s; sub_quit := sub_quit s; msgr_quit := msgr_quit s;
  caller := caller s; events := e; sent := sent s; accepted := accepted s |}.
Definition set_caller (s : subscription) (reg : bool) (c : subscriber) : subscription := {|
  registered := reg; capacity := capacity s; incoming := incoming s;
  ctx_done := ctx_done s; sub_quit := sub_quit s; msgr_quit := msgr_quit s;
  caller := c; events := events s; sent := sent s; accepted := accepted s |}.
Definition set_signals (s : subscription) (done : option error) (quit mquit : bool)
    : subscription := {|
  registered := registered s; capacity := capacity s; incoming := incoming s;
  ctx_done := done; sub_quit := quit; msgr_quit := mquit;
  caller := caller s; events := events s; sent := sent s; accepted := accepted s |}.

(** [incoming <- msg] in the handler, which returns nil. *)
Definition push (s : subscription) (msg : onionPayloadResponse) : subscription := {|
  registered := registered s; capacity := capacity s; incoming := incoming s ++ [msg];
  ctx_done := ctx_done s; sub_quit := sub_quit s; msgr_quit := msgr_quit s;
  caller := caller s; events := AtSelect; sent := sent s; accepted := accepted s ++ [msg] |}.

(** [msg := <-incoming]. *)
Definition receive (s : subscription) (msg : onionPayloadResponse)
    (rest : list onionPayloadResponse) : subscription := {|
  registered := registered s; capacity := capacity s; incoming := rest;
  ctx_done := ctx_done s; sub_quit := sub_quit s; msgr_quit := msgr_quit s;
  caller := Sending msg; events := events s; sent := sent s; accepted := accepted s |}.

(** The return of [send], which may block before, with this result. *)
Definition send (s : subscription) (msg : onionPayloadResponse) (result : option error)
    : subscription := {|
  registered := registered s; capacity := capacity s; incoming := incoming s;
  ctx_done := ctx_done s; sub_quit := sub_quit s; msgr_quit := msgr_quit s;
  caller := match result with None => Consuming | Some e => Deregistering e end;
  events := events s;
  sent := match result with None => sent s ++ [response msg] | Some _ => sent s end;
  accepted := accepted s |}.

(** What the client, the server and lnd may do at any time: Server.Stop closes
    the server's quit channel and then stops the messenger. *)
Inductive external : subscription -> subscription -> Prop :=
| ext_cancel s e : ctx_done s = None ->
    external s (set_signals s (Some e) (sub_quit s) (msgr_quit s))
| ext_shutdown s : external s (set_signals s (ctx_done s) true (msgr_quit s))
| ext_messenger_stop s : sub_quit s = true ->
    external s (set_signals s (ctx_done s) true true)
| ext_loop_ends s : events s = AtSelect -> external s (set_events s Ended).

(** RegisterHandler failed. *)
Definition not_registered : error := EStatus Unavailable "could not register subscription".

(** The steps of the two goroutines.  The event loop takes a registration or a
    message for the handler at its select only; RegisterHandler and
    DeregisterHandler return with the answer of the loop, or with
    ErrShuttingDown once the messenger has quit. *)
Inductive internal : subscription -> subscription -> Prop :=
| sub_register s : caller s = Registering -> registered s = false -> events s = AtSelect ->
    internal s (set_caller s true Registering)
| sub_registered s : caller s = Registering -> registered s = true ->
    internal s (set_caller s true Consuming)
| sub_refused s : caller s = Registering -> registered s = false -> events s = AtSelect ->
    (* the type has another handler *)
    internal s (set_caller s false (Exited not_registered))
| sub_abandoned s : caller s = Registering -> msgr_quit s = true ->
    internal s (set_caller s (registered s) (Exited not_registered))
| sub_deliver s msg : events s = AtSelect -> registered s = true ->
    internal s (set_events s (InHandler msg))
| sub_push s msg : events s = InHandler msg -> (length (incoming s) < capacity s)%nat ->
    internal s (push s msg)
| sub_handler_cancel s msg e : events s = InHandler msg -> ctx_done s = Some e ->
    internal s (set_events s AtSelect)
| sub_handler_quit s msg : events s = InHandler msg -> sub_quit s = true ->
    internal s (set_events s AtSelect)
| sub_receive s msg rest : caller s = Consuming -> incoming s = msg :: rest ->
    internal s (receive s msg rest)
| sub_send s msg result : caller s = Sending msg -> internal s (send s msg result)
| sub_cancel s e : caller s = Consuming -> ctx_done s = Some e ->
    internal s (set_caller s (registered s) (Deregistering (EStatus Canceled "client cancel")))
| sub_shutdown s : caller s = Consuming -> sub_quit s = true ->
    internal s (set_caller s (registered s) (Deregistering ErrServerShuttingDown))
| sub_deregister s e : caller s = Deregistering e -> events s = AtSelect ->
    internal s (set_caller s false (Exited e))
| sub_dereg_abandoned s e : caller s = Deregistering e -> msgr_quit s = true ->
    internal s (set_caller s (registered s) (Exited e)).

Inductive reachable : subscription -> Prop :=
| reach_init : reachable subscribed
| reach_external s s' : reachable s -> external s s' -> reachable s'
| reach_internal s s' : reachable s -> internal s s' -> reachable s'.

(** The message that is being sent to the client. *)
Definition in_send (c : subscriber) : list onionPayloadResponse :=
  match c with Sending msg => [msg] | _ => [] end.

Definition running (c : subscriber) : Prop :=
  match c with Registering | Consuming | Sending _ => True | _ => False end.

Definition has_handler (c : subscriber) : Prop :=
  match c with Consuming | Sending _ => True | _ => False end.

(** What holds of every reachable subscription; [lost] is the message that is
    being sent, or whose send failed. *)
Record sub_ok (s : subscription) : Prop := {
  so_capacity : capacity s = 1%nat;
  so_bound : (length (incoming s) <= 1)%nat;
  so_fifo : exists lost got, (length lost <= 1)%nat /\ (running (caller s) -> lost = in_send (caller s))
    /\ accepted s = got ++ lost ++ incoming s /\ sent s = map response got;
  so_consuming : has_handler (caller s) -> registered s = true;
}.

Lemma sub_ok_caller s r c : sub_ok s ->
  (running c -> running (caller s) /\ in_send (caller s) = in_send c) ->
  (has_handler c -> r = true) -> sub_ok (set_caller s r c).
Proof.
  intros [? ? (lost & got & ? & Hn & ? & ?) ?] Hc Hr. constructor; try done.
  exists lost, got. cbn. split; [done|]. split; [|done].
  intros [R <-]%Hc. by apply Hn.
Qed.

Lemma sub_ok_same s s' : sub_ok s -> capacity s' = capacity s -> incoming s' = incoming s ->
  caller s' = caller s -> accepted s' = accepted s -> sent s' = sent s ->
  registered s' = registered s -> sub_ok s'.
Proof.
  intros [H1 H2 H3 H4] E1 E2 E3 E4 E5 E6.
  constructor; by rewrite ?E1, ?E2, ?E3, ?E4, ?E5, ?E6.
Qed.

Lemma sub_ok_push s msg : sub_ok s -> (length (incoming s) < capacity s)%nat -> sub_ok (push s msg).
Proof.
  intros [Hc Hb (lost & got & Hl & Hn & Ha & Hs) Hr] Hlt. constructor; try done; cbn.
  - rewrite length_app. cbn. lia.
  - exists lost, got. split; [done|]. split; [done|]. by rewrite Ha, <- !app_assoc.
Qed.

Lemma sub_ok_receive s msg rest : sub_ok s -> caller s = Consuming ->
  incoming s = msg :: rest -> sub_ok (receive s msg rest).
Proof.
  intros [Hc Hb (lost & got & Hl & Hn & Ha & Hs) Hr] Hco Hi. rewrite Hco, Hi in *.
  rewrite (Hn I) in *. cbn in Ha, Hb. constructor; [done | cbn; lia | | by intros _; apply Hr].
  exists [msg], got. by repeat split; cbn.
Qed.

Lemma sub_ok_send s msg result : sub_ok s -> caller s = Sending msg -> sub_ok (send s msg result).
Proof.
  intros [Hc Hb (lost & got & Hl & Hn & Ha & Hs) Hr] Hco. rewrite Hco in *.
  rewrite (Hn I) in *. cbn [in_send] in *.
  constructor; [done | done | | destruct result; [done | by intros _; apply Hr]].
  destruct result as [e|]; cbn.
  - exists [msg], got. by repeat split; cbn.
  - exists [], (got ++ [msg]). split; [cbn; lia|]. split; [done|].
    by rewrite Ha, Hs, map_app, <- app_assoc.
Qed.

Lemma internal_ok s s' : sub_ok s -> internal s s' -> sub_ok s'.
Proof.
  intros O I. destruct I as [s Hc|s Hc|s Hc|s Hc|s msg|s msg He Hlt|s msg e|s msg
    |s msg rest Hco Hi|s msg result Hco|s e Hc|s Hc|s e Hc|s e Hc].
  all: try (apply sub_ok_caller; [done | rewrite Hc; by cbn | done]).
  all: try by (eapply sub_ok_same; eauto).
  - by apply sub_ok_push.
  - by apply sub_ok_receive.
  - by apply sub_ok_send.
Qed.

Lemma reachable_ok s : reachable s -> sub_ok s.
Proof.
  induction 1 as [|s s' _ IH E|s s' _ IH I]; [| |by eapply internal_ok].
  - constructor; [done | cbn; lia | | done]. exists [], []. split; [cbn; lia|]. by split.
  - destruct E; by eapply sub_ok_same.
Qed.

(** ** Properties *)

(** C33: A client receives the payloads in the order in which the handler took
    them, without a gap: what was sent is a prefix of what was accepted, and
    while the subscription runs only the message that is being sent and the one
    in the channel, which holds one, are still missing. *)
Theorem subscription_fifo (s : subscription) :
  reachable s ->
  (length (incoming s) <= 1)%nat
  /\ (exists rest, map response (accepted s) = sent s ++ rest /\ (length rest <= 2)%nat)
  /\ (running (caller s) ->
      map response (accepted s) = sent s ++ map response (in_send (caller s) ++ incoming s)).
Proof.
  intros [_ Hb (lost & got & Hl & Hn & Ha & Hs) _]%reachable_ok. split; [done|]. split.
  - exists (map response (lost ++ incoming s)). rewrite Ha, Hs, map_app. split; [done|].
    rewrite length_map, length_app. lia.
  - intros <-%Hn. by rewrite Ha, Hs, map_app.
Qed.

(** The event loop leaves the handler when the client or the server is gone. *)
Lemma leave_handler s : ctx_done s <> None \/ sub_quit s = true -> events s <> Ended ->
  exists s', rtc internal s s' /\ events s' = AtSelect /\ caller s' = caller s
    /\ registered s' = registered s /\ ctx_done s' = ctx_done s /\ sub_quit s' = sub_quit s.
Proof.
  intros H Hne. destruct (events s) as [|msg|] eqn:He; [by exists s| |done].
  exists (set_events s AtSelect). split; [|done]. apply rtc_once.
  destruct H as [H|H]; [|by eapply sub_handler_quit].
  destruct (ctx_done s) as [e|] eqn:Hd; [by eapply sub_handler_cancel | done].
Qed.

Lemma deregister_ends s e : caller s = Deregistering e ->
  ctx_done s <> None \/ sub_quit s = true -> events s <> Ended ->
  exists s', rtc internal s s' /\ caller s' = Exited e /\ registered s' = false.
Proof.
  intros Hc H Hne. destruct (leave_handler s H Hne) as (s1 & R & He & Hc1 & _).
  exists (set_caller s1 false (Exited e)). split; [|done].
  eapply rtc_r; [exact R|]. apply sub_deregister; congruence.
Qed.

(** Why a subscription that was running ended. *)
Definition ended_by (s : subscription) (e : error) : Prop :=
  e = EStatus Canceled "client cancel" /\ ctx_done s <> None
  \/ e = ErrServerShuttingDown /\ sub_quit s = true.

Lemma consuming_ends s : caller s = Consuming ->
  ctx_done s <> None \/ sub_quit s = true -> events s <> Ended ->
  exists s' e, rtc internal s s' /\ caller s' = Exited e /\ registered s' = false /\ ended_by s e.
Proof.
  intros Hc H Hne. unfold ended_by. destruct H as [H|H].
  - destruct (ctx_done s) as [e|] eqn:Ed; [|done].
    destruct (deregister_ends
      (set_caller s (registered s) (Deregistering (EStatus Canceled "client cancel"))) _ eq_refl)
      as (s' & R & E & Er); [left; cbn; by rewrite Ed | done|].
    exists s', (EStatus Canceled "client cancel"). split; [|by auto].
    eapply rtc_l; [by eapply sub_cancel | done].
  - destruct (deregister_ends (set_caller s (registered s) (Deregistering ErrServerShuttingDown)) _ eq_refl)
      as (s' & R & E & Er); [by right | done|].
    exists s', ErrServerShuttingDown. split; [|by auto].
    eapply rtc_l; [by apply sub_shutdown | done].
Qed.

Lemma registering_ends s : caller s = Registering ->
  ctx_done s <> None \/ sub_quit s = true -> events s <> Ended ->
  exists s' e, rtc internal s s' /\ caller s' = Exited e /\ registered s' = false /\ ended_by s e.
Proof.
  intros Hc H Hne. destruct (leave_handler s H Hne) as (s1 & R & He & Hc1 & Hr & Hd & Hq).
  assert (exists s2, rtc internal s1 s2 /\ caller s2 = Consuming /\ events s2 = AtSelect
            /\ ctx_done s2 = ctx_done s /\ sub_quit s2 = sub_quit s)
    as (s2 & R2 & Hc2 & He2 & Hd2 & Hq2).
  { destruct (registered s1) eqn:Er1.
    - exists (set_caller s1 true Consuming). split; [|done].
      apply rtc_once, sub_registered; congruence.
    - exists (set_caller (set_caller s1 true Registering) true Consuming). split; [|done].
      eapply rtc_l; [by apply sub_register; [congruence|..]|]. by apply rtc_once, sub_registered. }
  destruct (consuming_ends s2 Hc2) as (s' & e & R' & E & Er & Hw); [congruence..|].
  exists s', e. split; [by do 2 (etrans; [done|])|]. split; [done|]. split; [done|].
  unfold ended_by in *. by rewrite <- Hd2, <- Hq2.
Qed.

Lemma sending_ends s msg : caller s = Sending msg ->
  ctx_done s <> None \/ sub_quit s = true -> events s <> Ended ->
  exists s' e, rtc internal s s' /\ caller s' = Exited e /\ registered s' = false /\ ended_by s e.
Proof.
  intros Hc H Hne. destruct (consuming_ends (send s msg None) eq_refl H Hne) as (s' & e & R & K).
  exists s', e. split; [|exact K]. eapply rtc_l; [by apply sub_send | done].
Qed.

(** A subscription can always end once the client has cancelled or the
    server is shutting down, as long as the messenger's event loop runs: from
    every state its own steps, the return of a send included, lead to the return of the call, with the handler
    deregistered, and with the error of the reason unless a send had failed
    before.  When the event loop has ended, a call in its deregistration stays
    there until the messenger is stopped. *)
Theorem subscription_ends (s : subscription) :
  (ctx_done s <> None \/ sub_quit s = true -> events s <> Ended ->
   (forall e, caller s <> Exited e) ->
   exists s' e, rtc internal s s' /\ caller s' = Exited e /\ registered s' = false
     /\ (running (caller s) -> ended_by s e)
     /\ (forall e0, caller s = Deregistering e0 -> e = e0))
  /\ (forall e, events s = Ended -> msgr_quit s = false -> caller s = Deregistering e ->
      forall s', rtc internal s s' -> caller s' = Deregistering e).
Proof.
  split.
  - intros H Hne Hx. destruct (caller s) as [| |msg|e|e] eqn:Hc.
    + destruct (registering_ends s Hc H Hne) as (s' & e & ? & ? & ? & ?). exists s', e. by repeat split.
    + destruct (consuming_ends s Hc H Hne) as (s' & e & ? & ? & ? & ?). exists s', e. by repeat split.
    + destruct (sending_ends s msg Hc H Hne) as (s' & e & ? & ? & ? & ?). exists s', e. by repeat split.
    + destruct (deregister_ends s e Hc H Hne) as (s' & ? & ? & ?). exists s', e.
      do 3 (split; [done|]). split; [done | by intros ? [= <-]].
    + by destruct (Hx e).
  - intros e He Hq Hc s' R. assert (events s' = Ended /\ msgr_quit s' = false /\ caller s' = Deregistering e)
      as (_ & _ & ?); [|done].
    induction R as [s|s1 s2 s3 I R IH]; [done|]. apply IH; destruct I; cbn; congruence.
Qed.

(** A failed send while the channel is full and the handler waits to add
    to it: the call waits for the event loop to take its deregistration, and
    the event loop for a place in the channel.  Neither moves until the
    client's context ends or the server shuts down, whatever the channel's
    place was meant to prevent. *)
Theorem subscription_deadlock (m1 m2 m3 : onionPayloadResponse) (e : error) :
  exists s, reachable s /\ caller s = Deregistering e /\ events s = InHandler m3
    /\ ctx_done s = None /\ sub_quit s = false
    /\ forall s', ~ internal s s'.
Proof.
  set (s0 := set_caller (set_caller subscribed true Registering) true Consuming).
  set (s1 := push (set_events s0 (InHandler m1)) m1).
  set (s2 := send (receive s1 m1 []) m1 (Some e)).
  set (s3 := set_events (push (set_events s2 (InHandler m2)) m2) (InHandler m3)).
  exists s3. split; [|do 4 (split; [done|])].
  - assert (forall s m, reachable s -> events s = AtSelect -> registered s = true -> incoming s = [] ->
              capacity s = 1%nat -> reachable (push (set_events s (InHandler m)) m)) as Hpush.
    { intros s m R He Hr Hi Hc. eapply reach_internal; [eapply reach_internal; [exact R|]|].
      - by apply (sub_deliver s m).
      - apply sub_push; [done | cbn; rewrite Hi, Hc; cbn; lia]. }
    assert (reachable s0) as R0.
    { eapply reach_internal; [eapply reach_internal; [apply reach_init|]|];
        [by apply sub_register | by apply sub_registered]. }
    apply (reach_internal (push (set_events s2 (InHandler m2)) m2)); [|by apply sub_deliver].
    apply Hpush; try done. apply (reach_internal (receive s1 m1 [])); [|by apply sub_send].
    apply (reach_internal s1); [by apply Hpush | by apply sub_receive].
  - intros s' I. inversion I; subst; cbn in *; try done; lia.
Qed.
End Subscription.

(** ** Witnesses *)

Definition w_msg (v : gostring) : onionPayloadResponse := {| payload := lit v; op_replyPath := None |}.

(** One message was sent to the client, another is in the channel. *)
Definition w_consuming : subscription :=
  set_caller (set_caller subscribed true Registering) true Consuming.
Definition w_sent_one : subscription :=
  send (receive (push (set_events w_consuming (InHandler (w_msg "a"))) (w_msg "a")) (w_msg "a") [])
    (w_msg "a") None.
Definition w_sub : subscription := push (set_events w_sent_one (InHandler (w_msg "b"))) (w_msg "b").

Lemma w_sub_reachable : reachable w_sub.
Proof.
  eapply reach_internal; [|apply sub_push; [reflexivity | cbn; lia]].
  eapply reach_internal; [|by apply sub_deliver].
  eapply reach_internal; [|by apply sub_send].
  eapply reach_internal; [|by apply sub_receive].
  eapply reach_internal; [|apply sub_push; [reflexivity | cbn; lia]].
  eapply reach_internal; [|by apply sub_deliver].
  eapply reach_internal; [|by apply sub_registered].
  eapply reach_internal; [apply reach_init|]. by apply sub_register.
Qed.

Lemma subscription_fifo_witness :
  map response (accepted w_sub) = sent w_sub ++ map response (incoming w_sub).
Proof. by apply (subscription_fifo w_sub w_sub_reachable). Defined.

Lemma subscription_ends_witness :
  exists s' e, rtc internal (set_signals w_sub (Some (EExt "gone")) false false) s'
    /\ caller s' = Exited e /\ registered s' = false
    /\ ended_by (set_signals w_sub (Some (EExt "gone")) false false) e.
Proof.
  destruct (subscription_ends (set_signals w_sub (Some (EExt "gone")) false false)) as [H _].
  destruct H as (s' & e & R & E & Er & Hw & _); [by left | discriminate | discriminate|].
  exists s', e. split; [exact R|]. split; [exact E|]. split; [exact Er|]. by apply Hw.
Defined.
