(* ===== verification/NodeSystem.v ===== *)
(** The running node: package rpcserver's Server with its messenger, the event
    loop's goroutine, any number of calls of SubscribeOnionPayload with their
    channels, and the daemon's Start and Stop, as one concurrent system.

    MessengerSystem.v takes a message in one step and Subscription.v looks at
    one subscription; here the loop delivers a message payload by payload, waits
    in the handler of a subscription whose channel is full, and does nothing
    else meanwhile.  NodeRefinement.v relates the three. *)
From S2P Require Import Prelude Deps DepsRef Io LndDeps LndRef Stream.
From S2P Require Import Merkle Shared RouteBlinding OnionMessages OnionPayload Routes Messenger.
From S2P Require Import MessengerSystem Rpc Subscription.

(** ** The state *)

Section State.
Context `{CR : Crypto}.

(** A call of SubscribeOnionPayload: in waitForReady; refused before it
    registered; at the first and at the second select of its registration, with
    the answer of the loop in the buffered channel; at its own select; in the
    send to its client; in the deferred deregistration with the error it will
    return; returned. *)
Inductive callState :=
| Entering
| Refused (result : error)
| RegWaiting
| RegAnswered (answer : option error)
| AtReceive
| InSend (msg : onionPayloadResponse)
| DeregWaiting (result : error)
| DeregAnswered (result : error) (answer : option error)
| CallReturned (result : error).

(** A subscription: the type of its request, its context, its channel, and what
    it sent; for the statements, what its handler took. *)
Record client := MkClient {
  cl_type : Z;
  cl_ctx : option error;
  cl_incoming : list onionPayloadResponse;
  cl_state : callState;
  cl_sent : list SubscribeOnionPayloadResponse;
  cl_accepted : list onionPayloadResponse;
}.

(** What a handler makes of its arguments. *)
Definition handed (replyPath : option ReplyPath) (value : bytes) : onionPayloadResponse :=
  {| payload := value; op_replyPath := replyPath |}.

(** The goroutine of Messenger.Start: it subscribes, waits at its select, goes
    through the final payloads of a message, calls the handler of a
    subscription, calls requestShutdown with the error it ended with, is in a
    call of Boltnd.Stop from there, or is done. *)
Inductive nodeLoop :=
| LNotStarted
| LSubscribing
| LSelect
| LDelivering (payload : OnionMessagePayload) (finals : list FinalHopPayload)
| LHandler (id : nat) (extraData : FinalHopPayload) (payload : OnionMessagePayload)
    (rest : list FinalHopPayload)
| LReporting (err : error)
| LInStop (err : error)
| LDone (err : error).

(** Server.Start: before it, in the calls to lnd for the node's key, with the
    messenger made, returned; or failed, before or after it made the
    messenger. *)
Inductive startState := NotStarting | CreatingKey | MessengerMade | Serving | KeyFailed | RouterFailed.

(** Boltnd.Stop: before it, with the server's quit channel closed, in the
    messenger's wait for its goroutine, with the server stopped, and returned. *)
Inductive stopState := NotStopping | Stopping | WaitingForLoop | ServerStopped | DaemonStopped.

(** The closure RequestShutdown of the configuration: none, one that signals
    another goroutine, or one that itself calls Boltnd.Stop. *)
Inductive closure := NoClosure | Signals | CallsStop.
End State.

Section Node.
Context {W : Type} `{CR : Crypto, TL : !Tlv, LW : !Lndwire, SP : !Sphinx, SR : !SphinxRouter W,
  VX : !Vertices, LC : Lndclient, OL : !OnionLnd W, OS : !LndOnionSigner W, MO : MapOrder}.
Context (nodeKey : SingleKeyECDH W).

(** The handlers of the messenger are those of subscriptions, each known by
    the number of its call. *)
Record nodeState := MkNodeState {
  nd_starting : startState;
  nd_stopping : stopState;
  nd_closure : closure;
  nd_srv_quit : bool;
  nd_quit : bool;
  nd_handlers : gmap Z nat;
  nd_loop : nodeLoop;
  nd_clients : gmap nat client;
  nd_world : W;
}.

Definition new_node (c : closure) (w : W) : nodeState := {|
  nd_starting := NotStarting; nd_stopping := NotStopping; nd_closure := c; nd_srv_quit := false;
  nd_quit := false; nd_handlers := ∅; nd_loop := LNotStarted; nd_clients := ∅; nd_world := w |}.

Definition set_loop_at (n : nodeState) (l : nodeLoop) (w : W) : nodeState := {|
  nd_starting := nd_starting n; nd_stopping := nd_stopping n; nd_closure := nd_closure n;
  nd_srv_quit := nd_srv_quit n; nd_quit := nd_quit n; nd_handlers := nd_handlers n;
  nd_loop := l; nd_clients := nd_clients n; nd_world := w |}.

Definition set_client (n : nodeState) (id : nat) (c : client) : nodeState := {|
  nd_starting := nd_starting n; nd_stopping := nd_stopping n; nd_closure := nd_closure n;
  nd_srv_quit := nd_srv_quit n; nd_quit := nd_quit n; nd_handlers := nd_handlers n;
  nd_loop := nd_loop n; nd_clients := <[id := c]> (nd_clients n); nd_world := nd_world n |}.

Definition set_handlers (n : nodeState) (hs : gmap Z nat) : nodeState := {|
  nd_starting := nd_starting n; nd_stopping := nd_stopping n; nd_closure := nd_closure n;
  nd_srv_quit := nd_srv_quit n; nd_quit := nd_quit n; nd_handlers := hs;
  nd_loop := nd_loop n; nd_clients := nd_clients n; nd_world := nd_world n |}.

Definition set_starting (n : nodeState) (s : startState) (l : nodeLoop) (w : W) : nodeState := {|
  nd_starting := s; nd_stopping := nd_stopping n; nd_closure := nd_closure n;
  nd_srv_quit := nd_srv_quit n; nd_quit := nd_quit n; nd_handlers := nd_handlers n;
  nd_loop := l; nd_clients := nd_clients n; nd_world := w |}.

Definition set_stopping (n : nodeState) (s : stopState) (quit : bool) : nodeState := {|
  nd_starting := nd_starting n; nd_stopping := s; nd_closure := nd_closure n;
  nd_srv_quit := true; nd_quit := quit; nd_handlers := nd_handlers n;
  nd_loop := nd_loop n; nd_clients := nd_clients n; nd_world := nd_world n |}.

(** ** The operations *)

Definition set_state (c : client) (s : callState) : client := {|
  cl_type := cl_type c; cl_ctx := cl_ctx c; cl_incoming := cl_incoming c; cl_state := s;
  cl_sent := cl_sent c; cl_accepted := cl_accepted c |}.
Definition cancel (c : client) (e : error) : client := {|
  cl_type := cl_type c; cl_ctx := Some e; cl_incoming := cl_incoming c; cl_state := cl_state c;
  cl_sent := cl_sent c; cl_accepted := cl_accepted c |}.

Definition new_client (tlvType : Z) : client := {|
  cl_type := tlvType; cl_ctx := None; cl_incoming := []; cl_state := Entering; cl_sent := [];
  cl_accepted := [] |}.

(** [incoming <- ...] in the handler. *)
Definition offer_to (c : client) (msg : onionPayloadResponse) : client := {|
  cl_type := cl_type c; cl_ctx := cl_ctx c; cl_incoming := cl_incoming c ++ [msg];
  cl_state := cl_state c; cl_sent := cl_sent c; cl_accepted := cl_accepted c ++ [msg] |}.

(** [msg := <-incoming], and the return of [send]. *)
Definition take_msg (c : client) (msg : onionPayloadResponse) (rest : list onionPayloadResponse)
    : client := {|
  cl_type := cl_type c; cl_ctx := cl_ctx c; cl_incoming := rest; cl_state := InSend msg;
  cl_sent := cl_sent c; cl_accepted := cl_accepted c |}.
Definition sent_msg (c : client) (msg : onionPayloadResponse) (result : option error) : client := {|
  cl_type := cl_type c; cl_ctx := cl_ctx c; cl_incoming := cl_incoming c;
  cl_state := match result with None => AtReceive | Some e => DeregWaiting e end;
  cl_sent := match result with None => cl_sent c ++ [response msg] | Some _ => cl_sent c end;
  cl_accepted := cl_accepted c |}.

(** The messenger's registerHandler, on the handlers of subscriptions: what
    Messenger_registerHandler does when each is taken for its closure
    ([lift_register] of NodeRefinement.v). *)
Definition register (hs : gmap Z nat) (t : Z) (id : nat) : gmap Z nat * option error :=
  if is_some (hs !! t) then (hs, Some (EWrap "type" ErrHandlerRegistered))
  else (<[t := id]> hs, None).
Definition deregister (hs : gmap Z nat) (t : Z) : gmap Z nat * option error :=
  if negb (is_some (hs !! t)) then (hs, Some (EWrap "type" ErrHandlerNotFound))
  else (delete t hs, None).

(** handleOnionMessage up to the loop over the final payloads: [Some] is the
    payload of a message that is for this node. *)
Definition receive_onion (msg : CustomMessage) : io W (option OnionMessagePayload) :=
  '(blinding, processedPacket) ← map_io (recast ErrBadOnionBlob "could not process onion packet")
    (processOnion (cm_Data msg));
  payload ← pure (recast ErrBadOnionBlob "could not process payload"
    (DecodeOnionMessagePayload (hp_Payload (pp_Payload processedPacket))));
  match Action processedPacket with
  | ExitNode => mret (Some payload)
  | MoreHops =>
      if bool_decide (len (FinalHopPayloads payload) <> 0)
      then pure (Err (EWrap "unexpected final hop payloads" ErrFinalPayload))
      else match NextPacket processedPacket with
      | None => pure (Err ErrNoForwardingOnion)
      | Some next =>
          data ← iwrap "could not decrypt data blob"
            (decryptBlobFunc nodeKey blinding (Some payload));
          forwardMessage nodeKey data blinding next;;
          mret None
      end
  | Failure => pure (Err ErrBadMessage)
  | OtherProcessCode _ => mret None
  end.

(** The loop after handleOnionMessage came to the final payloads, or failed
    before; every error is logged. *)
Definition received (n : nodeState) (r : outcome (option OnionMessagePayload)) (w : W) : nodeState :=
  set_loop_at n
    match r with Ret (Some p) => LDelivering p (FinalHopPayloads p) | _ => LSelect end w.

(** The end of manageOnionMessages. *)
Definition leave (n : nodeState) (err : error) (w : W) : nodeState :=
  set_loop_at n (if bool_decide (err = ErrShuttingDown) then LDone err else LReporting err) w.

(** The field onionMsgr is not nil. *)
Definition has_messenger (s : startState) : bool :=
  match s with MessengerMade | Serving | RouterFailed => true | _ => false end.

(** The messenger's WaitGroup is at zero. *)
Definition wg_zero (l : nodeLoop) : bool :=
  match l with LNotStarted | LDone _ => true | _ => false end.

(** ** The steps *)

(** Who moves: a client calls or cancels; a message arrives, or lnd ends a
    stream; Start or Stop is called; the send of a call returns; the event loop,
    a call, Start or Stop goes on by itself. *)
Inductive label :=
| Calls (id : nat) | Cancels (id : nat) | Arrives | LndEnds | Starts | Stops
| Sends (id : nat) | Loop | Call (id : nat) | Server.

(** Start and Stop.  The reads and writes of the server's fields are single
    steps.  Of the close of the connection to lnd, where there is one, nothing is
    assumed (DaemonSystem.v says which close it is). *)
Inductive server_step : nodeState -> label -> nodeState -> Prop :=
| srv_start n : nd_starting n = NotStarting ->
    server_step n Starts (set_starting n CreatingKey (nd_loop n) (nd_world n))
| srv_key n w : nd_starting n = CreatingKey -> NewNodeECDH (nd_world n) = (w, Ret nodeKey) ->
    server_step n Server (set_starting n MessengerMade (nd_loop n) w)
| srv_no_key n w e : nd_starting n = CreatingKey -> NewNodeECDH (nd_world n) = (w, Err e) ->
    server_step n Server (set_starting n KeyFailed (nd_loop n) w)
| srv_serve n : nd_starting n = MessengerMade ->
    server_step n Server (set_starting n Serving LSubscribing (nd_world n))
| srv_router_fails n : nd_starting n = MessengerMade ->
    server_step n Server (set_starting n RouterFailed (nd_loop n) (nd_world n))
| srv_stop n : nd_stopping n = NotStopping ->
    server_step n Stops (set_stopping n Stopping (nd_quit n))
| srv_stop_messenger n : nd_stopping n = Stopping -> has_messenger (nd_starting n) = true ->
    server_step n Server (set_stopping n WaitingForLoop true)
| srv_no_messenger n : nd_stopping n = Stopping -> has_messenger (nd_starting n) = false ->
    server_step n Server (set_stopping n ServerStopped (nd_quit n))
| srv_waited n : nd_stopping n = WaitingForLoop -> wg_zero (nd_loop n) = true ->
    server_step n Server (set_stopping n ServerStopped (nd_quit n))
| srv_close_lnd n w : nd_stopping n = ServerStopped ->
    server_step n Server (set_stopping (set_loop_at n (nd_loop n) w) DaemonStopped (nd_quit n)).

(** The goroutine of the messenger. *)
Inductive loop_step : nodeState -> label -> nodeState -> Prop :=
| loop_subscribed n w : nd_loop n = LSubscribing ->
    SubscribeCustomMessages (nd_world n) = (w, Ret tt) -> loop_step n Loop (set_loop_at n LSelect w)
| loop_not_subscribed n w e : nd_loop n = LSubscribing ->
    SubscribeCustomMessages (nd_world n) = (w, Err e) -> loop_step n Loop (leave n e w)
| loop_register n id c hs answer : nd_loop n = LSelect -> nd_clients n !! id = Some c ->
    cl_state c = RegWaiting -> register (nd_handlers n) (cl_type c) id = (hs, answer) ->
    loop_step n Loop (set_handlers (set_client n id (set_state c (RegAnswered answer))) hs)
| loop_deregister n id c e hs answer : nd_loop n = LSelect -> nd_clients n !! id = Some c ->
    cl_state c = DeregWaiting e -> deregister (nd_handlers n) (cl_type c) = (hs, answer) ->
    loop_step n Loop (set_handlers (set_client n id (set_state c (DeregAnswered e answer))) hs)
| loop_skip n msg : nd_loop n = LSelect -> cm_MsgType msg <> OnionMessageType ->
    loop_step n Arrives n
| loop_message n msg w r : nd_loop n = LSelect -> cm_MsgType msg = OnionMessageType ->
    receive_onion msg (nd_world n) = (w, r) -> settles r -> loop_step n Arrives (received n r w)
| loop_lnd_ends n ev w it err : nd_loop n = LSelect ->
    match ev with EvMessagesClosed | EvError _ | EvErrorsClosed => True | _ => False end ->
    handleEvent nodeKey ∅ ev (nd_world n) = (w, Ret it) -> it_exit it = Some err ->
    loop_step n LndEnds (leave n err w)
| loop_quit n : nd_loop n = LSelect -> nd_quit n = true ->
    loop_step n Loop (leave n ErrShuttingDown (nd_world n))
| loop_unhandled n p f rest : nd_loop n = LDelivering p (f :: rest) ->
    nd_handlers n !! TLVType f = None ->
    loop_step n Loop (set_loop_at n (LDelivering p rest) (nd_world n))
| loop_deliver n p f rest id : nd_loop n = LDelivering p (f :: rest) ->
    nd_handlers n !! TLVType f = Some id ->
    loop_step n Loop (set_loop_at n (LHandler id f p rest) (nd_world n))
| loop_delivered n p : nd_loop n = LDelivering p [] ->
    loop_step n Loop (set_loop_at n LSelect (nd_world n))
| loop_push n id f p rest c : nd_loop n = LHandler id f p rest -> nd_clients n !! id = Some c ->
    (length (cl_incoming c) < 1)%nat ->
    loop_step n Loop (set_client (set_loop_at n (LDelivering p rest) (nd_world n)) id
      (offer_to c (handed (omp_ReplyPath p) (fhp_Value f))))
| loop_cancelled n id f p rest c e : nd_loop n = LHandler id f p rest ->
    nd_clients n !! id = Some c -> cl_ctx c = Some e ->
    loop_step n Loop (set_loop_at n LSelect (nd_world n))
| loop_server_quit n id f p rest : nd_loop n = LHandler id f p rest -> nd_srv_quit n = true ->
    loop_step n Loop (set_loop_at n LSelect (nd_world n))
| loop_reported n e : nd_loop n = LReporting e ->
    nd_closure n <> CallsStop \/ nd_stopping n <> NotStopping ->
    loop_step n Loop (set_loop_at n (LDone e) (nd_world n))
| loop_stops n e : nd_loop n = LReporting e -> nd_closure n = CallsStop ->
    nd_stopping n = NotStopping ->
    loop_step n Loop (set_stopping (set_loop_at n (LInStop e) (nd_world n)) Stopping (nd_quit n))
| loop_stop_returned n e : nd_loop n = LInStop e -> nd_stopping n = DaemonStopped ->
    loop_step n Loop (set_loop_at n (LDone e) (nd_world n)).

(** The calls of SubscribeOnionPayload and their clients. *)
Inductive call_step (id : nat) : nodeState -> label -> nodeState -> Prop :=
| call_new n t : nd_clients n !! id = None ->
    call_step id n (Calls id) (set_client n id (new_client t))
| call_cancelled n c e : nd_clients n !! id = Some c -> cl_ctx c = None ->
    call_step id n (Cancels id) (set_client n id (cancel c e))
| call_not_ready n c e : nd_clients n !! id = Some c -> cl_state c = Entering -> cl_ctx c = Some e ->
    call_step id n (Call id)
      (set_client n id (set_state c (Refused (EStatus Unavailable "server not ready"))))
| call_bad_type n c e : nd_clients n !! id = Some c -> cl_state c = Entering ->
    nd_starting n = Serving -> parseSubscribeOnionPayloadRequest (cl_type c) = Err e ->
    call_step id n (Call id) (set_client n id (set_state c (Refused e)))
| call_register n c t : nd_clients n !! id = Some c -> cl_state c = Entering ->
    nd_starting n = Serving -> parseSubscribeOnionPayloadRequest (cl_type c) = Ret t ->
    call_step id n (Call id) (set_client n id (set_state c RegWaiting))
| call_registered n c : nd_clients n !! id = Some c -> cl_state c = RegAnswered None ->
    call_step id n (Call id) (set_client n id (set_state c AtReceive))
| call_refused n c e : nd_clients n !! id = Some c -> cl_state c = RegAnswered (Some e) ->
    call_step id n (Call id) (set_client n id (set_state c (CallReturned not_registered)))
| call_abandoned n c : nd_clients n !! id = Some c ->
    cl_state c = RegWaiting \/ (exists answer, cl_state c = RegAnswered answer) ->
    nd_quit n = true ->
    call_step id n (Call id) (set_client n id (set_state c (CallReturned not_registered)))
| call_receive n c msg rest : nd_clients n !! id = Some c -> cl_state c = AtReceive ->
    cl_incoming c = msg :: rest ->
    call_step id n (Call id) (set_client n id (take_msg c msg rest))
| call_sent n c msg result : nd_clients n !! id = Some c -> cl_state c = InSend msg ->
    call_step id n (Sends id) (set_client n id (sent_msg c msg result))
| call_client_gone n c e : nd_clients n !! id = Some c -> cl_state c = AtReceive ->
    cl_ctx c = Some e ->
    call_step id n (Call id)
      (set_client n id (set_state c (DeregWaiting (EStatus Canceled "client cancel"))))
| call_server_quit n c : nd_clients n !! id = Some c -> cl_state c = AtReceive ->
    nd_srv_quit n = true ->
    call_step id n (Call id) (set_client n id (set_state c (DeregWaiting ErrServerShuttingDown)))
| call_deregistered n c e answer : nd_clients n !! id = Some c ->
    cl_state c = DeregAnswered e answer ->
    call_step id n (Call id) (set_client n id (set_state c (CallReturned e)))
| call_dereg_abandoned n c e : nd_clients n !! id = Some c ->
    cl_state c = DeregWaiting e \/ (exists answer, cl_state c = DeregAnswered e answer) ->
    nd_quit n = true ->
    call_step id n (Call id) (set_client n id (set_state c (CallReturned e))).

Inductive node_step : nodeState -> label -> nodeState -> Prop :=
| step_server n l n' : server_step n l n' -> node_step n l n'
| step_loop n l n' : loop_step n l n' -> node_step n l n'
| step_of_call id n l n' : call_step id n l n' -> node_step n l n'.

Inductive node_reachable (c : closure) (w : W) : nodeState -> Prop :=
| node_init : node_reachable c w (new_node c w)
| node_next n l n' : node_reachable c w n -> node_step n l n' -> node_reachable c w n'.
End Node.

(** ** The invariant *)

Section NodeFacts.
Context {W : Type} `{CR : Crypto, TL : !Tlv, LW : !Lndwire, SP : !Sphinx, SR : !SphinxRouter W,
  VX : !Vertices, LC : Lndclient, OL : !OnionLnd W, OS : !LndOnionSigner W, MO : MapOrder}.
Context (nodeKey : SingleKeyECDH W).

(** The states in which a call's handler may be registered, and those in which
    it is. *)
Definition may_hold (s : callState) : bool :=
  match s with
  | RegAnswered None | AtReceive | InSend _ | DeregWaiting _ | CallReturned _ => true
  | _ => false
  end.
Definition must_hold (s : callState) : bool :=
  match s with
  | RegAnswered None | AtReceive | InSend _ | DeregWaiting _ => true
  | _ => false
  end.

(** The calls that went past the check of the type. *)
Definition admitted (s : callState) : bool :=
  match s with Entering | Refused _ => false | _ => true end.

Record client_ok (hs : gmap Z nat) (id : nat) (c : client) : Prop := {
  co_held : must_hold (cl_state c) = true -> hs !! cl_type c = Some id;
  co_type : admitted (cl_state c) = true -> 64 <= cl_type c;
  co_bound : (length (cl_incoming c) <= 1)%nat;
  co_fresh : admitted (cl_state c) = false -> cl_incoming c = [] /\ cl_sent c = [] /\ cl_accepted c = [];
}.

Record node_ok (n : nodeState (W := W)) : Prop := {
  no_clients : forall id c, nd_clients n !! id = Some c -> client_ok (nd_handlers n) id c;
  no_handlers : forall t id, nd_handlers n !! t = Some id ->
    exists c, nd_clients n !! id = Some c /\ cl_type c = t /\ may_hold (cl_state c) = true;
  no_handler : forall id f p rest, nd_loop n = LHandler id f p rest ->
    nd_handlers n !! TLVType f = Some id;
  no_quit : nd_quit n = true -> nd_stopping n <> NotStopping /\ nd_stopping n <> Stopping
    /\ has_messenger (nd_starting n) = true;
  no_srv_quit : nd_srv_quit n = true <-> nd_stopping n <> NotStopping;
  no_waiting : nd_stopping n = WaitingForLoop -> nd_quit n = true;
  no_serving : nd_loop n <> LNotStarted <-> nd_starting n = Serving;
  no_in_stop : forall e, nd_loop n = LInStop e -> nd_closure n = CallsStop
    /\ nd_stopping n <> NotStopping;
}.

Lemma new_node_ok c (w : W) : node_ok (new_node c w).
Proof.
  constructor; cbn; try done; try (intros *; by rewrite lookup_empty).
Qed.

(** A client that changed, with its handler where it was. *)
Lemma set_client_ok n id c c' : node_ok n -> nd_clients n !! id = Some c ->
  cl_type c' = cl_type c -> client_ok (nd_handlers n) id c' ->
  (may_hold (cl_state c) = true -> nd_handlers n !! cl_type c = Some id ->
   may_hold (cl_state c') = true) ->
  node_ok (set_client n id c').
Proof.
  intros O Hc Ht Hok Hm. destruct O as [Hcl Hhs Hh Hq Hsq Hw Hsv Hi]. constructor; cbn; try done.
  - intros id' d. rewrite lookup_insert. case_decide as E; [intros [= <-]; subst; by destruct Hok|].
    intros Hd. by destruct (Hcl _ _ Hd).
  - intros t id' Ht'. destruct (Hhs _ _ Ht') as (d & Hd & <- & Hmd).
    rewrite lookup_insert. case_decide as E; [subst|by exists d].
    rewrite Hc in Hd. injection Hd as <-. exists c'. split; [done|]. split; [done|]. by apply Hm.
Qed.

Lemma set_state_ok n id c s : node_ok n -> nd_clients n !! id = Some c ->
  (must_hold s = true -> must_hold (cl_state c) = true) ->
  (admitted s = true -> admitted (cl_state c) = true \/ 64 <= cl_type c) ->
  (admitted s = false -> admitted (cl_state c) = false) ->
  (may_hold s = may_hold (cl_state c) \/ (may_hold (cl_state c) = true -> may_hold s = true)) ->
  node_ok (set_client n id (set_state c s)).
Proof.
  intros O Hc Hm Ha Hf Hy. pose proof (no_clients _ O _ _ Hc) as [Hh Ht Hb Hfr].
  eapply set_client_ok; [done|exact Hc|done| |].
  - constructor; cbn; auto. intros [?|?]%Ha; auto.
  - cbn. intros Hmay _. destruct Hy as [->|Hy]; auto.
Qed.

(** The loop moves to a place outside of handlers. *)
Lemma set_loop_ok n l w : node_ok n -> nd_loop n <> LNotStarted -> l <> LNotStarted ->
  (forall id f p rest, l <> LHandler id f p rest) -> (forall e, l <> LInStop e) ->
  node_ok (set_loop_at n l w).
Proof.
  intros O Hl Hn Hh Hi. destruct O as [Hcl Hhs Hha Hq Hsq Hw Hsv His].
  constructor; cbn; try done.
  - intros id f p rest E. by destruct (Hh id f p rest).
  - by rewrite <- Hsv.
  - intros e E. by destruct (Hi e).
Qed.

Lemma leave_ok n e w : node_ok n -> nd_loop n <> LNotStarted -> node_ok (leave n e w).
Proof. intros O Hl. apply set_loop_ok; try done; by case_bool_decide. Qed.

Lemma server_step_ok n l n' : node_ok n -> server_step nodeKey n l n' -> node_ok n'.
Proof.
  intros [Hcl Hhs Hh Hq Hsq Hw Hsv Hi] S.
  destruct S; constructor; cbn; auto; try congruence.
  all: try (intros Q; apply Hq in Q as (? & ? & ?); cbn; repeat split; congruence).
  all: try (rewrite Hsv; by split; congruence).
  all: try by split.
  all: try (intros e E; apply Hi in E as [? ?]; by split; congruence).
  all: intros (_ & _ & Q)%Hq;
    match goal with H : nd_starting _ = _ |- _ => rewrite H in Q; discriminate Q end.
Qed.

Lemma register_cases hs t id : register hs t id = (<[t := id]> hs, None) /\ hs !! t = None
  \/ exists e, register hs t id = (hs, Some e) /\ is_Some (hs !! t).
Proof.
  unfold register. destruct (hs !! t) eqn:E; cbn; [right|by left].
  eexists. split; [done|]. by eexists.
Qed.

Lemma deregister_cases hs t : deregister hs t = (delete t hs, None) /\ is_Some (hs !! t)
  \/ exists e, deregister hs t = (hs, Some e) /\ hs !! t = None.
Proof.
  unfold deregister. destruct (hs !! t) eqn:E; cbn; [left|right; by eexists].
  split; [done|]. by eexists.
Qed.

Lemma set_handlers_id (n : nodeState (W := W)) : set_handlers n (nd_handlers n) = n.
Proof. by destruct n. Qed.

(** A registration that the loop takes. *)
Lemma register_ok n id c hs answer : node_ok n -> nd_loop n = LSelect ->
  nd_clients n !! id = Some c -> cl_state c = RegWaiting ->
  register (nd_handlers n) (cl_type c) id = (hs, answer) ->
  node_ok (set_handlers (set_client n id (set_state c (RegAnswered answer))) hs).
Proof.
  intros O Hl Hc Hs E. pose proof (no_clients _ O _ _ Hc) as [_ Ht Hb _].
  destruct (register_cases (nd_handlers n) (cl_type c) id) as [[E' Hn]|(e & E' & _)];
    rewrite E' in E; injection E as <- <-.
  - destruct O as [Hcl Hhs Hh Hq Hsq Hw Hsv Hi]. constructor; cbn; try done; [| |by rewrite Hl].
    + intros id' d. rewrite lookup_insert. case_decide as Ei.
      * intros [= <-]. subst. constructor; cbn; try done; [by rewrite lookup_insert_eq|].
        intros _. apply Ht. by rewrite Hs.
      * intros Hd. destruct (Hcl _ _ Hd) as [Hm ? ? ?]. constructor; cbn; try done.
        intros M%Hm. rewrite lookup_insert_ne; [done|]. congruence.
    + intros t id'. rewrite lookup_insert. case_decide as Ei.
      * intros [= <-]. subst. rewrite lookup_insert_eq. eexists. split; [done|]. by split.
      * intros (d & Hd & ? & Hm)%Hhs. exists d. rewrite lookup_insert_ne; [done|].
        intros ->. rewrite Hc in Hd. injection Hd as <-. by rewrite Hs in Hm.
  - change (set_handlers ?m (nd_handlers n)) with (set_handlers m (nd_handlers m)).
    rewrite set_handlers_id. apply set_state_ok; try done; rewrite ?Hs; auto.
Qed.

(** A deregistration that the loop takes: no other subscription has the type. *)
Lemma deregister_ok n id c e hs answer : node_ok n -> nd_loop n = LSelect ->
  nd_clients n !! id = Some c -> cl_state c = DeregWaiting e ->
  deregister (nd_handlers n) (cl_type c) = (hs, answer) ->
  answer = None /\ node_ok (set_handlers (set_client n id (set_state c (DeregAnswered e answer))) hs).
Proof.
  intros O Hl Hc Hs E. pose proof (no_clients _ O _ _ Hc) as [Hm Ht Hb _].
  rewrite Hs in *. pose proof (Hm eq_refl) as Hheld.
  destruct (deregister_cases (nd_handlers n) (cl_type c)) as [[E' _]|(e' & _ & En)];
    [|by rewrite Hheld in En].
  rewrite E' in E. injection E as <- <-. split; [done|].
  destruct O as [Hcl Hhs Hh Hq Hsq Hw Hsv Hi]. constructor; cbn; try done; [| |by rewrite Hl].
  - intros id' d. rewrite lookup_insert. case_decide as Ei.
    + intros [= <-]. subst. constructor; cbn; try done.
    + intros Hd. destruct (Hcl _ _ Hd) as [Hm' ? ? ?]. constructor; cbn; try done.
      intros M%Hm'. rewrite lookup_delete_ne; [done|]. congruence.
  - intros t id'. rewrite lookup_delete_Some. intros [Hne (d & Hd & ? & Hm')%Hhs].
    exists d. rewrite lookup_insert_ne; [done|]. intros ->. congruence.
Qed.

Lemma push_ok n id f p rest c : node_ok n -> nd_loop n = LHandler id f p rest ->
  nd_clients n !! id = Some c -> (length (cl_incoming c) < 1)%nat ->
  node_ok (set_client (set_loop_at n (LDelivering p rest) (nd_world n)) id
    (offer_to c (handed (omp_ReplyPath p) (fhp_Value f)))).
Proof.
  intros O Hl Hc Hb. pose proof (no_handler _ O _ _ _ _ Hl) as Hh.
  destruct (no_handlers _ O _ _ Hh) as (d & Hd & Ht & Hm). rewrite Hc in Hd. injection Hd as <-.
  assert (node_ok (set_loop_at n (LDelivering p rest) (nd_world n))) as O'
    by (by apply set_loop_ok; rewrite ?Hl).
  pose proof (no_clients _ O' _ _ Hc) as [? ? ? Hf].
  eapply set_client_ok; [done | exact Hc | done | | done]. constructor; cbn; try done.
  - rewrite length_app. cbn. lia.
  - intros A. destruct (cl_state c); done.
Qed.

Lemma loop_step_ok n l n' : node_ok n -> loop_step nodeKey n l n' -> node_ok n'.
Proof.
  intros O S. destruct S as [n w Hl|n w e Hl|n id c hs answer Hl Hc Hs E|n id c e hs answer Hl Hc Hs E
    |n msg|n msg w r Hl|n ev w it err Hl|n Hl|n p f rest Hl|n p f rest id Hl Hh|n p Hl
    |n id f p rest c Hl Hc Hb|n id f p rest c e Hl|n id f p rest Hl|n e Hl|n e Hl Hcl Hs|n e Hl].
  all: try by (apply set_loop_ok; rewrite ?Hl).
  all: try by (apply leave_ok; rewrite ?Hl).
  all: try done.
  - by eapply register_ok.
  - by eapply deregister_ok.
  - apply set_loop_ok; try done; rewrite ?Hl; try done; by destruct r as [[]| | |].
  - destruct O as [Hcl Hhs Hha Hq Hsq Hw Hsv His]. constructor; cbn; try done.
    + by intros id' f' p' rest' [= <- <- <- <-].
    + rewrite <- Hsv, Hl. done.
  - by eapply push_ok.
  - destruct O as [Hcs Hhs Hha Hq Hsq Hw Hsv His]. constructor; cbn; try done.
    + by intros (? & _)%Hq.
    + rewrite <- Hsv, Hl. done.
Qed.

Lemma call_step_ok id n l n' : node_ok n -> call_step id n l n' -> node_ok n'.
Proof.
  intros O S. destruct S as [n t Hc|n c e Hc Hd|n c e Hc Hs Hd|n c e Hc Hs Hst E|n c t Hc Hs Hst E
    |n c Hc Hs|n c e Hc Hs|n c Hc Hs Hq|n c msg rest Hc Hs Hi|n c msg result Hc Hs|n c e Hc Hs Hd
    |n c Hc Hs Hq|n c e answer Hc Hs|n c e Hc Hs Hq].
  all: try (apply set_state_ok; [done | done | rewrite ?Hs; cbn; auto..]; fail).
  - destruct O as [Hcl Hhs Hh Hq Hsq Hw Hsv Hi]. constructor; cbn; try done.
    + intros id' d. rewrite lookup_insert. case_decide as E; [|by apply Hcl].
      intros [= <-]. by constructor; cbn; try lia.
    + intros t' id' (d & Hd & ? & ?)%Hhs. exists d. rewrite lookup_insert_ne; [done|]. congruence.
  - eapply set_client_ok; [done | exact Hc | done | | done].
    by destruct (no_clients _ O _ _ Hc).
  - apply set_state_ok; try done; rewrite ?Hs; cbn; auto.
    intros _. right. unfold parseSubscribeOnionPayloadRequest in E. go_inv.
    unfold coded, ValidateFinalPayload, finalHopPayloadStart in E0. case_bool_decide; [done|lia].
  - destruct Hs as [Hs|[answer Hs]]; apply set_state_ok; try done; rewrite ?Hs; cbn; auto.
  - pose proof (no_clients _ O _ _ Hc) as [Hh Ht Hb Hf]. rewrite Hs, Hi in *.
    eapply set_client_ok; [done | exact Hc | done | | done].
    constructor; cbn; auto; try done. cbn in Hb. lia.
  - pose proof (no_clients _ O _ _ Hc) as [Hh Ht Hb Hf]. rewrite Hs in *.
    eapply set_client_ok; [done | exact Hc | done | | by destruct result].
    constructor; cbn; auto; by destruct result.
  - destruct Hs as [Hs|[answer Hs]]; apply set_state_ok; try done; rewrite ?Hs; cbn; auto.
Qed.

Lemma node_step_ok n l n' : node_ok n -> node_step nodeKey n l n' -> node_ok n'.
Proof.
  intros O S. destruct S as [n l n' S|n l n' S|id n l n' S];
    [exact (server_step_ok _ _ _ O S) | exact (loop_step_ok _ _ _ O S)
    |exact (call_step_ok _ _ _ _ O S)].
Qed.

Lemma node_reachable_ok c w n : node_reachable nodeKey c w n -> node_ok n.
Proof. induction 1; [apply new_node_ok | by eapply node_step_ok]. Qed.

(** The lists of a client that a step by another does not touch. *)
Lemma accepted_step n l n' id cl cl' : node_step nodeKey n l n' -> nd_clients n !! id = Some cl ->
  nd_clients n' !! id = Some cl' ->
  cl_type cl' = cl_type cl
  /\ (cl_accepted cl' = cl_accepted cl
      \/ exists f p rest, nd_loop n = LHandler id f p rest
           /\ cl_accepted cl' = cl_accepted cl ++ [handed (omp_ReplyPath p) (fhp_Value f)]).
Proof.
  intros S H H'. destruct S as [n l n' S|n l n' S|id' n l n' S].
  - assert (nd_clients n' = nd_clients n) as E by (by destruct S). rewrite E, H in H'.
    injection H' as <-. by split; [|left].
  - destruct S as [| |n id' c hs answer Hl Hc|n id' c e hs answer Hl Hc| | | | | | |
      |n id' f p rest c Hl Hc| | | | |]; cbn in H'.
    all: try (rewrite H in H'; injection H' as <-; by split; [|left]).
    all: rewrite lookup_insert in H'; case_decide; subst;
      [rewrite H in Hc; injection Hc as <-; injection H' as <-
      |rewrite H in H'; injection H' as <-; by split; [|left]].
    + by split; [|left].
    + by split; [|left].
    + split; [done|]. right. by exists f, p, rest.
  - destruct S as [n t Hc|n c e Hc|n c e Hc|n c e Hc|n c t Hc|n c Hc|n c e Hc|n c Hc|n c msg rest Hc
      |n c msg result Hc|n c e Hc|n c Hc|n c e answer Hc|n c e Hc]; cbn in H';
      rewrite lookup_insert in H'; case_decide; subst;
      try (rewrite H in H'; injection H' as <-; by split; [|left]); rewrite H in Hc; try done;
      injection Hc as <-; injection H' as <-; by split; [|left].
Qed.

(** C16: Subscriptions do not interfere: in every reachable state of the node at
    most one of the calls that consume payloads has a type, it is a final
    payload type, and its handler is the one the messenger has for that type;
    the event loop is in the handler of a call only with a payload of its type,
    and a call's channel gains a message only from its own handler. *)
Theorem subscriptions_isolated c w n :
  node_reachable nodeKey c w n ->
  (forall id1 id2 c1 c2, nd_clients n !! id1 = Some c1 -> nd_clients n !! id2 = Some c2 ->
    must_hold (cl_state c1) = true -> must_hold (cl_state c2) = true ->
    cl_type c1 = cl_type c2 -> id1 = id2)
  /\ (forall id cl, nd_clients n !! id = Some cl -> must_hold (cl_state cl) = true ->
      64 <= cl_type cl /\ nd_handlers n !! cl_type cl = Some id)
  /\ (forall id f p rest, nd_loop n = LHandler id f p rest ->
      exists cl, nd_clients n !! id = Some cl /\ cl_type cl = TLVType f)
  /\ (forall l n' id cl cl', node_step nodeKey n l n' -> nd_clients n !! id = Some cl ->
      nd_clients n' !! id = Some cl' ->
      cl_accepted cl' = cl_accepted cl
      \/ exists f p rest, nd_loop n = LHandler id f p rest /\ TLVType f = cl_type cl
           /\ cl_accepted cl' = cl_accepted cl ++ [handed (omp_ReplyPath p) (fhp_Value f)]).
Proof.
  intros O%node_reachable_ok.
  assert (forall id f p rest, nd_loop n = LHandler id f p rest ->
    exists cl, nd_clients n !! id = Some cl /\ cl_type cl = TLVType f) as K.
  { intros id f p rest H%(no_handler _ O). destruct (no_handlers _ O _ _ H) as (d & ? & ? & _).
    by exists d. }
  split; [|split; [|split; [exact K|]]].
  - intros id1 id2 c1 c2 H1 H2 M1 M2 E.
    pose proof (co_held _ _ _ (no_clients _ O _ _ H1) M1) as E1.
    pose proof (co_held _ _ _ (no_clients _ O _ _ H2) M2) as E2. congruence.
  - intros id cl H M. destruct (no_clients _ O _ _ H) as [Hh Ht _ _]. split; [|by apply Hh].
    apply Ht. by destruct (cl_state cl).
  - intros l n' id cl cl' S H H'. destruct (accepted_step _ _ _ _ _ _ S H H') as [_ [?|R]]; [by left|].
    right. destruct R as (f & p & rest & Hl & Ha). exists f, p, rest. split; [done|].
    destruct (K _ _ _ _ Hl) as (d & Hd & <-). split; [congruence | done].
Qed.
End NodeFacts.

(** ** Witnesses *)

(** A node that serves, in the world of LndRef.v. *)
Definition w_own_key : SingleKeyECDH ref_World :=
  {| ecdh_PubKey := (true, x09) : @PublicKey ref_Crypto; ecdh_ECDH := ECDH |}.
Definition w_creating (c : closure) : nodeState (W := ref_World) :=
  set_starting (new_node c w_world) CreatingKey LNotStarted w_world.
Definition w_made (c : closure) : nodeState (W := ref_World) :=
  set_starting (w_creating c) MessengerMade LNotStarted w_world.
Definition w_subscribing (c : closure) : nodeState (W := ref_World) :=
  set_starting (w_made c) Serving LSubscribing w_world.
Definition w_serving (c : closure) : nodeState (W := ref_World) :=
  set_loop_at (w_subscribing c) LSelect w_world.

Abbreviation w_reaches c := (node_reachable w_own_key c w_world).

Lemma w_serving_reachable c : w_reaches c (w_serving c).
Proof.
  eapply node_next; [eapply node_next; [eapply node_next; [eapply node_next; [apply node_init|]|]|]|].
  - apply step_server. by apply (srv_start _ (new_node c w_world)).
  - apply step_server. by apply (srv_key _ (w_creating c)).
  - apply step_server. by apply (srv_serve _ (w_made c)).
  - apply step_loop. by apply (loop_subscribed _ (w_subscribing c)).
Qed.

(** Call 0 consumes payloads of type 64. *)
Definition w_c0 (s : callState) : client := set_state (new_client 64) s.
Definition w_n1 : nodeState (W := ref_World) := set_client (w_serving Signals) 0 (new_client 64).
Definition w_n2 : nodeState (W := ref_World) := set_client w_n1 0 (w_c0 RegWaiting).
Definition w_n3 : nodeState (W := ref_World) :=
  set_handlers (set_client w_n2 0 (w_c0 (RegAnswered None))) {[ 64 := 0%nat ]}.
Definition w_consumes : nodeState (W := ref_World) := set_client w_n3 0 (w_c0 AtReceive).

Lemma w_consumes_reachable : w_reaches Signals w_consumes.
Proof.
  eapply node_next; [eapply node_next; [eapply node_next; [eapply node_next;
    [apply w_serving_reachable|]|]|]|].
  - apply (step_of_call _ 0). by apply (call_new 0 (w_serving Signals) 64).
  - apply (step_of_call _ 0). by apply (call_register 0 w_n1 (new_client 64) 64).
  - apply step_loop. by apply (loop_register _ w_n2 0 (w_c0 RegWaiting) {[ 64 := 0%nat ]} None).
  - apply (step_of_call _ 0). by apply (call_registered 0 w_n3 (w_c0 (RegAnswered None))).
Qed.

(** A message with one payload of that type. *)
Definition w_final : FinalHopPayload := MkFinalHopPayload 64 (lit "req").
Definition w_once : OnionMessagePayload := w_exit [w_final].
Definition w_onion_msg : CustomMessage :=
  w_message (layer (from_Ret [] (EncodeOnionMessagePayload w_once))).

Lemma w_receive : receive_onion w_own_key w_onion_msg w_world = (w_world, Ret (Some w_once)).
Proof. reflexivity. Qed.

(** The event loop with the message in the handler of call 0. *)
Definition w_in_handler (n : nodeState (W := ref_World)) : nodeState (W := ref_World) :=
  set_loop_at n (LHandler 0 w_final w_once []) w_world.

Lemma w_handler_reachable c n : w_reaches c n -> nd_loop n = LSelect -> nd_world n = w_world ->
  nd_handlers n !! 64 = Some 0%nat -> w_reaches c (w_in_handler n).
Proof.
  intros R Hl Hw Hh. assert (w_reaches c (set_loop_at n (LDelivering w_once [w_final]) w_world)) as R1.
  { eapply node_next; [exact R|]. apply step_loop.
    apply (loop_message _ n w_onion_msg w_world (Ret (Some w_once))); [done..| |by apply settles_Ret].
    rewrite Hw. apply w_receive. }
  eapply node_next; [exact R1|]. apply step_loop.
  exact (loop_deliver _ (set_loop_at n (LDelivering w_once [w_final]) w_world) w_once w_final [] 0 eq_refl Hh).
Qed.

(** What call 0 is after it took the payload, with the loop at its select. *)
Definition w_msg_req : onionPayloadResponse := handed None (lit "req").
Definition w_given_to (n : nodeState (W := ref_World)) (c : client) : nodeState (W := ref_World) :=
  set_loop_at (set_client n 0 (offer_to c w_msg_req)) LSelect w_world.

Lemma w_given_reachable cl n c : w_reaches cl n -> nd_loop n = LSelect -> nd_world n = w_world ->
  nd_handlers n !! 64 = Some 0%nat -> nd_clients n !! 0%nat = Some c ->
  (length (cl_incoming c) < 1)%nat -> w_reaches cl (w_given_to n c).
Proof.
  intros R Hl Hw Hh Hc Hlt.
  set (n1 := set_client (set_loop_at n (LDelivering w_once []) w_world) 0 (offer_to c w_msg_req)).
  assert (w_reaches cl n1) as R1.
  { eapply node_next; [by eapply w_handler_reachable|]. apply step_loop.
    exact (loop_push _ (w_in_handler n) 0 w_final w_once [] c eq_refl Hc Hlt). }
  eapply node_next; [exact R1|]. apply step_loop. exact (loop_delivered _ n1 w_once eq_refl).
Qed.

(** Call 0 took a payload, which is being sent; another is in its channel, a
    third in its handler; call 1 waits to be registered for type 66. *)
Definition w_p1 : nodeState (W := ref_World) := w_given_to w_consumes (w_c0 AtReceive).
Definition w_cl1 : client := take_msg (offer_to (w_c0 AtReceive) w_msg_req) w_msg_req [].
Definition w_p2 : nodeState (W := ref_World) := set_client w_p1 0 w_cl1.
Definition w_p3 : nodeState (W := ref_World) := w_given_to w_p2 w_cl1.
Definition w_p4 : nodeState (W := ref_World) :=
  set_client (set_client w_p3 1 (new_client 66)) 1 (set_state (new_client 66) RegWaiting).
Definition w_stalled : nodeState (W := ref_World) := w_in_handler w_p4.

Lemma w_p3_reachable : w_reaches Signals w_p3.
Proof.
  apply w_given_reachable; try done. eapply node_next.
  - apply (w_given_reachable Signals w_consumes (w_c0 AtReceive)); try done; [|cbn; lia].
    apply w_consumes_reachable.
  - apply (step_of_call _ 0). by apply (call_receive 0 w_p1 (offer_to (w_c0 AtReceive) w_msg_req)).
  - cbn. lia.
Qed.

Lemma w_stalled_reachable : w_reaches Signals w_stalled.
Proof.
  apply w_handler_reachable; try done.
  eapply node_next; [eapply node_next; [apply w_p3_reachable|]|].
  - apply (step_of_call _ 1). by apply (call_new 1 w_p3 66).
  - apply (step_of_call _ 1).
    by apply (call_register 1 (set_client w_p3 1 (new_client 66)) (new_client 66) 66).
Qed.

Lemma subscriptions_isolated_witness :
  (64 <= 64 /\ nd_handlers w_consumes !! 64 = Some 0%nat)
  /\ exists cl, nd_clients w_stalled !! 0%nat = Some cl /\ cl_type cl = TLVType w_final.
Proof.
  destruct (subscriptions_isolated w_own_key Signals w_world w_consumes w_consumes_reachable)
    as (_ & H & _). split; [by apply (H 0%nat (w_c0 AtReceive))|].
  destruct (subscriptions_isolated w_own_key Signals w_world w_stalled w_stalled_reachable)
    as (_ & _ & H' & _). by apply (H' 0%nat w_final w_once []).
Defined.
