(* ===== verification/NodeRefinement.v ===== *)
(** What the running node of NodeSystem.v has to do with the models of its
    parts: each of its calls of SubscribeOnionPayload is a subscription of
    Subscription.v, its messenger is a registry of Registry.v although its
    handlers block, and its delivery of a message, payload by payload, is
    deliverPayloads of Messenger.v with the closures of the subscriptions. *)
From S2P Require Import Prelude Deps DepsRef Io LndDeps LndRef Stream.
From S2P Require Import Merkle Shared RouteBlinding OnionMessages OnionPayload Routes Messenger.
From S2P Require Import MessengerSystem Registry Rpc Subscription NodeSystem.

(** ** A subscription of the node *)

Section Projection.
Context {W : Type} `{CR : Crypto, TL : !Tlv, LW : !Lndwire, SP : !Sphinx, SR : !SphinxRouter W,
  VX : !Vertices, LC : Lndclient, OL : !OnionLnd W, OS : !LndOnionSigner W, MO : MapOrder}.
Context (nodeKey : SingleKeyECDH W).

(** The event loop as a subscription sees it: it is at its select unless it is
    in the handler of that subscription, or ended. *)
Definition loop_events (l : nodeLoop) (id : nat) : eventLoop :=
  match l with
  | LHandler id' f p _ =>
      if bool_decide (id' = id) then InHandler (handed (omp_ReplyPath p) (fhp_Value f)) else AtSelect
  | LReporting _ | LInStop _ | LDone _ => Ended
  | _ => AtSelect
  end.

(** A refused registration counts as returned when the loop refused it. *)
Definition caller_of (s : callState) : subscriber :=
  match s with
  | Entering | Refused _ | RegWaiting | RegAnswered None => Registering
  | RegAnswered (Some _) => Exited not_registered
  | AtReceive => Consuming
  | InSend msg => Sending msg
  | DeregWaiting e => Deregistering e
  | DeregAnswered e _ | CallReturned e => Exited e
  end.

Definition project (n : nodeState (W := W)) (id : nat) (c : client) : subscription := {|
  registered := bool_decide (nd_handlers n !! cl_type c = Some id);
  capacity := 1; incoming := cl_incoming c; ctx_done := cl_ctx c; sub_quit := nd_srv_quit n;
  msgr_quit := nd_quit n; caller := caller_of (cl_state c); events := loop_events (nd_loop n) id;
  sent := cl_sent c; accepted := cl_accepted c |}.

(** A step of the node is one of the subscription, or none. *)
Definition sub_step (s s' : subscription) : Prop := s' = s \/ external s s' \/ internal s s'.

Lemma reachable_step s s' : reachable s -> sub_step s s' -> reachable s'.
Proof.
  intros R [->|[E|I]]; [done | by eapply reach_external | by eapply reach_internal].
Qed.

Lemma server_step_project n l n' id c : node_ok n -> server_step nodeKey n l n' ->
  nd_clients n !! id = Some c -> sub_step (project n id c) (project n' id c).
Proof.
  intros O S Hc. destruct S as [n Hs|n w Hs|n w e Hs|n Hs|n Hs|n Hs|n Hs Hm|n Hs Hm|n Hs Hw|n Hs].
  all: try by left.
  - left. assert (nd_loop n = LNotStarted) as E.
    { destruct (nd_loop n) eqn:E; [done|..]; rewrite (proj1 (no_serving _ O)) in Hs; congruence. }
    unfold project. cbn. by rewrite E.
  - right. left. apply (ext_shutdown (project n id c)).
  - right. left. pose proof (proj2 (no_srv_quit _ O)) as K.
    exact (ext_messenger_stop (project n id c) (K ltac:(congruence))).
  - left. unfold project. cbn. f_equal. symmetry. apply (no_srv_quit _ O). congruence.
  - left. unfold project. cbn. f_equal. symmetry. apply (no_srv_quit _ O). congruence.
  - left. unfold project. cbn. f_equal. symmetry. apply (no_srv_quit _ O). congruence.
Qed.

(** The loop leaves. *)
Lemma leave_project n e w id c : loop_events (nd_loop n) id = AtSelect ->
  sub_step (project n id c) (project (leave n e w) id c).
Proof.
  intros Hl. right. left.
  assert (project (leave n e w) id c = set_events (project n id c) Ended) as ->.
  { unfold leave. by destruct (bool_decide (e = ErrShuttingDown)). }
  by apply ext_loop_ends.
Qed.

(** The loop moves between places where it is not in the handler of [id]. *)
Lemma quiet_project n l w id c : loop_events l id = loop_events (nd_loop n) id ->
  sub_step (project n id c) (project (set_loop_at n l w) id c).
Proof. intros E. left. unfold project. cbn. by rewrite E. Qed.

(** The loop leaves the handler of a subscription. *)
Lemma handler_project n id' f p rest l w id c :
  nd_loop n = LHandler id' f p rest -> loop_events l id = AtSelect ->
  (id' = id -> cl_ctx c <> None \/ nd_srv_quit n = true) ->
  sub_step (project n id c) (project (set_loop_at n l w) id c).
Proof.
  intros Hl He H. destruct (decide (id' = id)) as [->|Hne].
  - right. right. set (msg := handed (omp_ReplyPath p) (fhp_Value f)).
    assert (events (project n id c) = InHandler msg) as Hev
      by (cbn; rewrite Hl; cbn; by rewrite bool_decide_true).
    assert (project (set_loop_at n l w) id c = set_events (project n id c) AtSelect) as ->
      by (unfold project; cbn; by rewrite He).
    destruct (H eq_refl) as [Hd|Hq]; [|by eapply sub_handler_quit].
    destruct (cl_ctx c) as [e|] eqn:Ed; [|done]. eapply (sub_handler_cancel _ msg e); [done|exact Ed].
  - apply quiet_project. rewrite He, Hl. cbn. by rewrite bool_decide_false.
Qed.

(** A registration of another call is not seen. *)
Lemma other_handlers (hs hs' : gmap Z nat) t id :
  (forall t', hs' !! t' = hs !! t' \/ (hs !! t' <> Some id /\ hs' !! t' <> Some id)) ->
  bool_decide (hs' !! t = Some id) = bool_decide (hs !! t = Some id).
Proof.
  intros H. apply bool_decide_ext. destruct (H t) as [->|[? ?]]; [done | by split].
Qed.

Lemma register_project n id0 c0 hs answer id c : node_ok n -> nd_loop n = LSelect ->
  nd_clients n !! id0 = Some c0 -> cl_state c0 = RegWaiting ->
  register (nd_handlers n) (cl_type c0) id0 = (hs, answer) -> nd_clients n !! id = Some c ->
  let n' := set_handlers (set_client n id0 (set_state c0 (RegAnswered answer))) hs in
  sub_step (project n id c)
    (project n' id (if bool_decide (id0 = id) then set_state c0 (RegAnswered answer) else c)).
Proof.
  intros O Hl Hc0 Hs0 E Hc. cbn zeta.
  assert (nd_handlers n !! cl_type c0 <> Some id0) as Hnot.
  { intros H. destruct (no_handlers _ O _ _ H) as (d & Hd & _ & M). rewrite Hc0 in Hd.
    injection Hd as <-. by rewrite Hs0 in M. }
  destruct (register_cases (nd_handlers n) (cl_type c0) id0) as [[E' Hn]|(e & E' & Hsome)];
    rewrite E' in E; injection E as <- <-; case_bool_decide as Ei.
  - subst. rewrite Hc0 in Hc. injection Hc as <-. right. right.
    assert (registered (project n id c0) = false) as Hr by (cbn; by rewrite bool_decide_false).
    assert (forall m, project (set_handlers (set_client n id (set_state c0 (RegAnswered None))) m) id
        (set_state c0 (RegAnswered None)) = set_caller (project n id c0)
          (bool_decide (m !! cl_type c0 = Some id)) Registering) as -> by done.
    rewrite bool_decide_true by apply lookup_insert_eq.
    apply sub_register; [|done|]; cbn; [by rewrite Hs0 | by rewrite Hl].
  - left. unfold project. cbn. f_equal. apply other_handlers. intros t'.
    destruct (decide (t' = cl_type c0)) as [->|Hne]; [right | left; by rewrite lookup_insert_ne].
    rewrite lookup_insert_eq, Hn. split; congruence.
  - subst. rewrite Hc0 in Hc. injection Hc as <-. right. right.
    assert (registered (project n id c0) = false) as Hr by (cbn; by rewrite bool_decide_false).
    assert (project (set_handlers (set_client n id (set_state c0 (RegAnswered (Some e)))) (nd_handlers n))
        id (set_state c0 (RegAnswered (Some e))) = set_caller (project n id c0) false (Exited not_registered))
      as -> by (unfold project; cbn in *; by rewrite Hr).
    apply sub_refused; [|done|]; cbn; [by rewrite Hs0 | by rewrite Hl].
  - by left.
Qed.

Lemma deregister_project n id0 c0 e hs answer id c : node_ok n -> nd_loop n = LSelect ->
  nd_clients n !! id0 = Some c0 -> cl_state c0 = DeregWaiting e ->
  deregister (nd_handlers n) (cl_type c0) = (hs, answer) -> nd_clients n !! id = Some c ->
  let n' := set_handlers (set_client n id0 (set_state c0 (DeregAnswered e answer))) hs in
  sub_step (project n id c)
    (project n' id (if bool_decide (id0 = id) then set_state c0 (DeregAnswered e answer) else c)).
Proof.
  intros O Hl Hc0 Hs0 E Hc. cbn zeta.
  pose proof (co_held _ _ _ (no_clients _ O _ _ Hc0)) as Hheld. rewrite Hs0 in Hheld.
  specialize (Hheld eq_refl).
  destruct (deregister_cases (nd_handlers n) (cl_type c0)) as [[E' _]|(? & _ & Hn)];
    [|by rewrite Hheld in Hn].
  rewrite E' in E. injection E as <- <-. case_bool_decide as Ei.
  - subst. rewrite Hc0 in Hc. injection Hc as <-. right. right.
    assert (project (set_handlers (set_client n id (set_state c0 (DeregAnswered e None)))
        (delete (cl_type c0) (nd_handlers n))) id (set_state c0 (DeregAnswered e None))
        = set_caller (project n id c0) false (Exited e)) as ->
      by (unfold project; cbn; by rewrite bool_decide_false by (by rewrite lookup_delete_eq)).
    apply sub_deregister; cbn; [by rewrite Hs0 | by rewrite Hl].
  - left. unfold project. cbn. f_equal. apply other_handlers. intros t'.
    destruct (decide (t' = cl_type c0)) as [->|Hne]; [right | left; by rewrite lookup_delete_ne].
    rewrite lookup_delete_eq, Hheld. split; congruence.
Qed.

(** The loop calls a handler: that of the subscription, or another. *)
Lemma deliver_project n id c id0 f p rest : node_ok n -> nd_loop n = LDelivering p (f :: rest) ->
  nd_handlers n !! TLVType f = Some id0 -> nd_clients n !! id = Some c ->
  sub_step (project n id c) (project (set_loop_at n (LHandler id0 f p rest) (nd_world n)) id c).
Proof.
  intros O Hl Hh Hc. destruct (decide (id0 = id)) as [->|Hne].
  - right. right. set (msg := handed (omp_ReplyPath p) (fhp_Value f)).
    assert (project (set_loop_at n (LHandler id f p rest) (nd_world n)) id c
            = set_events (project n id c) (InHandler msg)) as ->
      by (unfold project; cbn; by rewrite (bool_decide_true (id = id))).
    apply sub_deliver; cbn; [by rewrite Hl|].
    destruct (no_handlers _ O _ _ Hh) as (d & Hd & Ht & _). rewrite Hc in Hd. injection Hd as <-.
    rewrite Ht. by apply bool_decide_true.
  - apply quiet_project. rewrite Hl. cbn. by rewrite bool_decide_false.
Qed.

Lemma loop_step_project n l n' id c c' : node_ok n -> loop_step nodeKey n l n' ->
  nd_clients n !! id = Some c -> nd_clients n' !! id = Some c' ->
  sub_step (project n id c) (project n' id c').
Proof.
  intros O S Hc Hc'.
  destruct S as [n w Hl|n w e Hl|n id0 c0 hs answer Hl Hc0 Hs E|n id0 c0 e hs answer Hl Hc0 Hs E
    |n msg|n msg w r Hl|n ev w it err Hl|n Hl|n p f rest Hl|n p f rest id0 Hl Hh|n p Hl
    |n id0 f p rest c0 Hl Hc0 Hb|n id0 f p rest c0 e Hl Hc0 Hd|n id0 f p rest Hl Hq|n e Hl
    |n e Hl Hcl Hs|n e Hl Hs];
    try (cbn in Hc'; rewrite Hc in Hc'; injection Hc' as <-).
  all: try by (apply quiet_project; rewrite Hl).
  all: try by (apply leave_project; rewrite Hl).
  - pose proof (register_project _ _ _ _ _ _ _ O Hl Hc0 Hs E Hc) as K. cbn zeta in K.
    cbn in Hc'. rewrite lookup_insert in Hc'. case_decide as Ei.
    + rewrite bool_decide_true in K by done. by injection Hc' as <-.
    + rewrite bool_decide_false, Hc in * by done. by injection Hc' as <-.
  - pose proof (deregister_project _ _ _ _ _ _ _ _ O Hl Hc0 Hs E Hc) as K. cbn zeta in K.
    cbn in Hc'. rewrite lookup_insert in Hc'. case_decide as Ei.
    + rewrite bool_decide_true in K by done. by injection Hc' as <-.
    + rewrite bool_decide_false, Hc in * by done. by injection Hc' as <-.
  - by left.
  - apply quiet_project. rewrite Hl. by destruct r as [[]| | |].
  - by apply deliver_project.
  - cbn in Hc'. rewrite lookup_insert in Hc'. case_decide as Ei.
    + subst. rewrite Hc in Hc0. injection Hc0 as <-. injection Hc' as <-. right. right.
      set (msg := handed (omp_ReplyPath p) (fhp_Value f)).
      apply (sub_push (project n id c) msg); [|done]. cbn. rewrite Hl. cbn. by rewrite bool_decide_true.
    + rewrite Hc in Hc'. injection Hc' as <-.
      apply (quiet_project n (LDelivering p rest) (nd_world n)). rewrite Hl. cbn.
      by rewrite bool_decide_false.
  - eapply handler_project; [exact Hl | done|]. intros ->. rewrite Hc in Hc0. injection Hc0 as <-.
    left. by rewrite Hd.
  - eapply handler_project; [exact Hl | done|]. auto.
  - right. left. assert (project (set_stopping (set_loop_at n (LInStop e) (nd_world n)) Stopping (nd_quit n)) id c
      = set_signals (project n id c) (ctx_done (project n id c)) true (msgr_quit (project n id c))) as ->
      by (unfold project; cbn; by rewrite Hl).
    apply ext_shutdown.
Qed.

Lemma call_step_project id0 n l n' id c c' : node_ok n -> call_step id0 n l n' ->
  nd_clients n !! id = Some c -> nd_clients n' !! id = Some c' -> admitted (cl_state c) = true ->
  sub_step (project n id c) (project n' id c').
Proof.
  intros O S Hc Hc' Ha. destruct (decide (id0 = id)) as [->|Hne]; cycle 1.
  { left. destruct S; cbn in Hc'; rewrite lookup_insert_ne in Hc' by done; rewrite Hc in Hc';
      by injection Hc' as <-. }
  destruct S as [n t Hn|n d e Hn Hd|n d e Hn Hs Hd|n d e Hn Hs Hst E|n d t Hn Hs Hst E
    |n d Hn Hs|n d e Hn Hs|n d Hn Hs Hq|n d msg rest Hn Hs Hi|n d msg result Hn Hs|n d e Hn Hs Hd
    |n d Hn Hs Hq|n d e answer Hn Hs|n d e Hn Hs Hq];
    cbn in Hc'; rewrite lookup_insert_eq in Hc'; injection Hc' as <-; rewrite Hc in Hn; try done;
    injection Hn as <-; try (by rewrite Hs in Ha).
  - right. left. apply (ext_cancel (project n id c)). exact Hd.
  - right. right. pose proof (co_held _ _ _ (no_clients _ O _ _ Hc)) as Hh. rewrite Hs in Hh.
    assert (registered (project n id c) = true) as Hr by (cbn; by apply bool_decide_true, Hh).
    assert (project (set_client n id (set_state c AtReceive)) id (set_state c AtReceive)
            = set_caller (project n id c) true Consuming) as ->
      by (unfold project; cbn in *; by rewrite Hr).
    apply sub_registered; [|done]. cbn. by rewrite Hs.
  - left. unfold project. cbn. by rewrite Hs.
  - assert (caller_of (cl_state c) = Registering \/ caller_of (cl_state c) = Exited not_registered) as [K|K].
    { destruct Hs as [->|[[e|] ->]]; auto. }
    + right. right. by apply (sub_abandoned (project n id c)).
    + left. unfold project. cbn. by rewrite K.
  - right. right. apply (sub_receive (project n id c)); [|exact Hi]. cbn. by rewrite Hs.
  - right. right. assert (project (set_client n id (sent_msg c msg result)) id (sent_msg c msg result)
      = send (project n id c) msg result) as -> by (by destruct result).
    apply sub_send. cbn. by rewrite Hs.
  - right. right. apply (sub_cancel (project n id c) e); [cbn; by rewrite Hs | exact Hd].
  - right. right. apply (sub_shutdown (project n id c)); [cbn; by rewrite Hs | exact Hq].
  - left. unfold project. cbn. by rewrite Hs.
  - destruct Hs as [Hs|[answer Hs]].
    + right. right. apply (sub_dereg_abandoned (project n id c)); [cbn; by rewrite Hs | exact Hq].
    + left. unfold project. cbn. by rewrite Hs.
Qed.

(** A subscription starts with the signals that were given before it did. *)
Lemma signals_reachable ctx sq mq ev : (mq = true -> sq = true) -> ev = AtSelect \/ ev = Ended ->
  reachable (set_events (set_signals subscribed ctx sq mq) ev).
Proof.
  intros Hq Hev. set (s0 := set_signals subscribed ctx false false).
  assert (reachable s0) as R0.
  { destruct ctx as [e|]; [|apply reach_init].
    eapply reach_external; [apply reach_init|]. by apply (ext_cancel subscribed). }
  assert (reachable (set_signals subscribed ctx sq false)) as R1.
  { destruct sq; [|done]. eapply reach_external; [exact R0|]. apply (ext_shutdown s0). }
  assert (reachable (set_signals subscribed ctx sq mq)) as R2.
  { destruct mq; [|done]. rewrite (Hq eq_refl) in *. eapply reach_external; [exact R1|].
    by apply (ext_messenger_stop (set_signals subscribed ctx true false)). }
  destruct Hev as [->| ->]; [exact R2|]. eapply reach_external; [exact R2|]. by apply ext_loop_ends.
Qed.

Lemma fresh_project n id c : node_ok n -> nd_clients n !! id = Some c -> admitted (cl_state c) = false ->
  reachable (project n id c).
Proof.
  intros O Hc Ha. destruct (no_clients _ O _ _ Hc) as [_ _ _ Hf]. destruct (Hf Ha) as (Hi & Hs & Hacc).
  assert (nd_handlers n !! cl_type c <> Some id) as Hnot.
  { intros H. destruct (no_handlers _ O _ _ H) as (d & Hd & _ & M). rewrite Hc in Hd.
    injection Hd as <-. by destruct (cl_state c). }
  assert (loop_events (nd_loop n) id = AtSelect \/ loop_events (nd_loop n) id = Ended) as Hev.
  { destruct (nd_loop n) as [| | | |id' f p rest| | |] eqn:El; cbn; auto. case_bool_decide as E; [|auto].
    subst. pose proof (no_handler _ O _ _ _ _ El) as H. destruct (no_handlers _ O _ _ H) as (d & Hd & Ht & _).
    rewrite Hc in Hd. injection Hd as <-. by rewrite Ht in Hnot. }
  assert (project n id c = set_events (set_signals subscribed (cl_ctx c) (nd_srv_quit n) (nd_quit n))
    (loop_events (nd_loop n) id)) as ->.
  { unfold project. rewrite bool_decide_false by exact Hnot. rewrite Hi, Hs, Hacc.
    by destruct (cl_state c). }
  apply signals_reachable; [|done]. intros (Q & _)%(no_quit _ O). by apply (no_srv_quit _ O).
Qed.

(** A call before it registers is one that is about to: its state does not
    show. *)
Lemma register_fresh id0 n l n' id c c' : node_ok n -> call_step id0 n l n' ->
  nd_clients n !! id = Some c -> nd_clients n' !! id = Some c' -> admitted (cl_state c) = false ->
  admitted (cl_state c') = true -> project n' id c' = project n id c.
Proof.
  intros O S Hc Hc' Ha Ha'. destruct (decide (id0 = id)) as [->|Hne]; cycle 1.
  { destruct S; cbn in Hc'; rewrite lookup_insert_ne in Hc' by done; rewrite Hc in Hc';
      by injection Hc' as <-. }
  destruct S as [n t Hn|n d e Hn Hd|n d e Hn Hs Hd|n d e Hn Hs Hst E|n d t Hn Hs Hst E
    |n d Hn Hs|n d e Hn Hs|n d Hn Hs Hq|n d msg rest Hn Hs Hi|n d msg result Hn Hs|n d e Hn Hs Hd
    |n d Hn Hs Hq|n d e answer Hn Hs|n d e Hn Hs Hq];
    cbn in Hc'; rewrite lookup_insert_eq in Hc'; injection Hc' as <-; rewrite Hc in Hn; try done;
    injection Hn as <-; try (by rewrite Hs in Ha).
  - cbn in Ha'. congruence.
  - unfold project. cbn. by rewrite Hs.
  - destruct Hs as [Hs|[? Hs]]; by rewrite Hs in Ha.
  - destruct Hs as [Hs|[? Hs]]; by rewrite Hs in Ha.
Qed.

Lemma project_reachable c w n : node_reachable nodeKey c w n ->
  forall id cl, nd_clients n !! id = Some cl -> reachable (project n id cl).
Proof.
  induction 1 as [|n l n' R IH S]; intros id cl Hcl; [discriminate Hcl|].
  pose proof (node_reachable_ok _ _ _ _ R) as O.
  pose proof (node_step_ok _ _ _ _ O S) as O'.
  destruct (admitted (cl_state cl)) eqn:Ha; [|by apply fresh_project].
  destruct (nd_clients n !! id) as [d|] eqn:Hd.
  - specialize (IH _ _ Hd). destruct S as [n l n' S|n l n' S|id0 n l n' S].
    + assert (nd_clients n' = nd_clients n) as E by (by destruct S). rewrite E, Hd in Hcl.
      injection Hcl as <-. eapply reachable_step; [exact IH | by eapply server_step_project].
    + eapply reachable_step; [exact IH | by eapply loop_step_project].
    + destruct (admitted (cl_state d)) eqn:Had.
      * eapply reachable_step; [exact IH | by eapply call_step_project].
      * by erewrite register_fresh.
  - exfalso. destruct S as [n l n' S|n l n' S|id0 n l n' S].
    + assert (nd_clients n' = nd_clients n) as E by (by destruct S). congruence.
    + destruct S; cbn in Hcl; try congruence; rewrite lookup_insert in Hcl; case_decide; congruence.
    + destruct S; cbn in Hcl; rewrite lookup_insert in Hcl; case_decide; subst; try congruence.
      by injection Hcl as <-.
Qed.

(** C15: Every call of SubscribeOnionPayload in the running node, whatever the
    other calls, the event loop, Start and Stop do, is a subscription of
    Subscription.v: its view of the node is a reachable state of the two
    goroutines.  What that promises holds of it: its client is sent the
    payloads its handler took, in order and without a gap. *)
Theorem subscription_refinement c w n id cl :
  node_reachable nodeKey c w n -> nd_clients n !! id = Some cl ->
  reachable (project n id cl)
  /\ (exists rest, map response (cl_accepted cl) = cl_sent cl ++ rest /\ (length rest <= 2)%nat)
  /\ (cl_state cl = AtReceive ->
      map response (cl_accepted cl) = cl_sent cl ++ map response (cl_incoming cl)).
Proof.
  intros R Hcl. pose proof (project_reachable _ _ _ R _ _ Hcl) as P. split; [done|].
  destruct (reachable_ok _ P) as [_ Hb (lost & got & Hl & Hn & Ha & Hs) _].
  cbn in Hb, Hn, Ha, Hs. rewrite Ha, Hs. split.
  - exists (map response (lost ++ cl_incoming cl)). rewrite map_app. split; [done|].
    rewrite length_map, length_app. lia.
  - intros E. rewrite E in Hn. rewrite (Hn I). by rewrite map_app.
Qed.
End Projection.

(** ** The closures *)

Section Closures.
Context {W : Type} `{CR : Crypto, TL : !Tlv, LW : !Lndwire, SP : !Sphinx, SR : !SphinxRouter W,
  VX : !Vertices, LC : Lndclient, OL : !OnionLnd W, OS : !LndOnionSigner W, MO : MapOrder}.
Context (nodeKey : SingleKeyECDH W).

(** The handler that handleSubscribeOnionPayload registers, as a function on
    the state of the node: its select, which takes the first channel that is
    ready, and blocks when none is. *)
Definition subscription_handler (id : nat) : OnionMessageHandler (nodeState (W := W)) :=
  fun replyPath _ value n =>
    match nd_clients n !! id with
    | None => (n, Diverge)
    | Some c =>
        if bool_decide (length (cl_incoming c) < 1)%nat
        then (set_client n id (offer_to c (handed replyPath value)), Ret tt)
        else match cl_ctx c with
             | Some e => (n, Err e)
             | None => if nd_srv_quit n then (n, Err ErrServerShuttingDown) else (n, Diverge)
             end
    end.

(** The handlers of the node as those of Messenger.v. *)
Definition closures (hs : gmap Z nat) : handlerMap (nodeState (W := W)) :=
  (fun id => Some (subscription_handler id)) <$> hs.

Definition register_request (id : nat) (t : Z) : registerHandler (W := nodeState (W := W)) :=
  newRegisterHandler t (Some (subscription_handler id)) false.
Definition deregister_request (t : Z) : registerHandler (W := nodeState (W := W)) :=
  newRegisterHandler t None true.

Lemma closures_lookup hs t : closures hs !! t = (fun id => Some (subscription_handler id)) <$> hs !! t.
Proof. apply lookup_fmap. Qed.

Lemma lift_register hs t id :
  Messenger_registerHandler (closures hs) (register_request id t)
  = (closures (register hs t id).1, (register hs t id).2).
Proof.
  unfold Messenger_registerHandler, register. cbn [rh_tlvType rh_deregister rh_handler register_request].
  rewrite closures_lookup. destruct (hs !! t) eqn:E; cbn [is_some fmap option_fmap option_map fst snd]; [done|].
  unfold closures. by rewrite fmap_insert.
Qed.

Lemma lift_deregister hs t :
  Messenger_registerHandler (closures hs) (deregister_request t)
  = (closures (deregister hs t).1, (deregister hs t).2).
Proof.
  unfold Messenger_registerHandler, deregister. cbn [rh_tlvType rh_deregister rh_handler deregister_request].
  rewrite closures_lookup. destruct (hs !! t) eqn:E; cbn [is_some negb fmap option_fmap option_map fst snd]; [|done].
  unfold closures. by rewrite fmap_delete.
Qed.

(** ** The registry *)

(** The registration of a call and its deregistration are two operations. *)
Definition reg_id (id : nat) : nat := 2 * id.
Definition dereg_id (id : nat) : nat := 2 * id + 1.

Definition reg_agrees (id : nat) (c : client) (o : option (operation (W := nodeState (W := W)))) : Prop :=
  match cl_state c with
  | Entering | Refused _ => o = None
  | RegWaiting => o = Some (Invoked (register_request id (cl_type c)))
  | RegAnswered answer => o = Some (Performed (register_request id (cl_type c)) answer)
  | CallReturned _ => exists result, o = Some (Done (register_request id (cl_type c)) result)
  | _ => o = Some (Done (register_request id (cl_type c)) (Ret tt))
  end.

Definition dereg_agrees (c : client) (o : option (operation (W := nodeState (W := W)))) : Prop :=
  match cl_state c with
  | DeregWaiting _ => o = Some (Invoked (deregister_request (cl_type c)))
  | DeregAnswered _ answer => o = Some (Performed (deregister_request (cl_type c)) answer)
  | CallReturned _ => o = None
      \/ exists result, o = Some (Done (deregister_request (cl_type c)) result)
  | _ => o = None
  end.

(** The messenger was started. *)
Definition messenger_started (s : startState) : bool :=
  match s with Serving | RouterFailed => true | _ => false end.

Record implements (n : nodeState (W := W)) (r : registry (W := nodeState (W := W))) : Prop := {
  im_opened : opened r = messenger_started (nd_starting n);
  im_shut : shut r = nd_quit n;
  im_entries : entries r = closures (nd_handlers n);
  im_calls : forall id c, nd_clients n !! id = Some c ->
    reg_agrees id c (operations r !! reg_id id) /\ dereg_agrees c (operations r !! dereg_id id);
  im_none : forall id, nd_clients n !! id = None ->
    operations r !! reg_id id = None /\ operations r !! dereg_id id = None;
}.

Definition simulated (n : nodeState (W := W)) (r : registry (W := nodeState (W := W))) : Prop :=
  exists r', rtc spec_step r r' /\ implements n r'.

(** Steps that the registry does not see. *)
Lemma implements_same n n' r : implements n r ->
  messenger_started (nd_starting n') = messenger_started (nd_starting n) -> nd_quit n' = nd_quit n ->
  nd_handlers n' = nd_handlers n -> nd_clients n' = nd_clients n -> simulated n' r.
Proof.
  intros [Ho Hs He Hc Hn] E1 E2 E3 E4. exists r. split; [done|].
  constructor; rewrite ?E1, ?E2, ?E3, ?E4; done.
Qed.

(** A call changes, its operations do not. *)
Lemma implements_client n r id c : implements n r ->
  reg_agrees id c (operations r !! reg_id id) -> dereg_agrees c (operations r !! dereg_id id) ->
  implements (set_client n id c) r.
Proof.
  intros [Ho Hs He Hc Hn] Hr Hd. constructor; try done; cbn.
  - intros id' d. rewrite lookup_insert. case_decide as E; [intros [= <-]; by subst|]. by apply Hc.
  - intros id'. rewrite lookup_insert. case_decide as E; [done|]. by apply Hn.
Qed.

(** An operation of a call moves on, with the handlers. *)
Lemma implements_operation n r id c k o hs : implements n r ->
  k = reg_id id \/ k = dereg_id id ->
  reg_agrees id c (<[k := o]> (operations r) !! reg_id id) ->
  dereg_agrees c (<[k := o]> (operations r) !! dereg_id id) ->
  implements (set_handlers (set_client n id c) hs) (with_operation r (closures hs) k o).
Proof.
  intros [Ho Hs He Hc Hn] Hk Hr Hd.
  assert (forall id', id' <> id -> k <> reg_id id' /\ k <> dereg_id id') as Hne
    by (unfold reg_id, dereg_id in *; lia).
  constructor; try done; cbn.
  - intros id' d. rewrite lookup_insert. case_decide as E; [intros [= <-]; by subst|].
    destruct (Hne id') as [H1 H2]; [done|]. rewrite !lookup_insert_ne by done. by apply Hc.
  - intros id'. rewrite lookup_insert. case_decide as E; [done|].
    destruct (Hne id') as [H1 H2]; [done|]. rewrite !lookup_insert_ne by done. by apply Hn.
Qed.

Lemma implements_operation_same n r id c k o : implements n r ->
  k = reg_id id \/ k = dereg_id id ->
  reg_agrees id c (<[k := o]> (operations r) !! reg_id id) ->
  dereg_agrees c (<[k := o]> (operations r) !! dereg_id id) ->
  implements (set_client n id c) (with_operation r (entries r) k o).
Proof.
  intros I Hk Hr Hd. rewrite (im_entries _ _ I).
  rewrite <- (set_handlers_id (set_client n id c)). by apply implements_operation.
Qed.

(** What the registry knows of a call, when the call is in this state. *)
Lemma im_reg n r id c s : implements n r -> nd_clients n !! id = Some c -> cl_state c = s ->
  reg_agrees id (set_state c s) (operations r !! reg_id id)
  /\ dereg_agrees (set_state c s) (operations r !! dereg_id id).
Proof.
  intros I Hc <-. destruct (im_calls _ _ I _ _ Hc) as [A B]. by split.
Qed.

Ltac ops :=
  unfold reg_agrees, dereg_agrees; cbn;
  rewrite ?lookup_insert_eq, ?lookup_insert_ne by (unfold reg_id, dereg_id; lia); eauto.

Lemma server_simulated n r l n' : implements n r -> server_step nodeKey n l n' -> simulated n' r.
Proof.
  intros I S. pose proof I as [Ho Hs He Hc Hn].
  destruct S as [n Hst|n w Hst|n w e Hst|n Hst|n Hst|n Hst|n Hst Hm|n Hst Hm|n Hst Hw|n Hst];
    try (apply (implements_same n); [done | cbn; by rewrite ?Hst | done..]).
  - eexists. split; [apply rtc_once, spec_open|]. by constructor.
  - eexists. split; [apply rtc_once, spec_open|]. by constructor.
  - eexists. split; [apply rtc_once, spec_shut|]. by constructor.
Qed.

Lemma register_simulated n r id c hs answer : node_ok n -> implements n r -> nd_loop n = LSelect ->
  nd_clients n !! id = Some c -> cl_state c = RegWaiting ->
  register (nd_handlers n) (cl_type c) id = (hs, answer) ->
  simulated (set_handlers (set_client n id (set_state c (RegAnswered answer))) hs) r.
Proof.
  intros O I Hl Hc Hs E. destruct (im_reg _ _ _ _ _ I Hc Hs) as [A B]. cbn in A, B.
  exists (with_operation r (closures hs) (reg_id id) (Performed (register_request id (cl_type c)) answer)).
  split; [|apply implements_operation; [done | by left | ops..]].
  apply rtc_once. apply (spec_perform r (reg_id id) (register_request id (cl_type c))); [done| | |].
  - rewrite (im_opened _ _ I). rewrite (proj1 (no_serving _ O)); [done|]. by rewrite Hl.
  - apply (co_type _ _ _ (no_clients _ O _ _ Hc)). by rewrite Hs.
  - apply performs_function. by rewrite (im_entries _ _ I), lift_register, E.
Qed.

Lemma deregister_simulated n r id c e hs answer : node_ok n -> implements n r -> nd_loop n = LSelect ->
  nd_clients n !! id = Some c -> cl_state c = DeregWaiting e ->
  deregister (nd_handlers n) (cl_type c) = (hs, answer) ->
  simulated (set_handlers (set_client n id (set_state c (DeregAnswered e answer))) hs) r.
Proof.
  intros O I Hl Hc Hs E. destruct (im_reg _ _ _ _ _ I Hc Hs) as [A B]. cbn in A, B.
  exists (with_operation r (closures hs) (dereg_id id) (Performed (deregister_request (cl_type c)) answer)).
  split; [|apply implements_operation; [done | by right | ops..]].
  apply rtc_once. apply (spec_perform r (dereg_id id) (deregister_request (cl_type c))); [done| | |].
  - rewrite (im_opened _ _ I). rewrite (proj1 (no_serving _ O)); [done|]. by rewrite Hl.
  - apply (co_type _ _ _ (no_clients _ O _ _ Hc)). by rewrite Hs.
  - apply performs_function. by rewrite (im_entries _ _ I), lift_deregister, E.
Qed.

Lemma loop_simulated n r l n' : node_ok n -> implements n r -> loop_step nodeKey n l n' -> simulated n' r.
Proof.
  intros O I S. destruct S as [n w Hl|n w e Hl|n id c hs answer Hl Hc Hs E|n id c e hs answer Hl Hc Hs E
    |n msg|n msg w r' Hl|n ev w it err Hl|n Hl|n p f rest Hl|n p f rest id Hl Hh|n p Hl
    |n id f p rest c Hl Hc Hb|n id f p rest c e Hl|n id f p rest Hl|n e Hl|n e Hl Hcl Hs|n e Hl];
    try (apply (implements_same n); done).
  - by apply register_simulated.
  - by apply deregister_simulated.
  - exists r. split; [done|]. destruct (im_calls _ _ I _ _ Hc) as [A B].
    apply (implements_client (set_loop_at n (LDelivering p rest) (nd_world n))); [|exact A | exact B].
    by destruct I.
Qed.

(** A call moves on without an operation. *)
Lemma quiet_simulated n r id c c' : implements n r -> nd_clients n !! id = Some c ->
  reg_agrees id c' (operations r !! reg_id id) -> dereg_agrees c' (operations r !! dereg_id id) ->
  simulated (set_client n id c') r.
Proof. intros I Hc A B. exists r. split; [done|]. by apply implements_client. Qed.

(** A call goes into its deregistration. *)
Lemma invoke_simulated n r id c c' e : implements n r -> cl_state c' = DeregWaiting e ->
  operations r !! reg_id id = Some (Done (register_request id (cl_type c)) (Ret tt)) ->
  operations r !! dereg_id id = None -> cl_type c' = cl_type c ->
  simulated (set_client n id c') r.
Proof.
  intros I Hs A B Ht.
  exists (with_operation r (entries r) (dereg_id id) (Invoked (deregister_request (cl_type c)))).
  split; [by apply rtc_once, spec_invoke|].
  apply implements_operation_same; [done | by right | |]; unfold reg_agrees, dereg_agrees;
    rewrite Hs, ?Ht; ops.
Qed.

(** An operation of a call returns, and with it the call. *)
Lemma return_simulated n r id c e k request result : implements n r ->
  nd_clients n !! id = Some c ->
  spec_step r (with_operation r (entries r) k (Done request result)) ->
  (k = reg_id id /\ request = register_request id (cl_type c) /\ operations r !! dereg_id id = None)
  \/ (k = dereg_id id /\ request = deregister_request (cl_type c)
      /\ operations r !! reg_id id = Some (Done (register_request id (cl_type c)) (Ret tt))) ->
  simulated (set_client n id (set_state c (CallReturned e))) r.
Proof.
  intros I Hc S H. exists (with_operation r (entries r) k (Done request result)).
  split; [by apply rtc_once|].
  destruct H as [(-> & -> & H)|(-> & -> & H)]; apply implements_operation_same; auto; ops.
Qed.

Lemma call_simulated id n r l n' : node_ok n -> implements n r -> call_step id n l n' -> simulated n' r.
Proof.
  intros O I S. destruct S as [n t Hc|n c e Hc Hd|n c e Hc Hs Hd|n c e Hc Hs Hst E|n c t Hc Hs Hst E
    |n c Hc Hs|n c e Hc Hs|n c Hc Hs Hq|n c msg rest Hc Hs Hi|n c msg result Hc Hs|n c e Hc Hs Hd
    |n c Hc Hs Hq|n c e answer Hc Hs|n c e Hc Hs Hq].
  1: { exists r. split; [done|]. destruct (im_none _ _ I _ Hc). apply implements_client; [done | ops..]. }
  all: try (destruct (im_reg _ _ _ _ _ I Hc Hs) as [A B]; cbn in A, B).
  - destruct (im_calls _ _ I _ _ Hc). by eapply quiet_simulated.
  - eapply quiet_simulated; [done | exact Hc | ops..].
  - eapply quiet_simulated; [done | exact Hc | ops..].
  - exists (with_operation r (entries r) (reg_id id) (Invoked (register_request id (cl_type c)))).
    split; [by apply rtc_once, spec_invoke|].
    apply implements_operation_same; [done | by left | ops..].
  - exists (with_operation r (entries r) (reg_id id) (Done (register_request id (cl_type c)) (Ret tt))).
    split; [by apply rtc_once, (spec_return r (reg_id id) _ None)|].
    apply implements_operation_same; [done | by left | ops..].
  - eapply return_simulated; [done | exact Hc | exact (spec_return _ _ _ _ A) | by left].
  - assert (shut r = true) as Hsh by (by rewrite (im_shut _ _ I)).
    eapply (return_simulated _ _ _ _ _ (reg_id id)); [done | exact Hc | apply spec_give_up; [done|] |].
    + destruct Hs as [Hs|[answer Hs]]; destruct (im_reg _ _ _ _ _ I Hc Hs) as [A _]; cbn in A;
        [by left | right; by exists answer].
    + left. split; [done|]. split; [done|].
      by destruct Hs as [Hs|[answer Hs]]; destruct (im_reg _ _ _ _ _ I Hc Hs) as [_ B].
  - eapply quiet_simulated; [done | exact Hc | ops..].
  - destruct result as [e|]; [by eapply invoke_simulated|].
    eapply quiet_simulated; [done | exact Hc | ops..].
  - by eapply invoke_simulated.
  - by eapply invoke_simulated.
  - eapply return_simulated; [done | exact Hc | exact (spec_return _ _ _ _ B) | by right].
  - assert (shut r = true) as Hsh by (by rewrite (im_shut _ _ I)).
    eapply (return_simulated _ _ _ _ _ (dereg_id id)); [done | exact Hc | apply spec_give_up; [done|] |].
    + destruct Hs as [Hs|[answer Hs]]; destruct (im_reg _ _ _ _ _ I Hc Hs) as [_ B]; cbn in B;
        [by left | right; by exists answer].
    + right. split; [done|]. split; [done|].
      by destruct Hs as [Hs|[answer Hs]]; destruct (im_reg _ _ _ _ _ I Hc Hs) as [A _].
Qed.

(** C14: The messenger of the running node is the registry of Registry.v, though
    it delivers a message payload by payload and its handlers block: every run
    of the node is a run of the specification, in which each registration and
    each deregistration of a call takes effect at one instant, its entries are
    the closures of the subscriptions, and it knows of each call the operation
    that is in progress or what it returned. *)
Theorem node_registry_refinement c w n :
  node_reachable nodeKey c w n -> exists r, rtc spec_step empty_registry r /\ implements n r.
Proof.
  induction 1 as [|n l n' R IH S].
  - exists empty_registry. split; [done|]. by constructor.
  - destruct IH as (r & Rr & I). pose proof (node_reachable_ok _ _ _ _ R) as O.
    assert (simulated n' r) as (r' & Rr' & I').
    { destruct S as [n l n' S|n l n' S|id n l n' S];
        [by eapply server_simulated | by eapply loop_simulated | by eapply call_simulated]. }
    exists r'. split; [by etrans | done].
Qed.
End Closures.

(** ** Delivery *)

Section Delivery.
Context {W : Type} `{CR : Crypto, TL : !Tlv, LW : !Lndwire, SP : !Sphinx, SR : !SphinxRouter W,
  VX : !Vertices, LC : Lndclient, OL : !OnionLnd W, OS : !LndOnionSigner W, MO : MapOrder}.
Context (nodeKey : SingleKeyECDH W).

(** Steps of the event loop by itself. *)
Definition loops (n n' : nodeState (W := W)) : Prop := loop_step nodeKey n Loop n'.

Definition at_loop (n : nodeState (W := W)) (l : nodeLoop) : nodeState := set_loop_at n l (nd_world n).

(** What a delivery by deliverPayloads is, step by step: it ends, or it stays
    in a handler. *)
Definition delivers (n : nodeState (W := W)) (p : OnionMessagePayload) (finals : list FinalHopPayload)
    (n' : nodeState) (r : outcome unit) : Prop :=
  match r with
  | Ret _ | Err _ => rtc loops (at_loop n (LDelivering p finals)) (at_loop n' LSelect)
  | Diverge => exists id f rest,
      rtc loops (at_loop n (LDelivering p finals)) (at_loop n' (LHandler id f p rest))
      /\ forall l n2, ~ loop_step nodeKey (at_loop n' (LHandler id f p rest)) l n2
  | Panic _ => False
  end.

Lemma delivers_step n n1 p finals finals1 n' r :
  rtc loops (at_loop n (LDelivering p finals)) (at_loop n1 (LDelivering p finals1)) ->
  delivers n1 p finals1 n' r -> delivers n p finals n' r.
Proof.
  intros R. destruct r; cbn; try done; try by (intros; etrans).
  intros (id & f & rest & R' & H). exists id, f, rest. split; [by etrans | done].
Qed.

(** A handler whose channel is full, with nobody gone, stays where it is. *)
Lemma blocked_handler n id f p rest c l n2 : nd_loop n = LHandler id f p rest ->
  nd_clients n !! id = Some c -> (1 <= length (cl_incoming c))%nat -> cl_ctx c = None ->
  nd_srv_quit n = false -> ~ loop_step nodeKey n l n2.
Proof.
  intros Hl Hc Hf Hd Hq S. destruct S; simplify_eq; try congruence.
  rewrite Hl in *. simplify_eq. lia.
Qed.

Lemma deliverPayloads_closures (hs : gmap Z nat) p f finals :
  deliverPayloads (closures hs) p (f :: finals)
  = match hs !! TLVType f with
    | None => deliverPayloads (closures hs) p finals
    | Some id =>
        iwrap "handler for" (subscription_handler id (omp_ReplyPath p) (omp_EncryptedData p) (fhp_Value f)) ;;
        deliverPayloads (closures hs) p finals
    end :> io (nodeState (W := W)) unit.
Proof.
  pose proof (closures_lookup (W := W) hs (TLVType f)) as E. cbn [deliverPayloads].
  unfold OnionMessageHandler in *. rewrite E. by destruct (hs !! TLVType f).
Qed.

Lemma deliverPayloads_steps p finals : forall n n' r,
  (forall t id, nd_handlers n !! t = Some id -> is_Some (nd_clients n !! id)) ->
  deliverPayloads (closures (nd_handlers n)) p finals n = (n', r) -> delivers n p finals n' r.
Proof.
  induction finals as [|f finals IH]; intros n n' r Hcl E.
  { injection E as <- <-. apply rtc_once.
    exact (loop_delivered nodeKey (at_loop n (LDelivering p [])) p eq_refl). }
  rewrite deliverPayloads_closures in E.
  destruct (nd_handlers n !! TLVType f) as [id|] eqn:Hh; cycle 1.
  { eapply (delivers_step n n); [|by apply IH]. apply rtc_once.
    exact (loop_unhandled nodeKey (at_loop n (LDelivering p (f :: finals))) p f finals eq_refl Hh). }
  destruct (Hcl _ _ Hh) as [c Hc].
  assert (loops (at_loop n (LDelivering p (f :: finals))) (at_loop n (LHandler id f p finals))) as S1
    by exact (loop_deliver nodeKey (at_loop n (LDelivering p (f :: finals))) p f finals id eq_refl Hh).
  unfold mbind, io_bind, map_io, subscription_handler in E. rewrite Hc in E.
  case_bool_decide as Hlt; [|destruct (cl_ctx c) as [e|] eqn:Hd; [|destruct (nd_srv_quit n) eqn:Hq]];
    cbn [wrap] in E.
  - set (n1 := set_client n id (offer_to c (handed (omp_ReplyPath p) (fhp_Value f)))) in *.
    eapply (delivers_step n n1); [|apply IH; [|exact E]].
    + eapply rtc_l; [exact S1|]. apply rtc_once.
      exact (loop_push nodeKey (at_loop n (LHandler id f p finals)) id f p finals c eq_refl Hc Hlt).
    + intros t id'. cbn. intros H. rewrite lookup_insert. case_decide; [done|]. by eapply Hcl.
  - injection E as <- <-. eapply rtc_l; [exact S1|]. apply rtc_once.
    exact (loop_cancelled nodeKey (at_loop n (LHandler id f p finals)) id f p finals c e eq_refl Hc Hd).
  - injection E as <- <-. eapply rtc_l; [exact S1|]. apply rtc_once.
    exact (loop_server_quit nodeKey (at_loop n (LHandler id f p finals)) id f p finals eq_refl Hq).
  - injection E as <- <-. exists id, f, finals. split; [by apply rtc_once|].
    intros l n2. eapply blocked_handler; [done | exact Hc | lia | done | done].
Qed.

(** handleOnionMessage is its part up to the final payloads, then the loop
    over them. *)
Lemma handleOnionMessage_receive (handlers : handlerMap W) msg w :
  handleOnionMessage msg (messengerKit nodeKey handlers) w
  = (receive_onion nodeKey msg ≫= fun payload =>
       match payload with
       | Some payload => deliverPayloads handlers payload (FinalHopPayloads payload)
       | None => mret tt
       end) w.
Proof.
  unfold handleOnionMessage, receive_onion. cbn [kit_processOnion kit_decodePayload kit_decryptDataBlob
    kit_handlers kit_forwardMessage messengerKit].
  unfold mbind, io_bind. destruct (map_io _ _ w) as [w1 [[blinding packet]|e|s|]]; try done.
  destruct (pure _ w1) as [w2 [payload|e|s|]]; try done.
  destruct (Action packet); try done. case_bool_decide; [done|].
  destruct (NextPacket packet) as [next|]; [|done].
  destruct (iwrap _ _ w2) as [w3 [data|e|s|]]; try done.
  by destruct (forwardMessage _ _ _ _ w3) as [w4 [[]|e|s|]].
Qed.

(** C18: The event loop of the node delivers what deliverPayloads of Messenger.v
    does with the closures of the subscriptions, which do to the node what the
    first ready case of their select does: when it returns, with or without an
    error, steps of the loop lead back to its select in the state it returned;
    when it blocks, they lead to the handler it blocks in, where the loop has no
    step.  Up to the final payloads, the loop does what handleOnionMessage
    does. *)
Theorem delivery_agrees c w n p finals n' r :
  node_reachable nodeKey c w n ->
  (deliverPayloads (closures (nd_handlers n)) p finals n = (n', r) -> delivers n p finals n' r)
  /\ (forall (handlers : handlerMap W) msg w0,
      handleOnionMessage msg (messengerKit nodeKey handlers) w0
      = (receive_onion nodeKey msg ≫= fun payload =>
           match payload with
           | Some payload => deliverPayloads handlers payload (FinalHopPayloads payload)
           | None => mret tt
           end) w0).
Proof.
  intros O%node_reachable_ok. split; [|intros; apply handleOnionMessage_receive].
  apply deliverPayloads_steps. intros t id H.
  destruct (no_handlers _ O _ _ H) as (d & Hd & _). by exists d.
Qed.
End Delivery.

(** ** Witnesses *)

Definition w_cl_stalled : client := offer_to w_cl1 w_msg_req.

Lemma subscription_refinement_witness :
  reachable (project w_stalled 0 w_cl_stalled)
  /\ exists rest, map response (cl_accepted w_cl_stalled) = cl_sent w_cl_stalled ++ rest.
Proof.
  destruct (subscription_refinement w_own_key Signals w_world w_stalled 0 w_cl_stalled
              w_stalled_reachable) as (R & (rest & E & _) & _); [reflexivity|].
  split; [exact R | by exists rest].
Defined.

Lemma node_registry_refinement_witness :
  exists r, rtc spec_step empty_registry r /\ entries r = closures (nd_handlers w_stalled)
    /\ operations r !! 0%nat = Some (Done (register_request (W := ref_World) 0 64) (Ret tt))
    /\ operations r !! 2%nat = Some (Invoked (register_request (W := ref_World) 1 66)).
Proof.
  destruct (node_registry_refinement w_own_key Signals w_world w_stalled w_stalled_reachable)
    as (r & R & I). exists r. split; [exact R|]. split; [apply (im_entries _ _ I)|].
  split; [by apply (im_calls _ _ I 0%nat w_cl_stalled)|].
  by apply (im_calls _ _ I 1%nat (set_state (new_client 66) RegWaiting)).
Defined.

(** The third message blocks; the first is delivered. *)
Lemma delivery_agrees_witness :
  delivers w_own_key w_consumes w_once [w_final]
    (set_client w_consumes 0 (offer_to (w_c0 AtReceive) w_msg_req)) (Ret tt)
  /\ delivers w_own_key w_p3 w_once [w_final] w_p3 Diverge.
Proof.
  split.
  - by apply (delivery_agrees w_own_key Signals w_world w_consumes w_once [w_final] _ _
                w_consumes_reachable).
  - by apply (delivery_agrees w_own_key Signals w_world w_p3 w_once [w_final] _ _ w_p3_reachable).
Defined.
