(* ===== verification/NodeShutdown.v ===== *)
(** The end of the running node of NodeSystem.v: that a shutdown completes, and
    what keeps it, or the node, from moving - a client that does not read, a
    Stop that comes during Start, a shutdown closure that calls Stop itself. *)
From S2P Require Import Prelude Deps DepsRef Io LndDeps LndRef Stream.
From S2P Require Import Merkle Shared RouteBlinding OnionMessages OnionPayload Routes Messenger.
From S2P Require Import MessengerSystem Rpc Subscription NodeSystem.

Section Shutdown.
Context {W : Type} `{CR : Crypto, TL : !Tlv, LW : !Lndwire, SP : !Sphinx, SR : !SphinxRouter W,
  VX : !Vertices, LC : Lndclient, OL : !OnionLnd W, OS : !LndOnionSigner W, MO : MapOrder}.
Context (nodeKey : SingleKeyECDH W).

Definition any_step (n n' : nodeState (W := W)) : Prop := exists l, node_step nodeKey n l n'.

(** The steps that the goroutines take by themselves.  Whether a send to a client
    returns is up to the client, who may not read: [sends] says if the sends
    are counted on to return. *)
Definition own (sends : bool) (l : label) : bool :=
  match l with Loop | Call _ | Server => true | Sends _ => sends | _ => false end.
Definition progress (sends : bool) (n n' : nodeState (W := W)) : Prop :=
  exists l, own sends l = true /\ node_step nodeKey n l n'.

(** ** The measure *)

Definition start_weight (s : startState) : nat :=
  match s with CreatingKey => 20 | MessengerMade => 12 | _ => 0 end.
Definition stop_weight (s : stopState) : nat :=
  match s with
  | NotStopping => 5 | Stopping => 4 | WaitingForLoop => 3 | ServerStopped => 2 | DaemonStopped => 0
  end.
Definition loop_weight (l : nodeLoop) : nat :=
  match l with
  | LNotStarted => 0
  | LSubscribing => 8
  | LSelect => 5
  | LDelivering _ finals => 6 + 4 * length finals
  | LHandler _ _ _ rest => 9 + 4 * length rest
  | LReporting _ => 4
  | LInStop _ => 2
  | LDone _ => 0
  end.
Definition client_weight (c : client) : nat :=
  match cl_state c with
  | Entering => 12
  | RegWaiting => 10
  | RegAnswered _ => 9
  | AtReceive => 6
  | InSend _ => 7
  | DeregWaiting _ => 5
  | DeregAnswered _ _ => 4
  | Refused _ | CallReturned _ => 0
  end + 2 * length (cl_incoming c).

Definition clients_weight (m : gmap nat client) : nat :=
  map_fold (fun _ c s => client_weight c + s)%nat 0%nat m.

Definition measure (n : nodeState (W := W)) : nat :=
  start_weight (nd_starting n) + stop_weight (nd_stopping n) + loop_weight (nd_loop n)
  + clients_weight (nd_clients n).

Lemma clients_weight_new m id c : m !! id = None ->
  clients_weight (<[id := c]> m) = (client_weight c + clients_weight m)%nat.
Proof.
  intros H. unfold clients_weight. rewrite map_fold_insert_L; [done | intros; lia | done].
Qed.

Lemma clients_weight_set m id c c' : m !! id = Some c ->
  (clients_weight (<[id := c']> m) + client_weight c = clients_weight m + client_weight c')%nat.
Proof.
  intros H. rewrite <- (insert_delete_id m id c H) at 2. rewrite <- (insert_delete_eq m).
  rewrite !clients_weight_new by apply lookup_delete_eq. lia.
Qed.

Lemma measure_set_client n id c c' : nd_clients n !! id = Some c ->
  (client_weight c' < client_weight c)%nat -> (measure (set_client n id c') < measure n)%nat.
Proof.
  intros Hc Hw. unfold measure. cbn. pose proof (clients_weight_set _ _ _ c' Hc). lia.
Qed.

Lemma leave_weight n e w : nd_loop n = LSelect \/ nd_loop n = LSubscribing ->
  (measure (leave n e w) < measure n)%nat.
Proof.
  intros H. unfold measure, leave. cbn.
  destruct H as [-> | ->], (bool_decide (e = ErrShuttingDown)); cbn; lia.
Qed.

Lemma own_weaker sends l : own sends l = true -> own true l = true.
Proof. by destruct l. Qed.

Lemma progress_decreases sends n n' : progress sends n n' -> (measure n' < measure n)%nat.
Proof.
  intros (l & Hl%own_weaker & S). destruct S as [n l n' S|n l n' S|id n l n' S].
  - destruct S as [n Hs|n w Hs|n w e Hs|n Hs|n Hs|n Hs|n Hs Hm|n Hs Hm|n Hs Hw|n w Hs]; try done;
      unfold measure; cbn; rewrite ?Hs; cbn; lia.
  - destruct S as [n w Hs|n w e Hs|n id c hs answer Hs Hc Hst|n id c e hs answer Hs Hc Hst
      |n msg|n msg w r|n ev w it err|n Hs|n p f rest Hs|n p f rest id Hs|n p Hs
      |n id f p rest c Hs Hc|n id f p rest c e Hs|n id f p rest Hs|n e Hs|n e Hs Hcl Hst|n e Hs];
      try done; try (apply leave_weight; auto; fail);
      unfold measure; cbn; rewrite ?Hs, ?Hst; cbn; try lia.
    + pose proof (clients_weight_set _ _ _ (set_state c (RegAnswered answer)) Hc) as K.
      unfold client_weight in K. rewrite Hst in K. cbn in K. lia.
    + pose proof (clients_weight_set _ _ _ (set_state c (DeregAnswered e answer)) Hc) as K.
      unfold client_weight in K. rewrite Hst in K. cbn in K. lia.
    + pose proof (clients_weight_set _ _ _ (offer_to c (handed (omp_ReplyPath p) (fhp_Value f))) Hc) as K.
      unfold client_weight in K. cbn in K. rewrite length_app in K. cbn in K. lia.
  - destruct S as [n t Hc|n c e Hc Hd|n c e Hc Hs Hd|n c e Hc Hs Hst E|n c t Hc Hs Hst E
      |n c Hc Hs|n c e Hc Hs|n c Hc Hs Hq|n c msg rest Hc Hs Hi|n c msg result Hc Hs|n c e Hc Hs Hd
      |n c Hc Hs Hq|n c e answer Hc Hs|n c e Hc Hs Hq]; try done; (eapply measure_set_client; [exact Hc|]);
      unfold client_weight; cbn; try (rewrite Hs; cbn; lia).
    + destruct Hs as [-> |[answer ->]]; lia.
    + rewrite Hs, Hi. cbn. lia.
    + rewrite Hs. destruct result; cbn; lia.
    + destruct Hs as [-> |[answer ->]]; lia.
Qed.

Lemma any_step_ok n n' : node_ok n -> rtc any_step n n' -> node_ok n'.
Proof.
  intros O R. induction R as [|n1 n2 n3 [l S] R IH]; [done|]. by eapply IH, node_step_ok.
Qed.

Lemma progress_bound sends k : forall n n', nsteps (progress sends) k n n' -> (k <= measure n)%nat.
Proof.
  induction k as [|k IH]; intros n n' H; [lia|]. inversion H as [|? ? n1 ? P R]; subst.
  pose proof (progress_decreases _ _ _ P). pose proof (IH _ _ R). lia.
Qed.

(** ** The shutdown *)

(** Stop was called on a server that serves. *)
Definition stop_called (n : nodeState (W := W)) : Prop :=
  nd_starting n = Serving /\ (nd_stopping n = Stopping \/ nd_quit n = true).

(** A call has returned, or is in a send that need not. *)
Definition call_over (sends : bool) (s : callState) : bool :=
  match s with Refused _ | CallReturned _ => true | InSend _ => negb sends | _ => false end.

(** Stop has returned, the event loop has ended, and every call is over. *)
Definition finished (sends : bool) (n : nodeState (W := W)) : Prop :=
  nd_stopping n = DaemonStopped /\ (exists e, nd_loop n = LDone e)
  /\ map_Forall (fun _ c => call_over sends (cl_state c) = true) (nd_clients n).

Lemma stop_called_step n l n' : stop_called n -> node_step nodeKey n l n' -> stop_called n'.
Proof.
  intros [Hs Hq] S. unfold stop_called. destruct S as [n l n' S|n l n' S|id n l n' S].
  - destruct S; cbn; try congruence; (split; [done|]); auto; destruct Hq; try congruence; auto.
    rewrite Hs in *. done.
  - destruct S; cbn; auto.
  - destruct S; cbn; auto.
Qed.

Lemma closure_step n l n' : node_step nodeKey n l n' -> nd_closure n' = nd_closure n.
Proof.
  intros S. destruct S as [n l n' S|n l n' S|id n l n' S]; destruct S; done.
Qed.

Lemma closure_reachable c w n : node_reachable nodeKey c w n -> nd_closure n = c.
Proof. induction 1 as [|n l n' R IH S]; [done|]. by rewrite (closure_step _ _ _ S). Qed.

(** The event loop of a stopping node moves until it has ended. *)
Lemma loop_moves sends n : node_ok n -> nd_starting n = Serving -> nd_quit n = true ->
  nd_closure n <> CallsStop -> (forall w, settles (SubscribeCustomMessages w : W * outcome unit).2) ->
  (exists e, nd_loop n = LDone e) \/ exists n', progress sends n n'.
Proof.
  intros O Hs Hq Hcl Hsub.
  assert (nd_srv_quit n = true) as Hsq by (by apply (no_srv_quit _ O), (no_quit _ O)).
  assert (forall n', loop_step nodeKey n Loop n' -> exists n', progress sends n n') as K.
  { intros n' S. exists n', Loop. split; [done|]. by apply step_loop. }
  destruct (nd_loop n) as [| | |p finals|id f p rest|e|e|e] eqn:Hl; [| | | | | | |by left; exists e]; right.
  - by destruct (proj2 (no_serving _ O) Hs).
  - destruct (SubscribeCustomMessages (nd_world n)) as [w r] eqn:E. specialize (Hsub (nd_world n)).
    rewrite E in Hsub. destruct Hsub as [[[] Hr]|[e Hr]]; cbn in Hr; subst.
    + eapply K. by apply loop_subscribed.
    + eapply K. by eapply loop_not_subscribed.
  - eapply K. by apply loop_quit.
  - destruct finals as [|f rest]; [eapply K; by eapply loop_delivered|].
    destruct (nd_handlers n !! TLVType f) as [id|] eqn:Hh.
    + eapply K. by eapply loop_deliver.
    + eapply K. by eapply loop_unhandled.
  - eapply K. by eapply loop_server_quit.
  - eapply K. apply loop_reported; [exact Hl | by left].
  - by destruct (no_in_stop _ O _ Hl).
Qed.

(** A call of a stopping node moves until it has returned. *)
Lemma call_moves sends n id c : node_ok n -> nd_starting n = Serving -> nd_quit n = true ->
  nd_clients n !! id = Some c -> call_over sends (cl_state c) = true \/ exists n', progress sends n n'.
Proof.
  intros O Hs Hq Hc.
  assert (nd_srv_quit n = true) as Hsq by (by apply (no_srv_quit _ O), (no_quit _ O)).
  assert (forall l n', own sends l = true -> call_step id n l n' -> exists n', progress sends n n') as K.
  { intros l n' Hl S. exists n', l. split; [done|]. by eapply step_of_call. }
  destruct (cl_state c) as [|e| |answer| |msg|e|e answer|e] eqn:Hst; auto; [right..| |right|right].
  - assert (settles (parseSubscribeOnionPayloadRequest (cl_type c))) as [[t E]|[e E]].
    { unfold parseSubscribeOnionPayloadRequest, ValidateFinalPayload. case_bool_decide; cbn;
        [apply settles_Err | apply settles_Ret]. }
    + by eapply (K (Call id)), call_register.
    + by eapply (K (Call id)), call_bad_type.
  - eapply (K (Call id)), call_abandoned; [done|exact Hc| by left | done].
  - eapply (K (Call id)), call_abandoned; [done|exact Hc| right; by exists answer | done].
  - by eapply (K (Call id)), call_server_quit.
  - destruct sends; [right|by left]. by eapply (K (Sends id)), (call_sent _ _ _ _ None).
  - eapply (K (Call id)), call_dereg_abandoned; [done|exact Hc| by left | done].
  - by eapply (K (Call id)), call_deregistered.
Qed.

Lemma progress_or_finished sends n : node_ok n -> stop_called n -> nd_closure n <> CallsStop ->
  (forall w, settles (SubscribeCustomMessages w : W * outcome unit).2) ->
  finished sends n \/ exists n', progress sends n n'.
Proof.
  intros O [Hs Hq] Hcl Hsub.
  assert (forall n', server_step nodeKey n Server n' -> exists n', progress sends n n') as K.
  { intros n' S. exists n', Server. split; [done|]. by apply step_server. }
  destruct (nd_stopping n) eqn:Hst.
  - destruct Hq as [?|Hq]; [done|]. by destruct (no_quit _ O Hq) as (? & _).
  - right. eapply K. apply srv_stop_messenger; [done|]. by rewrite Hs.
  - destruct Hq as [?|Hq]; [done|]. destruct (loop_moves sends n) as [[e Hl]|P]; auto. right.
    eapply K. apply srv_waited; [done|]. by rewrite Hl.
  - right. eapply K. by apply (srv_close_lnd _ _ (nd_world n)).
  - destruct Hq as [?|Hq]; [done|]. destruct (loop_moves sends n) as [Hl|P]; auto.
    destruct (decide (map_Forall (fun _ c => call_over sends (cl_state c) = true) (nd_clients n))) as [F|F].
    + by left.
    + apply map_not_Forall in F as (id & c & Hc & Hn); [|apply _].
      destruct (call_moves sends n id c) as [H|P]; auto. by rewrite H in Hn.
Qed.

Lemma progress_inv sends n n' : node_ok n -> stop_called n -> progress sends n n' ->
  node_ok n' /\ stop_called n' /\ nd_closure n' = nd_closure n.
Proof.
  intros O Q (l & _ & S). split; [by eapply node_step_ok|].
  split; [by eapply stop_called_step | by eapply closure_step].
Qed.

Lemma progress_finishes sends n : node_ok n -> stop_called n -> nd_closure n <> CallsStop ->
  (forall w, settles (SubscribeCustomMessages w : W * outcome unit).2) ->
  exists n', rtc (progress sends) n n' /\ finished sends n'.
Proof.
  intros O Q Hcl Hsub. remember (measure n) as k eqn:Hk. revert n Hk O Q Hcl.
  induction (lt_wf k) as [k _ IH]; intros n -> O Q Hcl.
  destruct (progress_or_finished sends n) as [F|[n1 P]]; [done..|by exists n|].
  destruct (progress_inv _ _ _ O Q P) as (O1 & Q1 & E1).
  destruct (IH (measure n1) (progress_decreases _ _ _ P) n1) as (n' & R & F); [done..|by rewrite E1|].
  exists n'. split; [by eapply rtc_l | done].
Qed.

(** C17: A shutdown completes.  Once Stop was called on a server that serves,
    the goroutines of the node - the event loop, every call, Stop itself - take
    only so many more steps by themselves, whatever order they take them in, and
    they cannot stop before Stop has returned with the connection to lnd
    closed, the event loop has ended and every call has returned; nothing that
    happens meanwhile takes the stop back.  This is for sends to clients that
    return (sends = true); when they do not, because a client does not read
    (sends = false), all of it holds but that the calls in a send stay there.
    lnd's call for the stream of messages has to return, and the closure for a
    shutdown must not call Stop itself. *)
Theorem shutdown_completes (sends : bool) c w n :
  node_reachable nodeKey c w n -> c <> CallsStop -> stop_called n ->
  (forall w, settles (SubscribeCustomMessages w : W * outcome unit).2) ->
  (forall k n', nsteps (progress sends) k n n' -> (k <= measure n)%nat)
  /\ (forall n', rtc (progress sends) n n' -> finished sends n' \/ exists n'', progress sends n' n'')
  /\ (exists n', rtc (progress sends) n n' /\ finished sends n')
  /\ (forall n', rtc any_step n n' -> stop_called n').
Proof.
  intros R Hcl Q Hsub. pose proof (node_reachable_ok _ _ _ _ R) as O.
  pose proof (closure_reachable _ _ _ R) as Ec.
  split; [intros; by eapply progress_bound|]. split; [|split].
  - intros n' R'. assert (node_ok n' /\ stop_called n' /\ nd_closure n' = c) as (O' & Q' & E').
    { clear R. induction R' as [|n1 n2 n3 P R' IH]; [done|].
      destruct (progress_inv _ _ _ O Q P) as (? & ? & ?). apply IH; auto; congruence. }
    apply progress_or_finished; auto. congruence.
  - apply progress_finishes; auto. congruence.
  - intros n' R'. clear R O. induction R' as [|n1 n2 n3 [l S] R' IH]; [done|].
    apply IH; [by eapply stop_called_step|]. by rewrite (closure_step _ _ _ S).
Qed.
End Shutdown.

(** ** What keeps the node from moving *)

Section Stalls.
Context {W : Type} `{CR : Crypto, TL : !Tlv, LW : !Lndwire, SP : !Sphinx, SR : !SphinxRouter W,
  VX : !Vertices, LC : Lndclient, OL : !OnionLnd W, OS : !LndOnionSigner W, MO : MapOrder}.
Context (nodeKey : SingleKeyECDH W).

(** The event loop is in the handler of a call whose channel is full, and the
    call is not receiving: it sends to its client, or a send failed and it waits
    for its deregistration.  Nobody has gone. *)
Record stalled (n : nodeState (W := W)) (id : nat) : Prop := {
  sd_loop : exists f p rest, nd_loop n = LHandler id f p rest;
  sd_client : exists c, nd_clients n !! id = Some c /\ (1 <= length (cl_incoming c))%nat
    /\ cl_ctx c = None
    /\ ((exists msg, cl_state c = InSend msg) \/ (exists e, cl_state c = DeregWaiting e));
  sd_quit : nd_srv_quit n = false;
}.

(** A step of anyone but the client of call [id], and not a call of Stop. *)
Definition others (id : nat) (n n' : nodeState (W := W)) : Prop :=
  exists l, node_step nodeKey n l n' /\ l <> Sends id /\ l <> Cancels id /\ l <> Stops.

(** Waiting for the event loop. *)
Definition awaits (s : callState) : bool :=
  match s with RegWaiting | DeregWaiting _ => true | _ => false end.

(** Nothing was delivered between two states, and who waited for the loop
    waits. *)
Record unmoved (n n' : nodeState (W := W)) : Prop := {
  um_loop : nd_loop n' = nd_loop n;
  um_handlers : nd_handlers n' = nd_handlers n;
  um_world : nd_world n' = nd_world n;
  um_clients : forall id c, nd_clients n !! id = Some c ->
    exists c', nd_clients n' !! id = Some c' /\ cl_accepted c' = cl_accepted c
      /\ (awaits (cl_state c) = true -> cl_state c' = cl_state c);
}.

Lemma unmoved_refl (n : nodeState (W := W)) : unmoved n n.
Proof. constructor; try done. intros id c H. by exists c. Qed.

Lemma unmoved_trans n1 n2 n3 : unmoved n1 n2 -> unmoved n2 n3 -> unmoved n1 n3.
Proof.
  intros [A1 A2 A3 A4] [B1 B2 B3 B4]. constructor; [congruence..|].
  intros id c (c2 & H2 & E2 & K2)%A4. destruct (B4 _ _ H2) as (c3 & H3 & E3 & K3).
  exists c3. split; [done|]. split; [congruence|]. intros Hw. rewrite K3; [by apply K2|].
  by rewrite K2.
Qed.

Lemma unmoved_client n id c c' : nd_clients n !! id = Some c -> cl_accepted c' = cl_accepted c ->
  (awaits (cl_state c) = true -> cl_state c' = cl_state c) -> unmoved n (set_client n id c').
Proof.
  intros Hc Ha Hs. constructor; try done. cbn. intros id' d Hd. rewrite lookup_insert.
  case_decide as E; [|by exists d]. subst. rewrite Hc in Hd. injection Hd as <-. by exists c'.
Qed.

Lemma call_unmoved id n l n' : nd_quit n = false -> call_step id n l n' -> unmoved n n'.
Proof.
  intros Hq S. destruct S as [n t Hc|n c e Hc Hd|n c e Hc Hs Hd|n c e Hc Hs Hst E|n c t Hc Hs Hst E
    |n c Hc Hs|n c e Hc Hs|n c Hc Hs Hq'|n c msg rest Hc Hs Hi|n c msg result Hc Hs|n c e Hc Hs Hd
    |n c Hc Hs Hq'|n c e answer Hc Hs|n c e Hc Hs Hq']; try congruence;
    try (apply (unmoved_client _ _ _ _ Hc); by rewrite ?Hs).
  constructor; try done. cbn. intros id' d Hd. exists d. rewrite lookup_insert_ne; [done|]. congruence.
Qed.

(** A call of another client does not touch [id]. *)
Lemma call_other id id' (n : nodeState (W := W)) l n' : id' <> id -> call_step id' n l n' ->
  nd_clients n' !! id = nd_clients n !! id.
Proof. intros Hne S. destruct S; cbn; by rewrite lookup_insert_ne. Qed.

Lemma others_stall n n' id : node_ok n -> stalled n id -> others id n n' ->
  stalled n' id /\ unmoved n n'.
Proof.
  intros O D (l & S & L1 & L2 & L3). pose proof D as [(f & p & rest & Hl) (c & Hc & Hf & Hd & Hst) Hq].
  assert (nd_quit n = false) as Hmq.
  { destruct (nd_quit n) eqn:E; [|done]. destruct (no_quit _ O E) as (K & _).
    apply (no_srv_quit _ O) in K. congruence. }
  assert (nd_stopping n = NotStopping) as Hns.
  { destruct (nd_stopping n) eqn:E; [done|..]; rewrite (proj2 (no_srv_quit _ O)) in Hq; congruence. }
  assert (nd_starting n = Serving) as Hsv by (apply (no_serving _ O); by rewrite Hl).
  destruct S as [n l n' S|n l n' S|id' n l n' S].
  - destruct S; try congruence; done.
  - destruct S; try congruence; rewrite Hl in *; simplify_eq; lia.
  - split; [|by eapply call_unmoved]. destruct (decide (id' = id)) as [->|Hne].
    + destruct S; simplify_eq; destruct Hst as [[m Hst]|[e' Hst]]; try congruence;
        rewrite Hst in *; try done; naive_solver.
    + constructor; [| |].
      * exists f, p, rest. rewrite <- Hl. apply (um_loop _ _ (call_unmoved _ _ _ _ Hmq S)).
      * exists c. by rewrite (call_other _ _ _ _ _ Hne S).
      * rewrite <- Hq. by destruct S.
Qed.

(** C19: One client that does not read holds up the whole node.  While a call
    sends to its client, or waits for its deregistration after a send failed,
    with its channel full and the event loop in its handler, nothing else moves
    for as long as the send does not return, the client does not cancel and
    nobody calls Stop: whatever all others do, no subscription accepts a
    payload, no registration is answered, and no message is taken from lnd, let
    alone forwarded. *)
Theorem slow_client_stalls c w n id :
  node_reachable nodeKey c w n -> stalled n id ->
  forall n', rtc (others id) n n' -> stalled n' id /\ unmoved n n'.
Proof.
  intros O%node_reachable_ok D n' R. revert D O.
  induction R as [n|n1 n2 n3 S R IH]; intros D O; [split; [done | apply unmoved_refl]|].
  destruct (others_stall _ _ _ O D S) as [D2 U]. destruct S as (l & S & _).
  destruct (IH D2 (node_step_ok _ _ _ _ O S)) as [D3 U']. split; [done|]. by eapply unmoved_trans.
Qed.

(** Once Stop has returned without stopping a messenger, nobody stops one. *)
Lemma orphan_step n l n' : nd_quit n = false -> nd_stopping n = DaemonStopped ->
  node_step nodeKey n l n' -> nd_quit n' = false /\ nd_stopping n' = DaemonStopped.
Proof.
  intros Hq Hs S. destruct S as [n l n' S|n l n' S|id n l n' S]; destruct S; cbn; by try congruence.
Qed.

(** A Stop that comes while Start is asking lnd for the node's key sees no
    messenger and returns; Start goes on and starts one.  The server serves, the
    event loop handles messages, and whatever happens then, the messenger's quit
    channel is never closed: Stop was called and cannot be called again. *)
Theorem stop_during_start c w w1 w2 :
  NewNodeECDH w = (w1, Ret nodeKey) -> SubscribeCustomMessages w1 = (w2, Ret tt) ->
  exists n, node_reachable nodeKey c w n
    /\ nd_stopping n = DaemonStopped /\ nd_starting n = Serving /\ nd_loop n = LSelect
    /\ forall n', rtc (any_step nodeKey) n n' ->
         nd_quit n' = false /\ nd_stopping n' = DaemonStopped.
Proof.
  intros Hk Hsub. set (n0 := new_node (W := W) c w).
  set (n1 := set_starting n0 CreatingKey LNotStarted w).
  set (n2 := set_stopping (set_stopping (set_stopping n1 Stopping false) ServerStopped false)
               DaemonStopped false).
  set (n3 := set_starting n2 MessengerMade LNotStarted w1).
  set (n4 := set_loop_at (set_starting n3 Serving LSubscribing w1) LSelect w2).
  exists n4. split; [|do 3 (split; [done|])].
  - eapply node_next; [eapply node_next; [eapply node_next; [eapply node_next; [eapply node_next;
      [eapply node_next; [eapply node_next; [apply node_init|]|]|]|]|]|]|].
    + apply step_server. by apply (srv_start _ n0).
    + apply step_server. by apply (srv_stop _ n1).
    + apply step_server. by apply (srv_no_messenger _ (set_stopping n1 Stopping false)).
    + apply step_server.
      by apply (srv_close_lnd _ (set_stopping (set_stopping n1 Stopping false) ServerStopped false) w).
    + apply step_server. by apply (srv_key _ n2).
    + apply step_server. by apply (srv_serve _ n3).
    + apply step_loop. by apply loop_subscribed.
  - intros n' R. assert (nd_quit n4 = false /\ nd_stopping n4 = DaemonStopped) as K by done.
    revert K. generalize n4 R. clear. intros n R K. induction R as [|n1 n2 n3 [l S] R IH]; [done|].
    destruct K. apply IH. by eapply orphan_step.
Qed.

(** The event loop in a call of Stop is waited for by that call. *)
Lemma in_stop_step n l n' : (forall e, nd_loop n = LInStop e ->
    nd_starting n = Serving /\ (nd_stopping n = Stopping \/ nd_stopping n = WaitingForLoop)) ->
  node_ok n -> node_step nodeKey n l n' ->
  (forall e, nd_loop n' = LInStop e ->
    nd_starting n' = Serving /\ (nd_stopping n' = Stopping \/ nd_stopping n' = WaitingForLoop))
  /\ (forall e, nd_loop n = LInStop e -> nd_loop n' = LInStop e).
Proof.
  intros H O S. destruct S as [n l n' S|n l n' S|id n l n' S].
  - split; intros e El.
    + destruct S as [n Hs|n w Hs|n w e0 Hs|n Hs|n Hs|n Hs|n Hs Hm|n Hs Hm|n Hs Hw|n w Hs]; cbn in *;
        try done; destruct (H _ El) as [A B]; rewrite ?El in *; try congruence; auto;
        try (by destruct B; congruence); rewrite A in *; done.
    + destruct (H _ El) as [A _]. destruct S; cbn in *; congruence.
  - split; intros e El.
    + destruct S as [n w Hs|n w e' Hs|n id c hs answer Hs Hc Hst|n id c e' hs answer Hs Hc Hst
        |n msg|n msg w r Hs|n ev w it err Hs|n Hs|n p f rest Hs|n p f rest id Hs|n p Hs
        |n id f p rest c Hs Hc|n id f p rest c e' Hs|n id f p rest Hs|n e' Hs|n e' Hs Hcl Hst|n e' Hs];
        unfold leave in El; cbn in *; try congruence; auto;
        try by destruct (bool_decide (_ = ErrShuttingDown)).
      * by destruct r as [[]| | |].
      * split; [|by left]. apply (no_serving _ O). congruence.
    + destruct (H _ El) as [A [B|B]]; destruct S; cbn in *; congruence.
  - by destruct S.
Qed.

(** C40: A shutdown closure that calls Stop itself never returns: the event loop
    calls it before its goroutine counts as done, and Stop waits for that
    goroutine.  Once the loop is in that call it stays there, and Stop does not
    return, whatever happens: the connection to lnd is never closed.  The loop
    goes into the call when it ends with an error and nobody has called Stop. *)
Theorem synchronous_shutdown_deadlocks w n e :
  node_reachable nodeKey CallsStop w n ->
  (nd_loop n = LReporting e -> nd_stopping n = NotStopping ->
   exists n', loop_step nodeKey n Loop n' /\ nd_loop n' = LInStop e
     /\ forall n'', loop_step nodeKey n Loop n'' -> nd_loop n'' = LInStop e)
  /\ (nd_loop n = LInStop e -> forall n', rtc (any_step nodeKey) n n' ->
      nd_loop n' = LInStop e
      /\ (nd_stopping n' = Stopping \/ nd_stopping n' = WaitingForLoop)).
Proof.
  intros R. pose proof (closure_reachable _ _ _ _ R) as Ec.
  assert (node_ok n /\ forall e, nd_loop n = LInStop e ->
    nd_starting n = Serving /\ (nd_stopping n = Stopping \/ nd_stopping n = WaitingForLoop)) as [O K].
  { split; [by eapply node_reachable_ok|]. clear Ec.
    induction R as [|n l n' R IH S]; [done|]. eapply in_stop_step; [exact IH| |exact S].
    by eapply node_reachable_ok. }
  split.
  - intros Hl Hs. eexists. split; [by apply (loop_stops _ n e)|]. split; [done|].
    intros n'' S. inversion S; subst; simplify_eq; try congruence; cbn; try congruence.
    destruct H0; congruence.
  - intros Hl n' R'. clear R Ec. induction R' as [n|n1 n2 n3 [l S] R' IH].
    + split; [done|]. by apply (K e).
    + destruct (in_stop_step _ _ _ K O S) as [K2 E2]. apply IH; auto. by eapply node_step_ok.
Qed.
End Stalls.

(** ** Witnesses *)

Lemma w_is_stalled : stalled w_stalled 0.
Proof.
  constructor; [by do 3 eexists | | done].
  exists (offer_to w_cl1 w_msg_req). split; [done|]. split; [cbn; lia|]. split; [done|].
  left. by exists w_msg_req.
Qed.

(** The client of call 1 cancels: nothing else moves. *)
Lemma slow_client_stalls_witness :
  unmoved w_stalled (set_client w_stalled 1 (cancel (set_state (new_client 66) RegWaiting) (EExt "gone"))).
Proof.
  apply (slow_client_stalls w_own_key Signals w_world w_stalled 0 w_stalled_reachable w_is_stalled).
  apply rtc_once. exists (Cancels 1). split; [|by repeat split].
  apply (step_of_call _ 1). by apply call_cancelled.
Defined.

(** Stop is called on the stalled node. *)
Definition w_stopping : nodeState (W := ref_World) := set_stopping w_stalled Stopping false.

Lemma w_stopping_reachable : w_reaches Signals w_stopping.
Proof. eapply node_next; [apply w_stalled_reachable|]. apply step_server. by apply srv_stop. Qed.

(** Whether the stalled client reads on or not. *)
Lemma shutdown_completes_witness :
  (exists n', rtc (progress w_own_key true) w_stopping n' /\ finished true n')
  /\ exists n', rtc (progress w_own_key false) w_stopping n' /\ finished false n'.
Proof.
  split.
  - destruct (shutdown_completes w_own_key true Signals w_world w_stopping w_stopping_reachable)
      as (_ & _ & H & _); [discriminate | by split; [|left] | intros w; apply settles_Ret | exact H].
  - destruct (shutdown_completes w_own_key false Signals w_world w_stopping w_stopping_reachable)
      as (_ & _ & H & _); [discriminate | by split; [|left] | intros w; apply settles_Ret | exact H].
Defined.

Lemma stop_during_start_witness :
  exists n, w_reaches Signals n /\ nd_stopping n = DaemonStopped /\ nd_loop n = LSelect.
Proof.
  destruct (stop_during_start w_own_key Signals w_world w_world w_world)
    as (n & R & H1 & _ & H2 & _); [reflexivity | reflexivity|]. exists n. split; [exact R|]. by split.
Defined.

(** lnd closes the stream of messages. *)
Definition w_reporting : nodeState (W := ref_World) :=
  set_loop_at (w_serving CallsStop) (LReporting (EWrap "messages" ErrLNDShutdown)) w_world.

Lemma w_reporting_reachable : w_reaches CallsStop w_reporting.
Proof.
  eapply (node_next _ _ _ _ LndEnds); [apply w_serving_reachable|]. apply step_loop.
  set (err := EWrap "messages" ErrLNDShutdown).
  exact (loop_lnd_ends _ (w_serving CallsStop) EvMessagesClosed w_world
           (MkIteration (W := ref_World) ∅ None (Some err)) err eq_refl I eq_refl eq_refl).
Qed.

Lemma synchronous_shutdown_deadlocks_witness :
  exists n', loop_step w_own_key w_reporting Loop n'
    /\ nd_loop n' = LInStop (EWrap "messages" ErrLNDShutdown).
Proof.
  destruct (synchronous_shutdown_deadlocks w_own_key w_world w_reporting
              (EWrap "messages" ErrLNDShutdown) w_reporting_reachable) as [H _].
  destruct (H eq_refl eq_refl) as (n' & S & E & _). exists n'. by split.
Defined.
