(* ===== verification/Boltnd.v ===== *)
(** boltnd.go, config.go, the log.go files and rpcserver/macaroons.go: the
    configuration of the daemon, its start with retries of the connection to
    lnd, its stop, its loggers and the permissions of its calls. *)
From S2P Require Import Prelude Deps DepsRef Io LndDeps LndRef GoTime Stream Merkle Shared.
From S2P Require Import OnionPayload Routes Messenger MessengerSystem Rpc.

(** ** lndclient, lnd and the logger of btclog *)

(** verrpc.Version, and the fields of lndclient.LndServicesConfig that are set. *)
Record Version := MkVersion {
  AppMajor : Z;
  AppMinor : Z;
  AppPatch : Z;
  BuildTags : list gostring;
}.

Record LndServicesConfig := MkLndServicesConfig {
  LndAddress : gostring;
  MacaroonDir : gostring;
  CustomMacaroonPath : gostring;
  TLSPath : gostring;
  CheckVersion : option Version;
  BlockUntilChainSynced : bool;
  BlockUntilUnlocked : bool;
  Network : gostring;
}.

(** What is read of lnd's top level configuration. *)
Record lndBitcoin := MkLndBitcoin { MainNet : bool; TestNet3 : bool; RegTest : bool }.
Record lndConfig := MkLndConfig {
  RPCListeners : list gostring;
  AdminMacPath : gostring;
  TLSCertPath : gostring;
  Bitcoin : option lndBitcoin;
}.

(** lndclient, lnd's default directory and path/filepath, time.Sleep, and the
    registration of the generated server with grpc. *)
Class LndServices (W : Type) := {
  GrpcLndServices : Type;
  AssertVersionCompatible : Version -> Version -> outcome unit;
  NewLndServices : option LndServicesConfig -> io W GrpcLndServices;
  LndServices_Close : GrpcLndServices -> io W unit;
  NetworkMainnet : gostring;
  NetworkTestnet : gostring;
  NetworkRegtest : gostring;
  DefaultLndDir : gostring;
  filepath_Join : list gostring -> gostring;
  time_Sleep : Z -> io W unit;
  RegisterOffersServer : io W unit;
}.

(** A version is compatible with itself. *)
Class LndServicesLaws `{LndServices W} : Prop := {
  AssertVersionCompatible_refl v : AssertVersionCompatible v v = Ret tt;
}.

(** ** Loggers *)

(** The packages that have a variable [log]. *)
Inductive package := PkgBoltnd | PkgRpcserver | PkgOnionmsg | PkgOffers | PkgRoutes.
#[global] Instance package_eq_dec : EqDecision package.
Proof. solve_decision. Defined.

Definition Subsystem (p : package) : gostring :=
  match p with
  | PkgBoltnd => "B12-OFRS" | PkgRpcserver => "B12-RPCS" | PkgOnionmsg => "B12-OMS"
  | PkgOffers => "B12-OFR" | PkgRoutes => "B12-RTE"
  end.

(** The loggers, and the packages' variables. *)
Class Logs (W : Type) := {
  Logger : Type;
  btclog_Disabled : Logger;
  get_log : package -> W -> Logger;
  set_log : package -> Logger -> W -> W;
}.
Class LogsLaws `{Logs W} : Prop := {
  get_set_log p l w : get_log p (set_log p l w) = l;
  get_set_log_other p q l w : p <> q -> get_log p (set_log q l w) = get_log p w;
}.

Section Logging.
Context {W : Type} `{LO : !Logs W}.

(** A LogRegistration. *)
Definition LogRegistration : Type := Logger -> io W unit.

Definition UseLogger (p : package) : LogRegistration := fun logger w => (set_log p logger w, Ret tt).
Definition DisableLog (p : package) : io W unit := UseLogger p btclog_Disabled.
End Logging.

(** ** Configuration (config.go) *)

Section Config.
Context {W : Type} `{LS : !LndServices W, LO : !Logs W}.

Definition DefaultLNDRetries : Z := 4.
Definition DefaultLNDWait : Z := time_Second * 10.

Definition MinimumLNDVersion : Version := {|
  AppMajor := 0; AppMinor := 15; AppPatch := 0;
  BuildTags := ["signrpc"; "walletrpc"; "chainrpc"; "invoicesrpc"]%string;
|}.

Record Config := MkConfig {
  LndClientCfg : option LndServicesConfig;
  SetupLogger : option (gostring -> LogRegistration (W := W) -> io W unit);
  RequestShutdown : option (io W unit);
  LNDRetires : Z;
  LNDWait : Z;
}.

Definition DefaultConfig : Config := {|
  LndClientCfg := Some {|
    LndAddress := "localhost:10009";
    MacaroonDir := filepath_Join [DefaultLndDir; "data"; "chain"; "mainnet"]%string;
    CustomMacaroonPath := String.EmptyString;
    TLSPath := filepath_Join [DefaultLndDir; "tls.cert"%string];
    CheckVersion := Some MinimumLNDVersion;
    BlockUntilChainSynced := true;
    BlockUntilUnlocked := true;
    Network := "mainnet" |};
  SetupLogger := None;
  RequestShutdown := None;
  LNDRetires := DefaultLNDRetries;
  LNDWait := DefaultLNDWait;
|}.

(** (c Config).Validate *)
Definition Config_Validate (c : Config) : outcome unit :=
  match LndClientCfg c with
  | None => Err (ENew "lnd client config required")
  | Some client =>
      match CheckVersion client with
      | None => Err (ENew "lnd check version required")
      | Some version =>
          _ ← AssertVersionCompatible version MinimumLNDVersion;
          if bool_decide (LNDWait c < 0) then Err (ENew "wait must be > 0") else Ret tt
      end
  end.

(** A ConfigOption writes to the configuration, or fails. *)
Definition ConfigOption : Type := Config -> outcome Config.

Definition set_LndClientCfg (c : Config) (client : option LndServicesConfig) : Config :=
  {| LndClientCfg := client; SetupLogger := SetupLogger c; RequestShutdown := RequestShutdown c;
     LNDRetires := LNDRetires c; LNDWait := LNDWait c |}.

Definition OptionLNDConfig (cfg : option lndConfig) : ConfigOption := fun c =>
  cfg ← deref cfg;
  match RPCListeners cfg with
  | [] => Err (ENew "at least one rpc listener required")
  | listener :: _ =>
      let client network := {|
        LndAddress := listener; MacaroonDir := String.EmptyString; CustomMacaroonPath := AdminMacPath cfg;
        TLSPath := TLSCertPath cfg; CheckVersion := Some MinimumLNDVersion;
        BlockUntilChainSynced := true; BlockUntilUnlocked := true; Network := network |} in
      bitcoin ← deref (Bitcoin cfg);
      network ← (if MainNet bitcoin then Ret NetworkMainnet
                 else if TestNet3 bitcoin then Ret NetworkTestnet
                 else if RegTest bitcoin then Ret NetworkRegtest
                 else Err (ENew "only bitcoin mainnet/testnet/regtest supported"));
      Ret (set_LndClientCfg c (Some (client network)))
  end.

Definition OptionLNDClient (lndClientCfg : option LndServicesConfig) : ConfigOption := fun c =>
  Ret (set_LndClientCfg c lndClientCfg).

Definition OptionSetupLogger (setup : option (gostring -> LogRegistration (W := W) -> io W unit))
    : ConfigOption := fun c =>
  Ret {| LndClientCfg := LndClientCfg c; SetupLogger := setup;
         RequestShutdown := RequestShutdown c; LNDRetires := LNDRetires c; LNDWait := LNDWait c |}.

(** [addSubLogger] is lnd.AddSubLogger with lnd's root logger and interceptor. *)
Definition OptionLNDLogger (addSubLogger : gostring -> LogRegistration (W := W) -> io W unit)
    : ConfigOption := OptionSetupLogger (Some addSubLogger).

Definition OptionRequestShutdown (s : option (io W unit)) : ConfigOption := fun c =>
  Ret {| LndClientCfg := LndClientCfg c; SetupLogger := SetupLogger c;
         RequestShutdown := s; LNDRetires := LNDRetires c; LNDWait := LNDWait c |}.

Definition setupLoggers (cfg : Config) : io W unit :=
  match SetupLogger cfg with
  | None => mret tt
  | Some setup =>
      setup (Subsystem PkgBoltnd) (UseLogger PkgBoltnd) ;;
      setup (Subsystem PkgRpcserver) (UseLogger PkgRpcserver) ;;
      setup (Subsystem PkgOnionmsg) (UseLogger PkgOnionmsg) ;;
      setup (Subsystem PkgOffers) (UseLogger PkgOffers) ;;
      setup (Subsystem PkgRoutes) (UseLogger PkgRoutes)
  end.
End Config.
Arguments Config W {_}.
Arguments ConfigOption W {_}.

(** ** The daemon (boltnd.go) *)

Section Daemon.
Context {W : Type} `{LS : !LndServices W, LO : !Logs W}.
Context `{CR : Crypto, TL : !Tlv, LW : !Lndwire, SP : !Sphinx, SR : !SphinxRouter W,
  VX : !Vertices, LC : Lndclient, OL : !OnionLnd W, OS : !LndOnionSigner W, MO : MapOrder}.

Record Boltnd := MkBoltnd {
  bd_started : bool;
  bd_stopped : bool;
  bd_lnd : option GrpcLndServices;
  rpcServer : Server (W := W);
  bd_cfg : Config W;
}.

(** The loop over the options. *)
Fixpoint applyOptions (cfg : Config W) (opts : list (ConfigOption W)) : outcome (Config W) :=
  match opts with
  | [] => Ret cfg
  | opt :: rest =>
      cfg ← opaque "config option failed" (opt cfg);
      applyOptions cfg rest
  end.

Definition NewBoltnd (opts : list (ConfigOption W)) : io W Boltnd :=
  cfg ← pure (applyOptions DefaultConfig opts);
  pure (opaque "invalid config" (Config_Validate cfg)) ;;
  setupLoggers cfg ;;
  mret {| bd_started := false; bd_stopped := false; bd_lnd := None; rpcServer := NewServer;
          bd_cfg := cfg |}.

(** The loop of Start: what b.lnd and connErr are after it. *)
Fixpoint connect (cfg : Config W) (attempts : nat) (lnd : option GrpcLndServices)
    (connErr : option error) : io W (option GrpcLndServices * option error) :=
  match attempts with
  | O => mret (lnd, connErr)
  | S attempts =>
      attempt (NewLndServices (LndClientCfg cfg))
        (fun lnd => mret (Some lnd, None))
        (fun err => time_Sleep (LNDWait cfg) ;; connect cfg attempts None (Some err))
  end.

(** The bound of the loop: [int(b.cfg.LNDRetires+1)] for a uint8. *)
Definition maxAttempts (cfg : Config W) : nat := Z.to_nat (to_u8 (LNDRetires cfg + 1)).

(** (b Boltnd).Start; [router] is what the start of the messenger's router
    returns. *)
Definition Boltnd_Start (b : Boltnd) (router : outcome unit) (w : W) : W * (Boltnd * outcome unit) :=
  if bd_started b then (w, (b, Err (ENew "boltnd already started")))
  else
    let b' lnd srv := {| bd_started := true; bd_stopped := bd_stopped b; bd_lnd := lnd;
                         rpcServer := srv; bd_cfg := bd_cfg b |} in
    match connect (bd_cfg b) (maxAttempts (bd_cfg b)) (bd_lnd b) None w with
    | (w, Ret (lnd, Some connErr)) =>
        (w, (b' lnd (rpcServer b), Err (EWrap "could not connect to lnd" connErr)))
    | (w, Ret (lnd, None)) =>
        match deref lnd with
        | Ret _ =>
            let '(w, (srv, result)) := Server_Start (rpcServer b) router w in
            (w, (b' lnd srv, opaque "error starting rpcserver" result))
        | _ => (w, (b' lnd (rpcServer b), Panic "nil pointer dereference"))
        end
    | (w, Err e) => (w, (b' None (rpcServer b), Err e))
    | (w, Panic s) => (w, (b' None (rpcServer b), Panic s))
    | (w, Diverge) => (w, (b' None (rpcServer b), Diverge))
    end.

(** (b Boltnd).Stop *)
Definition Boltnd_Stop (b : Boltnd) (w : W) : W * (Boltnd * outcome unit) :=
  if bd_stopped b then (w, (b, Err (ENew "boltnd already stopped")))
  else
    let '(srv, result) := Server_Stop (rpcServer b) in
    let b' := {| bd_started := bd_started b; bd_stopped := true; bd_lnd := bd_lnd b;
                 rpcServer := srv; bd_cfg := bd_cfg b |} in
    match opaque "could not stop rpcserver" result with
    | Ret _ =>
        match bd_lnd b with
        | Some lnd => let '(w, result) := LndServices_Close lnd w in (w, (b', result))
        | None => (w, (b', Ret tt))
        end
    | failed => (w, (b', failed))
    end.

(** (b Boltnd).requestShutdown *)
Definition requestShutdown (b : Boltnd) (err : error) : io W unit :=
  match RequestShutdown (bd_cfg b) with
  | None => mret tt
  | Some shutdown => shutdown
  end.

(** (b Boltnd).RegisterGrpcSubserver *)
Definition RegisterGrpcSubserver (b : Boltnd) : io W unit := RegisterOffersServer.

(** (b Boltnd).ValidateMacaroon leaves the validation to lnd. *)
Definition ValidateMacaroon (b : Boltnd) : outcome unit := Ret tt.
End Daemon.
Arguments Boltnd W {_ _ _}.

(** ** Permissions (macaroons.go) *)

Record Op := MkOp { Entity : gostring; op_Action : gostring }.

Definition RPCServerPermissions : list (gostring * list Op) := [
  ("/offersrpc.Offers/SendOnionMessage"%string, [MkOp "peers" "write"]);
  ("/offersrpc.Offers/DecodeOffer"%string, [MkOp "offchain" "read"]);
  ("/offersrpc.Offers/SubscribeOnionPayload"%string, [MkOp "offchain" "read"]);
  ("/offersrpc.Offers/GenerateBlindedRoute"%string, [MkOp "offchain" "read"])
].

(** (b Boltnd).Permissions *)
Definition Permissions : list (gostring * list Op) := RPCServerPermissions.

(** ** Properties of the configuration *)

Section ConfigFacts.
Context {W : Type} `{LS : !LndServices W, LSL : !LndServicesLaws, LO : !Logs W, LOL : !LogsLaws}.

(** What Validate accepts. *)
Lemma Config_Validate_Ret (c : Config W) : Config_Validate c = Ret tt <->
  exists client version, LndClientCfg c = Some client /\ CheckVersion client = Some version
    /\ returns (AssertVersionCompatible version MinimumLNDVersion) /\ 0 <= LNDWait c.
Proof.
  unfold Config_Validate. destruct (LndClientCfg c) as [client|]; [|split; [done|]; by intros (? & ? & ? & _)].
  destruct (CheckVersion client) as [v|] eqn:Ev.
  2: { split; [done|]. intros (? & ? & [= <-] & ? & _). congruence. }
  split.
  - intros H. go_inv. case_bool_decide; [done|]. exists client, v. repeat split; [done|by eexists|lia].
  - intros (? & ? & [= <-] & Hv & [u Hu] & Hw). assert (v = x0) as <- by congruence.
    rewrite Hu. cbn. by rewrite bool_decide_false by lia.
Qed.

(** The network that lnd's configuration names. *)
Definition network_of (b : lndBitcoin) : option gostring :=
  if MainNet b then Some NetworkMainnet
  else if TestNet3 b then Some NetworkTestnet
  else if RegTest b then Some NetworkRegtest else None.

(** The option made from lnd's own configuration succeeds exactly when lnd
    has an rpc listener and is on one of three networks, mainnet first; the
    client is then that of the first listener, and the configuration is valid
    whatever it was before, as long as its wait is not negative.  Nothing
    else of the configuration changes. *)
Theorem OptionLNDConfig_spec (cfg : lndConfig) (b : lndBitcoin) (c : Config W) :
  Bitcoin cfg = Some b ->
  settles (OptionLNDConfig (Some cfg) c)
  /\ (returns (OptionLNDConfig (Some cfg) c) <-> RPCListeners cfg <> [] /\ network_of b <> None)
  /\ forall c', OptionLNDConfig (Some cfg) c = Ret c' ->
     exists client, LndClientCfg c' = Some client
       /\ head (RPCListeners cfg) = Some (LndAddress client)
       /\ network_of b = Some (Network client)
       /\ CustomMacaroonPath client = AdminMacPath cfg /\ TLSPath client = TLSCertPath cfg
       /\ SetupLogger c' = SetupLogger c /\ RequestShutdown c' = RequestShutdown c
       /\ LNDRetires c' = LNDRetires c /\ LNDWait c' = LNDWait c
       /\ (0 <= LNDWait c -> Config_Validate c' = Ret tt).
Proof.
  intros Hb. unfold OptionLNDConfig. cbn [deref mbind outcome_bind]. rewrite Hb.
  destruct (RPCListeners cfg) as [|l ls].
  { split; [apply settles_Err|]. split; [|done]. split; [by intros [? ?] | by intros [? _]]. }
  cbn [deref mbind outcome_bind]. unfold network_of.
  destruct (MainNet b); [|destruct (TestNet3 b); [|destruct (RegTest b)]]; cbn [mbind outcome_bind].
  4: { split; [apply settles_Err|]. split; [|done]. split; [by intros [? ?] | by intros [_ ?]]. }
  all: split; [apply settles_Ret|]; split; [split; [done | by eexists]|].
  all: intros c' [= <-]; eexists; split; [reflexivity|]; cbn; repeat (split; [done|]).
  all: intros Hw; rewrite AssertVersionCompatible_refl; cbn; by rewrite bool_decide_false by lia.
Qed.

(** With a function that registers the logger it makes for a prefix, the
    daemon's set up leaves each of the five packages with the logger made for
    its own subsystem, and the five prefixes are distinct. *)
Theorem setupLoggers_spec (c : Config W) (mk : gostring -> Logger) (w : W) :
  SetupLogger c = Some (fun prefix register => register (mk prefix)) ->
  exists w', setupLoggers c w = (w', Ret tt)
    /\ (forall p, get_log p w' = mk (Subsystem p))
    /\ (forall p q, Subsystem p = Subsystem q -> p = q).
Proof.
  intros H. unfold setupLoggers. rewrite H. eexists. split; [reflexivity|]. split.
  - intros p. destruct p; cbn [fst]; repeat rewrite get_set_log_other by done; apply get_set_log.
  - intros p q. by destruct p, q.
Qed.
End ConfigFacts.

(** ** Properties of the daemon *)

Section DaemonFacts.
Context {W : Type} `{LS : !LndServices W, LSL : !LndServicesLaws, LO : !Logs W}.
Context `{CR : Crypto, TL : !Tlv, LW : !Lndwire, SP : !Sphinx, SR : !SphinxRouter W,
  VX : !Vertices, LC : Lndclient, OL : !OnionLnd W, OS : !LndOnionSigner W, MO : MapOrder}.

(** [n] attempts to connect that fail, each followed by a wait; the last
    error. *)
Inductive unconnected (cfg : Config W) : nat -> W -> option error -> W -> Prop :=
| unconnected_O w : unconnected cfg 0 w None w
| unconnected_S n w1 last w2 w3 w4 err : unconnected cfg n w1 last w2 ->
    NewLndServices (LndClientCfg cfg) w2 = (w3, Err err) ->
    time_Sleep (LNDWait cfg) w3 = (w4, Ret tt) ->
    unconnected cfg (S n) w1 (Some err) w4.

Lemma connect_S cfg attempts lnd connErr w w1 w2 err :
  NewLndServices (LndClientCfg cfg) w = (w1, Err err) ->
  time_Sleep (LNDWait cfg) w1 = (w2, Ret tt) ->
  connect cfg (S attempts) lnd connErr w = connect cfg attempts None (Some err) w2.
Proof.
  intros Hn Hs. cbn [connect]. unfold attempt. rewrite Hn. by rewrite (io_bind_Ret _ _ _ _ _ Hs).
Qed.

Lemma connect_unconnected cfg n attempts w last w' : unconnected cfg n w last w' ->
  connect cfg (n + attempts) None None w = connect cfg attempts None last w'.
Proof.
  intros U. revert attempts. induction U as [w|n w1 last w2 w3 w4 err U IH Hn Hs]; intros attempts.
  - done.
  - replace (S n + attempts)%nat with (n + S attempts)%nat by lia. rewrite IH.
    by apply (connect_S _ _ _ _ _ w3).
Qed.

Lemma maxAttempts_spec cfg : 0 <= LNDRetires cfg < 255 ->
  maxAttempts cfg = S (Z.to_nat (LNDRetires cfg)).
Proof.
  intros H. unfold maxAttempts, to_u8. rewrite Z.mod_small by lia. lia.
Qed.

(** Start tries to connect to lnd at most LNDRetires + 1 times, for fewer
    than 255 retries, and waits after each attempt that fails.  When all of
    them fail the error wraps the last one and the server is not started; the
    first that succeeds ends the loop, and the server is started with what
    it connected to.  A second call of Start fails. *)
Theorem Boltnd_Start_spec (b : Boltnd W) (router : outcome unit) (w : W) :
  bd_started b = false -> bd_lnd b = None -> 0 <= LNDRetires (bd_cfg b) < 255 ->
  let retries := Z.to_nat (LNDRetires (bd_cfg b)) in
  (forall last w', unconnected (bd_cfg b) (S retries) w (Some last) w' ->
   exists b', Boltnd_Start b router w = (w', (b', Err (EWrap "could not connect to lnd" last)))
     /\ bd_lnd b' = None /\ rpcServer b' = rpcServer b /\ bd_started b' = true)
  /\ (forall n last w1 w2 lnd, (n <= retries)%nat -> unconnected (bd_cfg b) n w last w1 ->
      NewLndServices (LndClientCfg (bd_cfg b)) w1 = (w2, Ret lnd) ->
      exists b', Boltnd_Start b router w
        = ((Server_Start (rpcServer b) router w2).1,
           (b', opaque "error starting rpcserver" (Server_Start (rpcServer b) router w2).2.2))
        /\ bd_lnd b' = Some lnd /\ rpcServer b' = (Server_Start (rpcServer b) router w2).2.1
        /\ forall router' w', Boltnd_Start b' router' w'
            = (w', (b', Err (ENew "boltnd already started")))).
Proof.
  intros Hs Hl Hr retries. unfold Boltnd_Start at 1 2. rewrite Hs, Hl, (maxAttempts_spec _ Hr).
  fold retries. split.
  - intros last w' U. pose proof (connect_unconnected _ _ 0 _ _ _ U) as E. rewrite Nat.add_0_r in E.
    rewrite E. cbn. by eexists.
  - intros n last w1 w2 lnd Hn U Hc.
    assert (connect (bd_cfg b) (S retries) None None w = (w2, Ret (Some lnd, None))) as E.
    { replace (S retries) with (n + S (retries - n))%nat by lia.
      rewrite (connect_unconnected _ _ _ _ _ _ U). cbn [connect]. unfold attempt. by rewrite Hc. }
    rewrite E. cbn [deref]. destruct (Server_Start (rpcServer b) router w2) as [w3 [srv result]].
    by eexists.
Qed.

(** With 255 retries the bound of the loop wraps around to zero: Start makes
    no attempt to connect, takes the missing error for a success, and panics
    on the nil client.  Validate accepts the configuration. *)
Theorem Boltnd_Start_overflow (b : Boltnd W) (router : outcome unit) (w : W) :
  bd_started b = false -> bd_lnd b = None -> LNDRetires (bd_cfg b) = 255 ->
  (exists b', Boltnd_Start b router w = (w, (b', Panic "nil pointer dereference")))
  /\ (forall c : Config W, Config_Validate c = Ret tt ->
      Config_Validate {| LndClientCfg := LndClientCfg c; SetupLogger := SetupLogger c;
        RequestShutdown := RequestShutdown c; LNDRetires := 255; LNDWait := LNDWait c |} = Ret tt).
Proof.
  intros Hs Hl Hr. split; [|done]. unfold Boltnd_Start, maxAttempts. rewrite Hs, Hl, Hr. cbn.
  by eexists.
Qed.

(** NewBoltnd fails on the first option that fails and on a configuration
    that Validate refuses, and otherwise gives a daemon that is neither
    started nor stopped, with a new server and a valid configuration, after
    the loggers were set up; without options it succeeds. *)
Theorem NewBoltnd_spec (opts : list (ConfigOption W)) (w : W) :
  (forall w' b, NewBoltnd opts w = (w', Ret b) ->
     applyOptions DefaultConfig opts = Ret (bd_cfg b) /\ Config_Validate (bd_cfg b) = Ret tt
     /\ setupLoggers (bd_cfg b) w = (w', Ret tt)
     /\ bd_started b = false /\ bd_stopped b = false /\ bd_lnd b = None /\ rpcServer b = NewServer)
  /\ (forall e, applyOptions DefaultConfig opts = Err e -> NewBoltnd opts w = (w, Err e))
  /\ (forall c e, applyOptions DefaultConfig opts = Ret c -> Config_Validate c = Err e ->
      NewBoltnd opts w = (w, Err (ENew "invalid config")))
  /\ (opts = [] -> exists b, NewBoltnd opts w = (w, Ret b)).
Proof.
  unfold NewBoltnd. split; [|split; [|split]].
  - intros w' b H. io_inv. go_inv. destruct x0, x1. by injection H as <- <-.
  - intros e He. by rewrite (io_bind_Err _ _ w w e) by (by rewrite He).
  - intros c e Hc He. rewrite (io_bind_pure _ _ _ c) by done. by rewrite He.
  - intros ->. cbn [applyOptions]. rewrite (io_bind_pure _ _ _ DefaultConfig) by done.
    assert (Config_Validate (W := W) DefaultConfig = Ret tt) as ->; [|by eexists].
    apply Config_Validate_Ret. do 2 eexists. split; [reflexivity|]. split; [reflexivity|].
    split; [exists tt; apply AssertVersionCompatible_refl | done].
Qed.

(** *** The daemon's life *)

(** The code outside the repository that the daemon calls does not panic. *)
Record calm_daemon : Prop := {
  cd_connect cfg : calm (NewLndServices cfg);
  cd_sleep d : calm (time_Sleep d);
  cd_close l : calm (LndServices_Close l);
  cd_key : calm NewNodeECDH;
}.

(** Calls of Start and Stop on a new daemon, in any order and number; the last
    result. *)
Inductive daemon (cfg : Config W) : Boltnd W -> option (outcome unit) -> Prop :=
| daemon_new : daemon cfg {| bd_started := false; bd_stopped := false; bd_lnd := None;
                             rpcServer := NewServer; bd_cfg := cfg |} None
| daemon_start b r router w w' b' r' : daemon cfg b r -> settles router ->
    Boltnd_Start b router w = (w', (b', r')) -> daemon cfg b' (Some r')
| daemon_stop b r w w' b' r' : daemon cfg b r ->
    Boltnd_Stop b w = (w', (b', r')) -> daemon cfg b' (Some r').

Record daemon_ok (cfg : Config W) (b : Boltnd W) : Prop := {
  dk_cfg : bd_cfg b = cfg;
  dk_server : exists r, served (rpcServer b) r;
  dk_fresh : bd_started b = false -> bd_lnd b = None /\ sv_started (rpcServer b) = false;
  dk_started : sv_started (rpcServer b) = true -> bd_lnd b <> None;
  dk_stopped : sv_stopped (rpcServer b) = bd_stopped b;
}.

Lemma connect_calm cfg attempts lnd connErr : calm_daemon -> calm (connect cfg attempts lnd connErr).
Proof.
  intros C. revert lnd connErr. induction attempts as [|n IH]; intros lnd connErr; [apply calm_mret|].
  cbn [connect]. apply calm_attempt; [apply C | intros; apply calm_mret|]. intros err.
  apply calm_bind; [apply C | done].
Qed.

(** After at least one attempt there is a client or an error. *)
Lemma connect_result cfg attempts lnd connErr w w' lnd' err' :
  connect cfg attempts lnd connErr w = (w', Ret (lnd', err')) -> (0 < attempts)%nat ->
  err' = None -> lnd' <> None.
Proof.
  revert lnd connErr w. induction attempts as [|n IH]; intros lnd connErr w H Ha He; [lia|].
  cbn [connect] in H. unfold attempt in H. destruct (NewLndServices _ w) as [w1 [l|e|m|]]; try done.
  - injection H as _ <- _. done.
  - apply io_bind_Ret_inv in H as (w2 & u & _ & H). destruct n as [|n].
    + injection H as _ _ <-. done.
    + eapply IH; [exact H | lia | done].
Qed.

Lemma Server_Start_flags (s s' : Server (W := W)) router w w' r :
  Server_Start s router w = (w', (s', r)) -> sv_stopped s' = sv_stopped s
  /\ sv_started s' = true.
Proof.
  unfold Server_Start. destruct (sv_started s) eqn:E; [by intros [= _ <- _]|].
  destruct (iwrap _ NewNodeECDH w) as [w1 [key|e|m|]]; try by intros [= _ <- _].
  destruct (Start _ router) as [msgr result]. destruct (wrap _ result); try by intros [= _ <- _].
  by destruct (close_chan (ready s)); intros [= _ <- _].
Qed.

Lemma Server_Stop_flags (s s' : Server (W := W)) r :
  Server_Stop s = (s', r) -> sv_stopped s' = true /\ sv_started s' = sv_started s.
Proof.
  unfold Server_Stop. destruct (sv_stopped s) eqn:E; [by intros [= <- _]|].
  destruct (close_chan (sv_quit s)); try by intros [= <- _].
  destruct (onionMsgr s) as [m|]; [|by intros [= <- _]].
  destruct (Stop m). by intros [= <- _].
Qed.

Lemma daemon_start_ok cfg b router w w' b' r' :
  calm_daemon -> 0 <= LNDRetires cfg < 255 -> daemon_ok cfg b -> settles router ->
  Boltnd_Start b router w = (w', (b', r')) -> daemon_ok cfg b' /\ settles r'.
Proof.
  intros C Hret D Hr E. unfold Boltnd_Start in E. destruct (bd_started b) eqn:Es.
  { injection E as _ <- <-. split; [done | apply settles_Err]. }
  destruct D as [Hc [r Hv] Hf Hs Ht]. destruct (Hf Es) as [Hl Hsv].
  pose proof (connect_calm (bd_cfg b) (maxAttempts (bd_cfg b)) (bd_lnd b) None C w) as Cc.
  destruct (connect _ _ _ _ w) as [w1 [[lnd [err|]]|e|m|]] eqn:Ec.
  - injection E as _ <- <-. split; [|apply settles_Err]. constructor; cbn; try done; try by exists r.
    by rewrite Hsv.
  - assert (lnd <> None) as Hlnd.
    { eapply connect_result; [exact Ec | | done]. rewrite Hc, maxAttempts_spec by done. lia. }
    destruct lnd as [l|]; [|done]. cbn [deref] in E.
    destruct (Server_Start (rpcServer b) router w1) as [w2 [srv result]] eqn:Ev.
    injection E as _ <- <-. pose proof (Server_Start_flags _ _ _ _ _ _ Ev) as [F1 F2].
    assert (served srv (Some result)) as Hv'.
    { eapply served_start; [exact Hv | exact Hr | exact Ev | apply calm_iwrap, C]. }
    split; [|apply settles_opaque; by eapply served_ok].
    constructor; cbn; try done; [by eexists | by rewrite F1].
  - injection E as _ <- <-. split; [|apply settles_Err]. constructor; cbn; try done; try by exists r.
    by rewrite Hsv.
  - by destruct Cc as [[? ?]|[? ?]].
  - by destruct Cc as [[? ?]|[? ?]].
Qed.

Lemma daemon_stop_ok cfg b w w' b' r' : calm_daemon -> daemon_ok cfg b ->
  Boltnd_Stop b w = (w', (b', r')) -> daemon_ok cfg b' /\ settles r'.
Proof.
  intros C D E. unfold Boltnd_Stop in E. destruct (bd_stopped b) eqn:Es.
  { injection E as _ <- <-. split; [done | apply settles_Err]. }
  destruct D as [Hc [r Hv] Hf Hs Ht].
  destruct (Server_Stop (rpcServer b)) as [srv result] eqn:Ev.
  pose proof (Server_Stop_flags _ _ _ Ev) as [F1 F2].
  assert (served srv (Some result)) as Hv' by (eapply served_stop; [exact Hv | exact Ev]).
  pose proof (proj2 (served_ok _ _ Hv') _ eq_refl) as Hr.
  set (b1 := {| bd_started := bd_started b; bd_stopped := true; bd_lnd := bd_lnd b;
                rpcServer := srv; bd_cfg := bd_cfg b |}) in *.
  assert (daemon_ok cfg b1) as D1.
  { constructor; cbn; try done; [by eexists | | ]; rewrite F2; auto. }
  destruct Hr as [[u ->]|[e ->]]; cbn [opaque] in E.
  - destruct (bd_lnd b) as [l|].
    + pose proof (cd_close C l w) as Cl. destruct (LndServices_Close l w) as [w1 o].
      by injection E as _ <- <-.
    + injection E as _ <- <-. split; [done | apply settles_Ret].
  - injection E as _ <- <-. split; [done | apply settles_Err].
Qed.

Lemma daemon_reachable_ok cfg b r : calm_daemon -> 0 <= LNDRetires cfg < 255 -> daemon cfg b r ->
  daemon_ok cfg b /\ forall o, r = Some o -> settles o.
Proof.
  intros C Hret. induction 1 as [|b r router w w' b' r' _ [IH _] Hr E|b r w w' b' r' _ [IH _] E].
  - split; [|done]. constructor; cbn; try done. exists None. apply served_new.
  - destruct (daemon_start_ok _ _ _ _ _ _ _ C Hret IH Hr E). split; [done|]. by intros ? [= <-].
  - destruct (daemon_stop_ok _ _ _ _ _ _ C IH E). split; [done|]. by intros ? [= <-].
Qed.

(** C28: Whatever order and number of calls of Start and Stop a daemon sees,
    with fewer than 255 retries none of them panics.  A server that is ready
    has a connection to lnd, its messenger and its generator, in a daemon
    that was started; the server's quit channel is closed exactly when the
    daemon was stopped; and the first call of Stop on a daemon that is
    connected ends with the close of the connection. *)
Theorem daemon_lifecycle (cfg : Config W) (b : Boltnd W) (r : option (outcome unit)) :
  calm_daemon -> 0 <= LNDRetires cfg < 255 -> daemon cfg b r ->
  (forall o, r = Some o -> settles o)
  /\ (ready (rpcServer b) = true -> bd_started b = true /\ bd_lnd b <> None
      /\ onionMsgr (rpcServer b) <> None /\ routeGenerator (rpcServer b) <> None)
  /\ sv_quit (rpcServer b) = bd_stopped b
  /\ (forall w l, bd_stopped b = false -> bd_lnd b = Some l ->
      (Boltnd_Stop b w).1 = (LndServices_Close l w).1
      /\ (Boltnd_Stop b w).2.2 = (LndServices_Close l w).2).
Proof.
  intros C Hret D. destruct (daemon_reachable_ok _ _ _ C Hret D) as [[_ [rv Hv] Hf Hs Ht] Hr].
  destruct (served_ok _ _ Hv) as [[Hk Hfr Hq Hm] _].
  split; [done|]. split; [|split; [congruence|]].
  - intros (Es & Hg & m & Em & _)%Hk. split; [|split; [by apply Hs | split; [congruence|done]]].
    destruct (bd_started b) eqn:Eb; [done|]. destruct (Hf eq_refl). congruence.
  - intros w l Es El. unfold Boltnd_Stop. rewrite Es.
    destruct (Server_Stop (rpcServer b)) as [srv result] eqn:Ev.
    assert (result = Ret tt) as ->.
    { unfold Server_Stop in Ev. rewrite Ht, Es in Ev. rewrite Hq, Ht, Es in Ev. cbn [close_chan] in Ev.
      destruct (onionMsgr (rpcServer b)) as [m|] eqn:Em; [|by injection Ev as _ <-].
      unfold Stop in Ev. destruct (stopped m) eqn:Esm.
      - rewrite (Hm m eq_refl Esm) in Ht. congruence.
      - by injection Ev as _ <-. }
    cbn [opaque]. rewrite El. by destruct (LndServices_Close l w).
Qed.
End DaemonFacts.

(** ** Witnesses *)

(** lnd comes up when the peer of the world is connected, a wait at a time. *)
#[export] Instance w_LndServices : LndServices ref_World := {|
  GrpcLndServices := unit;
  AssertVersionCompatible v v' :=
    if bool_decide (AppMinor v' <= AppMinor v) then Ret tt else Err (EExt "version");
  NewLndServices _ w :=
    (w, match rw_connecting w with None => Ret tt | Some _ => Err (EExt "connection refused") end);
  LndServices_Close _ w := (w, Ret tt);
  NetworkMainnet := "mainnet";
  NetworkTestnet := "testnet";
  NetworkRegtest := "regtest";
  DefaultLndDir := "/root/.lnd";
  filepath_Join parts := String.concat "/" parts;
  time_Sleep _ w :=
    match rw_connecting w with
    | Some (S n, p) => (set_peers w (rw_peers w) (Some (n, p)), Ret tt)
    | Some (O, p) => (set_peers w (p :: rw_peers w) None, Ret tt)
    | None => (w, Ret tt)
    end;
  RegisterOffersServer w := (w, Ret tt);
|}.

#[export] Instance w_LndServicesLaws : LndServicesLaws (W := ref_World).
Proof. constructor. intros v. cbn. by rewrite bool_decide_true by lia. Qed.

#[export] Instance w_Logs : Logs ref_World := {|
  Logger := unit; btclog_Disabled := tt; get_log _ _ := tt; set_log _ _ w := w
|}.

(** Loggers that are their prefixes, in a world that is the packages' variables. *)
Definition log_World : Type := package -> gostring.
#[export] Instance w_log_Logs : Logs log_World := {|
  Logger := gostring;
  btclog_Disabled := String.EmptyString;
  get_log p w := w p;
  set_log p l w := fun q => if bool_decide (q = p) then l else w q;
|}.
#[export] Instance w_log_LogsLaws : LogsLaws (W := log_World).
Proof.
  constructor.
  - intros p l w. cbn. by rewrite bool_decide_true.
  - intros p q l w H. cbn. by rewrite bool_decide_false.
Qed.

Definition w_log_config : Config log_World :=
  {| LndClientCfg := None; SetupLogger := Some (fun prefix register => register prefix);
     RequestShutdown := None; LNDRetires := 0; LNDWait := 0 |}.

Lemma setupLoggers_spec_witness :
  exists w', setupLoggers w_log_config (fun _ => String.EmptyString) = (w', Ret tt)
    /\ get_log PkgRoutes w' = "B12-RTE"%string.
Proof.
  destruct (setupLoggers_spec w_log_config (fun prefix => prefix) (fun _ => String.EmptyString) eq_refl)
    as (w' & E & H & _).
  exists w'. split; [exact E | exact (H PkgRoutes)].
Defined.

Definition w_config : Config ref_World := DefaultConfig.
Definition w_lnd_config : lndConfig :=
  {| RPCListeners := ["localhost:10010"%string]; AdminMacPath := "admin.macaroon";
     TLSCertPath := "tls.cert"; Bitcoin := Some (MkLndBitcoin false true true) |}.

Lemma OptionLNDConfig_spec_witness :
  exists c' client, OptionLNDConfig (Some w_lnd_config) w_config = Ret c'
    /\ LndClientCfg c' = Some client /\ Network client = "testnet"%string
    /\ Config_Validate c' = Ret tt.
Proof.
  destruct (OptionLNDConfig_spec w_lnd_config (MkLndBitcoin false true true) w_config eq_refl)
    as (_ & [_ H1] & H2).
  destruct H1 as [c' E]; [by split|]. destruct (H2 c' E) as (client & Ec & _ & En & _ & _ & _ & _ & _ & _ & V).
  exists c', client. split; [exact E|]. split; [exact Ec|]. split; [by injection En|].
  apply V. vm_compute. discriminate.
Defined.

Definition w_boltnd (cfg : Config ref_World) : Boltnd ref_World :=
  {| bd_started := false; bd_stopped := false; bd_lnd := None; rpcServer := NewServer;
     bd_cfg := cfg |}.
Definition w_retries (n : Z) : Config ref_World :=
  {| LndClientCfg := LndClientCfg w_config; SetupLogger := None; RequestShutdown := None;
     LNDRetires := n; LNDWait := 1 |}.

(** lnd comes up after two waits, and two retries are enough; one is not. *)
Definition w_waits (connecting : option (nat * Peer)) (peers : list Peer) : ref_World :=
  w_dial peers connecting.

Lemma w_unconnected cfg : unconnected cfg 2 (w_waits (Some (1%nat, w_peer)) [])
  (Some (EExt "connection refused")) (w_waits None [w_peer]).
Proof.
  eapply unconnected_S; [eapply unconnected_S; [apply unconnected_O|..]|..]; reflexivity.
Qed.

Lemma Boltnd_Start_spec_witness :
  (exists b', Boltnd_Start (w_boltnd (w_retries 1)) (Ret tt) (w_waits (Some (1%nat, w_peer)) [])
    = (w_waits None [w_peer],
       (b', Err (EWrap "could not connect to lnd" (EExt "connection refused")))))
  /\ exists b', (Boltnd_Start (w_boltnd (w_retries 2)) (Ret tt) (w_waits (Some (1%nat, w_peer)) [])).2
     = (b', Ret tt) /\ ready (rpcServer b') = true.
Proof.
  split.
  - destruct (Boltnd_Start_spec (w_boltnd (w_retries 1)) (Ret tt) (w_waits (Some (1%nat, w_peer)) [])
                eq_refl eq_refl) as [H _]; [cbn; lia|].
    destruct (H (EExt "connection refused") (w_waits None [w_peer])) as (b' & E & _);
      [apply (w_unconnected (w_retries 1))|]. exists b'. exact E.
  - destruct (Boltnd_Start_spec (w_boltnd (w_retries 2)) (Ret tt) (w_waits (Some (1%nat, w_peer)) [])
                eq_refl eq_refl) as [_ H]; [cbn; lia|].
    destruct (H 2%nat _ _ (w_waits None [w_peer]) tt (Nat.le_refl 2) (w_unconnected (w_retries 2)) eq_refl)
      as (b' & E & _ & Es & _).
    exists b'. split; [by rewrite E | by rewrite Es].
Defined.

Lemma Boltnd_Start_overflow_witness :
  exists b', Boltnd_Start (w_boltnd (w_retries 255)) (Ret tt) w_world
    = (w_world, (b', Panic "nil pointer dereference")).
Proof.
  by apply (Boltnd_Start_overflow (w_boltnd (w_retries 255)) (Ret tt) w_world eq_refl eq_refl eq_refl).
Defined.

Lemma NewBoltnd_spec_witness :
  exists b, NewBoltnd [OptionLNDConfig (Some w_lnd_config)] w_world = (w_world, Ret b)
    /\ Config_Validate (bd_cfg b) = Ret tt.
Proof.
  destruct (NewBoltnd_spec [OptionLNDConfig (Some w_lnd_config)] w_world) as [H _].
  assert (exists b, NewBoltnd [OptionLNDConfig (Some w_lnd_config)] w_world = (w_world, Ret b))
    as [b E] by (eexists; reflexivity).
  exists b. split; [exact E|]. by apply (H _ _ E).
Defined.

Lemma w_calm_daemon : calm_daemon (W := ref_World).
Proof.
  constructor.
  - intros cfg w. cbn. destruct (rw_connecting w); [apply settles_Err | apply settles_Ret].
  - intros d w. cbn. destruct (rw_connecting w) as [[[|n] p]|]; apply settles_Ret.
  - intros l w. apply settles_Ret.
  - intros w. left. by eexists.
Qed.

Definition w_daemon : Boltnd ref_World :=
  (Boltnd_Start (w_boltnd (w_retries 2)) (Ret tt) w_world).2.1.

Lemma w_daemon_started : daemon (w_retries 2) w_daemon (Some (Ret tt)).
Proof.
  eapply (daemon_start _ (w_boltnd (w_retries 2)) None (Ret tt) w_world); [apply daemon_new| |reflexivity].
  left. by exists tt.
Qed.

Lemma daemon_lifecycle_witness :
  bd_lnd w_daemon <> None /\ onionMsgr (rpcServer w_daemon) <> None
  /\ (Boltnd_Stop w_daemon w_world).2.2 = Ret tt.
Proof.
  destruct (daemon_lifecycle (w_retries 2) w_daemon (Some (Ret tt)) w_calm_daemon) as (_ & H & _ & Hs);
    [cbn; lia | exact w_daemon_started |].
  destruct (H eq_refl) as (_ & Hl & Hm & _). split; [exact Hl|]. split; [exact Hm|].
  by apply (Hs w_world tt).
Defined.
