(* ===== verification/DaemonSystem.v ===== *)
(** The daemon as a concurrent system: Boltnd.Start, which tries to connect to lnd
    and waits in between before it starts the server, next to the node of
    NodeSystem.v and to Boltnd.Stop, which may come at any time. *)
From S2P Require Import Prelude Deps DepsRef Io LndDeps LndRef GoTime Stream Merkle Shared.
From S2P Require Import RouteBlinding OnionMessages OnionPayload Routes Messenger MessengerSystem Rpc.
From S2P Require Import Subscription NodeSystem NodeShutdown Boltnd.

(** ** The state *)

Section System.
Context {W : Type} `{LS : !LndServices W, LO : !Logs W}.
Context `{CR : Crypto, TL : !Tlv, LW : !Lndwire, SP : !Sphinx, SR : !SphinxRouter W,
  VX : !Vertices, LC : Lndclient, OL : !OnionLnd W, OS : !LndOnionSigner W, MO : MapOrder}.
Context (nodeKey : SingleKeyECDH W) (cfg : Config W).

(** Where Boltnd.Start is: before it; at the head of its loop with so many
    attempts left and the last error; in the sleep after an attempt that failed;
    past the loop, connected; returned without a connection; panicked on a nil
    client. *)
Inductive connState :=
| NotConnecting
| Trying (attempts : nat) (connErr : option error)
| Sleeping (attempts : nat) (connErr : error)
| Connected
| GaveUp (connErr : error)
| Crashed.

(** The field lnd; what Stop found when it looked whether it is nil; the
    connections that were closed; and the node. *)
Record daemonState := MkDaemonState {
  dm_conn : connState;
  dm_lnd : option GrpcLndServices;
  dm_checked : option bool;
  dm_closed : list GrpcLndServices;
  dm_node : nodeState (W := W);
}.

Definition new_daemon (c : closure) (w : W) : daemonState :=
  {| dm_conn := NotConnecting; dm_lnd := None; dm_checked := None; dm_closed := [];
     dm_node := new_node c w |}.

Definition set_world (n : nodeState (W := W)) (w : W) : nodeState := set_loop_at n (nd_loop n) w.

Definition set_conn (d : daemonState) (s : connState) (lnd : option GrpcLndServices) (w : W)
    : daemonState :=
  {| dm_conn := s; dm_lnd := lnd; dm_checked := dm_checked d; dm_closed := dm_closed d;
     dm_node := set_world (dm_node d) w |}.

Definition set_node (d : daemonState) (n : nodeState) : daemonState :=
  {| dm_conn := dm_conn d; dm_lnd := dm_lnd d; dm_checked := dm_checked d;
     dm_closed := dm_closed d; dm_node := n |}.

(** [b.lnd != nil] in Stop. *)
Definition check_lnd (d : daemonState) : daemonState :=
  {| dm_conn := dm_conn d; dm_lnd := dm_lnd d; dm_checked := Some (is_some (dm_lnd d));
     dm_closed := dm_closed d; dm_node := dm_node d |}.

(** The last step of Boltnd.Stop. *)
Definition closes (n n' : nodeState (W := W)) : Prop :=
  nd_stopping n = ServerStopped /\ nd_stopping n' = DaemonStopped.

Definition stop_returns (n : nodeState (W := W)) (w : W) : nodeState :=
  set_stopping (set_world n w) DaemonStopped (nd_quit n).

(** ** The steps *)

Definition dm_world (d : daemonState) : W := nd_world (dm_node d).

(** Boltnd.Start up to its call of Server.Start. *)
Inductive conn_step : daemonState -> daemonState -> Prop :=
| conn_begin d : dm_conn d = NotConnecting ->
    conn_step d (set_conn d (Trying (maxAttempts cfg) None) (dm_lnd d) (dm_world d))
| conn_success d attempts connErr lnd w : dm_conn d = Trying (S attempts) connErr ->
    NewLndServices (LndClientCfg cfg) (dm_world d) = (w, Ret lnd) ->
    conn_step d (set_conn d Connected (Some lnd) w)
| conn_failure d attempts connErr err w : dm_conn d = Trying (S attempts) connErr ->
    NewLndServices (LndClientCfg cfg) (dm_world d) = (w, Err err) ->
    conn_step d (set_conn d (Sleeping attempts err) None w)
| conn_slept d attempts connErr w : dm_conn d = Sleeping attempts connErr ->
    time_Sleep (LNDWait cfg) (dm_world d) = (w, Ret tt) ->
    conn_step d (set_conn d (Trying attempts (Some connErr)) (dm_lnd d) w)
| conn_gives_up d connErr : dm_conn d = Trying 0 (Some connErr) ->
    conn_step d (set_conn d (GaveUp connErr) (dm_lnd d) (dm_world d))
| conn_no_attempt d : dm_conn d = Trying 0 None -> dm_lnd d = None ->
    conn_step d (set_conn d Crashed None (dm_world d)).

(** The server is started once; everything else of the node goes on meanwhile,
    in a process that is alive.  The end of Stop, once the server is stopped, is
    its look at the field lnd, and then the close and the return, or only the
    return: Start may connect in between. *)
Inductive daemon_step : daemonState -> daemonState -> Prop :=
| daemon_connects d d' : conn_step d d' -> daemon_step d d'
| daemon_serves d n' : dm_conn d = Connected -> node_step nodeKey (dm_node d) Starts n' ->
    daemon_step d (set_node d n')
| daemon_runs d l n' : dm_conn d <> Crashed -> l <> Starts -> node_step nodeKey (dm_node d) l n' ->
    ~ closes (dm_node d) n' -> daemon_step d (set_node d n')
| daemon_checks d : dm_conn d <> Crashed -> nd_stopping (dm_node d) = ServerStopped ->
    dm_checked d = None -> daemon_step d (check_lnd d)
| daemon_closes d lnd w : dm_conn d <> Crashed -> nd_stopping (dm_node d) = ServerStopped ->
    dm_checked d = Some true -> dm_lnd d = Some lnd ->
    LndServices_Close lnd (dm_world d) = (w, Ret tt) ->
    daemon_step d {| dm_conn := dm_conn d; dm_lnd := dm_lnd d; dm_checked := dm_checked d;
                     dm_closed := dm_closed d ++ [lnd]; dm_node := stop_returns (dm_node d) w |}
| daemon_no_lnd d : dm_conn d <> Crashed -> nd_stopping (dm_node d) = ServerStopped ->
    dm_checked d = Some false -> daemon_step d (set_node d (stop_returns (dm_node d) (dm_world d))).

Inductive daemon_reachable (c : closure) (w : W) : daemonState -> Prop :=
| daemon_init : daemon_reachable c w (new_daemon c w)
| daemon_next d d' : daemon_reachable c w d -> daemon_step d d' -> daemon_reachable c w d'.
End System.
Arguments daemonState W {_ _}.

(** ** The node, and the loop of Start *)

Section Projection.
Context {W : Type} `{LS : !LndServices W, LO : !Logs W}.
Context `{CR : Crypto, TL : !Tlv, LW : !Lndwire, SP : !Sphinx, SR : !SphinxRouter W,
  VX : !Vertices, LC : Lndclient, OL : !OnionLnd W, OS : !LndOnionSigner W, MO : MapOrder}.
Context (nodeKey : SingleKeyECDH W) (cfg : Config W).

Lemma set_world_same (n : nodeState (W := W)) : set_world n (nd_world n) = n.
Proof. by destruct n. Qed.

Lemma closes_step (n : nodeState (W := W)) w : nd_stopping n = ServerStopped ->
  node_step nodeKey n Server (stop_returns n w).
Proof. intros H. apply step_server. by apply (srv_close_lnd _ n w). Qed.

(** What moves of a node whose server was not started does not look at the
    world. *)
Lemma unstarted_step (n n' : nodeState (W := W)) l w : node_ok n -> nd_starting n = NotStarting ->
  l <> Starts -> node_step nodeKey n l n' ->
  nd_starting n' = NotStarting
  /\ node_step nodeKey (set_world n w) l (set_world n' w)
  /\ (~ closes n n' -> nd_world n' = nd_world n).
Proof.
  intros O Hs Hl S. assert (nd_loop n = LNotStarted) as Hloop.
  { pose proof (proj1 (no_serving _ O)) as K. rewrite Hs in K.
    destruct (nd_loop n); [done|..]; by discriminate K. }
  destruct S as [n l n' S|n l n' S|id n l n' S].
  - destruct S as [n H|n w' H|n w' e H|n H|n H|n H|n H Hm|n H Hm|n H Hw|n w' H]; try congruence;
      (split; [done|]); (split; [apply step_server | intros Hc]); try done.
    + by apply (srv_stop _ (set_world n w)).
    + by apply (srv_stop_messenger _ (set_world n w)).
    + by apply (srv_no_messenger _ (set_world n w)).
    + by apply (srv_waited _ (set_world n w)).
    + by apply (srv_close_lnd _ (set_world n w) w).
    + by destruct Hc.
  - destruct S; congruence.
  - split; [by destruct S|]. split; [apply (step_of_call _ id) | by destruct S].
    destruct S as [n t Hc|n c e Hc Hd|n c e Hc Hst Hd|n c e Hc Hst Hss E|n c t Hc Hst Hss E
      |n c Hc Hst|n c e Hc Hst|n c Hc Hst Hq|n c msg rest Hc Hst Hi|n c msg result Hc Hst|n c e Hc Hst Hd
      |n c Hc Hst Hq|n c e answer Hc Hst|n c e Hc Hst Hq].
    + by apply (call_new _ (set_world n w)).
    + by apply (call_cancelled _ (set_world n w)).
    + by apply (call_not_ready _ (set_world n w) c e).
    + congruence.
    + congruence.
    + by apply (call_registered _ (set_world n w)).
    + by apply (call_refused _ (set_world n w) c e).
    + by apply (call_abandoned _ (set_world n w)).
    + by apply (call_receive _ (set_world n w)).
    + by apply (call_sent _ (set_world n w)).
    + by apply (call_client_gone _ (set_world n w) c e).
    + by apply (call_server_quit _ (set_world n w)).
    + by apply (call_deregistered _ (set_world n w) c e answer).
    + by apply (call_dereg_abandoned _ (set_world n w)).
Qed.

(** What the loop of Start has yet to do. *)
Definition remaining (s : connState) : io W (option GrpcLndServices * option error) :=
  match s with
  | NotConnecting => connect cfg (maxAttempts cfg) None None
  | Trying attempts connErr => connect cfg attempts None connErr
  | Sleeping attempts connErr => time_Sleep (LNDWait cfg) ;; connect cfg attempts None (Some connErr)
  | Connected => mret (None, None)
  | GaveUp connErr => mret (None, Some connErr)
  | Crashed => mret (None, None)
  end.

(** While Start is in its loop the node is one that nobody started, in whatever
    world. *)
Record connecting (c : closure) (w0 : W) (d : daemonState W) : Prop := {
  ct_unstarted : nd_starting (dm_node d) = NotStarting;
  ct_node : forall w, node_reachable nodeKey c w (set_world (dm_node d) w);
  ct_lnd : dm_lnd d = None /\ dm_closed d = [];
  ct_loop : remaining (dm_conn d) (dm_world d) = connect cfg (maxAttempts cfg) None None w0;
}.

Definition connected (c : closure) (w0 : W) (d : daemonState W) : Prop :=
  exists w lnd, connect cfg (maxAttempts cfg) None None w0 = (w, Ret (Some lnd, None))
    /\ dm_lnd d = Some lnd /\ node_reachable nodeKey c w (dm_node d).

Lemma connecting_ok c w0 d : connecting c w0 d -> node_ok (dm_node d).
Proof.
  intros C. pose proof (ct_node _ _ _ C (dm_world d)) as R. unfold dm_world in R.
  rewrite set_world_same in R. by eapply node_reachable_ok.
Qed.

Definition daemon_inv (c : closure) (w0 : W) (d : daemonState W) : Prop :=
  match dm_conn d with Connected => connected c w0 d | _ => connecting c w0 d end.

Lemma connecting_inv c w0 d : dm_conn d <> Connected -> daemon_inv c w0 d <-> connecting c w0 d.
Proof. unfold daemon_inv. by destruct (dm_conn d). Qed.

Lemma connected_inv c w0 d : dm_conn d = Connected -> daemon_inv c w0 d <-> connected c w0 d.
Proof. unfold daemon_inv. by intros ->. Qed.

Lemma conn_step_inv c w0 d d' : daemon_inv c w0 d -> conn_step cfg d d' -> daemon_inv c w0 d'.
Proof.
  intros I S. assert (connecting c w0 d) as C.
  { apply connecting_inv; [|done]. by destruct S; congruence. }
  destruct C as [Cu Cn Cl Cr].
  destruct S as [d H|d left ce lnd w H E|d left ce err w H E|d left ce w H E|d ce H|d H Hl];
    unfold daemon_inv; cbn; rewrite H in Cr; cbn [remaining] in Cr.
  2: { exists w, lnd. split; [|by split].
       rewrite <- Cr. cbn [connect]. unfold attempt. by rewrite E. }
  all: constructor; try done; try (split; [done | apply Cl]);
    cbn [set_conn dm_conn dm_world dm_node set_world nd_world remaining].
  - rewrite <- Cr. cbn [connect]. unfold attempt. by rewrite E.
  - by rewrite <- Cr, (io_bind_Ret _ _ _ _ _ E).
Qed.

Lemma stopped_stays n l n' : nd_stopping n = DaemonStopped -> node_step nodeKey n l n' ->
  nd_stopping n' = DaemonStopped.
Proof.
  intros Hs S. destruct S as [n l n' S|n l n' S|id n l n' S]; destruct S; cbn; congruence.
Qed.

Lemma connected_node c w0 d l n' : connected c w0 d -> node_step nodeKey (dm_node d) l n' ->
  connected c w0 (set_node d n').
Proof.
  intros (w & lnd & E & Hl & R) S. exists w, lnd. split; [done|]. split; [done|].
  by eapply node_next.
Qed.

Lemma connecting_node c w0 d l n' : connecting c w0 d -> l <> Starts ->
  node_step nodeKey (dm_node d) l n' -> nd_world n' = dm_world d -> connecting c w0 (set_node d n').
Proof.
  intros C Hl S Hw. pose proof (connecting_ok _ _ _ C) as O. destruct C as [Cu Cn Cl Cr].
  assert (forall w, nd_starting n' = NotStarting
    /\ node_step nodeKey (set_world (dm_node d) w) l (set_world n' w)) as K.
  { intros w. by destruct (unstarted_step _ _ _ w O Cu Hl S) as (? & ? & _). }
  constructor; [apply (K (dm_world d)) | | done |].
  - intros w. eapply node_next; [apply (Cn w) | apply K].
  - rewrite <- Cr. unfold dm_world. cbn. by rewrite Hw.
Qed.

Lemma daemon_step_inv c w0 d d' : daemon_inv c w0 d -> daemon_step nodeKey cfg d d' ->
  daemon_inv c w0 d'.
Proof.
  intros I S. destruct S as [d d' S|d n' Hc S|d l n' Hc Hl S Hn|d Hc Hs Hk|d lnd w Hc Hs Hk Hlnd E|d Hc Hs Hk].
  - by eapply conn_step_inv.
  - apply connected_inv in I; [|done]. apply connected_inv; [done|]. by eapply connected_node.
  - unfold daemon_inv in *. cbn [set_node dm_conn].
    destruct (dm_conn d); try done; try (by eapply connected_node);
      destruct (unstarted_step _ _ _ (dm_world d) (connecting_ok _ _ _ I) (ct_unstarted _ _ _ I) Hl S)
        as (_ & _ & Hw); eapply connecting_node; eauto.
  - unfold daemon_inv in *. cbn [check_lnd dm_conn].
    destruct (dm_conn d) eqn:Ed; try exact I; destruct I as [Cu Cn Cl Cr]; constructor; try done;
      cbn [check_lnd dm_conn]; by rewrite Ed in *.
  - unfold daemon_inv in *. cbn [dm_conn].
    destruct (dm_conn d); try done; try (destruct (ct_lnd _ _ _ I); congruence).
    destruct I as (w' & lnd' & E' & Hl' & R).
    exists w', lnd'. split; [done|]. split; [done|]. eapply node_next; [exact R|].
    by apply closes_step.
  - pose proof (closes_step (dm_node d) (dm_world d) Hs) as S. unfold daemon_inv in *.
    cbn [set_node dm_conn]. destruct (dm_conn d); try done; try (by eapply connected_node);
      by apply (connecting_node _ _ _ Server).
Qed.

Lemma daemon_reachable_inv c w0 d : daemon_reachable nodeKey cfg c w0 d -> daemon_inv c w0 d.
Proof.
  induction 1 as [|d d' R IH S]; [|by eapply daemon_step_inv].
  constructor; try done. intros w. apply node_init.
Qed.
End Projection.

(** ** Properties *)

Section Daemon.
Context {W : Type} `{LS : !LndServices W, LO : !Logs W}.
Context `{CR : Crypto, TL : !Tlv, LW : !Lndwire, SP : !Sphinx, SR : !SphinxRouter W,
  VX : !Vertices, LC : Lndclient, OL : !OnionLnd W, OS : !LndOnionSigner W, MO : MapOrder}.
Context (nodeKey : SingleKeyECDH W) (cfg : Config W).

(** C29: Whatever the calls, the messages and a Stop do meanwhile, Start connects
    the way its loop does alone: it is past the loop with the client that the
    loop gives, or has given up with its error; the server is not started before;
    and once it is, the node is one of NodeSystem.v from the world in which the
    loop left lnd, so that all that is proved of it holds in the daemon.  With
    fewer than 255 retries Start does not panic. *)
Theorem daemon_refinement c w0 d : daemon_reachable nodeKey cfg c w0 d ->
  (dm_conn d = Connected -> exists w lnd,
     connect cfg (maxAttempts cfg) None None w0 = (w, Ret (Some lnd, None))
     /\ dm_lnd d = Some lnd /\ node_reachable nodeKey c w (dm_node d))
  /\ (forall err, dm_conn d = GaveUp err ->
      connect cfg (maxAttempts cfg) None None w0 = (dm_world d, Ret (None, Some err))
      /\ dm_lnd d = None)
  /\ (dm_conn d <> Connected -> nd_starting (dm_node d) = NotStarting
      /\ forall w, node_reachable nodeKey c w (set_world (dm_node d) w))
  /\ (0 <= LNDRetires cfg < 255 -> dm_conn d <> Crashed).
Proof.
  intros I%daemon_reachable_inv. split; [|split; [|split]].
  - intros Hc. by apply connected_inv in I.
  - intros err Hc. apply connecting_inv in I as [_ _ [? _] <-]; [|congruence]. by rewrite Hc.
  - intros Hc. by apply connecting_inv in I as [? ? _ _].
  - intros Hr Hc. apply connecting_inv in I as [_ _ _ E]; [|congruence]. rewrite Hc in E. symmetry in E.
    eapply connect_result in E; [done| |done]. rewrite maxAttempts_spec by done. lia.
Qed.

(** *** The check of Stop *)

Lemma stops_by_close n l n' : node_step nodeKey n l n' ->
  nd_stopping n' = DaemonStopped -> nd_stopping n = DaemonStopped \/ closes n n' /\ l = Server.
Proof.
  intros S. destruct S as [n l n' S|n l n' S|id n l n' S]; destruct S; cbn; auto; try done.
  intros _. right. by repeat split.
Qed.

Lemma server_stopped_stays n l n' : nd_stopping n = ServerStopped -> node_step nodeKey n l n' ->
  ~ closes n n' -> nd_stopping n' = ServerStopped.
Proof.
  intros Hs S Hn. destruct S as [n l n' S|n l n' S|id n l n' S]; destruct S; cbn in *; try congruence.
  by destruct Hn.
Qed.

(** A Stop past its end left no quit channel to close. *)
Lemma past_stop_step n l n' : nd_quit n = false ->
  nd_stopping n = ServerStopped \/ nd_stopping n = DaemonStopped ->
  node_step nodeKey n l n' -> nd_quit n' = false.
Proof.
  intros Hq Hs S. destruct S as [n l n' S|n l n' S|id n l n' S]; destruct S; cbn;
    try done; destruct Hs; congruence.
Qed.

(** What Stop's look at the connection leads to. *)
Definition check_ok (d : daemonState W) : Prop :=
  match dm_checked d with
  | None => nd_stopping (dm_node d) <> DaemonStopped /\ dm_closed d = []
  | Some true => exists lnd, dm_lnd d = Some lnd /\ dm_conn d = Connected
      /\ (nd_stopping (dm_node d) = ServerStopped /\ dm_closed d = []
          \/ nd_stopping (dm_node d) = DaemonStopped /\ dm_closed d = [lnd])
  | Some false =>
      (nd_stopping (dm_node d) = ServerStopped \/ nd_stopping (dm_node d) = DaemonStopped)
      /\ nd_quit (dm_node d) = false /\ dm_closed d = []
  end.

Lemma node_stop_stays (d : daemonState W) l n' : node_step nodeKey (dm_node d) l n' ->
  ~ closes (dm_node d) n' ->
  (nd_stopping (dm_node d) = ServerStopped -> nd_stopping n' = ServerStopped)
  /\ (nd_stopping n' = DaemonStopped <-> nd_stopping (dm_node d) = DaemonStopped).
Proof.
  intros S Hn. split; [by intros Hs; eapply server_stopped_stays|]. split.
  - intros Hs. by destruct (stops_by_close _ _ _ S Hs) as [?|[? _]].
  - intros Hs. by eapply stopped_stays.
Qed.

Lemma check_ok_node d l n' : check_ok d -> node_step nodeKey (dm_node d) l n' ->
  ~ closes (dm_node d) n' -> check_ok (set_node d n').
Proof.
  intros K S Hn. destruct (node_stop_stays d l n' S Hn) as [H1 H2].
  unfold check_ok in *. cbn [set_node dm_checked dm_node dm_lnd dm_conn dm_closed].
  destruct (dm_checked d) as [[|]|].
  - destruct K as (lnd & Hl & Hc & [[Hs Hcl]|[Hs Hcl]]); exists lnd; do 2 (split; [done|]);
      [left; auto | right; split; [by apply H2 | done]].
  - destruct K as (Hs & Hq & Hcl). split; [|split; [by eapply past_stop_step | done]].
    destruct Hs as [Hs|Hs]; [left; auto | right; by apply H2].
  - destruct K as [Hs Hcl]. split; [by rewrite H2 | done].
Qed.

Lemma check_ok_step c w0 d d' : daemon_inv nodeKey cfg c w0 d -> check_ok d ->
  daemon_step nodeKey cfg d d' -> check_ok d'.
Proof.
  intros I K S.
  destruct S as [d d' S|d n' Hc S|d l n' Hc Hl S Hn|d Hc Hs Hk|d lnd w Hc Hs Hk Hlnd E|d Hc Hs Hk].
  - assert (dm_conn d <> Connected) as Hn by (by destruct S; congruence).
    unfold check_ok in *. destruct S; cbn [set_conn dm_checked dm_lnd dm_conn dm_node dm_closed];
      destruct (dm_checked d) as [[|]|]; try exact K; by destruct K as (? & _ & ? & _).
  - eapply check_ok_node; [done|exact S|]. intros [Hs Hs'].
    destruct (stops_by_close _ _ _ S Hs') as [?|[_ ?]]; congruence.
  - by eapply check_ok_node.
  - unfold check_ok in *. rewrite Hk in K. destruct K as [_ Hcl]. cbn [check_lnd dm_checked dm_lnd].
    destruct (dm_lnd d) as [lnd|] eqn:El; cbn [is_some].
    + exists lnd. split; [done|]. split; [|by left].
      cbn [check_lnd dm_conn]. destruct (dm_conn d) eqn:Ec; [| | |done..| |]; exfalso;
        apply connecting_inv in I; try congruence; destruct (ct_lnd _ _ _ _ _ I); congruence.
    + split; [by left|]. split; [|done].
      assert (dm_conn d <> Connected) as Hn.
      { intros Hn. apply connected_inv in I as (? & ? & _ & ? & _); [|done]. congruence. }
      apply connecting_inv in I; [|done]. pose proof (connecting_ok _ _ _ _ _ I) as O.
      cbn [check_lnd dm_node]. destruct (nd_quit (dm_node d)) eqn:E; [|done].
      destruct (no_quit _ O E) as (_ & _ & Kq). by rewrite (ct_unstarted _ _ _ _ _ I) in Kq.
  - unfold check_ok in *. cbn [dm_checked dm_lnd dm_conn dm_node dm_closed]. rewrite Hk in *.
    destruct K as (lnd' & Hl & Hcc & [[_ Hcl]|[? _]]); [|congruence]. exists lnd. split; [done|].
    split; [done|]. right. by rewrite Hcl.
  - unfold check_ok in *. cbn [set_node dm_checked dm_node dm_closed]. rewrite Hk in *.
    destruct K as (_ & Hq & Hcl). split; [by right|]. by split.
Qed.

Lemma daemon_reachable_check c w0 d : daemon_reachable nodeKey cfg c w0 d -> check_ok d.
Proof.
  induction 1 as [|d d' R IH S]; [done|].
  eapply check_ok_step; [by apply daemon_reachable_inv | done | done].
Qed.

(** What Stop found does not change. *)
Lemma checked_step d d' b : daemon_step nodeKey cfg d d' -> dm_checked d = Some b ->
  dm_checked d' = Some b.
Proof. intros S. destruct S as [d d' S| | | | |]; cbn; try congruence. by destruct S. Qed.

Definition daemon_steps : daemonState W -> daemonState W -> Prop := rtc (daemon_step nodeKey cfg).

Lemma reachable_steps c w0 d d' : daemon_reachable nodeKey cfg c w0 d -> daemon_steps d d' ->
  daemon_reachable nodeKey cfg c w0 d'.
Proof. intros R S. induction S as [|d1 d2 d3 S _ IH]; [done|]. by eapply IH, daemon_next. Qed.

(** *** A Stop after the connection *)

(** The connection is closed by the Stop that returned, and once. *)
Definition closed_by (s : stopState) (lnd : GrpcLndServices) : list GrpcLndServices :=
  match s with DaemonStopped => [lnd] | _ => [] end.

(** Connected, and not after a Stop that found no connection. *)
Definition holds_lnd (lnd : GrpcLndServices) (d : daemonState W) : Prop :=
  dm_conn d = Connected /\ dm_lnd d = Some lnd /\ dm_checked d <> Some false.

Lemma holds_lnd_step lnd d d' : holds_lnd lnd d -> daemon_step nodeKey cfg d d' -> holds_lnd lnd d'.
Proof.
  intros (Hc & Hl & Hk) S. destruct S as [d d' S| | |d| |]; try done; [by destruct S; congruence|].
  split; [done|]. split; [done|]. cbn. by rewrite Hl.
Qed.

Lemma holds_lnd_closed lnd d : holds_lnd lnd d -> check_ok d ->
  dm_closed d = closed_by (nd_stopping (dm_node d)) lnd.
Proof.
  intros (Hc & Hl & Hk) K. unfold check_ok in K. destruct (dm_checked d) as [[|]|]; [|done|].
  - destruct K as (lnd' & Hl' & _ & [[-> ->]|[-> ->]]); [done|]. cbn. congruence.
  - destruct K as [Hs ->]. by destruct (nd_stopping (dm_node d)).
Qed.

(** The steps of the node's goroutines and of Stop in the daemon. *)
Definition daemon_own (sends : bool) (d d' : daemonState W) : Prop :=
  daemon_step nodeKey cfg d d'
  /\ (d' = check_lnd d \/ progress nodeKey sends (dm_node d) (dm_node d')).

Lemma daemon_own_steps sends d d' : rtc (daemon_own sends) d d' -> daemon_steps d d'.
Proof. intros R. eapply rtc_subrel; [|exact R]. by intros x y []. Qed.

Lemma daemon_progress sends lnd d n1 : holds_lnd lnd d -> check_ok d ->
  progress nodeKey sends (dm_node d) n1 ->
  (forall w, exists w', LndServices_Close lnd w = (w', Ret tt)) ->
  exists d', rtc (daemon_own sends) d d' /\ progress nodeKey sends (dm_node d) (dm_node d').
Proof.
  intros (Hc & Hl & Hk) K (l & Ho & S) Hclose.
  assert (dm_conn d <> Crashed) as Hcr by congruence.
  assert (nd_stopping (dm_node d) = ServerStopped \/ nd_stopping (dm_node d) <> ServerStopped)
    as [Hs|Hs] by (destruct (nd_stopping (dm_node d)); auto).
  - destruct (Hclose (dm_world d)) as [w' E].
    assert (forall d0, dm_conn d0 = dm_conn d -> dm_lnd d0 = dm_lnd d -> dm_node d0 = dm_node d ->
      dm_checked d0 = Some true ->
      exists d', daemon_own sends d0 d' /\ progress nodeKey sends (dm_node d) (dm_node d')) as Close.
    { intros d0 E1 E2 E3 E4.
      assert (progress nodeKey sends (dm_node d) (stop_returns (dm_node d) w')) as P.
      { exists Server. split; [done|]. by apply closes_step. }
      eexists. split; [split; [eapply (daemon_closes _ _ d0 lnd w'); try congruence|]|].
      - unfold dm_world in *. by rewrite E3.
      - right. cbn [dm_node]. by rewrite E3.
      - cbn [dm_node]. by rewrite E3. }
    destruct (dm_checked d) as [[|]|] eqn:Ek; [|done|].
    + destruct (Close d) as (d' & O & P); [done..|]. exists d'. split; [by apply rtc_once | done].
    + destruct (Close (check_lnd d)) as (d' & O & P); [done..| |].
      { cbn. by rewrite Hl. }
      exists d'. split; [|done]. eapply rtc_l; [|by apply rtc_once]. split; [|by left].
      by apply daemon_checks.
  - exists (set_node d n1). split; [|by exists l]. apply rtc_once. split; [|right; by exists l].
    eapply daemon_runs; [done| |exact S|by intros [? _]]. by intros ->.
Qed.

Lemma daemon_finishes sends lnd c w0 d : daemon_reachable nodeKey cfg c w0 d -> holds_lnd lnd d ->
  stop_called (dm_node d) -> c <> CallsStop ->
  (forall w, settles (SubscribeCustomMessages w : W * outcome unit).2) ->
  (forall w, exists w', LndServices_Close lnd w = (w', Ret tt)) ->
  exists d', rtc (daemon_own sends) d d' /\ finished sends (dm_node d').
Proof.
  intros I H Q Hcl Hsub Hclose. remember (measure (dm_node d)) as k eqn:Hk. revert d Hk I H Q.
  induction (lt_wf k) as [k _ IH]; intros d -> I H Q.
  pose proof (proj1 (connected_inv _ _ _ _ _ (proj1 H)) (daemon_reachable_inv _ _ _ _ _ I))
    as (w & _ & _ & _ & R).
  pose proof (node_reachable_ok _ _ _ _ R) as O. pose proof (closure_reachable _ _ _ _ R) as Ec.
  destruct (progress_or_finished nodeKey sends (dm_node d)) as [F|[n1 P]];
    [done|done|congruence|done|by exists d|].
  destruct (daemon_progress sends lnd d n1 H (daemon_reachable_check _ _ _ I) P Hclose)
    as (d1 & S & P1).
  destruct (progress_inv _ _ _ _ O Q P1) as (_ & Q1 & _).
  pose proof (daemon_own_steps _ _ _ S) as S'.
  destruct (IH _ (progress_decreases _ _ _ _ P1) d1) as (d' & R' & F); try done.
  - by eapply reachable_steps.
  - clear - H S'. induction S' as [|d1 d2 d3 S _ IH]; [done|]. by eapply IH, holds_lnd_step.
  - exists d'. split; [by etransitivity | done].
Qed.

(** C30: A Stop that has not yet looked whether there is a connection when Start
    has connected closes the connection: whatever happens, when Stop returns the
    connection was closed, and only once.  Called on a server that serves, such a
    Stop can always come to that by steps of the node's own goroutines, with the
    event loop ended and every call returned - but for the calls in a send, when
    the sends to clients do not return (sends = false) - if lnd's calls return
    and the shutdown closure does not itself call Stop.  A Stop that looked before
    Start connected never closes the connection, though it may return after:
    nor is the messenger's quit channel closed then. *)
Theorem daemon_stop_closes c w0 d : daemon_reachable nodeKey cfg c w0 d -> dm_conn d = Connected ->
  exists lnd, dm_lnd d = Some lnd
  /\ (dm_checked d <> Some false ->
      (forall d', daemon_steps d d' ->
       dm_closed d' = closed_by (nd_stopping (dm_node d')) lnd)
      /\ (stop_called (dm_node d) -> c <> CallsStop ->
         (forall w, settles (SubscribeCustomMessages w : W * outcome unit).2) ->
         (forall w, exists w', LndServices_Close lnd w = (w', Ret tt)) ->
         forall sends, exists d', rtc (daemon_own sends) d d' /\ finished sends (dm_node d')
           /\ dm_closed d' = [lnd]))
  /\ (dm_checked d = Some false -> forall d', daemon_steps d d' ->
      dm_closed d' = [] /\ nd_quit (dm_node d') = false).
Proof.
  intros R Hc. pose proof (daemon_reachable_inv _ _ _ _ _ R) as I.
  pose proof (proj1 (connected_inv _ _ _ _ _ Hc) I) as (w & lnd & _ & Hl & _).
  assert (forall d', daemon_steps d d' -> check_ok d') as K.
  { intros d' S. by eapply daemon_reachable_check, reachable_steps. }
  exists lnd. split; [done|]. split.
  - intros Hk. assert (holds_lnd lnd d) as H by by split.
    assert (forall d', daemon_steps d d' ->
      dm_closed d' = closed_by (nd_stopping (dm_node d')) lnd) as Hcl.
    { intros d' S. apply holds_lnd_closed; [|by apply K].
      clear - H S. induction S as [|d1 d2 d3 S _ IH]; [done|]. by eapply IH, holds_lnd_step. }
    split; [done|]. intros Q Hcs Hsub Hclose sends.
    destruct (daemon_finishes sends lnd c w0 d) as (d' & S & F); [done..|].
    exists d'. split; [done|]. split; [done|]. rewrite (Hcl d') by by eapply daemon_own_steps.
    by destruct F as [-> _].
  - intros Hk d' S. assert (dm_checked d' = Some false) as Hk'.
    { clear - Hk S. induction S as [|d1 d2 d3 S _ IH]; [done|]. by eapply IH, checked_step. }
    specialize (K d' S). unfold check_ok in K. rewrite Hk' in K. by destruct K as (_ & ? & ?).
Qed.

(** *** A Stop before the connection *)

(** Nobody will stop the node. *)
Definition orphaned (d : daemonState W) : Prop :=
  nd_stopping (dm_node d) = DaemonStopped /\ nd_quit (dm_node d) = false /\ dm_closed d = [].

Lemma orphaned_step d d' : orphaned d -> daemon_step nodeKey cfg d d' -> orphaned d'.
Proof.
  intros (Hs & Hq & Hc) S. destruct S as [d d' S|d n' _ S|d l n' _ _ S _|d _ H|d lnd w _ H|d _ H];
    try congruence.
  - destruct S; by repeat split.
  - destruct (orphan_step _ _ _ _ Hq Hs S). by repeat split.
  - destruct (orphan_step _ _ _ _ Hq Hs S). by repeat split.
Qed.

(** The loop of Start runs to its connection, whoever else is at rest. *)
Lemma connect_runs attempts : forall connErr d w lnd,
  dm_conn d = Trying attempts connErr ->
  connect cfg attempts None connErr (dm_world d) = (w, Ret (Some lnd, None)) ->
  daemon_steps d (set_conn d Connected (Some lnd) w).
Proof.
  induction attempts as [|attempts IH]; intros connErr d w lnd Hc H; [done|].
  cbn [connect] in H. unfold attempt in H.
  destruct (NewLndServices _ (dm_world d)) as [w1 [lnd'|err|s|]] eqn:E; try done.
  - injection H as <- <-. apply rtc_once, daemon_connects. by eapply conn_success.
  - apply io_bind_Ret_inv in H as (w2 & [] & Es & H).
    set (d1 := set_conn d (Sleeping attempts err) None w1).
    set (d2 := set_conn d1 (Trying attempts (Some err)) (dm_lnd d1) w2).
    eapply (rtc_l _ _ d1); [apply daemon_connects; by eapply conn_failure|].
    eapply (rtc_l _ _ d2); [apply daemon_connects; by eapply (conn_slept _ d1)|].
    by apply (IH (Some err) d2).
Qed.

Lemma remaining_runs d w lnd :
  (exists attempts connErr, dm_conn d = Trying attempts connErr)
    \/ (exists attempts connErr, dm_conn d = Sleeping attempts connErr) ->
  dm_lnd d = None -> remaining cfg (dm_conn d) (dm_world d) = (w, Ret (Some lnd, None)) ->
  daemon_steps d (set_conn d Connected (Some lnd) w).
Proof.
  intros [(attempts & connErr & Hc)|(attempts & connErr & Hc)] Hl H; rewrite Hc in H.
  - by eapply connect_runs.
  - cbn [remaining] in H. apply io_bind_Ret_inv in H as (w2 & [] & Es & H).
    set (d1 := set_conn d (Trying attempts (Some connErr)) (dm_lnd d) w2).
    eapply (rtc_l _ _ d1); [apply daemon_connects; by eapply conn_slept|].
    by apply (connect_runs attempts (Some connErr) d1).
Qed.

(** A step of Start in a node whose Stop has returned. *)
Lemma start_moves d l n' : dm_conn d = Connected -> nd_stopping (dm_node d) = DaemonStopped ->
  node_step nodeKey (dm_node d) l n' -> daemon_step nodeKey cfg d (set_node d n').
Proof.
  intros Hc Hs S. assert (l = Starts \/ l <> Starts) as [->|Hl] by (destruct l; auto).
  - by apply daemon_serves.
  - eapply daemon_runs; [congruence|done|done|]. intros [? _]. congruence.
Qed.

(** C31: A Stop that has returned while Start tries to connect to lnd does not stop
    Start: if one of the attempts that are left
    succeeds, Start goes on to connect, starts the server, and the event loop
    handles messages.  Whatever happens then, the messenger's quit channel is
    never closed, and the connection never is: Stop was called and cannot be
    called again. *)
Theorem stop_during_retries c w0 d : daemon_reachable nodeKey cfg c w0 d ->
  dm_conn d <> Connected -> nd_stopping (dm_node d) = DaemonStopped ->
  (forall d', daemon_steps d d' -> orphaned d')
  /\ (forall w1 w2 w3 lnd,
      (exists attempts connErr, dm_conn d = Trying attempts connErr)
        \/ (exists attempts connErr, dm_conn d = Sleeping attempts connErr) ->
      remaining cfg (dm_conn d) (dm_world d) = (w1, Ret (Some lnd, None)) ->
      NewNodeECDH w1 = (w2, Ret nodeKey) -> SubscribeCustomMessages w2 = (w3, Ret tt) ->
      exists d', daemon_steps d d' /\ dm_conn d' = Connected /\ dm_lnd d' = Some lnd
        /\ nd_starting (dm_node d') = Serving /\ nd_loop (dm_node d') = LSelect).
Proof.
  intros I%daemon_reachable_inv Hc Hs. apply connecting_inv in I; [|done].
  pose proof (connecting_ok _ _ _ _ _ I) as O. destruct I as [Cu _ [Cl Ccl] _]. split.
  - intros d' R. assert (orphaned d) as K.
    { split; [done|]. split; [|done]. destruct (nd_quit (dm_node d)) eqn:E; [|done].
      destruct (no_quit _ O E) as (_ & _ & K). by rewrite Cu in K. }
    clear - K R. induction R as [|d1 d2 d3 S R IH]; [done|]. by eapply IH, orphaned_step.
  - intros w1 w2 w3 lnd Ht Hr Hk Hsub.
    set (d1 := set_conn d Connected (Some lnd) w1).
    set (n2 := set_starting (dm_node d1) CreatingKey (nd_loop (dm_node d1)) w1).
    set (n3 := set_starting n2 MessengerMade (nd_loop n2) w2).
    set (n4 := set_starting n3 Serving LSubscribing w2).
    set (n5 := set_loop_at n4 LSelect w3).
    exists (set_node d1 n5). split; [|done].
    etransitivity; [by apply (remaining_runs d w1 lnd)|]. fold d1.
    apply (rtc_l _ _ (set_node d1 n2)).
    { apply (start_moves d1 Starts); [done|done|]. apply step_server. by apply (srv_start _ (dm_node d1)). }
    apply (rtc_l _ _ (set_node d1 n3)).
    { apply (start_moves (set_node d1 n2) Server); [done|done|]. apply step_server.
      by apply (srv_key _ n2). }
    apply (rtc_l _ _ (set_node d1 n4)).
    { apply (start_moves (set_node d1 n3) Server); [done|done|]. apply step_server.
      by apply (srv_serve _ n3). }
    apply rtc_once, (start_moves (set_node d1 n4) Loop); [done|done|]. apply step_loop.
    by apply (loop_subscribed _ n4).
Qed.
End Daemon.

(** ** Witnesses *)

(** lnd comes up after two waits, and there are two retries. *)
Definition w_down : ref_World := w_waits (Some (1%nat, w_peer)) [].
Definition w_up : ref_World := w_waits None [w_peer].

Definition w_idle : daemonState ref_World := new_daemon Signals w_down.
Definition w_trying : daemonState ref_World :=
  set_conn w_idle (Trying 3 None) None w_down.
Definition w_connected : daemonState ref_World := set_conn w_trying Connected (Some tt) w_up.

Lemma w_trying_reachable : daemon_reachable w_own_key (w_retries 2) Signals w_down w_trying.
Proof. eapply daemon_next; [apply daemon_init|]. apply daemon_connects. by apply (conn_begin (w_retries 2) w_idle). Qed.

Lemma w_connected_reachable : daemon_reachable w_own_key (w_retries 2) Signals w_down w_connected.
Proof.
  eapply reachable_steps; [apply w_trying_reachable|]. by apply (connect_runs w_own_key (w_retries 2) 3 None w_trying w_up tt).
Qed.

Lemma daemon_refinement_witness :
  exists w, node_reachable w_own_key Signals w (dm_node w_connected) /\ dm_lnd w_connected = Some tt.
Proof.
  destruct (daemon_refinement w_own_key (w_retries 2) Signals w_down w_connected w_connected_reachable)
    as (H & _). destruct (H eq_refl) as (w & lnd & _ & _ & R). exists w. by split.
Defined.

(** The server starts, and Stop is called. *)
Definition w_daemon_stopping : daemonState ref_World :=
  set_node w_connected (set_stopping (set_starting (set_starting (set_starting (dm_node w_connected)
    CreatingKey LNotStarted w_up) MessengerMade LNotStarted w_up) Serving LSubscribing w_up) Stopping false).

Lemma w_daemon_stopping_reachable :
  daemon_reachable w_own_key (w_retries 2) Signals w_down w_daemon_stopping.
Proof.
  set (n1 := set_starting (dm_node w_connected) CreatingKey LNotStarted w_up).
  set (n2 := set_starting n1 MessengerMade LNotStarted w_up).
  set (n3 := set_starting n2 Serving LSubscribing w_up).
  assert (forall n l n', daemon_reachable w_own_key (w_retries 2) Signals w_down (set_node w_connected n) ->
    server_step w_own_key n l n' -> l <> Starts -> nd_stopping n = NotStopping ->
    daemon_reachable w_own_key (w_retries 2) Signals w_down (set_node w_connected n')) as K.
  { intros n l n' R S Hl Hs. eapply daemon_next; [exact R|].
    apply (daemon_runs _ _ (set_node w_connected n) l n'); [done|done|by apply step_server|].
    intros [? _]. cbn in *. congruence. }
  eapply (K n3 Stops); [eapply (K n2 Server); [eapply (K n1 Server)|..]|..]; try done.
  - eapply daemon_next; [apply w_connected_reachable|]. apply daemon_serves; [done|].
    apply step_server. by apply (srv_start _ (dm_node w_connected)).
  - by apply (srv_key _ n1).
  - by apply (srv_serve _ n2).
  - by apply (srv_stop _ n3).
Qed.

(** Stop is called in the first sleep of Start, and looks for a connection; and
    either returns, or Start connects before it does. *)
Definition w_sleeping : daemonState ref_World :=
  set_conn w_trying (Sleeping 2 (EExt "connection refused")) None w_down.
Definition w_checked : daemonState ref_World :=
  check_lnd (set_node w_sleeping
    (set_stopping (set_stopping (dm_node w_sleeping) Stopping false) ServerStopped false)).
Definition w_stopped_early : daemonState ref_World :=
  set_node w_checked (stop_returns (dm_node w_checked) w_down).
Definition w_overtaken : daemonState ref_World := set_conn w_checked Connected (Some tt) w_up.

Lemma w_checked_reachable : daemon_reachable w_own_key (w_retries 2) Signals w_down w_checked.
Proof.
  set (n1 := set_stopping (dm_node w_sleeping) Stopping false).
  set (n2 := set_stopping n1 ServerStopped false).
  eapply daemon_next; [eapply daemon_next; [eapply daemon_next; [eapply daemon_next|]|]|].
  - apply w_trying_reachable.
  - apply daemon_connects. by apply (conn_failure (w_retries 2) w_trying 2 None).
  - apply (daemon_runs _ _ w_sleeping Stops n1); [done|done| |by intros [? _]].
    apply step_server. by apply (srv_stop _ (dm_node w_sleeping)).
  - apply (daemon_runs _ _ (set_node w_sleeping n1) Server n2); [done|done| |by intros [? _]].
    apply step_server. by apply (srv_no_messenger _ n1).
  - by apply (daemon_checks _ _ (set_node w_sleeping n2)).
Qed.

Lemma w_stopped_early_reachable :
  daemon_reachable w_own_key (w_retries 2) Signals w_down w_stopped_early.
Proof. eapply daemon_next; [apply w_checked_reachable|]. by apply daemon_no_lnd. Qed.

Lemma w_overtaken_reachable : daemon_reachable w_own_key (w_retries 2) Signals w_down w_overtaken.
Proof.
  eapply reachable_steps; [apply w_checked_reachable|].
  by apply (remaining_runs w_own_key (w_retries 2) w_checked w_up tt);
    [right; by exists 2%nat, (EExt "connection refused") | ..].
Qed.

(** The Stop of [w_daemon_stopping] closes the connection, whether clients read
    or not; that of [w_overtaken] returns without. *)
Lemma daemon_stop_closes_witness :
  (exists d', daemon_steps w_own_key (w_retries 2) w_daemon_stopping d' /\ finished false (dm_node d')
     /\ dm_closed d' = [tt])
  /\ nd_stopping (dm_node w_overtaken) = ServerStopped
  /\ forall d', daemon_steps w_own_key (w_retries 2) w_overtaken d' -> dm_closed d' = [].
Proof.
  split; [|split; [reflexivity|]].
  - destruct (daemon_stop_closes w_own_key (w_retries 2) Signals w_down w_daemon_stopping
                w_daemon_stopping_reachable eq_refl) as ([] & _ & H & _).
    destruct H as [_ H]; [discriminate|].
    destruct (H (conj eq_refl (or_introl eq_refl)) ltac:(discriminate) (fun w => settles_Ret tt)
                (fun w => ex_intro _ w eq_refl) false) as (d' & S & F & E).
    exists d'. split; [by eapply daemon_own_steps | split; [exact F | exact E]].
  - destruct (daemon_stop_closes w_own_key (w_retries 2) Signals w_down w_overtaken
                w_overtaken_reachable eq_refl) as (lnd & _ & _ & H).
    intros d' S. by apply (H eq_refl d' S).
Defined.

Lemma stop_during_retries_witness :
  exists d', daemon_steps w_own_key (w_retries 2) w_stopped_early d' /\ orphaned d'
    /\ nd_starting (dm_node d') = Serving.
Proof.
  destruct (stop_during_retries w_own_key (w_retries 2) Signals w_down w_stopped_early
              w_stopped_early_reachable) as [H1 H2]; [discriminate | reflexivity|].
  destruct (H2 w_up w_up w_up tt) as (d' & R & _ & _ & E & _);
    [right; by exists 2%nat, (EExt "connection refused") | reflexivity..|].
  exists d'. split; [exact R|]. split; [exact (H1 d' R) | exact E].
Defined.
